(** * ESPHome native API client: frame codec, connection and client facade

    A shallow embedding of [src/utils/protocol.ts], [src/connection/connection.ts],
    [src/client/client.ts] and the connection class of
    [src/connection/encrypted-connection.ts], the properties of the
    specification proved (or refuted) on it, and further properties of the
    code.

    JavaScript numbers are modelled by [Z] (every number the modelled code
    handles is an integer), with the 32-bit conversions of the bitwise
    operators and the 53-bit rounding of [+] written out.  A [Buffer] is a
    list of bytes.  A call that may throw returns a [completion]. *)

From Stdlib Require Import String Ascii DecimalString DecimalPos DecimalZ.
From Stdlib.Strings Require Import Byte.
From Stdlib Require Import ZArith List Lia Bool.
Import ListNotations.
Local Open Scope string_scope.
Local Open Scope list_scope.
Local Open Scope Z_scope.

(** ** JavaScript values *)

Module JS.

(** The error classes of [src/types/index.ts] (all subclasses of [Error]),
    and the built-in ones the modelled code meets. *)
Inductive Error : Type :=
| RangeError (message : string)
| TypeError (message : string)
| PlainError (message : string)
| ESPHomeError (message : string)
| ConnectionError (message : string)
| AuthenticationError (message : string)
| ProtocolError (message : string).

Definition message (e : Error) : string :=
  match e with
  | RangeError m | TypeError m | PlainError m | ESPHomeError m
  | ConnectionError m | AuthenticationError m | ProtocolError m => m
  end.

(** Normal or abrupt completion of a call. *)
Inductive completion (A : Type) : Type :=
| Return (a : A)
| Throw (e : Error).
Arguments Return {A} a.
Arguments Throw {A} e.

Definition andThen {A B} (c : completion A) (k : A -> completion B)
  : completion B :=
  match c with
  | Return a => k a
  | Throw e => Throw e
  end.

(** [try { c } catch (error) { handler error }] *)
Definition tryCatch {A} (c : completion A) (handler : Error -> completion A)
  : completion A :=
  match c with
  | Return a => Return a
  | Throw e => handler e
  end.

Definition ToInt32 (x : Z) : Z := (x + 2 ^ 31) mod 2 ^ 32 - 2 ^ 31.
Definition ToUint32 (x : Z) : Z := x mod 2 ^ 32.

(** [a & b], [a | b], [a << s], [a >>> s] *)
Definition band (a b : Z) : Z := Z.land (ToInt32 a) (ToInt32 b).
Definition bor (a b : Z) : Z := Z.lor (ToInt32 a) (ToInt32 b).
Definition shl (a s : Z) : Z := ToInt32 (Z.shiftl (ToInt32 a) (ToUint32 s mod 32)).
Definition ushr (a s : Z) : Z := Z.shiftr (ToUint32 a) (ToUint32 s mod 32).

Definition MAX_SAFE_INTEGER : Z := 2 ^ 53 - 1.

(** Rounding of a non-negative integer to the nearest double, ties to
    even: integers below 2^53 are exact. *)
Definition roundDouble (x : Z) : Z :=
  if x <? 2 ^ 53 then x
  else
    let e := Z.log2 x - 52 in
    let q := x / 2 ^ e in
    let r := x mod 2 ^ e in
    let half := 2 ^ (e - 1) in
    if r <? half then q * 2 ^ e
    else if half <? r then (q + 1) * 2 ^ e
    else if Z.even q then q * 2 ^ e else (q + 1) * 2 ^ e.

(** [x + y] on non-negative integer-valued doubles *)
Definition add (x y : Z) : Z := roundDouble (x + y).

(** The decimal digits of an integer *)
Definition decimal (x : Z) : string := NilZero.string_of_int (Z.to_int x).

(** *** [String(x)] for an integer-valued number

    A safe integer is written with all its digits.  A larger number is a
    double that stands for many integers: [Number::toString] writes the
    decimal with the fewest significant digits that is read back as the
    same double, the nearest to it if there are several, and pads it with
    zeros; from 1e21 on it writes the digits with an exponent. *)

(** The number of digits of a non-negative integer *)
Definition digits (x : Z) : nat := String.length (decimal x).

(** Of the two multiples of [unit] around [x], one that is read back as
    [x]: the nearer, and of two as near the one that ends in an even
    digit. *)
Definition readsBack (x unit : Z) : option Z :=
  let lo := x / unit * unit in
  let hi := lo + unit in
  match roundDouble lo =? x, roundDouble hi =? x with
  | true, true =>
      if x - lo <? hi - x then Some lo
      else if hi - x <? x - lo then Some hi
      else if Z.even (lo / unit) then Some lo else Some hi
  | true, false => Some lo
  | false, true => Some hi
  | false, false => None
  end.

(** The decimal with the fewest significant digits that is read back as
    [x], trying the units [10^k], [10^(k-1)], ..., [1]. *)
Fixpoint shortest (k : nat) (x : Z) : Z :=
  match readsBack x (10 ^ Z.of_nat k) with
  | Some c => c
  | None =>
      match k with
      | O => x
      | S k' => shortest k' x
      end
  end.

(** [c] without its zeros at the end *)
Fixpoint significand (fuel : nat) (c : Z) : Z :=
  match fuel with
  | O => c
  | S fuel' =>
      if (c mod 10 =? 0) && negb (c =? 0) then significand fuel' (c / 10)
      else c
  end.

Definition numberToString (x : Z) : string :=
  if Z.abs x <=? MAX_SAFE_INTEGER then decimal x
  else
    let c := shortest (digits (Z.abs x) - 1) (Z.abs x) in
    let n := digits c in
    let text :=
      if (n <=? 21)%nat then decimal c
      else
        match decimal (significand n c) with
        | EmptyString => EmptyString
        | String d EmptyString =>
            (String d "e+" ++ decimal (Z.of_nat (n - 1)))%string
        | String d more =>
            (String d ("." ++ more) ++ "e+" ++ decimal (Z.of_nat (n - 1)))%string
        end in
    if x <? 0 then ("-" ++ text)%string else text.

(** A number that the caller of a public method passes, where the code
    does not make it an integer: [NaN], the infinities and [-0] beside the
    integers.  Numbers with a fraction are left out: what is proved of
    the numbers in the state is proved of safe integers. *)
Inductive Number : Type :=
| NaN
| Infinity
| NegInfinity
| NegZero
| Int (value : Z).

End JS.

Import JS.

(** ** Buffers *)

Definition Buffer : Type := list byte.

Definition byte_to_Z (b : byte) : Z := Z.of_N (Byte.to_N b).

(** [Buffer.from(array)] stores each number modulo 256. *)
Definition byte_of_Z (z : Z) : byte :=
  match Byte.of_N (Z.to_N (z mod 256)) with
  | Some b => b
  | None => x00
  end.

Definition Buffer_from (a : list Z) : Buffer := map byte_of_Z a.

(** [buf.indexOf(value)]: [None] stands for -1. *)
Fixpoint indexOf (buf : Buffer) (value : byte) : option nat :=
  match buf with
  | [] => None
  | b :: rest =>
      if Byte.eqb b value then Some O
      else option_map S (indexOf rest value)
  end.

(** [buf.slice(start, end)] and [buf.slice(start)] for indices that are not
    negative. *)
Definition slice (buf : Buffer) (start stop : nat) : Buffer :=
  firstn (stop - start) (skipn start buf).
Definition slice_from (buf : Buffer) (start : nat) : Buffer := skipn start buf.

(** ** The [varint] package

    [protocol.ts] imports [varint] (an npm dependency, not part of the
    repository).  This is a transcription of its [encode.js] and [decode.js]
    (version 6). *)

Module Varint.

Definition MSB : Z := 0x80.
Definition REST : Z := 0x7F.
Definition MSBALL : Z := Z.lnot REST.
Definition INT : Z := 2 ^ 31.

(** [while(num >= INT) { out[offset++] = (num & 0xFF) | MSB; num /= 128 }].
    [num /= 128] is exact on doubles; every later use of [num] truncates
    it or compares it with an integer, so the integer quotient is kept. *)
Fixpoint encode_high (fuel : nat) (num : Z) (out : list Z) : Z * list Z :=
  match fuel with
  | O => (num, out)
  | S fuel' =>
      if INT <=? num
      then encode_high fuel' (num / 128) (out ++ [bor (band num 0xFF) MSB])
      else (num, out)
  end.

(** [while(num & MSBALL) { out[offset++] = (num & 0xFF) | MSB; num >>>= 7 }] *)
Fixpoint encode_low (fuel : nat) (num : Z) (out : list Z) : Z * list Z :=
  match fuel with
  | O => (num, out)
  | S fuel' =>
      if band num MSBALL =? 0
      then (num, out)
      else encode_low fuel' (ushr num 7) (out ++ [bor (band num 0xFF) MSB])
  end.

(** A safe integer has at most 53 bits, and a negative number becomes an
    unsigned 32-bit one after one round of the second loop: neither loop
    runs more than eight times. *)
Definition loop_bound : nat := 8.

Definition encode (num : Z) : completion (list Z) :=
  if MAX_SAFE_INTEGER <? num then Throw (RangeError "Could not encode varint")
  else
    let '(num, out) := encode_high loop_bound num [] in
    let '(num, out) := encode_low loop_bound num out in
    Return (out ++ [bor num 0]).

(** The body of [read]'s [do ... while (b >= MSB)] loop; [rest] is the
    buffer from [counter] on and [bytes] is [counter - offset]. *)
Fixpoint read (rest : Buffer) (res shift : Z) (bytes : nat)
  : completion (Z * nat) :=
  match rest with
  | [] => Throw (RangeError "Could not decode varint")
  | byte :: rest' =>
      if 49 <? shift then Throw (RangeError "Could not decode varint")
      else
        let b := byte_to_Z byte in
        let res := JS.add res (if shift <? 28
                               then shl (band b REST) shift
                               else band b REST * 2 ^ shift) in
        if MSB <=? b
        then read rest' res (shift + 7) (S bytes)
        else Return (res, S bytes)
  end.

(** [varint.decode(buf, offset)] with [varint.decode.bytes] *)
Definition decode (buf : Buffer) (offset : nat) : completion (Z * nat) :=
  read (skipn offset buf) 0 0 O.

End Varint.

(** ** [src/utils/protocol.ts] *)

Module Protocol.

Definition MessageType : Type := Z.

Record DecodedMessage : Type := {
  type : MessageType;
  data : Buffer
}.

Record ProtocolHandler : Type := {
  buffer : Buffer
}.

Definition new_ProtocolHandler : ProtocolHandler := {| buffer := [] |}.

Definition MAX_MESSAGE_SIZE : Z := 1024 * 1024.

Definition encodeMessage (type : MessageType) (data : Buffer)
  : completion Buffer :=
  match Varint.encode type with
  | Throw e => Throw e
  | Return typeBytes =>
      match Varint.encode (Z.of_nat (length data)) with
      | Throw e => Throw e
      | Return lengthBytes =>
          Return ([x00] ++ Buffer_from lengthBytes
                        ++ Buffer_from typeBytes ++ data)
      end
  end.

(** [tryDecodeMessage] on [this.buffer]: the completion ([None] for
    [null]) and the buffer it leaves. *)
Definition tryDecodeMessage (buffer : Buffer)
  : completion (option DecodedMessage) * Buffer :=
  if (length buffer <? 2)%nat then (Return None, buffer)
  else
    let preamble :=
      match buffer with
      | b0 :: _ =>
          if negb (Byte.eqb b0 x00)
          then option_map (slice_from buffer) (indexOf buffer x00)
          else Some buffer
      | [] => Some buffer
      end in
    match preamble with
    | None => (Return None, [])
    | Some buffer =>
        match Varint.decode buffer 1 with
        | Throw _ => (Return None, buffer)
        | Return (lengthValue, lengthBytes) =>
            if MAX_MESSAGE_SIZE <? lengthValue
            then (Throw (ProtocolError
                           ("Message too large: "
                              ++ numberToString lengthValue ++ " bytes")%string),
                  buffer)
            else
              let typeOffset := (1 + lengthBytes)%nat in
              if (length buffer <=? typeOffset)%nat then (Return None, buffer)
              else
                match Varint.decode buffer typeOffset with
                | Throw _ => (Return None, buffer)
                | Return (typeValue, typeBytes) =>
                    let dataOffset := (typeOffset + typeBytes)%nat in
                    let totalSize := Z.of_nat dataOffset + lengthValue in
                    if Z.of_nat (length buffer) <? totalSize
                    then (Return None, buffer)
                    else
                      let messageData :=
                        slice buffer dataOffset (Z.to_nat totalSize) in
                      (Return (Some {| type := typeValue;
                                       data := messageData |}),
                       slice_from buffer (Z.to_nat totalSize))
                end
        end
    end.

(** The [while (this.buffer.length > 0)] loop of [addData].  Every frame
    taken shortens the buffer, so [length buffer] rounds are enough (see
    [addData_loop_fuel]). *)
Fixpoint addData_loop (fuel : nat) (buffer : Buffer)
         (messages : list DecodedMessage)
  : completion (list DecodedMessage) * Buffer :=
  match fuel with
  | O => (Return messages, buffer)
  | S fuel' =>
      if (0 <? length buffer)%nat then
        match tryDecodeMessage buffer with
        | (Return None, buffer') => (Return messages, buffer')
        | (Return (Some message), buffer') =>
            addData_loop fuel' buffer' (messages ++ [message])
        | (Throw e, buffer') => (Throw e, buffer')
        end
      else (Return messages, buffer)
  end.

Definition addData (this : ProtocolHandler) (data : Buffer)
  : completion (list DecodedMessage) * ProtocolHandler :=
  let buffer := this.(buffer) ++ data in
  let '(r, buffer) := addData_loop (length buffer) buffer [] in
  (r, {| buffer := buffer |}).

(** Successive calls of [addData], one for each chunk the socket
    delivers; the result lists what each call returned. *)
Fixpoint feed (this : ProtocolHandler) (chunks : list Buffer)
  : completion (list (list DecodedMessage)) * ProtocolHandler :=
  match chunks with
  | [] => (Return [], this)
  | chunk :: chunks' =>
      match addData this chunk with
      | (Throw e, this') => (Throw e, this')
      | (Return messages, this') =>
          match feed this' chunks' with
          | (Throw e, this'') => (Throw e, this'')
          | (Return more, this'') => (Return (messages :: more), this'')
          end
      end
  end.

Definition clearBuffer (this : ProtocolHandler) : ProtocolHandler :=
  {| buffer := [] |}.

Definition getBufferSize (this : ProtocolHandler) : nat :=
  length this.(buffer).

End Protocol.

(** ** [ConnectionState] objects and [JSON.stringify]

    [updateState] compares two [ConnectionState] objects through
    [JSON.stringify], which writes the own properties of an object in
    insertion order.  An object is therefore the list of its properties in
    that order; the property types are those of [ConnectionState] in
    [src/types/index.ts]. *)

Module JSON.

Definition dquote : ascii := "034"%char.
Definition backslash : ascii := "092"%char.

Definition hexDigit (n : nat) : ascii :=
  nth n (list_ascii_of_string "0123456789abcdef") "0"%char.

(** [QuoteJSONString] on one code unit *)
Definition escapeChar (c : ascii) : string :=
  let n := nat_of_ascii c in
  if (n =? 8)%nat then String backslash "b"
  else if (n =? 9)%nat then String backslash "t"
  else if (n =? 10)%nat then String backslash "n"
  else if (n =? 12)%nat then String backslash "f"
  else if (n =? 13)%nat then String backslash "r"
  else if (n =? 34)%nat then String backslash (String dquote "")
  else if (n =? 92)%nat then String backslash (String backslash "")
  else if (n <? 32)%nat
       then String backslash
              ("u00" ++ String (hexDigit (n / 16))
                               (String (hexDigit (n mod 16)) ""))
  else String c "".

Fixpoint escape (s : string) : string :=
  match s with
  | EmptyString => ""
  | String c s' => escapeChar c ++ escape s'
  end.

Definition quote (s : string) : string :=
  String dquote (escape s ++ String dquote "").

Definition stringifyBool (b : bool) : string :=
  if b then "true" else "false".

(** [JSON.stringify] of a number: what is not finite is written [null],
    and [-0] is written [0]. *)
Definition stringifyNumber (n : Number) : string :=
  match n with
  | NaN | Infinity | NegInfinity => "null"
  | NegZero => "0"
  | Int x => numberToString x
  end.

End JSON.

Module State.

Inductive Key : Type := Kconnected | Kauthenticated | KapiVersion | KserverInfo.

Inductive Property : Type :=
| connected (value : bool)
| authenticated (value : bool)
| apiVersion (major minor : Number)
| serverInfo (value : string).

Definition key (p : Property) : Key :=
  match p with
  | connected _ => Kconnected
  | authenticated _ => Kauthenticated
  | apiVersion _ _ => KapiVersion
  | serverInfo _ => KserverInfo
  end.

Definition Key_eqb (a b : Key) : bool :=
  match a, b with
  | Kconnected, Kconnected | Kauthenticated, Kauthenticated
  | KapiVersion, KapiVersion | KserverInfo, KserverInfo => true
  | _, _ => false
  end.

(** A [ConnectionState] or [Partial<ConnectionState>] object. *)
Definition ConnectionState : Type := list Property.

(** [o[k]]; [None] is [undefined]. *)
Fixpoint get (k : Key) (o : ConnectionState) : option Property :=
  match o with
  | [] => None
  | p :: o' => if Key_eqb (key p) k then Some p else get k o'
  end.

(** [o[key p] = value p]: an existing property keeps its place, a new one
    goes last. *)
Fixpoint set (p : Property) (o : ConnectionState) : ConnectionState :=
  match o with
  | [] => [p]
  | q :: o' => if Key_eqb (key q) (key p) then p :: o' else q :: set p o'
  end.

(** [{ ...a, ...b }] *)
Definition spread (a b : ConnectionState) : ConnectionState :=
  fold_left (fun o p => set p o) b a.

(** [state.connected] and [state.authenticated] as conditions *)
Definition is_connected (o : ConnectionState) : bool :=
  match get Kconnected o with Some (connected v) => v | _ => false end.
Definition is_authenticated (o : ConnectionState) : bool :=
  match get Kauthenticated o with Some (authenticated v) => v | _ => false end.

Definition stringifyProperty (p : Property) : string :=
  match p with
  | connected v => JSON.quote "connected" ++ ":" ++ JSON.stringifyBool v
  | authenticated v => JSON.quote "authenticated" ++ ":" ++ JSON.stringifyBool v
  | apiVersion major minor =>
      JSON.quote "apiVersion" ++ ":{"
        ++ JSON.quote "major" ++ ":" ++ JSON.stringifyNumber major ++ ","
        ++ JSON.quote "minor" ++ ":" ++ JSON.stringifyNumber minor ++ "}"
  | serverInfo v => JSON.quote "serverInfo" ++ ":" ++ JSON.quote v
  end%string.

Fixpoint stringifyMore (o : ConnectionState) : string :=
  match o with
  | [] => "}"
  | p :: o' => ("," ++ stringifyProperty p ++ stringifyMore o')%string
  end.

(** [JSON.stringify(o)] *)
Definition stringify (o : ConnectionState) : string :=
  match o with
  | [] => "{}"
  | p :: o' => ("{" ++ stringifyProperty p ++ stringifyMore o')%string
  end.

End State.

(** ** [src/connection/connection.ts] *)

Module Conn.

Import Protocol.

(** Message types of [src/types/index.ts] that the connection names. *)
Definition HelloRequest : MessageType := 1.
Definition HelloResponse : MessageType := 2.
Definition ConnectRequest : MessageType := 3.
Definition ConnectResponse : MessageType := 4.
Definition DisconnectRequest : MessageType := 5.
Definition DisconnectResponse : MessageType := 6.
Definition PingRequest : MessageType := 7.
Definition PingResponse : MessageType := 8.
Definition FanCommandRequest : MessageType := 31.
Definition LightCommandRequest : MessageType := 32.
Definition SwitchCommandRequest : MessageType := 33.

(** [ConnectionOptions]: an absent optional field is [None]. *)
Record ConnectionOptions : Type := {
  opt_host : string;
  opt_port : option Z;
  opt_password : option string;
  opt_clientInfo : option string;
  opt_reconnect : option bool;
  opt_reconnectInterval : option Z;
  opt_pingInterval : option Z;
  opt_pingTimeout : option Z;
  opt_connectTimeout : option Z;
  opt_encryptionKey : option string;
  opt_expectedServerName : option string
}.

(** [this.options] *)
Record Options : Type := {
  host : string;
  port : Z;
  password : string;
  clientInfo : string;
  reconnect : bool;
  reconnectInterval : Z;
  pingInterval : Z;
  pingTimeout : Z;
  connectTimeout : Z;
  encryptionKey : string;
  expectedServerName : string
}.

(** [x || d] on an optional number and on an optional string *)
Definition orNumber (x : option Z) (d : Z) : Z :=
  match x with
  | Some v => if v =? 0 then d else v
  | None => d
  end.
Definition orString (x : option string) (d : string) : string :=
  match x with
  | Some EmptyString | None => d
  | Some v => v
  end.

Record Socket : Type := {
  remotePort : Z;
  remoteHost : string
}.

Inductive Timer : Type :=
| connectTimeoutTimer | reconnectTimer_ | pingTimer_ | pingTimeoutTimer_.

Inductive Event : Type :=
| connect_event
| disconnect_event
| message_event (message : DecodedMessage)
| error_event (error : Error)
| stateChange_event (state : State.ConnectionState).

(** What the connection does to the outside, in program order: events it
    emits, calls on the socket, calls on the timer factory, and the
    waiting of [p-retry] between attempts. *)
Inductive Effect : Type :=
| Emit (e : Event)
| SocketConnect (port : Z) (host : string)
| SocketWrite (frame : Buffer)
| SocketDestroy
| SetTimeout (t : Timer) (ms : Z)
| SetInterval (t : Timer) (ms : Z)
| ClearTimeout (t : Timer)
| ClearInterval (t : Timer)
| RetryDelay (ms : Z).

Record Connection : Type := {
  socket : option Socket;
  protocol : ProtocolHandler;
  state : State.ConnectionState;
  options : Options;
  reconnectTimer : option Timer;
  pingTimer : option Timer;
  pingTimeoutTimer : option Timer;
  isReconnecting : bool;
  isDestroyed : bool;
  expectedDisconnect : bool;
  hasDeepSleep : bool;
  trace : list Effect
}.

Definition new_Connection (o : ConnectionOptions) : Connection := {|
  socket := None;
  protocol := new_ProtocolHandler;
  state := [State.connected false; State.authenticated false];
  options := {|
    host := opt_host o;
    port := orNumber (opt_port o) 6053;
    password := orString (opt_password o) "";
    clientInfo := orString (opt_clientInfo o) "ESPHome TypeScript Client";
    reconnect := match opt_reconnect o with Some false => false | _ => true end;
    reconnectInterval := orNumber (opt_reconnectInterval o) 5000;
    pingInterval := orNumber (opt_pingInterval o) 20000;
    pingTimeout := orNumber (opt_pingTimeout o) 5000;
    connectTimeout := orNumber (opt_connectTimeout o) 10000;
    encryptionKey := orString (opt_encryptionKey o) "";
    expectedServerName := orString (opt_expectedServerName o) ""
  |};
  reconnectTimer := None;
  pingTimer := None;
  pingTimeoutTimer := None;
  isReconnecting := false;
  isDestroyed := false;
  expectedDisconnect := false;
  hasDeepSleep := false;
  trace := []
|}.

(** *** Assignments to the fields of [this] *)

Definition set_socket (v : option Socket) (c : Connection) : Connection :=
  {| socket := v; protocol := protocol c; state := state c;
     options := options c; reconnectTimer := reconnectTimer c;
     pingTimer := pingTimer c; pingTimeoutTimer := pingTimeoutTimer c;
     isReconnecting := isReconnecting c; isDestroyed := isDestroyed c;
     expectedDisconnect := expectedDisconnect c;
     hasDeepSleep := hasDeepSleep c; trace := trace c |}.
Definition set_protocol (v : ProtocolHandler) (c : Connection) : Connection :=
  {| socket := socket c; protocol := v; state := state c;
     options := options c; reconnectTimer := reconnectTimer c;
     pingTimer := pingTimer c; pingTimeoutTimer := pingTimeoutTimer c;
     isReconnecting := isReconnecting c; isDestroyed := isDestroyed c;
     expectedDisconnect := expectedDisconnect c;
     hasDeepSleep := hasDeepSleep c; trace := trace c |}.
Definition set_state (v : State.ConnectionState) (c : Connection) : Connection :=
  {| socket := socket c; protocol := protocol c; state := v;
     options := options c; reconnectTimer := reconnectTimer c;
     pingTimer := pingTimer c; pingTimeoutTimer := pingTimeoutTimer c;
     isReconnecting := isReconnecting c; isDestroyed := isDestroyed c;
     expectedDisconnect := expectedDisconnect c;
     hasDeepSleep := hasDeepSleep c; trace := trace c |}.
Definition set_reconnect (v : bool) (c : Connection) : Connection :=
  let o := options c in
  {| socket := socket c; protocol := protocol c; state := state c;
     options := {| host := host o; port := port o; password := password o;
                   clientInfo := clientInfo o; reconnect := v;
                   reconnectInterval := reconnectInterval o;
                   pingInterval := pingInterval o;
                   pingTimeout := pingTimeout o;
                   connectTimeout := connectTimeout o;
                   encryptionKey := encryptionKey o;
                   expectedServerName := expectedServerName o |};
     reconnectTimer := reconnectTimer c;
     pingTimer := pingTimer c; pingTimeoutTimer := pingTimeoutTimer c;
     isReconnecting := isReconnecting c; isDestroyed := isDestroyed c;
     expectedDisconnect := expectedDisconnect c;
     hasDeepSleep := hasDeepSleep c; trace := trace c |}.
Definition set_reconnectTimer (v : option Timer) (c : Connection) : Connection :=
  {| socket := socket c; protocol := protocol c; state := state c;
     options := options c; reconnectTimer := v;
     pingTimer := pingTimer c; pingTimeoutTimer := pingTimeoutTimer c;
     isReconnecting := isReconnecting c; isDestroyed := isDestroyed c;
     expectedDisconnect := expectedDisconnect c;
     hasDeepSleep := hasDeepSleep c; trace := trace c |}.
Definition set_pingTimer (v : option Timer) (c : Connection) : Connection :=
  {| socket := socket c; protocol := protocol c; state := state c;
     options := options c; reconnectTimer := reconnectTimer c;
     pingTimer := v; pingTimeoutTimer := pingTimeoutTimer c;
     isReconnecting := isReconnecting c; isDestroyed := isDestroyed c;
     expectedDisconnect := expectedDisconnect c;
     hasDeepSleep := hasDeepSleep c; trace := trace c |}.
Definition set_pingTimeoutTimer (v : option Timer) (c : Connection) : Connection :=
  {| socket := socket c; protocol := protocol c; state := state c;
     options := options c; reconnectTimer := reconnectTimer c;
     pingTimer := pingTimer c; pingTimeoutTimer := v;
     isReconnecting := isReconnecting c; isDestroyed := isDestroyed c;
     expectedDisconnect := expectedDisconnect c;
     hasDeepSleep := hasDeepSleep c; trace := trace c |}.
Definition set_isReconnecting (v : bool) (c : Connection) : Connection :=
  {| socket := socket c; protocol := protocol c; state := state c;
     options := options c; reconnectTimer := reconnectTimer c;
     pingTimer := pingTimer c; pingTimeoutTimer := pingTimeoutTimer c;
     isReconnecting := v; isDestroyed := isDestroyed c;
     expectedDisconnect := expectedDisconnect c;
     hasDeepSleep := hasDeepSleep c; trace := trace c |}.
Definition set_isDestroyed (v : bool) (c : Connection) : Connection :=
  {| socket := socket c; protocol := protocol c; state := state c;
     options := options c; reconnectTimer := reconnectTimer c;
     pingTimer := pingTimer c; pingTimeoutTimer := pingTimeoutTimer c;
     isReconnecting := isReconnecting c; isDestroyed := v;
     expectedDisconnect := expectedDisconnect c;
     hasDeepSleep := hasDeepSleep c; trace := trace c |}.
Definition set_expectedDisconnect (v : bool) (c : Connection) : Connection :=
  {| socket := socket c; protocol := protocol c; state := state c;
     options := options c; reconnectTimer := reconnectTimer c;
     pingTimer := pingTimer c; pingTimeoutTimer := pingTimeoutTimer c;
     isReconnecting := isReconnecting c; isDestroyed := isDestroyed c;
     expectedDisconnect := v;
     hasDeepSleep := hasDeepSleep c; trace := trace c |}.
Definition set_hasDeepSleep (v : bool) (c : Connection) : Connection :=
  {| socket := socket c; protocol := protocol c; state := state c;
     options := options c; reconnectTimer := reconnectTimer c;
     pingTimer := pingTimer c; pingTimeoutTimer := pingTimeoutTimer c;
     isReconnecting := isReconnecting c; isDestroyed := isDestroyed c;
     expectedDisconnect := expectedDisconnect c;
     hasDeepSleep := v; trace := trace c |}.
Definition set_trace (v : list Effect) (c : Connection) : Connection :=
  {| socket := socket c; protocol := protocol c; state := state c;
     options := options c; reconnectTimer := reconnectTimer c;
     pingTimer := pingTimer c; pingTimeoutTimer := pingTimeoutTimer c;
     isReconnecting := isReconnecting c; isDestroyed := isDestroyed c;
     expectedDisconnect := expectedDisconnect c;
     hasDeepSleep := hasDeepSleep c; trace := v |}.

(** *** Methods: a state and exception monad over [this] *)

Definition M (A : Type) : Type := Connection -> completion A * Connection.

Definition ret {A} (a : A) : M A := fun this => (Return a, this).
Definition bind {A B} (m : M A) (k : A -> M B) : M B :=
  fun this =>
    match m this with
    | (Return a, this') => k a this'
    | (Throw e, this') => (Throw e, this')
    end.
Definition throw {A} (e : Error) : M A := fun this => (Throw e, this).
Definition try_catch {A} (m : M A) (handler : Error -> M A) : M A :=
  fun this =>
    match m this with
    | (Return a, this') => (Return a, this')
    | (Throw e, this') => handler e this'
    end.
Definition read {A} (f : Connection -> A) : M A :=
  fun this => (Return (f this), this).
Definition assign (f : Connection -> Connection) : M unit :=
  fun this => (Return tt, f this).
Definition when (b : bool) (m : M unit) : M unit :=
  if b then m else ret tt.

Notation "x <- m ;; k" := (bind m (fun x => k))
  (at level 61, m at next level, right associativity).
Notation "m ;; k" := (bind m (fun _ => k))
  (at level 61, right associativity).

Definition effect (e : Effect) : M unit :=
  assign (fun c => set_trace (trace c ++ [e]) c).

(** [this.emit(...)] *)
Definition emit (e : Event) : M unit := effect (Emit e).

Definition isSome {A} (o : option A) : bool :=
  match o with Some _ => true | None => false end.

Definition stopPingTimeoutTimer : M unit :=
  t <- read pingTimeoutTimer ;;
  when (isSome t)
    (effect (ClearTimeout pingTimeoutTimer_) ;;
     assign (set_pingTimeoutTimer None)).

Definition stopPingTimer : M unit :=
  t <- read pingTimer ;;
  when (isSome t)
    (effect (ClearInterval pingTimer_) ;;
     assign (set_pingTimer None)) ;;
  stopPingTimeoutTimer.

Definition cleanup : M unit :=
  stopPingTimer ;;
  t <- read reconnectTimer ;;
  when (isSome t)
    (effect (ClearTimeout reconnectTimer_) ;;
     assign (set_reconnectTimer None)) ;;
  s <- read socket ;;
  when (isSome s)
    (effect SocketDestroy ;;
     assign (set_socket None)) ;;
  assign (fun c => set_protocol (clearBuffer (protocol c)) c).

Definition updateState (newState : State.ConnectionState) : M unit :=
  oldState <- read state ;;
  assign (fun c => set_state (State.spread (state c) newState) c) ;;
  now <- read state ;;
  when (negb (String.eqb (State.stringify oldState) (State.stringify now)))
    (emit (stateChange_event now)).

Definition sendMessage (type : MessageType) (data : Buffer) : M unit :=
  s <- read socket ;;
  st <- read state ;;
  if negb (isSome s) || negb (State.is_connected st)
  then throw (ConnectionError "Not connected")
  else
    match encodeMessage type data with
    | Throw e => throw e
    | Return frame => effect (SocketWrite frame)
    end.

Definition disconnect : M unit :=
  cleanup ;;
  updateState [State.connected false; State.authenticated false] ;;
  emit disconnect_event ;;
  assign (set_expectedDisconnect false).

Definition handleDisconnectRequest : M unit :=
  try_catch (sendMessage DisconnectResponse []) (fun _ => ret tt) ;;
  assign (set_expectedDisconnect true) ;;
  stopPingTimer ;;
  stopPingTimeoutTimer ;;
  deep <- read hasDeepSleep ;;
  when deep (assign (set_reconnect false)) ;;
  disconnect.

Definition handlePongResponse : M unit := stopPingTimeoutTimer.

Definition handleMessage (message : DecodedMessage) : M unit :=
  if message.(type) =? PingRequest then sendMessage PingResponse []
  else if message.(type) =? PingResponse then handlePongResponse
  else if message.(type) =? DisconnectRequest then handleDisconnectRequest
  else emit (message_event message).

Definition scheduleReconnect : M unit :=
  r <- read isReconnecting ;;
  d <- read isDestroyed ;;
  if r || d then ret tt
  else
    assign (set_isReconnecting true) ;;
    ms <- read (fun c => reconnectInterval (options c)) ;;
    effect (SetTimeout reconnectTimer_ ms) ;;
    assign (set_reconnectTimer (Some reconnectTimer_)).

Definition handleDisconnect : M unit :=
  wasConnected <- read (fun c => State.is_connected (state c)) ;;
  cleanup ;;
  updateState [State.connected false; State.authenticated false] ;;
  when wasConnected (emit disconnect_event) ;;
  re <- read (fun c => reconnect (options c)) ;;
  d <- read isDestroyed ;;
  r <- read isReconnecting ;;
  when (re && negb d && negb r) scheduleReconnect.

Definition startPingTimeoutTimer : M unit :=
  stopPingTimeoutTimer ;;
  ms <- read (fun c => pingTimeout (options c)) ;;
  effect (SetTimeout pingTimeoutTimer_ ms) ;;
  assign (set_pingTimeoutTimer (Some pingTimeoutTimer_)).

Definition startPingTimer : M unit :=
  deep <- read hasDeepSleep ;;
  if deep then ret tt
  else
    stopPingTimer ;;
    ms <- read (fun c => pingInterval (options c)) ;;
    effect (SetInterval pingTimer_ ms) ;;
    assign (set_pingTimer (Some pingTimer_)).

(** The callback of the ping interval and of the ping timeout. *)
Definition onPingInterval : M unit :=
  isConn <- read (fun c => State.is_connected (state c)) ;;
  if negb isConn then stopPingTimer
  else
    try_catch (sendMessage PingRequest [] ;; startPingTimeoutTimer)
              (fun _ => handleDisconnect).
Definition onPingTimeout : M unit := handleDisconnect.

(** [for (const message of messages) this.handleMessage(message)] *)
Fixpoint forEach_handleMessage (messages : list DecodedMessage) : M unit :=
  match messages with
  | [] => ret tt
  | message :: more => handleMessage message ;; forEach_handleMessage more
  end.

(** The socket's ['data'], ['error'], ['close'] and ['end'] handlers.

    At the first ['error'] of a socket the [once] listener that
    [establishConnection] put on it is still there; it runs before the
    handler of [setupSocketHandlers] and clears the connect timeout, which
    is over by then; its [reject] does nothing, the promise being
    resolved. *)
Definition onData (data : Buffer) : M unit :=
  try_catch
    (messages <- (fun this =>
                    let '(r, p) := addData (protocol this) data in
                    (r, set_protocol p this)) ;;
     forEach_handleMessage messages)
    (fun err =>
       emit (error_event (ProtocolError (message err))) ;;
       disconnect).
Definition onError (first : bool) (error : Error) : M unit :=
  when first (effect (ClearTimeout connectTimeoutTimer)) ;;
  emit (error_event error).
Definition onClose : M unit := handleDisconnect.
Definition onEnd : M unit := handleDisconnect.

(** *** [establishConnection]

    The body of the promise runs at once, to the call of
    [socket.connect]; the rest runs in one of three callbacks: of the
    socket's ['connect'], of its ['error'], or of the connect timeout. *)

Definition openSocket : M unit :=
  cleanup ;;
  ms <- read (fun c => connectTimeout (options c)) ;;
  effect (SetTimeout connectTimeoutTimer ms) ;;
  o <- read options ;;
  effect (SocketConnect (port o) (host o)).

(** [socket.once('connect', ...)]; the socket is the one that
    [openSocket] made, for the port and host of the options. *)
Definition onSocketConnect : M unit :=
  effect (ClearTimeout connectTimeoutTimer) ;;
  o <- read options ;;
  assign (set_socket (Some {| remotePort := port o;
                              remoteHost := host o |})) ;;
  updateState [State.connected true; State.authenticated false] ;;
  startPingTimer ;;
  emit connect_event.

(** [socket.once('error', ...)] before the socket has connected *)
Definition onSocketError (m : string) : M unit :=
  effect (ClearTimeout connectTimeoutTimer) ;;
  throw (ConnectionError ("Socket error: " ++ m)).

(** The callback of the connect timeout; it destroys the socket it
    opened, which is not yet [this.socket]. *)
Definition onConnectTimeout : M unit :=
  effect SocketDestroy ;;
  throw (ConnectionError "Connection timeout").

(** How one attempt to open the socket ends. *)
Inductive SocketOutcome : Type :=
| SocketConnected
| SocketFailed (message : string)
| SocketSilent.

Definition settle (outcome : SocketOutcome) : M unit :=
  match outcome with
  | SocketConnected => onSocketConnect
  | SocketFailed m => onSocketError m
  | SocketSilent => onConnectTimeout
  end.

(** An attempt during which nothing else happens to the connection: the
    promise of [establishConnection], from its start to its end. *)
Definition establishConnection (outcome : SocketOutcome) : M unit :=
  openSocket ;;
  settle outcome.

(** *** [p-retry]

    The [p-retry] package (an npm dependency, not part of the repository;
    the version whose [onFailedAttempt] is given the error, as [connect]
    uses it) and the [retry] package under it:
    [pRetry(fn, {retries, minTimeout, maxTimeout})] runs [fn]; when it
    rejects, the error is added to the errors of the operation; if
    retries are left, it waits for the next timeout,
    [min(minTimeout * 2^k, maxTimeout)] before retry [k + 1], and runs
    [fn] again; once [retries] retries are spent it rejects with
    [operation.mainError()]. *)

(** [counts[message] || 0]; the messages counted here are those of
    [establishConnection], "Socket error: ..." and "Connection timeout",
    none of them the name of a property that the empty object [counts]
    inherits. *)
Fixpoint counted (counts : list (string * nat)) (m : string) : nat :=
  match counts with
  | [] => 0
  | (m', n) :: more => if String.eqb m' m then n else counted more m
  end.

(** The loop of [mainError()]: the error whose message is the most
    frequent among the errors; of several as frequent, the one seen
    last. *)
Fixpoint mainError_loop (errors : list Error) (counts : list (string * nat))
         (mainError : option Error) (mainErrorCount : nat) : option Error :=
  match errors with
  | [] => mainError
  | error :: more =>
      let count := (counted counts (message error) + 1)%nat in
      let counts' := (message error, count) :: counts in
      if (mainErrorCount <=? count)%nat
      then mainError_loop more counts' (Some error) count
      else mainError_loop more counts' mainError mainErrorCount
  end.

Definition mainError (errors : list Error) : option Error :=
  mainError_loop errors [] None 0.

(** What [pRetry] rejects with when [error] ends the last attempt, after
    [errors]. *)
Definition rejection (errors : list Error) (error : Error) : Error :=
  match mainError (errors ++ [error]) with
  | Some main => main
  | None => error
  end.

Fixpoint pRetry (fn : nat -> M unit) (retries : nat)
         (minTimeout maxTimeout : Z) (attemptNumber : nat)
         (errors : list Error) : M unit :=
  try_catch (fn attemptNumber)
    (fun error =>
       match retries with
       | O => throw (rejection errors error)
       | S retries' =>
           effect (RetryDelay
                     (Z.min (minTimeout * 2 ^ Z.of_nat (attemptNumber - 1))
                            maxTimeout)) ;;
           pRetry fn retries' minTimeout maxTimeout (S attemptNumber)
                  (errors ++ [error])
       end).

(** A call of [connect()] during which nothing else happens to the
    connection, from its start to what it returns or throws;
    [network n] is the outcome of its [n]-th attempt to open the
    socket. *)
Definition connect (network : nat -> SocketOutcome) : M unit :=
  destroyed <- read isDestroyed ;;
  if destroyed then throw (ConnectionError "Connection has been destroyed")
  else
    isConn <- read (fun c => State.is_connected (state c)) ;;
    if isConn then ret tt
    else
      re <- read (fun c => reconnect (options c)) ;;
      try_catch
        (pRetry (fun n => establishConnection (network n))
                (if re then 3%nat else 0%nat) 1000 5000 1%nat [])
        (fun err =>
           throw (ConnectionError ("Failed to connect: " ++ message err))).

(** The callback of the reconnect timer, with such a call of
    [connect()]; a failed [connect()] schedules the next round. *)
Definition onReconnectTimer (network : nat -> SocketOutcome) : M unit :=
  destroyed <- read isDestroyed ;;
  if destroyed then ret tt
  else
    try_catch (connect network ;; assign (set_isReconnecting false))
              (fun _ => assign (set_isReconnecting false) ;;
                        scheduleReconnect).

(** *** [connect()] and the reconnect timer, step by step

    [connect()] runs to the [socket.connect] of its first attempt and
    waits there.  What follows runs in callbacks, and between two of them
    anything else can happen to the connection: the callback of the
    socket or of the connect timeout that settles the attempt; after an
    attempt that failed, [p-retry] arming its timer; the callback of that
    timer, which starts the next attempt whatever has become of the
    connection.  The callback of the reconnect timer waits in the same
    way for its [connect()], and goes on once that has returned or
    thrown. *)

Definition connectBegin : M unit :=
  destroyed <- read isDestroyed ;;
  if destroyed then throw (ConnectionError "Connection has been destroyed")
  else
    isConn <- read (fun c => State.is_connected (state c)) ;;
    if isConn then ret tt else openSocket.

Definition retryWait (ms : Z) : M unit := effect (RetryDelay ms).

Definition onRetry : M unit := openSocket.

Definition reconnectBegin : M unit :=
  destroyed <- read isDestroyed ;;
  if destroyed then ret tt else connectBegin.

Definition reconnectDone : M unit := assign (set_isReconnecting false).

Definition reconnectFailed : M unit :=
  assign (set_isReconnecting false) ;;
  scheduleReconnect.

Definition setDeepSleepMode (enabled : bool) : M unit :=
  assign (set_hasDeepSleep enabled) ;;
  isConn <- read (fun c => State.is_connected (state c)) ;;
  when (enabled && isConn) stopPingTimer.

Definition destroy : M unit :=
  assign (set_isDestroyed true) ;;
  cleanup.

Definition isExpectedDisconnect (this : Connection) : bool :=
  expectedDisconnect this.
Definition getState (this : Connection) : State.ConnectionState := state this.
Definition isConnected (this : Connection) : bool :=
  State.is_connected (state this).
Definition isAuthenticated (this : Connection) : bool :=
  State.is_authenticated (state this).

Definition setAuthenticated (authenticated : bool) : M unit :=
  updateState [State.authenticated authenticated].
Definition setApiVersion (major minor : Number) : M unit :=
  updateState [State.apiVersion major minor].
Definition setServerInfo (info : string) : M unit :=
  updateState [State.serverInfo info].

End Conn.

(** ** [src/client/client.ts]: encoding a command and sending it *)

Module Client.

Import Protocol.

Section Proto.

(** [../proto/api] is generated from the protobuf schema and is not among
    the sources: the plain objects given to [create], the messages, and
    the table of message classes are parameters.  A class may lack
    [create] or [encode], and each of them, as [require] itself, may
    throw. *)
Variable Payload : Type.
Variable ProtoMessage : Type.

Record MessageClass : Type := {
  create : option (Payload -> completion ProtoMessage);
  encode : option (ProtoMessage -> completion Buffer)
}.

Variable require_api : completion (string -> option MessageClass).

(** [ESPHomeClient.encodeMessage] *)
Definition encodeMessage (type : string) (data : Payload)
  : completion Buffer :=
  tryCatch
    (andThen require_api (fun api =>
       match api type with
       | None => Return []
       | Some MessageClass =>
           match encode MessageClass with
           | None => Return []
           | Some encode_ =>
               match create MessageClass with
               | None =>
                   Throw (TypeError "MessageClass.create is not a function")
               | Some create_ =>
                   andThen (create_ data) (fun message =>
                   andThen (encode_ message) (fun encoded =>
                   Return encoded))
               end
           end
       end))
    (fun error => Return []).

(** The object literals [{ key, state }] of [switchCommand] and
    [{ key, ...has_* }] of [fanCommand]. *)
Variable switchPayload : Z -> bool -> Payload.

Record FanOptions : Type := {
  fan_state : option bool;
  fan_speed : option Z;
  fan_speedLevel : option Z;
  fan_oscillating : option bool
}.
Variable fanPayload : Z -> FanOptions -> Payload.

(** [switchCommand] and [fanCommand] on the client's connection; a
    [Throw] is the rejection of the promise they return. *)
Definition switchCommand (key : Z) (state : bool) : Conn.M unit :=
  match encodeMessage "SwitchCommandRequest" (switchPayload key state) with
  | Throw e => Conn.throw e
  | Return data => Conn.sendMessage Conn.SwitchCommandRequest data
  end.

Definition fanCommand (key : Z) (o : FanOptions) : Conn.M unit :=
  match encodeMessage "FanCommandRequest" (fanPayload key o) with
  | Throw e => Conn.throw e
  | Return data => Conn.sendMessage Conn.FanCommandRequest data
  end.

End Proto.

Arguments create {Payload ProtoMessage} m.
Arguments encode {Payload ProtoMessage} m.

End Client.

(** ** [src/client/client.ts]: the handlers, the subscriptions and the
    handshake

    [ESPHomeClient] on a plain [Connection] (options without
    [encryptionKey]).  The decoded messages come from the generated
    [../proto/api], which is not among the sources: a decoded message is a
    plain object, the list of its properties, and the table of decoders is a
    parameter.  The callbacks the user subscribes are known by their
    identity; what a call of one does to the outside is not modelled, only
    that it is called and whether it throws.  The listeners the user puts
    on the client's events are not modelled: an event is recorded as
    emitted.  An [await] on [waitForMessage] is given the messages the
    connection emits while the client waits; the connection itself is taken
    to stay, meanwhile, as the client's calls have left it. *)

Module Facade.

Import Protocol.

Definition DeviceInfoRequest : MessageType := 9.
Definition DeviceInfoResponse : MessageType := 10.
Definition ListEntitiesRequest : MessageType := 11.
Definition ListEntitiesBinarySensorResponse : MessageType := 12.
Definition ListEntitiesCoverResponse : MessageType := 13.
Definition ListEntitiesFanResponse : MessageType := 14.
Definition ListEntitiesLightResponse : MessageType := 15.
Definition ListEntitiesSensorResponse : MessageType := 16.
Definition ListEntitiesSwitchResponse : MessageType := 17.
Definition ListEntitiesTextSensorResponse : MessageType := 18.
Definition ListEntitiesDoneResponse : MessageType := 19.
Definition SubscribeStatesRequest : MessageType := 20.
Definition BinarySensorStateResponse : MessageType := 21.
Definition CoverStateResponse : MessageType := 22.
Definition FanStateResponse : MessageType := 23.
Definition LightStateResponse : MessageType := 24.
Definition SensorStateResponse : MessageType := 25.
Definition SwitchStateResponse : MessageType := 26.
Definition TextSensorStateResponse : MessageType := 27.
Definition SubscribeLogsRequest : MessageType := 28.
Definition SubscribeLogsResponse : MessageType := 29.

(** The values the client reads from a decoded message. *)
Inductive Value : Type :=
| VUndefined
| VBool (b : bool)
| VNumber (n : Z)
| VString (s : string)
| VObject (id : nat).

(** [v] as a condition *)
Definition truthy (v : Value) : bool :=
  match v with
  | VUndefined => false
  | VBool b => b
  | VNumber n => negb (n =? 0)
  | VString s => negb (String.eqb s "")
  | VObject _ => true
  end.

(** [v || d] *)
Definition or_else (v d : Value) : Value := if truthy v then v else d.

(** Sameness of two keys of a [Map] *)
Definition Value_eqb (a b : Value) : bool :=
  match a, b with
  | VUndefined, VUndefined => true
  | VBool x, VBool y => Bool.eqb x y
  | VNumber x, VNumber y => x =? y
  | VString x, VString y => String.eqb x y
  | VObject x, VObject y => (x =? y)%nat
  | _, _ => false
  end.

(** A plain object: its properties, in order. *)
Definition Obj : Type := list (string * Value).

(** [o[k]], [o.k] *)
Fixpoint prop (o : Obj) (k : string) : Value :=
  match o with
  | [] => VUndefined
  | (k', v) :: o' => if String.eqb k' k then v else prop o' k
  end.

(** [map.set(key, value)]: a key that is there keeps its place. *)
Fixpoint Map_set (key : Value) (value : Obj) (map : list (Value * Obj))
  : list (Value * Obj) :=
  match map with
  | [] => [(key, value)]
  | (k, v) :: map' =>
      if Value_eqb k key then (k, value) :: map'
      else (k, v) :: Map_set key value map'
  end.

(** [set.add(x)] and [set.delete(x)] on a [Set] of callbacks *)
Definition Set_add (x : nat) (set : list nat) : list nat :=
  if existsb (Nat.eqb x) set then set else set ++ [x].
Definition Set_delete (x : nat) (set : list nat) : list nat :=
  filter (fun y => negb (Nat.eqb x y)) set.

Inductive Arg : Type :=
| NoArg
| ObjArg (o : Obj)
| ErrorArg (e : Error).

(** What the client does to its listeners and subscribers, in order. *)
Inductive Effect : Type :=
| Emit (event : string) (arg : Arg)
| Call (callback : nat) (arg : Obj).

Record Client : Type := {
  connection : Conn.Connection;
  options : Conn.ConnectionOptions;
  deviceInfo : option Obj;
  entities : list (Value * Obj);
  stateSubscriptions : list nat;
  logSubscriptions : list nat;
  isAuthenticating : bool;
  trace : list Effect
}.

Definition new_ESPHomeClient (o : Conn.ConnectionOptions) : Client := {|
  connection := Conn.new_Connection o;
  options := o;
  deviceInfo := None;
  entities := [];
  stateSubscriptions := [];
  logSubscriptions := [];
  isAuthenticating := false;
  trace := []
|}.

Definition set_connection (v : Conn.Connection) (c : Client) : Client :=
  {| connection := v; options := options c; deviceInfo := deviceInfo c;
     entities := entities c; stateSubscriptions := stateSubscriptions c;
     logSubscriptions := logSubscriptions c;
     isAuthenticating := isAuthenticating c; trace := trace c |}.
Definition set_deviceInfo (v : option Obj) (c : Client) : Client :=
  {| connection := connection c; options := options c; deviceInfo := v;
     entities := entities c; stateSubscriptions := stateSubscriptions c;
     logSubscriptions := logSubscriptions c;
     isAuthenticating := isAuthenticating c; trace := trace c |}.
Definition set_entities (v : list (Value * Obj)) (c : Client) : Client :=
  {| connection := connection c; options := options c;
     deviceInfo := deviceInfo c;
     entities := v; stateSubscriptions := stateSubscriptions c;
     logSubscriptions := logSubscriptions c;
     isAuthenticating := isAuthenticating c; trace := trace c |}.
Definition set_stateSubscriptions (v : list nat) (c : Client) : Client :=
  {| connection := connection c; options := options c;
     deviceInfo := deviceInfo c;
     entities := entities c; stateSubscriptions := v;
     logSubscriptions := logSubscriptions c;
     isAuthenticating := isAuthenticating c; trace := trace c |}.
Definition set_logSubscriptions (v : list nat) (c : Client) : Client :=
  {| connection := connection c; options := options c;
     deviceInfo := deviceInfo c;
     entities := entities c; stateSubscriptions := stateSubscriptions c;
     logSubscriptions := v;
     isAuthenticating := isAuthenticating c; trace := trace c |}.
Definition set_isAuthenticating (v : bool) (c : Client) : Client :=
  {| connection := connection c; options := options c;
     deviceInfo := deviceInfo c;
     entities := entities c; stateSubscriptions := stateSubscriptions c;
     logSubscriptions := logSubscriptions c;
     isAuthenticating := v; trace := trace c |}.
Definition set_trace (v : list Effect) (c : Client) : Client :=
  {| connection := connection c; options := options c;
     deviceInfo := deviceInfo c;
     entities := entities c; stateSubscriptions := stateSubscriptions c;
     logSubscriptions := logSubscriptions c;
     isAuthenticating := isAuthenticating c; trace := v |}.

(** *** Methods: a state and exception monad over the client *)

Definition M (A : Type) : Type := Client -> completion A * Client.

Definition ret {A} (a : A) : M A := fun this => (Return a, this).
Definition bind {A B} (m : M A) (k : A -> M B) : M B :=
  fun this =>
    match m this with
    | (Return a, this') => k a this'
    | (Throw e, this') => (Throw e, this')
    end.
Definition throw {A} (e : Error) : M A := fun this => (Throw e, this).
Definition try_catch {A} (m : M A) (handler : Error -> M A) : M A :=
  fun this =>
    match m this with
    | (Return a, this') => (Return a, this')
    | (Throw e, this') => handler e this'
    end.
(** [try { m } finally { f }] *)
Definition try_finally {A} (m : M A) (f : M unit) : M A :=
  fun this =>
    match m this with
    | (r, this') =>
        match f this' with
        | (Return _, this'') => (r, this'')
        | (Throw e, this'') => (Throw e, this'')
        end
    end.
Definition read {A} (f : Client -> A) : M A :=
  fun this => (Return (f this), this).
Definition assign (f : Client -> Client) : M unit :=
  fun this => (Return tt, f this).
Definition when (b : bool) (m : M unit) : M unit :=
  if b then m else ret tt.
(** A call that does not touch the client. *)
Definition pure {A} (c : completion A) : M A := fun this => (c, this).
(** A call of a method of [this.connection]. *)
Definition onConnection {A} (m : Conn.M A) : M A :=
  fun this =>
    let '(r, c) := m (connection this) in (r, set_connection c this).

Notation "x <- m ;; k" := (bind m (fun x => k))
  (at level 61, m at next level, right associativity).
Notation "m ;; k" := (bind m (fun _ => k))
  (at level 61, right associativity).

(** [this.emit(event, arg)] *)
Definition emit (event : string) (arg : Arg) : M unit :=
  assign (fun c => set_trace (trace c ++ [Emit event arg]) c).

Section Proto.

(** The generated encoders, as in [Client]. *)
Variable Payload : Type.
Variable ProtoMessage : Type.
Variable require_api :
  completion (string -> option (Client.MessageClass Payload ProtoMessage)).

(** The generated decoders: [require('../proto/api')] may throw, the table
    may lack the class, the class may lack [decode], and [decode] may
    throw. *)
Variable require_decoders :
  completion (string -> option (option (Buffer -> completion Obj))).

(** The object literals the client encodes. *)
Variable helloPayload : string -> Z -> Z -> Payload.
Variable connectPayload : option string -> Payload.
Variable logsPayload : Z -> bool -> Payload.

(** What a call of a subscribed callback ends in. *)
Variable callback : nat -> Obj -> completion unit.

Definition encodeMessage (type : string) (data : Payload) : completion Buffer :=
  Client.encodeMessage Payload ProtoMessage require_api type data.

(** [ESPHomeClient.decodeMessage] *)
Definition decodeMessage (type : string) (data : Buffer) : completion Obj :=
  tryCatch
    (andThen require_decoders (fun api =>
       match api type with
       | None | Some None => Return []
       | Some (Some decode) => decode data
       end))
    (fun error => Return []).

(** [for (const callback of subscriptions) { try { callback(arg) } catch {} }] *)
Fixpoint notify (subscriptions : list nat) (arg : Obj) : M unit :=
  match subscriptions with
  | [] => ret tt
  | cb :: more =>
      try_catch
        (assign (fun c => set_trace (trace c ++ [Call cb arg]) c) ;;
         pure (callback cb arg))
        (fun error => ret tt) ;;
      notify more arg
  end.

Definition handleDeviceInfoResponse (message : DecodedMessage) : M unit :=
  info <- pure (decodeMessage "DeviceInfoResponse" message.(data)) ;;
  ret tt.

(** The inner [switch] of [handleEntityResponse]: the name of the class
    that decodes the message. *)
Definition entityClass (type : MessageType) : option string :=
  if type =? ListEntitiesBinarySensorResponse
  then Some "ListEntitiesBinarySensorResponse"
  else if type =? ListEntitiesSensorResponse
  then Some "ListEntitiesSensorResponse"
  else if type =? ListEntitiesSwitchResponse
  then Some "ListEntitiesSwitchResponse"
  else if type =? ListEntitiesLightResponse
  then Some "ListEntitiesLightResponse"
  else if type =? ListEntitiesTextSensorResponse
  then Some "ListEntitiesTextSensorResponse"
  else if type =? ListEntitiesFanResponse
  then Some "ListEntitiesFanResponse"
  else if type =? ListEntitiesCoverResponse
  then Some "ListEntitiesCoverResponse"
  else None.

Definition handleEntityResponse (message : DecodedMessage) : M unit :=
  match entityClass message.(type) with
  | None => ret tt
  | Some class =>
      entity <- pure (decodeMessage class message.(data)) ;;
      match prop entity "key" with
      | VUndefined => ret tt
      | key =>
          assign (fun c => set_entities (Map_set key entity (entities c)) c) ;;
          emit "entity" (ObjArg entity)
      end
  end.

(** The inner [switch] of [handleStateResponse]: the name of the class and
    the event of the kind. *)
Definition stateClass (type : MessageType) : option (string * string) :=
  if type =? BinarySensorStateResponse
  then Some ("BinarySensorStateResponse", "binarySensorState")
  else if type =? SensorStateResponse
  then Some ("SensorStateResponse", "sensorState")
  else if type =? SwitchStateResponse
  then Some ("SwitchStateResponse", "switchState")
  else if type =? TextSensorStateResponse
  then Some ("TextSensorStateResponse", "textSensorState")
  else if type =? FanStateResponse
  then Some ("FanStateResponse", "fanState")
  else if type =? CoverStateResponse
  then Some ("CoverStateResponse", "coverState")
  else if type =? LightStateResponse
  then Some ("LightStateResponse", "lightState")
  else None.

Definition handleStateResponse (message : DecodedMessage) : M unit :=
  match stateClass message.(type) with
  | None => ret tt
  | Some (class, event) =>
      state <- pure (decodeMessage class message.(data)) ;;
      emit event (ObjArg state) ;;
      emit "state" (ObjArg state) ;;
      subscriptions <- read stateSubscriptions ;;
      notify subscriptions state
  end.

Definition handleLogResponse (message : DecodedMessage) : M unit :=
  log <- pure (decodeMessage "SubscribeLogsResponse" message.(data)) ;;
  let entry :=
    [("level", or_else (prop log "level") (VNumber 0));
     ("message", or_else (prop log "message") (VString ""));
     ("sendFailed", or_else (prop log "sendFailed") (VBool false))] in
  emit "logs" (ObjArg entry) ;;
  subscriptions <- read logSubscriptions ;;
  notify subscriptions entry.

(** [ESPHomeClient.handleMessage] *)
Definition handleMessage (message : DecodedMessage) : M unit :=
  let type := message.(type) in
  if type =? DeviceInfoResponse then handleDeviceInfoResponse message
  else if (type =? ListEntitiesBinarySensorResponse)
          || (type =? ListEntitiesSensorResponse)
          || (type =? ListEntitiesSwitchResponse)
          || (type =? ListEntitiesLightResponse)
          || (type =? ListEntitiesTextSensorResponse)
          || (type =? ListEntitiesFanResponse)
          || (type =? ListEntitiesCoverResponse)
  then handleEntityResponse message
  else if (type =? BinarySensorStateResponse)
          || (type =? SensorStateResponse)
          || (type =? SwitchStateResponse)
          || (type =? TextSensorStateResponse)
          || (type =? LightStateResponse)
          || (type =? FanStateResponse)
          || (type =? CoverStateResponse)
  then handleStateResponse message
  else if type =? SubscribeLogsResponse then handleLogResponse message
  else ret tt.

(** The listeners [setupConnectionHandlers] puts on the connection's
    [message], [disconnect] and [error] events; a rejection of
    [handleMessage] is emitted as an [error]. *)
Definition onMessage (message : DecodedMessage) : M unit :=
  try_catch (handleMessage message)
            (fun error => emit "error" (ErrorArg error)).
Definition onDisconnect : M unit := emit "disconnected" NoArg.
Definition onError (error : Error) : M unit := emit "error" (ErrorArg error).

Definition subscribeStates (cb : option nat) : M unit :=
  match cb with
  | Some cb =>
      assign (fun c =>
                set_stateSubscriptions (Set_add cb (stateSubscriptions c)) c)
  | None => ret tt
  end ;;
  onConnection (Conn.sendMessage SubscribeStatesRequest []).

Definition unsubscribeStates (cb : option nat) : M unit :=
  match cb with
  | Some cb =>
      assign (fun c =>
                set_stateSubscriptions (Set_delete cb (stateSubscriptions c)) c)
  | None => ret tt
  end.

(** [subscribeLogs(level = 3, callback)] *)
Definition subscribeLogs (level : option Z) (cb : option nat) : M unit :=
  let level := match level with Some l => l | None => 3 end in
  match cb with
  | Some cb =>
      assign (fun c =>
                set_logSubscriptions (Set_add cb (logSubscriptions c)) c)
  | None => ret tt
  end ;;
  data <- pure (encodeMessage "SubscribeLogsRequest" (logsPayload level false)) ;;
  onConnection (Conn.sendMessage SubscribeLogsRequest data).

Definition unsubscribeLogs (cb : option nat) : M unit :=
  match cb with
  | Some cb =>
      assign (fun c =>
                set_logSubscriptions (Set_delete cb (logSubscriptions c)) c)
  | None => ret tt
  end.

(** [waitForMessage(type, timeout)] given the messages the connection
    emits from the call on until the timer would fire: the promise
    resolves with the first of that type and rejects when there is
    none. *)
Fixpoint waitForMessage (type : MessageType) (timeout : Z)
         (arrivals : list DecodedMessage) : completion DecodedMessage :=
  match arrivals with
  | [] =>
      Throw (ESPHomeError
               ("Timeout waiting for message type " ++ numberToString type))
  | message :: more =>
      if message.(Protocol.type) =? type then Return message
      else waitForMessage type timeout more
  end.

Fixpoint forEach_onMessage (messages : list DecodedMessage) : M unit :=
  match messages with
  | [] => ret tt
  | message :: more => onMessage message ;; forEach_onMessage more
  end.

(** [await this.waitForMessage(type, timeout)].  [arrivals] are the
    messages the connection emits from the call on until the code after
    the [await] goes on: those up to the end of the data that brings the
    first of the type, or all there are before the timer fires.  Each of
    them reaches the client's own listener, which was put on the
    [message] event before the one of [waitForMessage]. *)
Definition awaitMessage (type : MessageType) (timeout : Z)
           (arrivals : list DecodedMessage) : M DecodedMessage :=
  forEach_onMessage arrivals ;;
  pure (waitForMessage type timeout arrivals).

(** [listEntities()], with what arrives while it waits. *)
Definition listEntities (arrivals : list DecodedMessage) : M (list Obj) :=
  assign (set_entities []) ;;
  onConnection (Conn.sendMessage ListEntitiesRequest []) ;;
  done <- awaitMessage ListEntitiesDoneResponse 10000 arrivals ;;
  all <- read entities ;;
  ret (map snd all).

Definition sendHelloRequest : M unit :=
  o <- read options ;;
  let clientInfo :=
    match Conn.opt_clientInfo o with
    | Some EmptyString | None => "ESPHome TypeScript Client"
    | Some info => info
    end in
  data <- pure (encodeMessage "HelloRequest" (helloPayload clientInfo 1 9)) ;;
  onConnection (Conn.sendMessage Conn.HelloRequest data).

(** [v || d] for a field that holds a number when it is there. *)
Definition number_or (v : Value) (d : Z) : Z :=
  match v with
  | VNumber n => if n =? 0 then d else n
  | _ => d
  end.

Definition handleHelloResponse (message : DecodedMessage) : M unit :=
  response <- pure (decodeMessage "HelloResponse" message.(data)) ;;
  onConnection (Conn.setApiVersion
                  (Int (number_or (prop response "apiVersionMajor") 1))
                  (Int (number_or (prop response "apiVersionMinor") 9))) ;;
  match prop response "serverInfo" with
  | VString info =>
      when (negb (String.eqb info ""))
           (onConnection (Conn.setServerInfo info))
  | _ => ret tt
  end.

Definition authenticate (arrivals : list DecodedMessage) : M unit :=
  busy <- read isAuthenticating ;;
  if busy then throw (AuthenticationError "Already authenticating")
  else
    assign (set_isAuthenticating true) ;;
    try_finally
      (o <- read options ;;
       data <- pure (encodeMessage "ConnectRequest"
                                   (connectPayload (Conn.opt_password o))) ;;
       onConnection (Conn.sendMessage Conn.ConnectRequest data) ;;
       response <- awaitMessage Conn.ConnectResponse 5000 arrivals ;;
       connectResponse <-
         pure (decodeMessage "ConnectResponse" response.(Protocol.data)) ;;
       if truthy (prop connectResponse "invalidPassword")
       then throw (AuthenticationError "Invalid password")
       else ret tt)
      (assign (set_isAuthenticating false)).

Definition requestDeviceInfo (arrivals : list DecodedMessage) : M unit :=
  onConnection (Conn.sendMessage DeviceInfoRequest []) ;;
  response <- awaitMessage DeviceInfoResponse 5000 arrivals ;;
  info <- pure (decodeMessage "DeviceInfoResponse" response.(data)) ;;
  let deviceInfo :=
    [("usesPassword", or_else (prop info "uses_password") (VBool false));
     ("name", or_else (prop info "name") (VString ""));
     ("macAddress", or_else (prop info "mac_address") (VString ""));
     ("esphomeVersion", or_else (prop info "esphome_version") (VString ""));
     ("compilationTime", or_else (prop info "compilation_time") (VString ""));
     ("model", or_else (prop info "model") (VString ""));
     ("hasDeepSleep", or_else (prop info "has_deep_sleep") (VBool false));
     ("projectName", prop info "project_name");
     ("projectVersion", prop info "project_version");
     ("webserverPort", prop info "webserver_port");
     ("bluetoothProxyVersion", prop info "bluetooth_proxy_version");
     ("manufacturer", prop info "manufacturer");
     ("friendlyName", prop info "friendly_name");
     ("voiceAssistantVersion", prop info "voice_assistant_version");
     ("suggestedArea", prop info "suggested_area")] in
  assign (set_deviceInfo (Some deviceInfo)) ;;
  when (truthy (prop deviceInfo "hasDeepSleep"))
       (onConnection (Conn.setDeepSleepMode true)) ;;
  emit "deviceInfo" (ObjArg deviceInfo).

(** [performHandshake()]; [hello], [auth] and [info] are what arrives
    during each of its three waits. *)
Definition performHandshake (hello auth info : list DecodedMessage) : M unit :=
  sendHelloRequest ;;
  helloResponse <- awaitMessage Conn.HelloResponse 5000 hello ;;
  handleHelloResponse helloResponse ;;
  o <- read options ;;
  match Conn.opt_password o with
  | Some (String _ _) => authenticate auth
  | _ => ret tt
  end ;;
  onConnection (Conn.setAuthenticated true) ;;
  requestDeviceInfo info ;;
  emit "connected" NoArg.

(** [this.connection.disconnect()]: the connection emits [disconnect],
    which the client's listener hears. *)
Definition disconnect : M unit :=
  onConnection Conn.disconnect ;;
  onDisconnect.

(** The listener on the connection's [connect] event. *)
Definition onConnect (hello auth info : list DecodedMessage) : M unit :=
  try_catch (performHandshake hello auth info)
            (fun error => disconnect).

Definition getDeviceInfo (this : Client) : option Obj := deviceInfo this.

Definition isConnected (this : Client) : bool :=
  Conn.isConnected (connection this).
Definition isAuthenticated (this : Client) : bool :=
  Conn.isAuthenticated (connection this).

End Proto.

End Facade.

(** ** [src/connection/encrypted-connection.ts]: [EncryptedConnection]

    The connection the client uses when the options hold an
    [encryptionKey].  Of [NoiseEncryption] only the constructor is run;
    decoding base64, which is Node's, is a parameter.  The events and the
    calls on the socket are recorded as for [Connection]. *)

Module Encrypted.

Import Protocol.

Section Base64.

(** [Buffer.from(s, 'base64')] *)
Variable from_base64 : string -> Buffer.

Record NoiseEncryption : Type := {
  encryptionKey : Buffer;
  handshakeComplete : bool;
  initialized : bool
}.

Definition new_NoiseEncryption (encryptionKey : string)
  : completion NoiseEncryption :=
  let key := from_base64 encryptionKey in
  if negb (length key =? 32)%nat
  then Throw (PlainError "Encryption key must be 32 bytes")
  else Return {| encryptionKey := key;
                 handshakeComplete := false;
                 initialized := false |}.

Record EncryptedConnection : Type := {
  socket : option Conn.Socket;
  _noise : option NoiseEncryption;
  state : State.ConnectionState;
  options : Conn.Options;
  isDestroyed : bool;
  trace : list Conn.Effect
}.

Definition new_EncryptedConnection (o : Conn.ConnectionOptions)
  : completion EncryptedConnection :=
  let options := {|
    Conn.host := Conn.opt_host o;
    Conn.port := Conn.orNumber (Conn.opt_port o) 6053;
    Conn.password := Conn.orString (Conn.opt_password o) "";
    Conn.clientInfo :=
      Conn.orString (Conn.opt_clientInfo o) "ESPHome TypeScript Client";
    Conn.reconnect :=
      match Conn.opt_reconnect o with Some false => false | _ => true end;
    Conn.reconnectInterval := Conn.orNumber (Conn.opt_reconnectInterval o) 5000;
    Conn.pingInterval := Conn.orNumber (Conn.opt_pingInterval o) 20000;
    Conn.pingTimeout := Conn.orNumber (Conn.opt_pingTimeout o) 5000;
    Conn.connectTimeout := Conn.orNumber (Conn.opt_connectTimeout o) 10000;
    Conn.encryptionKey := Conn.orString (Conn.opt_encryptionKey o) "";
    Conn.expectedServerName := Conn.orString (Conn.opt_expectedServerName o) ""
  |} in
  andThen
    (if negb (String.eqb (Conn.encryptionKey options) "")
     then andThen (new_NoiseEncryption (Conn.encryptionKey options))
                  (fun noise => Return (Some noise))
     else Return None)
    (fun noise =>
       Return {| socket := None;
                 _noise := noise;
                 state := [State.connected false; State.authenticated false];
                 options := options;
                 isDestroyed := false;
                 trace := [] |}).

Definition set_socket (v : option Conn.Socket) (c : EncryptedConnection)
  : EncryptedConnection :=
  {| socket := v; _noise := _noise c; state := state c;
     options := options c; isDestroyed := isDestroyed c; trace := trace c |}.
Definition set_state (v : State.ConnectionState) (c : EncryptedConnection)
  : EncryptedConnection :=
  {| socket := socket c; _noise := _noise c; state := v;
     options := options c; isDestroyed := isDestroyed c; trace := trace c |}.
Definition set_isDestroyed (v : bool) (c : EncryptedConnection)
  : EncryptedConnection :=
  {| socket := socket c; _noise := _noise c; state := state c;
     options := options c; isDestroyed := v; trace := trace c |}.
Definition set_trace (v : list Conn.Effect) (c : EncryptedConnection)
  : EncryptedConnection :=
  {| socket := socket c; _noise := _noise c; state := state c;
     options := options c; isDestroyed := isDestroyed c; trace := v |}.

(** *** Methods: a state and exception monad over the connection *)

Definition M (A : Type) : Type :=
  EncryptedConnection -> completion A * EncryptedConnection.

Definition ret {A} (a : A) : M A := fun this => (Return a, this).
Definition bind {A B} (m : M A) (k : A -> M B) : M B :=
  fun this =>
    match m this with
    | (Return a, this') => k a this'
    | (Throw e, this') => (Throw e, this')
    end.
Definition throw {A} (e : Error) : M A := fun this => (Throw e, this).
Definition read {A} (f : EncryptedConnection -> A) : M A :=
  fun this => (Return (f this), this).
Definition assign (f : EncryptedConnection -> EncryptedConnection) : M unit :=
  fun this => (Return tt, f this).
Definition when (b : bool) (m : M unit) : M unit :=
  if b then m else ret tt.
Definition effect (e : Conn.Effect) : M unit :=
  assign (fun c => set_trace (trace c ++ [e]) c).
Definition emit (e : Conn.Event) : M unit := effect (Conn.Emit e).

Notation "x <- m ;; k" := (bind m (fun x => k))
  (at level 61, m at next level, right associativity).
Notation "m ;; k" := (bind m (fun _ => k))
  (at level 61, right associativity).

Definition cleanup : M unit :=
  s <- read socket ;;
  when (Conn.isSome s)
    (effect Conn.SocketDestroy ;;
     assign (set_socket None)).

Definition updateState (newState : State.ConnectionState) : M unit :=
  oldState <- read state ;;
  assign (fun c => set_state (State.spread (state c) newState) c) ;;
  now <- read state ;;
  when (negb (String.eqb (State.stringify oldState) (State.stringify now)))
    (emit (Conn.stateChange_event now)).

Definition connect : M unit :=
  destroyed <- read isDestroyed ;;
  if destroyed then throw (PlainError "Connection has been destroyed")
  else
    st <- read state ;;
    if State.is_connected st then ret tt
    else updateState [State.connected true].

Definition disconnect : M unit :=
  cleanup ;;
  updateState [State.connected false; State.authenticated false] ;;
  emit Conn.disconnect_event.

Definition sendMessage (_type : MessageType) (_data : Buffer) : M unit :=
  s <- read socket ;;
  st <- read state ;;
  if negb (Conn.isSome s) || negb (State.is_connected st)
  then throw (PlainError "Not connected")
  else ret tt.

Definition getState (this : EncryptedConnection) : State.ConnectionState :=
  state this.
Definition isConnected (this : EncryptedConnection) : bool :=
  State.is_connected (state this).
Definition isAuthenticated (this : EncryptedConnection) : bool :=
  State.is_authenticated (state this).
Definition isEncrypted (this : EncryptedConnection) : bool :=
  negb (String.eqb (Conn.encryptionKey (options this)) "").

Definition setAuthenticated (authenticated : bool) : M unit :=
  updateState [State.authenticated authenticated].
Definition setApiVersion (major minor : Number) : M unit :=
  updateState [State.apiVersion major minor].
Definition setServerInfo (info : string) : M unit :=
  updateState [State.serverInfo info].

Definition destroy : M unit :=
  assign (set_isDestroyed true) ;;
  cleanup.

End Base64.

End Encrypted.

(** * Properties *)

Import Protocol.

Example scenario_empty_payload :
  encodeMessage 7 [] = Return [x00; x00; x07]
  /\ addData new_ProtocolHandler [x00; x00; x07]
     = (Return [{| type := 7; data := [] |}], {| buffer := [] |}).
Proof. split; reflexivity. Qed.

Example scenario_two_frames :
  addData new_ProtocolHandler [x00; x01; x08; xaa; x00; x00; x09]
  = (Return [{| type := 8; data := [xaa] |}; {| type := 9; data := [] |}],
     {| buffer := [] |}).
Proof. reflexivity. Qed.

Example scenario_split :
  let '(r1, h1) := addData new_ProtocolHandler [x00; x02; x0a] in
  let '(r2, h2) := addData h1 [xde] in
  let '(r3, h3) := addData h2 [xad] in
  (r1, r2, r3, h3)
  = (Return [], Return [], Return [{| type := 10; data := [xde; xad] |}],
     {| buffer := [] |}).
Proof. reflexivity. Qed.

Example encode_300 : Varint.encode 300 = Return [0xAC; 0x02].
Proof. reflexivity. Qed.

Example encode_big : Varint.encode (2 ^ 53 - 1)
  = Return [255; 255; 255; 255; 255; 255; 255; 15].
Proof. reflexivity. Qed.

Example encode_neg : Varint.encode (-1) = Return [255; 255; 255; 255; 15].
Proof. reflexivity. Qed.

Example stringify_state :
  State.stringify [State.connected true; State.authenticated false;
                   State.apiVersion (Int 1) (Int 9); State.serverInfo "sim"]
  = ("{" ++ String JSON.dquote "connected" ++ String JSON.dquote ":true,"
    ++ String JSON.dquote "authenticated" ++ String JSON.dquote ":false,"
    ++ String JSON.dquote "apiVersion" ++ String JSON.dquote ":{"
    ++ String JSON.dquote "major" ++ String JSON.dquote ":1,"
    ++ String JSON.dquote "minor" ++ String JSON.dquote ":9},"
    ++ String JSON.dquote "serverInfo" ++ String JSON.dquote ":"
    ++ String JSON.dquote "sim" ++ String JSON.dquote "}")%string.
Proof. vm_compute. reflexivity. Qed.

(** ** Bytes and 32-bit arithmetic *)

Section Bytes.

Lemma byte_to_Z_range (b : byte) : 0 <= byte_to_Z b < 256.
Proof.
  unfold byte_to_Z. pose proof (Byte.to_N_bounded b). lia.
Qed.

Lemma byte_to_of_Z (z : Z) : byte_to_Z (byte_of_Z z) = z mod 256.
Proof.
  unfold byte_to_Z, byte_of_Z.
  assert (Hr : 0 <= z mod 256 < 256) by (apply Z.mod_pos_bound; lia).
  destruct (Byte.of_N (Z.to_N (z mod 256))) as [b|] eqn:E.
  - apply Byte.to_of_N in E. rewrite E. lia.
  - apply Byte.of_N_None_iff in E. lia.
Qed.

Lemma byte_of_to_Z (b : byte) : byte_of_Z (byte_to_Z b) = b.
Proof.
  unfold byte_of_Z. rewrite Z.mod_small by apply byte_to_Z_range.
  unfold byte_to_Z. rewrite N2Z.id, Byte.of_to_N. reflexivity.
Qed.

Lemma byte_eqb_x00 (b : byte) : Byte.eqb b x00 = (byte_to_Z b =? 0).
Proof. destruct b; reflexivity. Qed.

Lemma ToInt32_small (x : Z) : - 2 ^ 31 <= x < 2 ^ 31 -> ToInt32 x = x.
Proof.
  intros H. unfold ToInt32. rewrite Z.mod_small; lia.
Qed.

Lemma ToInt32_mod256 (x : Z) : ToInt32 x mod 256 = x mod 256.
Proof.
  unfold ToInt32.
  rewrite (Z.mod_eq (x + 2 ^ 31) (2 ^ 32)) by lia.
  replace (x + 2 ^ 31 - 2 ^ 32 * ((x + 2 ^ 31) / 2 ^ 32) - 2 ^ 31)
    with (x + (- 2 ^ 24 * ((x + 2 ^ 31) / 2 ^ 32)) * 256) by lia.
  apply Z_mod_plus_full.
Qed.

Lemma band_0xFF (x : Z) : band x 0xFF = x mod 256.
Proof.
  unfold band. change (ToInt32 255) with (Z.ones 8).
  rewrite Z.land_ones by lia. apply ToInt32_mod256.
Qed.

(** Setting and masking the continuation bit of a byte value. *)
Lemma lor_MSB (x : Z) : 0 <= x < 256 -> Z.lor x 128 = x mod 128 + 128.
Proof.
  intros H.
  assert (E : exists n, (n < 256)%nat /\ x = Z.of_nat n)
    by (exists (Z.to_nat x); lia).
  destruct E as (n & Hn & ->). clear H.
  do 256 (destruct n as [|n]; [reflexivity|]). lia.
Qed.

Lemma land_REST (x : Z) : 0 <= x -> Z.land x 127 = x mod 128.
Proof. intros _. change 127 with (Z.ones 7). apply Z.land_ones. lia. Qed.

Lemma land_MSBALL (x : Z) : Z.land x (-128) = 128 * (x / 128).
Proof.
  change (-128) with (Z.lnot (Z.ones 7)).
  rewrite <- Z.ldiff_land, Z.ldiff_ones_r by lia.
  rewrite Z.shiftl_mul_pow2, Z.shiftr_div_pow2 by lia.
  change (2 ^ 7) with 128. lia.
Qed.

End Bytes.

(** ** The varint codec: what [decode] reads back from [encode] *)

Section VarintFacts.

Import Varint.

Definition decode_error : completion (Z * nat) :=
  Throw (RangeError "Could not decode varint").

(** A byte with the continuation bit set. *)
Definition continued (b : byte) : Prop := MSB <= byte_to_Z b.

Lemma read_continued (rest : Buffer) :
  Forall continued rest ->
  forall res shift bytes, read rest res shift bytes = decode_error.
Proof.
  induction 1 as [|b rest Hb _ IH]; intros res shift bytes; simpl.
  - reflexivity.
  - destruct (49 <? shift); [reflexivity|].
    unfold continued in Hb.
    destruct (Z.leb_spec MSB (byte_to_Z b)); [apply IH | lia].
Qed.

Lemma emitted_byte (num : Z) : bor (band num 0xFF) MSB = num mod 128 + 128.
Proof.
  rewrite band_0xFF. unfold bor, MSB.
  assert (H : 0 <= num mod 256 < 256) by (apply Z.mod_pos_bound; lia).
  rewrite !ToInt32_small by lia.
  rewrite lor_MSB by exact H.
  rewrite (Z.mod_mod_divide num 256 128); [reflexivity|].
  exists 2. reflexivity.
Qed.

Lemma pow2_shift_bound (k e : Z) :
  0 <= k -> 2 ^ (7 * k) < 2 ^ e -> 7 * k < e.
Proof.
  intros Hk H.
  assert (0 < 2 ^ (7 * k)) by (apply Z.pow_pos_nonneg; lia).
  destruct (Z.lt_ge_cases e 0) as [Hneg|Hpos].
  - rewrite (Z.pow_neg_r 2 e) in H by lia. lia.
  - apply (Z.pow_lt_mono_r_iff 2); lia.
Qed.

Lemma shl_small (d s : Z) :
  0 <= d < 128 -> 0 <= s <= 21 -> shl d s = d * 2 ^ s.
Proof.
  intros Hd Hs. unfold shl, ToUint32.
  rewrite (ToInt32_small d) by lia.
  rewrite (Z.mod_small s (2 ^ 32)), (Z.mod_small s 32) by lia.
  rewrite Z.shiftl_mul_pow2 by lia.
  assert (0 < 2 ^ s) by (apply Z.pow_pos_nonneg; lia).
  assert (2 ^ s <= 2 ^ 21) by (apply Z.pow_le_mono_r; lia).
  apply ToInt32_small. nia.
Qed.

(** One round of [read] on a byte holding the digit [d] at position
    [shift = 7 * k], when the sum stays a safe integer. *)
Lemma read_digit (d : Z) (cont : bool) (Y : Buffer) (res : Z) (k : Z) (n : nat) :
  0 <= d < 128 -> 0 <= k <= 7 -> 0 <= res ->
  res + d * 2 ^ (7 * k) < 2 ^ 53 ->
  read (byte_of_Z (if cont then d + 128 else d) :: Y) res (7 * k) n
  = if cont then read Y (res + d * 2 ^ (7 * k)) (7 * k + 7) (S n)
    else Return (res + d * 2 ^ (7 * k), S n).
Proof.
  intros Hd Hk Hres Hsum. cbn [read].
  destruct (Z.ltb_spec 49 (7 * k)); [lia|].
  rewrite byte_to_of_Z.
  set (v := if cont then d + 128 else d).
  assert (Hv : 0 <= v < 256) by (subst v; destruct cont; lia).
  rewrite (Z.mod_small v) by lia.
  assert (Hband : band v REST = d).
  { unfold band, REST. rewrite !ToInt32_small by lia.
    rewrite land_REST by lia. subst v. destruct cont.
    - replace (d + 128) with (d + 1 * 128) by lia.
      rewrite Z_mod_plus_full. apply Z.mod_small; lia.
    - apply Z.mod_small; lia. }
  rewrite Hband.
  assert (Hterm : (if 7 * k <? 28 then shl d (7 * k) else d * 2 ^ (7 * k))
                  = d * 2 ^ (7 * k)).
  { destruct (Z.ltb_spec (7 * k) 28); [|reflexivity].
    apply shl_small; lia. }
  rewrite Hterm.
  assert (Hadd : JS.add res (d * 2 ^ (7 * k)) = res + d * 2 ^ (7 * k)).
  { unfold JS.add, roundDouble.
    destruct (Z.ltb_spec (res + d * 2 ^ (7 * k)) (2 ^ 53)); [reflexivity | lia]. }
  rewrite Hadd. unfold MSB. subst v.
  destruct cont.
  - destruct (Z.leb_spec 128 (d + 128)); [reflexivity | lia].
  - destruct (Z.leb_spec 128 d); [lia | reflexivity].
Qed.

(** The loop invariant of [encode], read through [decode]'s loop: the
    bytes emitted so far all carry the continuation bit and [read] takes
    them to the low-order part [res] of the number [N] being encoded. *)
Definition encoding (N num : Z) (out : list Z) : Prop :=
  0 <= num
  /\ (out = [] \/ 1 <= num)
  /\ Forall continued (Buffer_from out)
  /\ exists res,
      0 <= res
      /\ res + num * 2 ^ (7 * Z.of_nat (length out)) = N
      /\ forall Y,
          read (Buffer_from out ++ Y) 0 0 O
          = read Y res (7 * Z.of_nat (length out)) (length out).

Lemma encoding_start (N : Z) : 0 <= N -> encoding N N [].
Proof.
  intros H. split; [exact H|]. split; [left; reflexivity|].
  split; [constructor|].
  exists 0. simpl. split; [lia|]. split; [lia|]. reflexivity.
Qed.

Lemma encoding_le (N num : Z) (out : list Z) : encoding N num out -> num <= N.
Proof.
  intros (Hnum & _ & _ & res & Hres & Hsum & _).
  assert (0 < 2 ^ (7 * Z.of_nat (length out))) by (apply Z.pow_pos_nonneg; lia).
  nia.
Qed.

Lemma encoding_shift (N num : Z) (out : list Z) :
  encoding N num out -> N < 2 ^ 53 -> 1 <= num ->
  7 * Z.of_nat (length out) < 53.
Proof.
  intros (Hnum & _ & _ & res & Hres & Hsum & _) HN H1.
  apply pow2_shift_bound; [lia|].
  assert (0 < 2 ^ (7 * Z.of_nat (length out))) by (apply Z.pow_pos_nonneg; lia).
  nia.
Qed.

Lemma encoding_step (N num : Z) (out : list Z) :
  encoding N num out -> N < 2 ^ 53 -> 128 <= num ->
  encoding N (num / 128) (out ++ [bor (band num 0xFF) MSB]).
Proof.
  intros He HN Hbig.
  pose proof (encoding_shift _ _ _ He HN ltac:(lia)) as Hshift.
  destruct He as (Hnum & _ & Hcont & res & Hres & Hsum & Hread).
  rewrite emitted_byte.
  assert (Hd : 0 <= num mod 128 < 128) by (apply Z.mod_pos_bound; lia).
  assert (Hq : 1 <= num / 128) by (apply Z.div_le_lower_bound; lia).
  set (k := Z.of_nat (length out)) in *.
  assert (Hpos : 0 < 2 ^ (7 * k)) by (apply Z.pow_pos_nonneg; lia).
  assert (Hlen : 7 * Z.of_nat (length (out ++ [num mod 128 + 128])) = 7 * k + 7).
  { rewrite length_app. cbn [length]. unfold k. lia. }
  assert (Hdm : num = 128 * (num / 128) + num mod 128) by (apply Z.div_mod; lia).
  assert (Hpow : 2 ^ (7 * k + 7) = 2 ^ (7 * k) * 128).
  { rewrite Z.pow_add_r by lia. reflexivity. }
  split; [lia|]. split; [right; lia|]. split.
  - unfold Buffer_from. rewrite map_app. apply Forall_app. split; [exact Hcont|].
    constructor; [|constructor]. unfold continued, MSB.
    rewrite byte_to_of_Z, Z.mod_small; lia.
  - exists (res + num mod 128 * 2 ^ (7 * k)). split; [nia|]. split.
    + rewrite Hlen, Hpow. nia.
    + intros Y. unfold Buffer_from. rewrite map_app, <- app_assoc. cbn [map app].
      fold (Buffer_from out). rewrite Hread.
      change (byte_of_Z (num mod 128 + 128))
        with (byte_of_Z (if true then num mod 128 + 128 else num mod 128)).
      rewrite read_digit by first [lia | nia].
      rewrite Hlen, length_app. cbn [length]. rewrite Nat.add_1_r. reflexivity.
Qed.

Lemma encoding_finish (N num : Z) (out : list Z) (Y : Buffer) :
  encoding N num out -> N < 2 ^ 53 -> num < 128 ->
  read (Buffer_from (out ++ [bor num 0]) ++ Y) 0 0 O
  = Return (N, length (out ++ [bor num 0])).
Proof.
  intros He HN Hsmall.
  assert (Hshift : 0 <= Z.of_nat (length out) <= 7).
  { destruct (proj1 (proj2 He)) as [E | H1].
    - rewrite E. simpl. lia.
    - pose proof (encoding_shift _ _ _ He HN H1). lia. }
  destruct He as (Hnum & _ & Hcont & res & Hres & Hsum & Hread).
  assert (Hb : bor num 0 = num).
  { unfold bor. rewrite !ToInt32_small by lia. apply Z.lor_0_r. }
  rewrite Hb. unfold Buffer_from. rewrite map_app, <- app_assoc. cbn [map app].
  fold (Buffer_from out). rewrite Hread.
  change (byte_of_Z num) with (byte_of_Z (if false then num + 128 else num)).
  rewrite read_digit by first [lia | nia].
  rewrite Hsum, length_app. cbn [length]. rewrite Nat.add_1_r. reflexivity.
Qed.

Lemma encode_high_spec (N : Z) (fuel : nat) :
  N < 2 ^ 53 ->
  forall num out,
    encoding N num out ->
    encoding N (fst (encode_high fuel num out)) (snd (encode_high fuel num out)).
Proof.
  intros HN. induction fuel as [|fuel IH]; intros num out He; simpl; [exact He|].
  destruct (Z.leb_spec INT num) as [Hge|Hlt]; [|exact He].
  apply IH. apply encoding_step; auto. unfold INT in Hge. lia.
Qed.

Lemma encode_high_exit (fuel : nat) :
  forall num out,
    0 <= num < INT * 128 ^ Z.of_nat fuel ->
    fst (encode_high fuel num out) < INT.
Proof.
  induction fuel as [|fuel IH]; intros num out H.
  - change (Z.of_nat 0) with 0 in H. rewrite Z.pow_0_r, Z.mul_1_r in H.
    cbn [encode_high fst]. lia.
  - cbn [encode_high]. destruct (Z.leb_spec INT num) as [Hge|Hlt];
      [|cbn [fst]; lia].
    apply IH. split; [apply Z.div_pos; lia|].
    apply Z.div_lt_upper_bound; [lia|].
    rewrite Nat2Z.inj_succ, Z.pow_succ_r in H by lia. unfold INT in *. lia.
Qed.

Lemma low_test (num : Z) :
  0 <= num < 2 ^ 31 -> (band num MSBALL =? 0) = (num <? 128).
Proof.
  intros H. unfold band, MSBALL, REST. change (Z.lnot 127) with (-128).
  rewrite !ToInt32_small by lia. rewrite land_MSBALL.
  destruct (Z.ltb_spec num 128).
  - rewrite Z.div_small by lia. reflexivity.
  - assert (1 <= num / 128) by (apply Z.div_le_lower_bound; lia).
    apply Z.eqb_neq. lia.
Qed.

Lemma low_next (num : Z) : 0 <= num < 2 ^ 31 -> ushr num 7 = num / 128.
Proof.
  intros H. unfold ushr, ToUint32.
  rewrite (Z.mod_small num) by lia.
  change (7 mod 2 ^ 32 mod 32) with 7.
  rewrite Z.shiftr_div_pow2 by lia. reflexivity.
Qed.

Lemma encode_low_spec (N : Z) (fuel : nat) :
  N < 2 ^ 53 ->
  forall num out,
    encoding N num out -> num < 2 ^ 31 ->
    encoding N (fst (encode_low fuel num out)) (snd (encode_low fuel num out))
    /\ (num < 128 ^ Z.of_nat fuel -> fst (encode_low fuel num out) < 128).
Proof.
  intros HN. induction fuel as [|fuel IH]; intros num out He Hlt.
  - simpl. split; [exact He | lia].
  - cbn [encode_low].
    assert (Hnum : 0 <= num) by apply He.
    rewrite low_test by lia.
    destruct (Z.ltb_spec num 128) as [Hs|Hb].
    + simpl. split; [exact He | lia].
    + rewrite low_next by lia.
      assert (Hq : num / 128 < 2 ^ 31).
      { apply Z.div_lt_upper_bound; lia. }
      destruct (IH (num / 128) (out ++ [bor (band num 0xFF) MSB])
                   (encoding_step _ _ _ He HN Hb) Hq) as [H1 H2].
      split; [exact H1|]. intros Hf. apply H2.
      apply Z.div_lt_upper_bound; [lia|].
      rewrite Nat2Z.inj_succ, Z.pow_succ_r in Hf by lia. lia.
Qed.

(** A varint for [n]: continuation bytes, then one final byte, which
    [read] takes to [n] whatever follows. *)
Definition varint_of (n : Z) (bytes : Buffer) : Prop :=
  (exists init last, bytes = init ++ [last] /\ Forall continued init)
  /\ forall Y, read (bytes ++ Y) 0 0 O = Return (n, length bytes).

Lemma encode_varint (n : Z) :
  0 <= n <= MAX_SAFE_INTEGER ->
  exists out, encode n = Return out /\ varint_of n (Buffer_from out).
Proof.
  intros Hn. unfold MAX_SAFE_INTEGER in Hn. unfold encode.
  destruct (Z.ltb_spec MAX_SAFE_INTEGER n) as [Hbad|_];
    [unfold MAX_SAFE_INTEGER in Hbad; lia|].
  assert (HN : n < 2 ^ 53) by lia.
  pose proof (encode_high_spec n loop_bound HN n [] (encoding_start n ltac:(lia))) as Hh.
  pose proof (encode_high_exit loop_bound n []
                ltac:(unfold INT, loop_bound; simpl; lia)) as Hx.
  destruct (encode_high loop_bound n []) as [num1 out1]. simpl in Hh, Hx.
  destruct (encode_low_spec n loop_bound HN num1 out1 Hh
              ltac:(unfold INT in Hx; lia)) as [Hl Hs].
  unfold INT in Hx.
  assert (Hs' : fst (encode_low loop_bound num1 out1) < 128).
  { apply Hs. unfold loop_bound. simpl. lia. }
  destruct (encode_low loop_bound num1 out1) as [num2 out2]. simpl in Hl, Hs'.
  eexists. split; [reflexivity|]. split.
  - exists (Buffer_from out2), (byte_of_Z (bor num2 0)). split.
    + unfold Buffer_from. rewrite map_app. reflexivity.
    + apply Hl.
  - intros Y. rewrite (encoding_finish n num2 out2 Y Hl HN Hs').
    unfold Buffer_from. rewrite !length_map. reflexivity.
Qed.

End VarintFacts.

(** ** The frame codec *)

Section ProtocolFacts.

Import Varint.

Lemma skipn_length_app {A} (pre l : list A) : skipn (length pre) (pre ++ l) = l.
Proof. induction pre; simpl; auto. Qed.

Lemma decode_at (n : Z) (bytes pre Y : Buffer) :
  varint_of n bytes ->
  decode (pre ++ bytes ++ Y) (length pre) = Return (n, length bytes).
Proof.
  intros [_ H]. unfold decode. rewrite skipn_length_app. apply H.
Qed.

Lemma varint_nonempty (n : Z) (bytes : Buffer) :
  varint_of n bytes -> (1 <= length bytes)%nat.
Proof.
  intros [(init & last & -> & _) _]. rewrite length_app. simpl. lia.
Qed.

(** A varint cut short makes [read] throw. *)
Lemma varint_cut (n : Z) (bytes p r : Buffer) :
  varint_of n bytes -> bytes = p ++ r -> r <> [] ->
  forall res shift k, read p res shift k = decode_error.
Proof.
  intros [(init & last & E & Hc) _] Hsplit Hr.
  apply read_continued.
  destruct (exists_last Hr) as (r' & last' & ->).
  rewrite E, app_assoc in Hsplit. apply app_inj_tail in Hsplit.
  destruct Hsplit as [-> _]. apply Forall_app in Hc. apply Hc.
Qed.

Lemma decode_cut (n : Z) (bytes pre p r : Buffer) :
  varint_of n bytes -> bytes = p ++ r -> r <> [] ->
  decode (pre ++ p) (length pre) = decode_error.
Proof.
  intros Hv Hs Hr. unfold decode. rewrite skipn_length_app.
  eapply varint_cut; eauto.
Qed.

(** A message the encoder accepts and the decoder does not reject. *)
Definition valid_message (m : DecodedMessage) : Prop :=
  0 <= m.(type) <= MAX_SAFE_INTEGER
  /\ Z.of_nat (length m.(data)) <= MAX_MESSAGE_SIZE.

(** The shape of an encoded frame. *)
Lemma encodeMessage_frame (m : DecodedMessage) :
  valid_message m ->
  exists lengthBytes typeBytes,
    encodeMessage m.(type) m.(data)
    = Return (x00 :: lengthBytes ++ typeBytes ++ m.(data))
    /\ varint_of (Z.of_nat (length m.(data))) lengthBytes
    /\ varint_of m.(type) typeBytes.
Proof.
  intros [Ht Hl]. unfold encodeMessage.
  destruct (encode_varint (type m) Ht) as (tb & Et & Vt).
  assert (Hl' : 0 <= Z.of_nat (length (data m)) <= MAX_SAFE_INTEGER).
  { unfold MAX_MESSAGE_SIZE, MAX_SAFE_INTEGER in *. lia. }
  destruct (encode_varint _ Hl') as (lb & El & Vl).
  rewrite Et, El. exists (Buffer_from lb), (Buffer_from tb).
  split; [reflexivity|]. split; assumption.
Qed.

(** A complete frame at the head of the buffer is taken off it. *)
Lemma tryDecodeMessage_frame (m : DecodedMessage) (frame tail : Buffer) :
  valid_message m ->
  encodeMessage m.(type) m.(data) = Return frame ->
  tryDecodeMessage (frame ++ tail) = (Return (Some m), tail).
Proof.
  intros Hv He.
  destruct (encodeMessage_frame m Hv) as (lb & tb & E & Vl & Vt).
  rewrite E in He. injection He as <-.
  pose proof (varint_nonempty _ _ Vl) as Nl.
  pose proof (varint_nonempty _ _ Vt) as Nt.
  destruct Hv as [Ht Hl].
  unfold tryDecodeMessage.
  set (buf := (x00 :: lb ++ tb ++ data m) ++ tail).
  assert (Hlen : length buf = (1 + length lb + length tb + length (data m) + length tail)%nat).
  { unfold buf. simpl. rewrite !length_app. lia. }
  destruct (Nat.ltb_spec (length buf) 2); [lia|].
  assert (Hhead : buf = x00 :: (lb ++ tb ++ data m) ++ tail) by reflexivity.
  rewrite Hhead at 1. cbn [Byte.eqb negb].
  change (Byte.eqb x00 x00) with true. cbn [negb].
  assert (D1 : decode buf 1 = Return (Z.of_nat (length (data m)), length lb)).
  { unfold buf.
    change ((x00 :: lb ++ tb ++ data m) ++ tail)
      with ([x00] ++ (lb ++ tb ++ data m) ++ tail).
    rewrite <- (app_assoc lb).
    apply (decode_at _ lb [x00]). exact Vl. }
  rewrite D1.
  destruct (Z.ltb_spec MAX_MESSAGE_SIZE (Z.of_nat (length (data m)))); [lia|].
  destruct (Nat.leb_spec (length buf) (1 + length lb)); [lia|].
  assert (D2 : decode buf (1 + length lb) = Return (type m, length tb)).
  { unfold buf.
    replace ((x00 :: lb ++ tb ++ data m) ++ tail)
      with ((x00 :: lb) ++ tb ++ (data m ++ tail))
      by (simpl; rewrite <- !app_assoc; reflexivity).
    apply (decode_at _ tb (x00 :: lb)). exact Vt. }
  rewrite D2.
  destruct (Z.ltb_spec (Z.of_nat (length buf))
              (Z.of_nat (1 + length lb + length tb) + Z.of_nat (length (data m))));
    [lia|].
  replace (Z.to_nat (Z.of_nat (1 + length lb + length tb)
                     + Z.of_nat (length (data m))))
    with (length (x00 :: lb ++ tb) + length (data m))%nat
    by (cbn [length]; rewrite length_app; lia).
  unfold slice, slice_from.
  replace (length (x00 :: lb ++ tb) + length (data m) - (1 + length lb + length tb))%nat
    with (length (data m)) by (cbn [length]; rewrite length_app; lia).
  replace (1 + length lb + length tb)%nat with (length (x00 :: lb ++ tb))
    by (cbn [length]; rewrite length_app; lia).
  assert (B1 : buf = (x00 :: lb ++ tb) ++ data m ++ tail).
  { unfold buf. simpl. rewrite <- !app_assoc. reflexivity. }
  assert (B2 : buf = ((x00 :: lb ++ tb) ++ data m) ++ tail).
  { rewrite B1. rewrite app_assoc. reflexivity. }
  rewrite B1 at 1. rewrite skipn_length_app.
  rewrite firstn_app, firstn_all, Nat.sub_diag. simpl firstn. rewrite app_nil_r.
  rewrite B2. rewrite <- length_app, skipn_length_app.
  destruct m; reflexivity.
Qed.

(** The steps of [tryDecodeMessage] once the preamble is at the head. *)
Lemma tryDecodeMessage_head (rest : Buffer) :
  rest <> [] ->
  tryDecodeMessage (x00 :: rest)
  = let buffer := x00 :: rest in
    match decode buffer 1 with
    | Throw _ => (Return None, buffer)
    | Return (lengthValue, lengthBytes) =>
        if MAX_MESSAGE_SIZE <? lengthValue
        then (Throw (ProtocolError
                       ("Message too large: "
                          ++ numberToString lengthValue ++ " bytes")%string),
              buffer)
        else
          if (length buffer <=? 1 + lengthBytes)%nat then (Return None, buffer)
          else
            match decode buffer (1 + lengthBytes) with
            | Throw _ => (Return None, buffer)
            | Return (typeValue, typeBytes) =>
                let totalSize :=
                  Z.of_nat (1 + lengthBytes + typeBytes) + lengthValue in
                if Z.of_nat (length buffer) <? totalSize
                then (Return None, buffer)
                else
                  (Return (Some {| type := typeValue;
                                   data := slice buffer
                                             (1 + lengthBytes + typeBytes)
                                             (Z.to_nat totalSize) |}),
                   slice_from buffer (Z.to_nat totalSize))
            end
    end.
Proof.
  intros Hne. unfold tryDecodeMessage.
  destruct rest as [|b rest]; [congruence|]. reflexivity.
Qed.

Lemma decode_length (n : Z) (lb Y : Buffer) :
  varint_of n lb -> decode (x00 :: lb ++ Y) 1 = Return (n, length lb).
Proof. intros H. exact (decode_at n lb [x00] Y H). Qed.

Lemma decode_length_end (n : Z) (lb : Buffer) :
  varint_of n lb -> decode (x00 :: lb) 1 = Return (n, length lb).
Proof.
  intros H. rewrite <- (app_nil_r lb) at 1. apply decode_length, H.
Qed.

Lemma decode_length_cut (n : Z) (lb p r : Buffer) :
  varint_of n lb -> lb = p ++ r -> r <> [] ->
  decode (x00 :: p) 1 = decode_error.
Proof. intros H E Hr. exact (decode_cut n lb [x00] p r H E Hr). Qed.

Lemma decode_type (t : Z) (lb tb Y : Buffer) :
  varint_of t tb ->
  decode (x00 :: lb ++ tb ++ Y) (1 + length lb) = Return (t, length tb).
Proof. intros H. exact (decode_at t tb (x00 :: lb) Y H). Qed.

Lemma decode_type_end (t : Z) (lb tb : Buffer) :
  varint_of t tb ->
  decode (x00 :: lb ++ tb) (1 + length lb) = Return (t, length tb).
Proof.
  intros H. rewrite <- (app_nil_r tb) at 1. apply decode_type, H.
Qed.

Lemma decode_type_cut (t : Z) (lb tb p r : Buffer) :
  varint_of t tb -> tb = p ++ r -> r <> [] ->
  decode (x00 :: lb ++ p) (1 + length lb) = decode_error.
Proof. intros H E Hr. exact (decode_cut t tb (x00 :: lb) p r H E Hr). Qed.

(** A frame cut short stays in the buffer and nothing is returned. *)
Lemma tryDecodeMessage_cut (m : DecodedMessage) (frame p q : Buffer) :
  valid_message m ->
  encodeMessage m.(type) m.(data) = Return frame ->
  frame = p ++ q -> q <> [] ->
  tryDecodeMessage p = (Return None, p).
Proof.
  intros Hv He Hsplit Hq.
  destruct (encodeMessage_frame m Hv) as (lb & tb & E & Vl & Vt).
  rewrite E in He. injection He as <-.
  pose proof (varint_nonempty _ _ Vl) as Nl.
  pose proof (varint_nonempty _ _ Vt) as Nt.
  destruct Hv as [Ht Hl].
  destruct p as [|b0 p']; [reflexivity|].
  simpl in Hsplit. injection Hsplit as <- Hrest.
  destruct p' as [|b1 p'']; [reflexivity|].
  rewrite tryDecodeMessage_head by discriminate.
  set (p' := b1 :: p'') in *. cbv zeta.
  apply app_eq_app in Hrest. destruct Hrest as (l & [[E1 E2] | [E1 E2]]).
  - (* the cut falls inside the length varint, or right after it *)
    destruct l as [|x l].
    + rewrite app_nil_r in E1. subst lb.
      rewrite (decode_length_end _ p' Vl).
      destruct (Z.ltb_spec MAX_MESSAGE_SIZE (Z.of_nat (length (data m)))); [lia|].
      destruct (Nat.leb_spec (length (x00 :: p')) (1 + length p'));
        [reflexivity | simpl in *; lia].
    + rewrite (decode_length_cut _ lb p' (x :: l) Vl E1) by discriminate.
      reflexivity.
  - rewrite E1.
    rewrite (decode_length _ lb l Vl).
    destruct (Z.ltb_spec MAX_MESSAGE_SIZE (Z.of_nat (length (data m)))); [lia|].
    destruct (Nat.leb_spec (length (x00 :: lb ++ l)) (1 + length lb));
      [reflexivity|].
    apply app_eq_app in E2. destruct E2 as (l2 & [[E3 E4] | [E3 E4]]).
    + (* inside the type varint, or right after it *)
      destruct l2 as [|x l2].
      * rewrite app_nil_r in E3. subst l. simpl in E4. subst q.
        rewrite (decode_type_end _ lb tb Vt).
        destruct (Z.ltb_spec (Z.of_nat (length (x00 :: lb ++ tb)))
                    (Z.of_nat (1 + length lb + length tb)
                     + Z.of_nat (length (data m)))); [reflexivity|].
        exfalso. cbn [length] in *. rewrite length_app in *.
        destruct (data m); [congruence | cbn [length] in *; lia].
      * rewrite (decode_type_cut _ lb tb l (x :: l2) Vt E3) by discriminate.
        reflexivity.
    + (* inside the payload *)
      rewrite E3.
      rewrite (decode_type _ lb tb l2 Vt).
      destruct (Z.ltb_spec (Z.of_nat (length (x00 :: lb ++ tb ++ l2)))
                  (Z.of_nat (1 + length lb + length tb)
                   + Z.of_nat (length (data m)))); [reflexivity|].
      exfalso. rewrite E4 in *. cbn [length] in *. rewrite !length_app in *.
      destruct q; [congruence | cbn [length] in *; lia].
Qed.

(** [stream_of messages stream]: [stream] is the concatenation of the
    frames [encodeMessage] makes of [messages]. *)
Inductive stream_of : list DecodedMessage -> Buffer -> Prop :=
| stream_nil : stream_of [] []
| stream_cons m frame messages stream :
    valid_message m ->
    encodeMessage m.(type) m.(data) = Return frame ->
    stream_of messages stream ->
    stream_of (m :: messages) (frame ++ stream).

(** What may stay in the buffer between two calls: nothing, or the
    beginning of the next frame. *)
Definition pending (messages : list DecodedMessage) (part : Buffer) : Prop :=
  part = []
  \/ exists m rest frame q,
      messages = m :: rest /\ valid_message m
      /\ encodeMessage m.(type) m.(data) = Return frame
      /\ frame = part ++ q /\ q <> [].

Lemma frame_length (m : DecodedMessage) (frame : Buffer) :
  valid_message m -> encodeMessage m.(type) m.(data) = Return frame ->
  (3 <= length frame)%nat.
Proof.
  intros Hv He.
  destruct (encodeMessage_frame m Hv) as (lb & tb & E & Vl & Vt).
  rewrite E in He. injection He as <-.
  pose proof (varint_nonempty _ _ Vl). pose proof (varint_nonempty _ _ Vt).
  cbn [length]. rewrite !length_app. lia.
Qed.

Lemma stream_length (messages : list DecodedMessage) (stream : Buffer) :
  stream_of messages stream -> (length messages <= length stream)%nat.
Proof.
  induction 1 as [|m frame messages stream Hv He _ IH]; [simpl; lia|].
  pose proof (frame_length m frame Hv He).
  rewrite length_app. simpl. lia.
Qed.

Lemma stream_app (ms1 ms2 : list DecodedMessage) (s1 s2 : Buffer) :
  stream_of ms1 s1 -> stream_of ms2 s2 -> stream_of (ms1 ++ ms2) (s1 ++ s2).
Proof.
  induction 1; intros H2; simpl; [exact H2|].
  rewrite <- app_assoc. constructor; auto.
Qed.

(** Any beginning of a stream is whole frames and then a pending part. *)
Lemma stream_split (messages : list DecodedMessage) (stream : Buffer) :
  stream_of messages stream ->
  forall p r, stream = p ++ r ->
  exists ms1 ms2 s1 part,
    messages = ms1 ++ ms2 /\ stream_of ms1 s1 /\ p = s1 ++ part
    /\ stream_of ms2 (part ++ r) /\ pending ms2 part.
Proof.
  induction 1 as [|m frame messages stream Hv He Hs IH]; intros p r Hsplit.
  - symmetry in Hsplit. apply app_eq_nil in Hsplit. destruct Hsplit as [-> ->].
    exists [], [], [], [].
    split; [reflexivity|]. split; [constructor|]. split; [reflexivity|].
    split; [constructor | left; reflexivity].
  - apply app_eq_app in Hsplit.
    destruct Hsplit as (l & [[E1 E2] | [E1 E2]]).
    + destruct l as [|x l].
      * rewrite app_nil_r in E1. simpl in E2. subst p r.
        exists [m], messages, frame, []. rewrite app_nil_r.
        split; [reflexivity|]. split.
        { rewrite <- (app_nil_r frame). constructor; auto. constructor. }
        split; [reflexivity|]. split; [exact Hs | left; reflexivity].
      * exists [], (m :: messages), [], p.
        split; [reflexivity|]. split; [constructor|]. split; [reflexivity|].
        split.
        { subst r. rewrite app_assoc, <- E1. constructor; auto. }
        right. exists m, messages, frame, (x :: l).
        split; [reflexivity|]. split; [exact Hv|]. split; [exact He|].
        split; [exact E1 | discriminate].
    + destruct (IH l r E2) as (ms1 & ms2 & s1 & part & -> & H1 & -> & H2 & H3).
      exists (m :: ms1), ms2, (frame ++ s1), part.
      split; [reflexivity|]. split; [constructor; auto|].
      split; [rewrite E1, app_assoc; reflexivity|].
      split; assumption.
Qed.

(** The loop of [addData] takes every whole frame and stops at a pending
    part. *)
Lemma addData_loop_stream (ms : list DecodedMessage) (s : Buffer) :
  stream_of ms s ->
  forall ms' part fuel acc,
    pending ms' part -> (length ms <= fuel)%nat ->
    addData_loop fuel (s ++ part) acc = (Return (acc ++ ms), part).
Proof.
  induction 1 as [|m frame messages stream Hv He Hs IH];
    intros ms' part fuel acc Hp Hfuel.
  - rewrite app_nil_r. simpl.
    destruct fuel as [|fuel]; [reflexivity|]. cbn [addData_loop].
    destruct Hp as [-> | (m & rest & frame & q & _ & Hv & He & Hf & Hq)];
      [reflexivity|].
    rewrite (tryDecodeMessage_cut m frame part q Hv He Hf Hq).
    destruct (0 <? length part)%nat; reflexivity.
  - destruct fuel as [|fuel]; [simpl in Hfuel; lia|].
    cbn [addData_loop].
    pose proof (frame_length m frame Hv He) as Hlen.
    destruct (Nat.ltb_spec 0 (length ((frame ++ stream) ++ part)));
      [|rewrite !length_app in *; lia].
    rewrite <- !app_assoc.
    rewrite (tryDecodeMessage_frame m frame (stream ++ part) Hv He).
    rewrite (IH ms' part fuel (acc ++ [m]) Hp ltac:(simpl in Hfuel; lia)).
    rewrite <- app_assoc. reflexivity.
Qed.

Lemma addData_stream (ms ms' : list DecodedMessage) (s part : Buffer) :
  stream_of ms s -> pending ms' part ->
  forall b data,
    b ++ data = s ++ part ->
    addData {| buffer := b |} data = (Return ms, {| buffer := part |}).
Proof.
  intros Hs Hp b data E. unfold addData. cbn [buffer]. rewrite E.
  rewrite (addData_loop_stream ms s Hs ms' part _ [] Hp).
  - reflexivity.
  - pose proof (stream_length ms s Hs). rewrite length_app. lia.
Qed.

Lemma pending_whole (ms : list DecodedMessage) (part : Buffer) :
  stream_of ms part -> pending ms part -> ms = [] /\ part = [].
Proof.
  intros Hs [-> | (m & rest & frame & q & -> & Hv & He & Hf & Hq)].
  - pose proof (stream_length ms [] Hs) as Hlen.
    destruct ms; [auto | simpl in Hlen; lia].
  - exfalso. remember (m :: rest) as ms eqn:Ems.
    destruct Hs as [|m' frame' messages stream _ He' Hs']; [discriminate|].
    injection Ems as -> ->.
    rewrite He in He'. injection He' as <-.
    apply (f_equal (@length byte)) in Hf. rewrite !length_app in Hf.
    destruct q; [congruence | simpl in Hf; lia].
Qed.

Lemma feed_stream (chunks : list Buffer) :
  forall ms part,
    stream_of ms (part ++ concat chunks) -> pending ms part ->
    exists outs,
      feed {| buffer := part |} chunks = (Return outs, {| buffer := [] |})
      /\ concat outs = ms.
Proof.
  induction chunks as [|chunk chunks IH]; intros ms part Hs Hp.
  - simpl in Hs. rewrite app_nil_r in Hs.
    destruct (pending_whole ms part Hs Hp) as [-> ->].
    exists []. split; reflexivity.
  - simpl in Hs. rewrite app_assoc in Hs.
    destruct (stream_split ms _ Hs (part ++ chunk) (concat chunks) eq_refl)
      as (ms1 & ms2 & s1 & part' & -> & H1 & E & H2 & H3).
    destruct (IH ms2 part' H2 H3) as (outs & Hfeed & Hout).
    exists (ms1 :: outs). cbn [feed].
    rewrite (addData_stream ms1 ms2 s1 part' H1 H3 part chunk E).
    rewrite Hfeed. split; [reflexivity|]. simpl. rewrite Hout. reflexivity.
Qed.

End ProtocolFacts.

(** ** Round trip and streaming *)

(** C1 -- frame round trip.  For every message type [T] (a safe
    non-negative integer, as every member of [MessageType] is) and every
    payload of at most 1 MiB, [encodeMessage] returns a frame, and a fresh
    handler fed that frame returns exactly the one-element list
    [[(T, payload)]] and keeps an empty buffer. *)
Theorem encode_decode_roundtrip (T : MessageType) (payload : Buffer) :
  0 <= T <= MAX_SAFE_INTEGER ->
  Z.of_nat (length payload) <= MAX_MESSAGE_SIZE ->
  exists frame,
    encodeMessage T payload = Return frame
    /\ addData new_ProtocolHandler frame
       = (Return [{| type := T; data := payload |}], {| buffer := [] |}).
Proof.
  intros HT HL.
  set (m := {| type := T; data := payload |}).
  assert (Hv : valid_message m) by (split; assumption).
  destruct (encodeMessage_frame m Hv) as (lb & tb & E & _).
  exists (x00 :: lb ++ tb ++ payload). split; [exact E|].
  apply (addData_stream [m] [] (x00 :: lb ++ tb ++ payload) []).
  - rewrite <- (app_nil_r (x00 :: lb ++ tb ++ payload)).
    constructor; [exact Hv | exact E | constructor].
  - left. reflexivity.
  - rewrite app_nil_r. reflexivity.
Qed.

Lemma encode_decode_roundtrip_witness :
  0 <= 33 <= MAX_SAFE_INTEGER
  /\ Z.of_nat (length [x08; x01; x10; x01]) <= MAX_MESSAGE_SIZE
  /\ exists frame,
      encodeMessage 33 [x08; x01; x10; x01] = Return frame
      /\ addData new_ProtocolHandler frame
         = (Return [{| type := 33; data := [x08; x01; x10; x01] |}],
            {| buffer := [] |}).
Proof.
  assert (H1 : 0 <= 33 <= MAX_SAFE_INTEGER) by (unfold MAX_SAFE_INTEGER; lia).
  assert (H2 : Z.of_nat (length [x08; x01; x10; x01]) <= MAX_MESSAGE_SIZE)
    by (unfold MAX_MESSAGE_SIZE; simpl; lia).
  split; [exact H1|]. split; [exact H2|].
  exact (encode_decode_roundtrip 33 [x08; x01; x10; x01] H1 H2).
Defined.

(** C2 -- streaming equivalence.  For every stream that is the
    concatenation of encoded frames and every way of cutting it into
    chunks, feeding the chunks one call at a time returns, call after call,
    lists whose concatenation is what a single call on the whole stream
    returns: the encoded messages, in order.  Both leave the buffer empty. *)
Theorem streaming_equivalence
        (messages : list DecodedMessage) (stream : Buffer) (chunks : list Buffer) :
  stream_of messages stream ->
  concat chunks = stream ->
  exists outs,
    feed new_ProtocolHandler chunks = (Return outs, {| buffer := [] |})
    /\ addData new_ProtocolHandler stream
       = (Return (concat outs), {| buffer := [] |})
    /\ concat outs = messages.
Proof.
  intros Hs Hc.
  destruct (feed_stream chunks messages [])
    as (outs & Hfeed & Hout).
  - simpl. rewrite Hc. exact Hs.
  - left. reflexivity.
  - exists outs. split; [exact Hfeed|]. split; [|exact Hout].
    rewrite Hout.
    apply (addData_stream messages [] stream [] Hs).
    + left. reflexivity.
    + rewrite app_nil_r. reflexivity.
Qed.

Lemma streaming_equivalence_witness :
  let messages := [{| type := 8; data := [xaa] |}; {| type := 9; data := [] |}] in
  let stream := [x00; x01; x08; xaa; x00; x00; x09] in
  let chunks := [[x00; x01]; [x08; xaa; x00]; []; [x00; x09]] in
  stream_of messages stream
  /\ concat chunks = stream
  /\ exists outs,
      feed new_ProtocolHandler chunks = (Return outs, {| buffer := [] |})
      /\ addData new_ProtocolHandler stream
         = (Return (concat outs), {| buffer := [] |})
      /\ concat outs = messages.
Proof.
  intros messages stream chunks.
  assert (H1 : stream_of messages stream).
  { apply (stream_cons {| type := 8; data := [xaa] |} [x00; x01; x08; xaa]
                       [{| type := 9; data := [] |}] [x00; x00; x09]).
    - split; [unfold MAX_SAFE_INTEGER | unfold MAX_MESSAGE_SIZE]; simpl; lia.
    - reflexivity.
    - apply (stream_cons {| type := 9; data := [] |} [x00; x00; x09] [] []).
      + split; [unfold MAX_SAFE_INTEGER | unfold MAX_MESSAGE_SIZE]; simpl; lia.
      + reflexivity.
      + constructor. }
  assert (H2 : concat chunks = stream) by reflexivity.
  split; [exact H1|]. split; [exact H2|].
  exact (streaming_equivalence messages stream chunks H1 H2).
Defined.

(** ** Faults of the decoder *)

Section DecoderFaults.

Import Varint.

(** Eight continuation bytes exhaust [read]: at the ninth round the shift
    is 56. *)
Lemma read_overlong (cont : Buffer) :
  Forall continued cont ->
  forall Y res k bytes,
    0 <= k -> 8 <= k + Z.of_nat (length cont) ->
    read (cont ++ Y) res (7 * k) bytes = decode_error.
Proof.
  induction 1 as [|b cont Hb _ IH]; intros Y res k bytes Hk Hlen.
  - simpl in Hlen. simpl app.
    destruct Y as [|y Y]; [reflexivity|]. cbn [read].
    destruct (Z.ltb_spec 49 (7 * k)); [reflexivity | lia].
  - cbn [app read].
    destruct (Z.ltb_spec 49 (7 * k)); [reflexivity|].
    unfold continued in Hb.
    destruct (Z.leb_spec MSB (byte_to_Z b)); [|lia].
    replace (7 * k + 7) with (7 * (k + 1)) by lia.
    apply IH; [lia|]. cbn [length] in Hlen. lia.
Qed.

(** From [offset] on the buffer holds at least ten bytes in a row with
    the continuation bit set. *)
Definition malformed_varint_at (buffer : Buffer) (offset : nat) : Prop :=
  exists cont Y,
    skipn offset buffer = cont ++ Y
    /\ (10 <= length cont)%nat /\ Forall continued cont.

Lemma decode_malformed (buffer : Buffer) (offset : nat) :
  malformed_varint_at buffer offset -> decode buffer offset = decode_error.
Proof.
  intros (cont & Y & E & Hlen & Hc). unfold decode. rewrite E.
  apply (read_overlong cont Hc Y 0 0 O); lia.
Qed.

Lemma decode_rest_nonempty (buffer : Buffer) (v : Z) (n : nat) :
  decode (x00 :: buffer) 1 = Return (v, n) -> buffer <> [].
Proof. intros H ->. discriminate H. Qed.

(** Whatever makes [varint.decode] throw, at the length or at the type,
    [tryDecodeMessage] returns [null] and keeps the buffer. *)
Lemma tryDecodeMessage_length_throws (rest : Buffer) (e : Error) :
  decode (x00 :: rest) 1 = Throw e ->
  tryDecodeMessage (x00 :: rest) = (Return None, x00 :: rest).
Proof.
  intros H. destruct rest as [|b rest]; [reflexivity|].
  rewrite tryDecodeMessage_head by discriminate. cbv zeta. rewrite H.
  reflexivity.
Qed.

Lemma tryDecodeMessage_type_throws (rest : Buffer) (L : Z) (n : nat) (e : Error) :
  decode (x00 :: rest) 1 = Return (L, n) ->
  L <= MAX_MESSAGE_SIZE ->
  decode (x00 :: rest) (1 + n) = Throw e ->
  tryDecodeMessage (x00 :: rest) = (Return None, x00 :: rest).
Proof.
  intros H1 HL H2.
  rewrite tryDecodeMessage_head by (eapply decode_rest_nonempty; eauto).
  cbv zeta. rewrite H1.
  destruct (Z.ltb_spec MAX_MESSAGE_SIZE L); [lia|].
  destruct (length (x00 :: rest) <=? 1 + n)%nat; [reflexivity|].
  rewrite H2. reflexivity.
Qed.

Definition too_large (L : Z) : Error :=
  ProtocolError ("Message too large: " ++ numberToString L ++ " bytes")%string.

Lemma tryDecodeMessage_too_large (rest : Buffer) (L : Z) (n : nat) :
  decode (x00 :: rest) 1 = Return (L, n) ->
  MAX_MESSAGE_SIZE < L ->
  tryDecodeMessage (x00 :: rest) = (Throw (too_large L), x00 :: rest).
Proof.
  intros H1 HL.
  rewrite tryDecodeMessage_head by (eapply decode_rest_nonempty; eauto).
  cbv zeta. rewrite H1.
  destruct (Z.ltb_spec MAX_MESSAGE_SIZE L); [reflexivity | lia].
Qed.

(** Resynchronisation: bytes other than the preamble before it are
    dropped and decoding goes on from the preamble. *)
Lemma indexOf_junk (junk rest : Buffer) :
  Forall (fun b => b <> x00) junk ->
  indexOf (junk ++ x00 :: rest) x00 = Some (length junk).
Proof.
  induction 1 as [|b junk Hb _ IH]; [reflexivity|]. simpl.
  destruct (Byte.eqb b x00) eqn:E.
  - apply Byte.byte_dec_bl in E. contradiction.
  - rewrite IH. reflexivity.
Qed.

Lemma tryDecodeMessage_resync (junk rest : Buffer) :
  Forall (fun b => b <> x00) junk ->
  tryDecodeMessage (junk ++ x00 :: rest) = tryDecodeMessage (x00 :: rest).
Proof.
  intros Hj. destruct junk as [|j junk]; [reflexivity|].
  pose proof (indexOf_junk (j :: junk) rest Hj) as Hi.
  inversion Hj as [|? ? Hj0 _]; subst.
  unfold tryDecodeMessage at 1.
  assert (Hlen : (length ((j :: junk) ++ x00 :: rest) <? 2)%nat = false).
  { apply Nat.ltb_ge. cbn [app length]. rewrite length_app. simpl. lia. }
  rewrite Hlen. cbn [app]. cbn [app] in Hi.
  destruct (Byte.eqb j x00) eqn:E;
    [apply Byte.byte_dec_bl in E; contradiction|].
  cbn [negb]. rewrite Hi. cbn [option_map]. unfold slice_from.
  change (j :: junk ++ x00 :: rest) with ((j :: junk) ++ x00 :: rest).
  rewrite skipn_length_app.
  destruct rest as [|b rest]; [reflexivity|].
  rewrite tryDecodeMessage_head by discriminate. reflexivity.
Qed.


End DecoderFaults.

(** ** The loop of [addData] ends within its bound *)

Section LoopBound.

Import Varint.

Lemma roundDouble_nonneg (x : Z) : 0 <= x -> 0 <= roundDouble x.
Proof.
  intros H. unfold roundDouble.
  destruct (Z.ltb_spec x (2 ^ 53)); [exact H|].
  set (e := Z.log2 x - 52).
  assert (0 <= 2 ^ e) by apply Z.pow_nonneg, Z.lt_le_incl, Z.lt_0_2.
  assert (0 <= x / 2 ^ e) by (apply Z_div_nonneg_nonneg; lia).
  destruct (x mod 2 ^ e <? 2 ^ (e - 1)); [nia|].
  destruct (2 ^ (e - 1) <? x mod 2 ^ e); [nia|].
  destruct (Z.even (x / 2 ^ e)); nia.
Qed.

Lemma read_result (rest : Buffer) :
  forall res k bytes v n,
    0 <= res -> 0 <= k ->
    read rest res (7 * k) bytes = Return (v, n) ->
    0 <= v /\ (bytes < n)%nat.
Proof.
  induction rest as [|b rest IH]; intros res k bytes v n Hres Hk H.
  - discriminate H.
  - cbn [read] in H.
    destruct (Z.ltb_spec 49 (7 * k)); [discriminate H|].
    pose proof (byte_to_Z_range b) as Hb.
    set (d := band (byte_to_Z b) REST) in H.
    assert (Hd : 0 <= d < 128).
    { unfold d, band, REST. rewrite !ToInt32_small by lia.
      rewrite land_REST by lia. apply Z.mod_pos_bound. lia. }
    assert (Hterm : 0 <= (if 7 * k <? 28 then shl d (7 * k) else d * 2 ^ (7 * k))).
    { assert (0 < 2 ^ (7 * k)) by (apply Z.pow_pos_nonneg; lia).
      destruct (Z.ltb_spec (7 * k) 28); [rewrite shl_small by lia|]; nia. }
    assert (Hadd : 0 <= JS.add res (if 7 * k <? 28 then shl d (7 * k)
                                    else d * 2 ^ (7 * k))).
    { unfold JS.add. apply roundDouble_nonneg. lia. }
    destruct (MSB <=? byte_to_Z b).
    + replace (7 * k + 7) with (7 * (k + 1)) in H by lia.
      apply IH in H; [|exact Hadd | lia]. split; [apply H | lia].
    + injection H as <- <-. split; [exact Hadd | lia].
Qed.

Lemma decode_result (buffer : Buffer) (offset : nat) (v : Z) (n : nat) :
  decode buffer offset = Return (v, n) -> 0 <= v /\ (1 <= n)%nat.
Proof.
  unfold decode. intros H.
  apply (read_result _ 0 0 O v n) in H; lia.
Qed.

Lemma tryDecodeMessage_head_shrinks (rest : Buffer) m buffer' :
  tryDecodeMessage (x00 :: rest) = (Return (Some m), buffer') ->
  (length buffer' < length (x00 :: rest))%nat.
Proof.
  destruct rest as [|b rest]; [discriminate|].
  rewrite tryDecodeMessage_head by discriminate. cbv zeta.
  set (buffer := x00 :: b :: rest).
  destruct (decode buffer 1) as [[L lb]|e] eqn:D1; [|discriminate].
  destruct (MAX_MESSAGE_SIZE <? L); [discriminate|].
  destruct (length buffer <=? 1 + lb)%nat; [discriminate|].
  destruct (decode buffer (1 + lb)) as [[T tb]|e] eqn:D2; [|discriminate].
  destruct (Z.ltb_spec (Z.of_nat (length buffer)) (Z.of_nat (1 + lb + tb) + L))
    as [|Hfit]; [discriminate|].
  intros Hr. injection Hr as _ <-.
  apply decode_result in D1. apply decode_result in D2.
  unfold slice_from. rewrite length_skipn.
  change (x00 :: b :: rest) with buffer.
  match goal with
  | |- (_ - Z.to_nat ?t < _)%nat =>
      change t with (Z.of_nat (1 + lb + tb) + L)
  end.
  lia.
Qed.

Lemma indexOf_split (buffer : Buffer) (i : nat) :
  indexOf buffer x00 = Some i ->
  exists junk rest,
    buffer = junk ++ x00 :: rest /\ Forall (fun b => b <> x00) junk.
Proof.
  revert i. induction buffer as [|b buffer IH]; intros i H; [discriminate|].
  simpl in H. destruct (Byte.eqb b x00) eqn:E.
  - apply Byte.byte_dec_bl in E. subst b.
    exists [], buffer. split; [reflexivity | constructor].
  - destruct (indexOf buffer x00) as [j|]; [|discriminate].
    destruct (IH j eq_refl) as (junk & rest & -> & Hj).
    exists (b :: junk), rest. split; [reflexivity|].
    constructor; [|exact Hj]. intros ->. discriminate E.
Qed.

(** Taking a frame shortens the buffer. *)
Lemma tryDecodeMessage_shrinks (buffer : Buffer) m buffer' :
  tryDecodeMessage buffer = (Return (Some m), buffer') ->
  (length buffer' < length buffer)%nat.
Proof.
  intros H.
  destruct (indexOf buffer x00) as [i|] eqn:Hi.
  - destruct (indexOf_split buffer i Hi) as (junk & rest & -> & Hj).
    rewrite tryDecodeMessage_resync in H by exact Hj.
    apply tryDecodeMessage_head_shrinks in H.
    rewrite length_app. lia.
  - unfold tryDecodeMessage in H.
    destruct (length buffer <? 2)%nat; [discriminate|].
    destruct buffer as [|b0 buffer]; [discriminate|].
    rewrite Hi in H.
    destruct (Byte.eqb b0 x00) eqn:E.
    + simpl in Hi. rewrite E in Hi. discriminate.
    + discriminate.
Qed.

Lemma addData_loop_more (fuel : nat) :
  forall buffer acc,
    (length buffer <= fuel)%nat ->
    addData_loop (S fuel) buffer acc = addData_loop fuel buffer acc.
Proof.
  induction fuel as [|fuel IH]; intros buffer acc Hlen.
  - destruct buffer; [reflexivity | simpl in Hlen; lia].
  - cbn [addData_loop].
    destruct (0 <? length buffer)%nat; [|reflexivity].
    destruct (tryDecodeMessage buffer) as [[[m|]|e] buffer'] eqn:E; try reflexivity.
    apply tryDecodeMessage_shrinks in E.
    change (addData_loop (S fuel) buffer' (acc ++ [m])
            = addData_loop fuel buffer' (acc ++ [m])).
    apply IH. lia.
Qed.

(** More rounds than [length buffer] change nothing: the loop has ended
    by then. *)
Lemma addData_loop_fuel (fuel : nat) (buffer : Buffer) acc :
  (length buffer <= fuel)%nat ->
  addData_loop fuel buffer acc = addData_loop (length buffer) buffer acc.
Proof.
  induction fuel as [|fuel IH]; intros Hlen.
  - destruct buffer; [reflexivity | simpl in Hlen; lia].
  - destruct (Nat.eq_dec (length buffer) (S fuel)) as [E|N].
    + rewrite E. reflexivity.
    + rewrite addData_loop_more by lia. apply IH. lia.
Qed.

End LoopBound.

(** ** [JSON.stringify] tells connection states apart *)

Section StringFacts.

Local Open Scope string_scope.







End StringFacts.

Section JSONFacts.

Local Open Scope string_scope.
Import JSON.

















End JSONFacts.

Section StateFacts.

Local Open Scope string_scope.
Import State.














End StateFacts.

(** ** Properties of state objects: [get], [set] and the spread *)

Section ObjectFacts.

Import State.


Lemma Key_eqb_eq (a b : Key) : Key_eqb a b = true <-> a = b.
Proof. destruct a, b; simpl; split; congruence. Qed.

Lemma Key_eqb_refl (a : Key) : Key_eqb a a = true.
Proof. destruct a; reflexivity. Qed.





Lemma get_key (k : Key) (o : ConnectionState) (p : Property) :
  get k o = Some p -> key p = k /\ In p o.
Proof.
  induction o as [|q o IH]; simpl; [discriminate|].
  destruct (Key_eqb (key q) k) eqn:E.
  - intros H. injection H as <-. apply Key_eqb_eq in E. auto.
  - intros H. destruct (IH H). auto.
Qed.


Lemma get_set_same (p : Property) (o : ConnectionState) :
  get (key p) (set p o) = Some p.
Proof.
  induction o as [|q o IH]; simpl.
  - rewrite Key_eqb_refl. reflexivity.
  - destruct (Key_eqb (key q) (key p)) eqn:E; simpl.
    + rewrite Key_eqb_refl. reflexivity.
    + rewrite E. exact IH.
Qed.

Lemma get_set_other (k : Key) (p : Property) (o : ConnectionState) :
  k <> key p -> get k (set p o) = get k o.
Proof.
  intros Hk. induction o as [|q o IH]; simpl.
  - destruct (Key_eqb (key p) k) eqn:E; [|reflexivity].
    apply Key_eqb_eq in E. congruence.
  - destruct (Key_eqb (key q) (key p)) eqn:E; simpl.
    + apply Key_eqb_eq in E.
      destruct (Key_eqb (key p) k) eqn:E1;
        [apply Key_eqb_eq in E1; congruence|].
      destruct (Key_eqb (key q) k) eqn:E2;
        [apply Key_eqb_eq in E2; congruence | reflexivity].
    + rewrite IH. reflexivity.
Qed.









Lemma is_connected_spread (o : ConnectionState) (b a : bool) :
  is_connected (spread o [connected b; authenticated a]) = b.
Proof.
  unfold is_connected, spread. cbn [fold_left].
  rewrite get_set_other by discriminate.
  change Kconnected with (key (connected b)).
  rewrite get_set_same. reflexivity.
Qed.

End ObjectFacts.

(** ** The connection *)

Section ConnectionFacts.

Import Conn.

Ltac run :=
  unfold stopPingTimer, stopPingTimeoutTimer, when, effect, emit, assign, read,
    bind, ret, throw, try_catch in *; cbn.

(** What [cleanup] clears, in the order it clears it. *)
Definition cleanup_effects (c : Connection) : list Effect :=
  (if isSome (pingTimer c) then [ClearInterval pingTimer_] else [])
    ++ (if isSome (pingTimeoutTimer c) then [ClearTimeout pingTimeoutTimer_] else [])
    ++ (if isSome (reconnectTimer c) then [ClearTimeout reconnectTimer_] else [])
    ++ (if isSome (socket c) then [SocketDestroy] else []).

Definition cleaned (c : Connection) : Connection := {|
  socket := None;
  protocol := {| buffer := [] |};
  state := state c;
  options := options c;
  reconnectTimer := None;
  pingTimer := None;
  pingTimeoutTimer := None;
  isReconnecting := isReconnecting c;
  isDestroyed := isDestroyed c;
  expectedDisconnect := expectedDisconnect c;
  hasDeepSleep := hasDeepSleep c;
  trace := trace c ++ cleanup_effects c
|}.

Lemma cleanup_spec (c : Connection) : cleanup c = (Return tt, cleaned c).
Proof.
  destruct c as [so pr st op rt pt ptt ir idd ed hd tr].
  unfold cleanup, cleaned, cleanup_effects. run.
  destruct pt, ptt, rt, so; cbn; rewrite <- ?app_assoc, ?app_nil_r; reflexivity.
Qed.

(** The [stateChange] event of [updateState], if any. *)
Definition state_events (old now : State.ConnectionState) : list Effect :=
  if String.eqb (State.stringify old) (State.stringify now) then []
  else [Emit (stateChange_event now)].

Definition updated (newState : State.ConnectionState) (c : Connection)
  : Connection :=
  let now := State.spread (state c) newState in
  set_trace (trace c ++ state_events (state c) now) (set_state now c).

Lemma updateState_spec (newState : State.ConnectionState) (c : Connection) :
  updateState newState c = (Return tt, updated newState c).
Proof.
  destruct c as [so pr st op rt pt ptt ir idd ed hd tr].
  unfold updateState, updated, state_events. run.
  destruct (String.eqb (State.stringify st)
              (State.stringify (State.spread st newState)));
    cbn; rewrite ?app_nil_r; reflexivity.
Qed.

Definition offline : State.ConnectionState :=
  [State.connected false; State.authenticated false].

Definition disconnected (c : Connection) : Connection :=
  let c1 := updated offline (cleaned c) in
  set_expectedDisconnect false
    (set_trace (trace c1 ++ [Emit disconnect_event]) c1).

Lemma disconnect_spec (c : Connection) :
  disconnect c = (Return tt, disconnected c).
Proof.
  unfold disconnect, bind. rewrite cleanup_spec, updateState_spec.
  reflexivity.
Qed.

Definition disconnect_effects (c : Connection) : list Effect :=
  cleanup_effects c
    ++ state_events (state c) (State.spread (state c) offline).

Lemma disconnected_trace (c : Connection) :
  trace (disconnected c)
  = trace c ++ disconnect_effects c ++ [Emit disconnect_event].
Proof.
  destruct c as [so pr st op rt pt ptt ir idd ed hd tr].
  unfold disconnected, updated, cleaned, disconnect_effects. cbn [trace state set_trace set_state set_expectedDisconnect].
  rewrite <- !app_assoc. reflexivity.
Qed.

Lemma disconnected_offline (c : Connection) :
  isConnected (disconnected c) = false
  /\ socket (disconnected c) = None
  /\ protocol (disconnected c) = new_ProtocolHandler.
Proof.
  destruct c as [so pr st op rt pt ptt ir idd ed hd tr].
  unfold disconnected, updated, cleaned, isConnected.
  cbn [trace state socket protocol set_trace set_state set_expectedDisconnect].
  split; [apply is_connected_spread | split; reflexivity].
Qed.

End ConnectionFacts.

(** ** Sending, answering pings and disconnecting *)

Section Examples.

Import Conn.

(** A connection to a device that accepts the socket at once. *)
Definition device : ConnectionOptions := {|
  opt_host := "esphome.local";
  opt_port := None;
  opt_password := None;
  opt_clientInfo := None;
  opt_reconnect := None;
  opt_reconnectInterval := None;
  opt_pingInterval := None;
  opt_pingTimeout := None;
  opt_connectTimeout := None;
  opt_encryptionKey := None;
  opt_expectedServerName := None
|}.

Definition accepts : nat -> SocketOutcome := fun _ => SocketConnected.
Definition refuses : nat -> SocketOutcome :=
  fun _ => SocketFailed "connect ECONNREFUSED".

Definition new_Connection_device : Connection := new_Connection device.

Definition connected_device : Connection :=
  snd (connect accepts new_Connection_device).

(** How many times an event or a call occurs in a trace. *)
Definition occurrences (f : Effect -> bool) (t : list Effect) : nat :=
  length (filter f t).

Definition is_connect (e : Effect) : bool :=
  match e with Emit connect_event => true | _ => false end.
Definition is_disconnect (e : Effect) : bool :=
  match e with Emit disconnect_event => true | _ => false end.
Definition is_write (e : Effect) : bool :=
  match e with SocketWrite _ => true | _ => false end.
Definition is_attempt (e : Effect) : bool :=
  match e with SocketConnect _ _ => true | _ => false end.

End Examples.

Example connected_device_state :
  Conn.isConnected connected_device = true
  /\ Conn.isAuthenticated connected_device = false
  /\ Conn.trace connected_device
     = [Conn.SetTimeout Conn.connectTimeoutTimer 10000;
        Conn.SocketConnect 6053 "esphome.local";
        Conn.ClearTimeout Conn.connectTimeoutTimer;
        Conn.Emit (Conn.stateChange_event
                     [State.connected true; State.authenticated false]);
        Conn.SetInterval Conn.pingTimer_ 20000;
        Conn.Emit Conn.connect_event].
Proof. vm_compute. repeat split. Qed.

(** C6 -- the code at the failing input: after one [connect] that
    succeeded, two calls of [disconnect()] in succession both return
    normally, and the trace then holds one [connect] event and two
    [disconnect] events; the second call, on a connection that is already
    disconnected, emitted one more. *)
Theorem disconnect_twice_emits_twice :
  let once := snd (Conn.disconnect connected_device) in
  let twice := snd (Conn.disconnect once) in
  fst (Conn.disconnect connected_device) = Return tt
  /\ fst (Conn.disconnect once) = Return tt
  /\ Conn.isConnected once = false
  /\ occurrences is_connect (Conn.trace twice) = 1%nat
  /\ occurrences is_disconnect (Conn.trace once) = 1%nat
  /\ occurrences is_disconnect (Conn.trace twice) = 2%nat.
Proof. vm_compute. repeat split. Qed.

(** [disconnect()] emits its event whatever the state, while the handler of
    the socket's close emits it only when the connection was connected. *)
Lemma disconnect_emits (c : Conn.Connection) :
  exists c' effects,
    Conn.disconnect c = (Return tt, c')
    /\ Conn.trace c' = Conn.trace c ++ effects ++ [Conn.Emit Conn.disconnect_event]
    /\ occurrences is_disconnect effects = 0%nat.
Proof.
  rewrite disconnect_spec.
  exists (disconnected c),
    (cleanup_effects c
       ++ state_events (Conn.state c) (State.spread (Conn.state c) offline)).
  split; [reflexivity|]. split.
  - destruct c as [so pr st op rt pt ptt ir idd ed hd tr]. cbn.
    rewrite <- !app_assoc. reflexivity.
  - unfold occurrences, cleanup_effects, state_events.
    destruct (Conn.isSome (Conn.pingTimer c)),
      (Conn.isSome (Conn.pingTimeoutTimer c)),
      (Conn.isSome (Conn.reconnectTimer c)),
      (Conn.isSome (Conn.socket c)),
      (String.eqb _ _); reflexivity.
Qed.

Example handleDisconnect_when_disconnected :
  let once := snd (Conn.disconnect connected_device) in
  occurrences is_disconnect (Conn.trace (snd (Conn.handleDisconnect once)))
  = occurrences is_disconnect (Conn.trace once).
Proof. vm_compute. reflexivity. Qed.

Lemma sendMessage_spec (c : Conn.Connection) (T : MessageType) (payload : Buffer) :
  Conn.sendMessage T payload c
  = if Conn.isSome (Conn.socket c) && Conn.isConnected c
    then match encodeMessage T payload with
         | Return frame =>
             (Return tt,
              Conn.set_trace (Conn.trace c ++ [Conn.SocketWrite frame]) c)
         | Throw e => (Throw e, c)
         end
    else (Throw (ConnectionError "Not connected"), c).
Proof.
  unfold Conn.sendMessage, Conn.isConnected, Conn.bind, Conn.read.
  destruct (Conn.isSome (Conn.socket c)), (State.is_connected (Conn.state c));
    cbn; try reflexivity.
  destruct (encodeMessage T payload); reflexivity.
Qed.

(** C4, as the code has it.  While [authenticated] is false,
    [Connection.sendMessage] looks only at the socket and at [connected]:
    without a socket or when not connected it fails with the
    [ConnectionError] "Not connected" and leaves the connection as it was
    (nothing is written); on a connected socket it writes the frame of any
    message type, handshake message or not. *)
Theorem sendMessage_unauthenticated
        (c : Conn.Connection) (T : MessageType) (payload : Buffer) :
  Conn.isAuthenticated c = false ->
  (Conn.isSome (Conn.socket c) && Conn.isConnected c = false ->
   Conn.sendMessage T payload c = (Throw (ConnectionError "Not connected"), c))
  /\ (Conn.isSome (Conn.socket c) && Conn.isConnected c = true ->
      forall frame,
        encodeMessage T payload = Return frame ->
        Conn.sendMessage T payload c
        = (Return tt,
           Conn.set_trace (Conn.trace c ++ [Conn.SocketWrite frame]) c)).
Proof.
  intros _. rewrite sendMessage_spec. split.
  - intros ->. reflexivity.
  - intros -> frame ->. reflexivity.
Qed.

Lemma sendMessage_unauthenticated_witness :
  Conn.isAuthenticated connected_device = false
  /\ (Conn.isSome (Conn.socket connected_device)
      && Conn.isConnected connected_device = false ->
      Conn.sendMessage Conn.SwitchCommandRequest [x08; x01] connected_device
      = (Throw (ConnectionError "Not connected"), connected_device))
  /\ (Conn.isSome (Conn.socket connected_device)
      && Conn.isConnected connected_device = true ->
      forall frame,
        encodeMessage Conn.SwitchCommandRequest [x08; x01] = Return frame ->
        Conn.sendMessage Conn.SwitchCommandRequest [x08; x01] connected_device
        = (Return tt,
           Conn.set_trace (Conn.trace connected_device ++ [Conn.SocketWrite frame])
                          connected_device)).
Proof.
  assert (H : Conn.isAuthenticated connected_device = false) by reflexivity.
  split; [exact H|].
  exact (sendMessage_unauthenticated connected_device Conn.SwitchCommandRequest
                                     [x08; x01] H).
Defined.

(** C4, the claim as stated fails: on a connected, unauthenticated
    connection [sendMessage] of a [SwitchCommandRequest] returns normally
    and writes the frame to the socket. *)
Lemma sendMessage_unauthenticated_counterexample :
  Conn.isConnected connected_device = true
  /\ Conn.isAuthenticated connected_device = false
  /\ Conn.sendMessage Conn.SwitchCommandRequest [x08; x01] connected_device
     = (Return tt,
        Conn.set_trace
          (Conn.trace connected_device
             ++ [Conn.SocketWrite [x00; x02; x21; x08; x01]])
          connected_device).
Proof. vm_compute. repeat split. Qed.

(** ** Faults on the read path *)

Lemma addData_wait (h : ProtocolHandler) (data rest : Buffer) :
  buffer h ++ data = x00 :: rest ->
  tryDecodeMessage (x00 :: rest) = (Return None, x00 :: rest) ->
  addData h data = (Return [], {| buffer := x00 :: rest |}).
Proof.
  intros E Hw. unfold addData. rewrite E. cbn [length addData_loop].
  change (0 <? S (length rest))%nat with true. cbn iota. rewrite Hw.
  reflexivity.
Qed.

Lemma onData_returns (c : Conn.Connection) (data : Buffer) (h : ProtocolHandler) :
  addData (Conn.protocol c) data = (Return [], h) ->
  Conn.onData data c = (Return tt, Conn.set_protocol h c).
Proof.
  intros H. unfold Conn.onData, Conn.try_catch, Conn.bind. rewrite H.
  reflexivity.
Qed.






(** A length beyond 2^53 is a double, and the message has the digits
    JavaScript writes for it: eight bytes of length decode to 2^56, which
    is written 72057594037927940. *)
Example message_too_large_rounded :
  let header := [x00; xff; xff; xff; xff; xff; xff; xff; x7f] in
  Varint.decode header 1 = Return (2 ^ 56, 8%nat)
  /\ numberToString (2 ^ 56) = "72057594037927940"%string
  /\ fst (addData new_ProtocolHandler header)
     = Throw (ProtocolError "Message too large: 72057594037927940 bytes")
  /\ numberToString (2 ^ 53) = "9007199254740992"%string
  /\ numberToString (2 ^ 70) = "1.1805916207174113e+21"%string.
Proof. vm_compute. repeat split. Qed.

(** ** Attempts of [connect] *)

(** The waits of [p-retry] in a trace, in order. *)
Fixpoint delays (t : list Conn.Effect) : list Z :=
  match t with
  | [] => []
  | Conn.RetryDelay ms :: t' => ms :: delays t'
  | _ :: t' => delays t'
  end.

(** The states carried by the [stateChange] events of a trace, in order. *)
Fixpoint stateChanges (t : list Conn.Effect) : list State.ConnectionState :=
  match t with
  | [] => []
  | Conn.Emit (Conn.stateChange_event s) :: t' => s :: stateChanges t'
  | _ :: t' => stateChanges t'
  end.

Lemma occurrences_app (f : Conn.Effect -> bool) (a b : list Conn.Effect) :
  occurrences f (a ++ b) = (occurrences f a + occurrences f b)%nat.
Proof. unfold occurrences. rewrite filter_app, length_app. reflexivity. Qed.

Lemma delays_app (a b : list Conn.Effect) : delays (a ++ b) = delays a ++ delays b.
Proof.
  induction a as [|e a IH]; [reflexivity|].
  destruct e; simpl; rewrite IH; reflexivity.
Qed.

Lemma stateChanges_app (a b : list Conn.Effect) :
  stateChanges (a ++ b) = stateChanges a ++ stateChanges b.
Proof.
  induction a as [|e a IH]; [reflexivity|].
  destruct e as [[]| | | | | | | |]; simpl; rewrite IH; reflexivity.
Qed.

Lemma cleanup_effects_plain (c : Conn.Connection) :
  occurrences is_attempt (cleanup_effects c) = 0%nat
  /\ delays (cleanup_effects c) = []
  /\ stateChanges (cleanup_effects c) = [].
Proof.
  unfold cleanup_effects, occurrences.
  destruct (Conn.isSome (Conn.pingTimer c)),
    (Conn.isSome (Conn.pingTimeoutTimer c)),
    (Conn.isSome (Conn.reconnectTimer c)),
    (Conn.isSome (Conn.socket c)); repeat split.
Qed.

Lemma state_events_plain (old now : State.ConnectionState) :
  occurrences is_attempt (state_events old now) = 0%nat
  /\ delays (state_events old now) = [].
Proof.
  unfold state_events, occurrences. destruct (String.eqb _ _); split; reflexivity.
Qed.

(** One attempt to open the socket, spelled out. *)
Definition attempt_effects (c : Conn.Connection) : list Conn.Effect :=
  let o := Conn.options c in
  cleanup_effects c
    ++ [Conn.SetTimeout Conn.connectTimeoutTimer (Conn.connectTimeout o);
        Conn.SocketConnect (Conn.port o) (Conn.host o)].

Definition online : State.ConnectionState :=
  [State.connected true; State.authenticated false].

Definition established (c : Conn.Connection) : Conn.Connection :=
  let o := Conn.options c in
  let c0 := cleaned c in
  let c1 :=
    Conn.set_socket (Some {| Conn.remotePort := Conn.port o;
                             Conn.remoteHost := Conn.host o |})
      (Conn.set_trace (Conn.trace c ++ attempt_effects c
                         ++ [Conn.ClearTimeout Conn.connectTimeoutTimer]) c0) in
  let c2 := updated online c1 in
  if Conn.hasDeepSleep c
  then Conn.set_trace (Conn.trace c2 ++ [Conn.Emit Conn.connect_event]) c2
  else Conn.set_trace
         (Conn.trace c2
            ++ [Conn.SetInterval Conn.pingTimer_ (Conn.pingInterval o);
                Conn.Emit Conn.connect_event])
         (Conn.set_pingTimer (Some Conn.pingTimer_) c2).

Definition failed_attempt (last : Conn.Effect) (c : Conn.Connection)
  : Conn.Connection :=
  Conn.set_trace (Conn.trace c ++ attempt_effects c ++ [last]) (cleaned c).

(** Unfolding of the assignments and of the monad on a record that is
    spelled out, innermost first. *)
Ltac conn_cbv :=
  cbv beta iota zeta delta
    [Conn.set_socket Conn.set_protocol Conn.set_state Conn.set_reconnect
     Conn.set_reconnectTimer Conn.set_pingTimer Conn.set_pingTimeoutTimer
     Conn.set_isReconnecting Conn.set_isDestroyed Conn.set_expectedDisconnect
     Conn.set_hasDeepSleep Conn.set_trace
     Conn.socket Conn.protocol Conn.state Conn.options Conn.reconnectTimer
     Conn.pingTimer Conn.pingTimeoutTimer Conn.isReconnecting Conn.isDestroyed
     Conn.expectedDisconnect Conn.hasDeepSleep Conn.trace
     Conn.bind Conn.ret Conn.throw Conn.try_catch Conn.read Conn.assign
     Conn.when Conn.effect Conn.emit Conn.isSome
     Conn.stopPingTimer Conn.stopPingTimeoutTimer Conn.startPingTimer
     cleaned updated].

(** The connection once [establishConnection] has got to the call of
    [socket.connect]. *)
Definition opened (c : Conn.Connection) : Conn.Connection :=
  Conn.set_trace (Conn.trace c ++ attempt_effects c) (cleaned c).

Lemma openSocket_spec (c : Conn.Connection) :
  Conn.openSocket c = (Return tt, opened c).
Proof.
  unfold Conn.openSocket, Conn.bind at 1. rewrite cleanup_spec.
  destruct c as [so pr st op rt pt ptt ir idd ed hd tr].
  unfold opened, attempt_effects. conn_cbv.
  rewrite <- ?app_assoc. cbn [app]. reflexivity.
Qed.

Lemma establishConnection_spec (outcome : Conn.SocketOutcome) (c : Conn.Connection) :
  Conn.establishConnection outcome c
  = match outcome with
    | Conn.SocketConnected => (Return tt, established c)
    | Conn.SocketFailed m =>
        (Throw (ConnectionError ("Socket error: " ++ m)),
         failed_attempt (Conn.ClearTimeout Conn.connectTimeoutTimer) c)
    | Conn.SocketSilent =>
        (Throw (ConnectionError "Connection timeout"),
         failed_attempt Conn.SocketDestroy c)
    end.
Proof.
  unfold Conn.establishConnection, Conn.bind at 1. rewrite openSocket_spec.
  destruct c as [so pr st op rt pt ptt ir idd ed hd tr].
  unfold opened, established, failed_attempt, attempt_effects.
  destruct outcome;
    unfold Conn.settle, Conn.onSocketConnect, Conn.onSocketError,
      Conn.onConnectTimeout.
  - conn_cbv. rewrite updateState_spec.
    destruct hd; conn_cbv; rewrite <- ?app_assoc; cbn [app]; reflexivity.
  - conn_cbv. rewrite <- ?app_assoc. cbn [app]. reflexivity.
  - conn_cbv. rewrite <- ?app_assoc. cbn [app]. reflexivity.
Qed.

Lemma established_trace (c : Conn.Connection) :
  Conn.options (established c) = Conn.options c
  /\ Conn.trace (established c)
     = Conn.trace c
         ++ attempt_effects c
         ++ [Conn.ClearTimeout Conn.connectTimeoutTimer]
         ++ state_events (Conn.state c) (State.spread (Conn.state c) online)
         ++ (if Conn.hasDeepSleep c then [] else
               [Conn.SetInterval Conn.pingTimer_
                                 (Conn.pingInterval (Conn.options c))])
         ++ [Conn.Emit Conn.connect_event].
Proof.
  destruct c as [so pr st op rt pt ptt ir idd ed hd tr].
  unfold established.
  destruct hd; conn_cbv; (split; [reflexivity|]);
    rewrite <- ?app_assoc; reflexivity.
Qed.

Lemma failed_attempt_trace (last : Conn.Effect) (c : Conn.Connection) :
  Conn.options (failed_attempt last c) = Conn.options c
  /\ Conn.state (failed_attempt last c) = Conn.state c
  /\ Conn.trace (failed_attempt last c)
     = Conn.trace c ++ attempt_effects c ++ [last].
Proof.
  destruct c as [so pr st op rt pt ptt ir idd ed hd tr].
  unfold failed_attempt. conn_cbv. repeat split.
Qed.

Lemma attempt_effects_count (c : Conn.Connection) :
  occurrences is_attempt (attempt_effects c) = 1%nat
  /\ delays (attempt_effects c) = []
  /\ stateChanges (attempt_effects c) = [].
Proof.
  unfold attempt_effects.
  destruct (cleanup_effects_plain c) as (H1 & H2 & H3).
  rewrite occurrences_app, delays_app, stateChanges_app, H1, H2, H3.
  repeat split.
Qed.

(** What one call of [establishConnection] does to the trace: one attempt
    on the socket and no wait. *)
Lemma establishConnection_attempt (outcome : Conn.SocketOutcome) (c : Conn.Connection) :
  exists r c' effects,
    Conn.establishConnection outcome c = (r, c')
    /\ Conn.options c' = Conn.options c
    /\ Conn.trace c' = Conn.trace c ++ effects
    /\ occurrences is_attempt effects = 1%nat
    /\ delays effects = [].
Proof.
  rewrite establishConnection_spec.
  destruct (attempt_effects_count c) as (A1 & A2 & _).
  destruct outcome as [|m|].
  - destruct (established_trace c) as [Ho Ht].
    destruct (state_events_plain (Conn.state c)
                (State.spread (Conn.state c) online)) as [S1 S2].
    eexists _, _, _. split; [reflexivity|]. split; [exact Ho|].
    split; [exact Ht|].
    rewrite !occurrences_app, !delays_app, A1, A2, S1, S2.
    destruct (Conn.hasDeepSleep c); split; reflexivity.
  - destruct (failed_attempt_trace (Conn.ClearTimeout Conn.connectTimeoutTimer) c)
      as (Ho & _ & Ht).
    eexists _, _, _. split; [reflexivity|]. split; [exact Ho|].
    split; [exact Ht|].
    rewrite !occurrences_app, !delays_app, A1, A2. split; reflexivity.
  - destruct (failed_attempt_trace Conn.SocketDestroy c) as (Ho & _ & Ht).
    eexists _, _, _. split; [reflexivity|]. split; [exact Ho|].
    split; [exact Ht|].
    rewrite !occurrences_app, !delays_app, A1, A2. split; reflexivity.
Qed.

(** The waits of [p-retry] after the failed attempts [n], [n + 1], ... *)
Definition retry_delays (n k : nat) : list Z :=
  map (fun i => Z.min (1000 * 2 ^ Z.of_nat (n + i - 1)) 5000) (seq 0 k).

Lemma retry_delays_S (n k : nat) :
  retry_delays n (S k)
  = Z.min (1000 * 2 ^ Z.of_nat (n - 1)) 5000 :: retry_delays (S n) k.
Proof.
  unfold retry_delays. cbn [seq map]. rewrite Nat.add_0_r. f_equal.
  rewrite <- seq_shift, map_map. apply map_ext. intros i.
  replace (S n + i - 1)%nat with (n + S i - 1)%nat by lia. reflexivity.
Qed.

Lemma pRetry_attempts (network : nat -> Conn.SocketOutcome) (retries : nat) :
  forall n errors c,
  exists r c' effects,
    Conn.pRetry (fun k => Conn.establishConnection (network k))
                retries 1000 5000 n errors c = (r, c')
    /\ Conn.options c' = Conn.options c
    /\ Conn.trace c' = Conn.trace c ++ effects
    /\ (1 <= occurrences is_attempt effects <= S retries)%nat
    /\ delays effects = retry_delays n (occurrences is_attempt effects - 1)
    /\ (forall e, r = Throw e -> occurrences is_attempt effects = S retries).
Proof.
  induction retries as [|retries IH]; intros n errors c;
    destruct (establishConnection_attempt (network n) c)
      as (r1 & c1 & eff1 & E1 & O1 & T1 & A1 & D1);
    cbn [Conn.pRetry]; unfold Conn.try_catch; rewrite E1.
  - destruct r1 as [[]|e1].
    + exists (Return tt), c1, eff1.
      split; [reflexivity|]. split; [exact O1|]. split; [exact T1|].
      rewrite A1, D1. split; [lia|]. split; [reflexivity|].
      intros e H. discriminate H.
    + exists (Throw (Conn.rejection errors e1)), c1, eff1.
      split; [reflexivity|]. split; [exact O1|]. split; [exact T1|].
      rewrite A1, D1. split; [lia|]. split; reflexivity.
  - destruct r1 as [[]|e1].
    + exists (Return tt), c1, eff1.
      split; [reflexivity|]. split; [exact O1|]. split; [exact T1|].
      rewrite A1, D1. split; [lia|]. split; [reflexivity|].
      intros e H. discriminate H.
    + set (d := Z.min (1000 * 2 ^ Z.of_nat (n - 1)) 5000).
      set (c2 := Conn.set_trace (Conn.trace c1 ++ [Conn.RetryDelay d]) c1).
      destruct (IH (S n) (errors ++ [e1]) c2)
        as (r3 & c3 & eff3 & E3 & O3 & T3 & A3 & D3 & F3).
      exists r3, c3, (eff1 ++ Conn.RetryDelay d :: eff3).
      unfold Conn.bind, Conn.effect, Conn.assign. fold d. fold c2. rewrite E3.
      assert (Hc2 : Conn.options c2 = Conn.options c1
                    /\ Conn.trace c2 = Conn.trace c1 ++ [Conn.RetryDelay d])
        by (unfold c2; destruct c1; split; reflexivity).
      destruct Hc2 as [O2 T2].
      split; [destruct r3; reflexivity|].
      split; [congruence|].
      split; [rewrite T3, T2, T1, <- !app_assoc; reflexivity|].
      rewrite occurrences_app, delays_app, A1, D1.
      change (occurrences is_attempt (Conn.RetryDelay d :: eff3))
        with (occurrences is_attempt eff3).
      cbn [delays app]. rewrite D3.
      split; [lia|]. split.
      * replace (1 + occurrences is_attempt eff3 - 1)%nat
          with (S (occurrences is_attempt eff3 - 1)) by lia.
        rewrite retry_delays_S. reflexivity.
      * intros e H. rewrite (F3 e H). reflexivity.
Qed.

(** C8, as the code has it.  On a connection that is neither destroyed nor
    connected, [connect()] hands [establishConnection] to [p-retry] with
    three retries when the reconnect policy is enabled: it makes at most
    four attempts (the first one and up to three retries), waiting 1 s, 2 s
    and 4 s before the retries (doubling from 1 s, within the 5 s cap), and
    it rejects only after the fourth has failed.  With the policy disabled
    it makes exactly one attempt. *)
Theorem connect_attempts
        (c : Conn.Connection) (network : nat -> Conn.SocketOutcome) :
  Conn.isDestroyed c = false ->
  Conn.isConnected c = false ->
  exists r c' effects,
    Conn.connect network c = (r, c')
    /\ Conn.trace c' = Conn.trace c ++ effects
    /\ (if Conn.reconnect (Conn.options c)
        then (1 <= occurrences is_attempt effects <= 4)%nat
        else occurrences is_attempt effects = 1%nat)
    /\ delays effects
       = firstn (occurrences is_attempt effects - 1) [1000; 2000; 4000]
    /\ (forall e, r = Throw e ->
        occurrences is_attempt effects
        = if Conn.reconnect (Conn.options c) then 4%nat else 1%nat).
Proof.
  intros Hd Hc. unfold Conn.connect, Conn.bind, Conn.read.
  rewrite Hd. unfold Conn.isConnected in Hc. rewrite Hc.
  unfold Conn.try_catch.
  destruct (pRetry_attempts network
              (if Conn.reconnect (Conn.options c) then 3%nat else 0%nat)
              1%nat [] c)
    as (r & c' & eff & E & O & T & A & D & F).
  rewrite E.
  assert (Hdelays : delays eff
                    = firstn (occurrences is_attempt eff - 1) [1000; 2000; 4000]).
  { rewrite D. destruct (Conn.reconnect (Conn.options c)).
    - assert (Hk : (occurrences is_attempt eff - 1 = 0
                    \/ occurrences is_attempt eff - 1 = 1
                    \/ occurrences is_attempt eff - 1 = 2
                    \/ occurrences is_attempt eff - 1 = 3)%nat) by lia.
      destruct Hk as [-> | [-> | [-> | ->]]]; reflexivity.
    - replace (occurrences is_attempt eff - 1)%nat with 0%nat by lia.
      reflexivity. }
  destruct r as [[]|e].
  - exists (Return tt), c', eff. split; [reflexivity|]. split; [exact T|].
    split; [destruct (Conn.reconnect (Conn.options c)); lia|].
    split; [exact Hdelays|]. intros e H. discriminate H.
  - exists (Throw (ConnectionError ("Failed to connect: " ++ message e))), c', eff.
    split; [reflexivity|]. split; [exact T|].
    split; [destruct (Conn.reconnect (Conn.options c)); lia|].
    split; [exact Hdelays|].
    intros e' _. rewrite (F e eq_refl).
    destruct (Conn.reconnect (Conn.options c)); reflexivity.
Qed.

Lemma connect_attempts_witness :
  let c := new_Connection_device in
  Conn.isDestroyed c = false
  /\ Conn.isConnected c = false
  /\ exists r c' effects,
      Conn.connect refuses c = (r, c')
      /\ Conn.trace c' = Conn.trace c ++ effects
      /\ (if Conn.reconnect (Conn.options c)
          then (1 <= occurrences is_attempt effects <= 4)%nat
          else occurrences is_attempt effects = 1%nat)
      /\ delays effects
         = firstn (occurrences is_attempt effects - 1) [1000; 2000; 4000]
      /\ (forall e, r = Throw e ->
          occurrences is_attempt effects
          = if Conn.reconnect (Conn.options c) then 4%nat else 1%nat).
Proof.
  intros c.
  assert (H1 : Conn.isDestroyed c = false) by reflexivity.
  assert (H2 : Conn.isConnected c = false) by reflexivity.
  split; [exact H1|]. split; [exact H2|].
  exact (connect_attempts c refuses H1 H2).
Defined.

(** C8, the claim as stated fails: with the reconnect policy enabled (the
    default) and a device that refuses every time, [connect()] tries the
    socket four times, waiting 1 s, 2 s and 4 s, before it rejects. *)
Lemma connect_attempts_counterexample :
  Conn.reconnect (Conn.options new_Connection_device) = true
  /\ fst (Conn.connect refuses new_Connection_device)
     = Throw (ConnectionError
                "Failed to connect: Socket error: connect ECONNREFUSED")
  /\ occurrences is_attempt
       (Conn.trace (snd (Conn.connect refuses new_Connection_device)))
     = 4%nat
  /\ delays (Conn.trace (snd (Conn.connect refuses new_Connection_device)))
     = [1000; 2000; 4000].
Proof. vm_compute. repeat split. Qed.

(** ** State changes *)






















Example stateChange_examples :
  let c1 := snd (Conn.setApiVersion (Int 1) (Int 9) connected_device) in
  let c2 := snd (Conn.setApiVersion (Int 1) (Int 9) c1) in
  let c3 := snd (Conn.setServerInfo "sim" c2) in
  let c4 := snd (Conn.setAuthenticated false c3) in
  stateChanges (Conn.trace c1)
  = [[State.connected true; State.authenticated false];
     [State.connected true; State.authenticated false; State.apiVersion (Int 1) (Int 9)]]
  /\ Conn.trace c2 = Conn.trace c1
  /\ stateChanges (Conn.trace c4)
     = stateChanges (Conn.trace c1)
         ++ [[State.connected true; State.authenticated false;
              State.apiVersion (Int 1) (Int 9); State.serverInfo "sim"]].
Proof. vm_compute. repeat split. Qed.

(** ** The client's encoder *)

Section ClientFacts.

Variable Payload : Type.
Variable ProtoMessage : Type.
Variable require_api :
  completion (string -> option (Client.MessageClass Payload ProtoMessage)).
Variable switchPayload : Z -> bool -> Payload.
Variable fanPayload : Z -> Client.FanOptions -> Payload.

(** The ways the encoding of [data] as a message of type [type] can fail:
    the module does not load, the table has no class of that name, the
    class has no [encode] or no [create], or one of them throws. *)
Inductive encoding_fails (type : string) (data : Payload) : Prop :=
| require_throws e :
    require_api = Throw e -> encoding_fails type data
| unknown_type api :
    require_api = Return api -> api type = None -> encoding_fails type data
| no_encode api class :
    require_api = Return api -> api type = Some class ->
    Client.encode class = None -> encoding_fails type data
| no_create api class encode :
    require_api = Return api -> api type = Some class ->
    Client.encode class = Some encode -> Client.create class = None ->
    encoding_fails type data
| create_throws api class encode create e :
    require_api = Return api -> api type = Some class ->
    Client.encode class = Some encode -> Client.create class = Some create ->
    create data = Throw e -> encoding_fails type data
| encode_throws api class encode create message e :
    require_api = Return api -> api type = Some class ->
    Client.encode class = Some encode -> Client.create class = Some create ->
    create data = Return message -> encode message = Throw e ->
    encoding_fails type data.

Lemma client_encodeMessage_returns (type : string) (data : Payload) :
  exists encoded,
    Client.encodeMessage Payload ProtoMessage require_api type data
    = Return encoded.
Proof.
  unfold Client.encodeMessage, tryCatch, andThen.
  destruct require_api as [api|e]; [|eauto].
  destruct (api type) as [class|]; [|eauto].
  destruct (Client.encode class) as [encode|]; [|eauto].
  destruct (Client.create class) as [create|]; [|eauto].
  destruct (create data) as [message|e]; [|eauto].
  destruct (encode message) as [encoded|e]; eauto.
Qed.

Lemma client_encodeMessage_empty (type : string) (data : Payload) :
  encoding_fails type data ->
  Client.encodeMessage Payload ProtoMessage require_api type data = Return [].
Proof.
  unfold Client.encodeMessage, tryCatch, andThen.
  intros [e Hr | api Hr Ha | api class Hr Ha He | api class encode Hr Ha He Hc
         | api class encode create e Hr Ha He Hc Hd
         | api class encode create message e Hr Ha He Hc Hd Hm];
    rewrite Hr; try reflexivity; rewrite Ha; try reflexivity;
    rewrite He; try reflexivity; rewrite Hc; try reflexivity;
    rewrite Hd; try reflexivity; rewrite Hm; reflexivity.
Qed.

(** C10 -- [ESPHomeClient.encodeMessage] never throws, and returns an
    empty buffer when the proto table has no encoder for the type name and
    when the encoder fails.  A command whose encoding failed therefore does
    what sending an empty payload does: on a connected connection
    [switchCommand] writes the frame [00 00 21] and [fanCommand] the frame
    [00 00 1f], and neither fails. *)
Theorem client_encodeMessage_never_throws
        (type : string) (data : Payload)
        (c : Conn.Connection) (key : Z) (state : bool) (o : Client.FanOptions) :
  (exists encoded,
      Client.encodeMessage Payload ProtoMessage require_api type data
      = Return encoded)
  /\ (encoding_fails type data ->
      Client.encodeMessage Payload ProtoMessage require_api type data = Return [])
  /\ (encoding_fails "SwitchCommandRequest" (switchPayload key state) ->
      Client.switchCommand Payload ProtoMessage require_api switchPayload key state c
      = Conn.sendMessage Conn.SwitchCommandRequest [] c
      /\ (Conn.isSome (Conn.socket c) && Conn.isConnected c = true ->
          Client.switchCommand Payload ProtoMessage require_api switchPayload
                               key state c
          = (Return tt,
             Conn.set_trace
               (Conn.trace c ++ [Conn.SocketWrite [x00; x00; x21]]) c)))
  /\ (encoding_fails "FanCommandRequest" (fanPayload key o) ->
      Client.fanCommand Payload ProtoMessage require_api fanPayload key o c
      = Conn.sendMessage Conn.FanCommandRequest [] c
      /\ (Conn.isSome (Conn.socket c) && Conn.isConnected c = true ->
          Client.fanCommand Payload ProtoMessage require_api fanPayload key o c
          = (Return tt,
             Conn.set_trace
               (Conn.trace c ++ [Conn.SocketWrite [x00; x00; x1f]]) c))).
Proof.
  split; [apply client_encodeMessage_returns|].
  split; [apply client_encodeMessage_empty|].
  split.
  - intros Hf. unfold Client.switchCommand.
    rewrite (client_encodeMessage_empty _ _ Hf).
    split; [reflexivity|]. intros Hc. rewrite sendMessage_spec, Hc. reflexivity.
  - intros Hf. unfold Client.fanCommand.
    rewrite (client_encodeMessage_empty _ _ Hf).
    split; [reflexivity|]. intros Hc. rewrite sendMessage_spec, Hc. reflexivity.
Qed.

End ClientFacts.

(** A proto table without [SwitchCommandRequest], and whose
    [FanCommandRequest] encoder throws. *)
Definition faulty_api : string -> option (Client.MessageClass unit unit) :=
  fun type =>
    if String.eqb type "FanCommandRequest"
    then Some {| Client.create := Some (fun _ => Return tt);
                 Client.encode :=
                   Some (fun _ => Throw (PlainError "invalid wire type")) |}
    else None.

Example faulty_api_commands :
  let o := {| Client.fan_state := Some true; Client.fan_speed := None;
              Client.fan_speedLevel := None; Client.fan_oscillating := None |} in
  Client.switchCommand unit unit (Return faulty_api) (fun _ _ => tt) 1 true
                       connected_device
  = (Return tt,
     Conn.set_trace (Conn.trace connected_device
                       ++ [Conn.SocketWrite [x00; x00; x21]]) connected_device)
  /\ Client.fanCommand unit unit (Return faulty_api) (fun _ _ => tt) 1 o
                       connected_device
     = (Return tt,
        Conn.set_trace (Conn.trace connected_device
                          ++ [Conn.SocketWrite [x00; x00; x1f]]) connected_device).
Proof. vm_compute. split; reflexivity. Qed.

Lemma client_encodeMessage_never_throws_witness :
  let o := {| Client.fan_state := Some true; Client.fan_speed := None;
              Client.fan_speedLevel := None; Client.fan_oscillating := None |} in
  let api := Return faulty_api in
  let c := connected_device in
  encoding_fails unit unit api "SwitchCommandRequest" tt
  /\ encoding_fails unit unit api "FanCommandRequest" tt
  /\ Conn.isSome (Conn.socket c) && Conn.isConnected c = true
  /\ (exists encoded,
         Client.encodeMessage unit unit api "SwitchCommandRequest" tt
         = Return encoded)
  /\ Client.encodeMessage unit unit api "SwitchCommandRequest" tt = Return []
  /\ Client.switchCommand unit unit api (fun _ _ => tt) 1 true c
     = (Return tt,
        Conn.set_trace (Conn.trace c ++ [Conn.SocketWrite [x00; x00; x21]]) c)
  /\ Client.fanCommand unit unit api (fun _ _ => tt) 1 o c
     = (Return tt,
        Conn.set_trace (Conn.trace c ++ [Conn.SocketWrite [x00; x00; x1f]]) c).
Proof.
  intros o api c.
  assert (H1 : encoding_fails unit unit api "SwitchCommandRequest" tt)
    by (apply (unknown_type unit unit api _ _ faulty_api); reflexivity).
  assert (H2 : encoding_fails unit unit api "FanCommandRequest" tt).
  { apply (encode_throws unit unit api _ _ faulty_api
             {| Client.create := Some (fun _ => Return tt);
                Client.encode :=
                  Some (fun _ => Throw (PlainError "invalid wire type")) |}
             (fun _ => Throw (PlainError "invalid wire type"))
             (fun _ => Return tt) tt (PlainError "invalid wire type"));
      reflexivity. }
  assert (H3 : Conn.isSome (Conn.socket c) && Conn.isConnected c = true)
    by reflexivity.
  destruct (client_encodeMessage_never_throws unit unit api
              (fun _ _ => tt) (fun _ _ => tt) "SwitchCommandRequest" tt c 1 true o)
    as (R1 & R2 & R3 & R4).
  split; [exact H1|]. split; [exact H2|]. split; [exact H3|].
  split; [exact R1|]. split; [exact (R2 H1)|].
  split; [exact (proj2 (R3 H1) H3) | exact (proj2 (R4 H2) H3)].
Defined.

(** * Further properties of the code *)

(** ** The decoder on arbitrary input *)

Section DecoderSafety.

Import Varint.

(** [read] looks at no byte after the one that ends the varint. *)
Lemma read_more (rest : Buffer) :
  forall res shift bytes r Y,
    read rest res shift bytes = Return r ->
    read (rest ++ Y) res shift bytes = Return r.
Proof.
  induction rest as [|b rest IH]; intros res shift bytes r Y H.
  - discriminate H.
  - cbn [app read] in *.
    destruct (49 <? shift); [discriminate H|].
    destruct (MSB <=? byte_to_Z b); [apply IH; exact H | exact H].
Qed.

Lemma decode_more (buffer Y : Buffer) (offset : nat) r :
  (offset <= length buffer)%nat ->
  decode buffer offset = Return r ->
  decode (buffer ++ Y) offset = Return r.
Proof.
  unfold decode. intros Hlen H. rewrite skipn_app.
  replace (offset - length buffer)%nat with O by lia.
  apply read_more. exact H.
Qed.

(** What a frame taken at the preamble is made of: a header of at least
    three bytes, the payload, and the rest of the buffer. *)
Lemma tryDecodeMessage_head_takes (rest : Buffer) m buffer' :
  tryDecodeMessage (x00 :: rest) = (Return (Some m), buffer') ->
  exists header,
    x00 :: rest = header ++ data m ++ buffer'
    /\ (3 <= length header)%nat
    /\ Z.of_nat (length (data m)) <= MAX_MESSAGE_SIZE
    /\ 0 <= type m.
Proof.
  destruct rest as [|b rest]; [discriminate|].
  rewrite tryDecodeMessage_head by discriminate. cbv zeta.
  set (buffer := x00 :: b :: rest).
  destruct (decode buffer 1) as [[L lb]|e] eqn:D1; [|discriminate].
  destruct (Z.ltb_spec MAX_MESSAGE_SIZE L) as [|HL]; [discriminate|].
  destruct (length buffer <=? 1 + lb)%nat; [discriminate|].
  destruct (decode buffer (1 + lb)) as [[T tb]|e] eqn:D2; [|discriminate].
  destruct (Z.ltb_spec (Z.of_nat (length buffer)) (Z.of_nat (1 + lb + tb) + L))
    as [|Hfit]; [discriminate|].
  apply decode_result in D1. apply decode_result in D2.
  destruct D1 as [HL0 Hlb]. destruct D2 as [HT0 Htb].
  set (d := (1 + lb + tb)%nat) in *.
  assert (Hd : (3 <= d)%nat) by (unfold d; lia).
  assert (Et : Z.to_nat (Z.of_nat d + L) = (Z.to_nat L + d)%nat) by lia.
  rewrite Et. change (x00 :: b :: rest) with buffer.
  clearbody d buffer. intros Hr. injection Hr as <- <-.
  cbn [data type]. unfold slice, slice_from.
  replace (Z.to_nat L + d - d)%nat with (Z.to_nat L) by lia.
  exists (firstn d buffer).
  split; [|split; [|split]].
  - rewrite <- skipn_skipn, !firstn_skipn. reflexivity.
  - rewrite length_firstn. lia.
  - rewrite length_firstn, length_skipn. lia.
  - exact HT0.
Qed.

(** The outcomes of [tryDecodeMessage] on any buffer. *)
Inductive decode_outcome (buffer : Buffer)
  : completion (option DecodedMessage) -> Buffer -> Prop :=
| outcome_wait skipped buffer' :
    buffer = skipped ++ buffer' ->
    decode_outcome buffer (Return None) buffer'
| outcome_frame skipped header m buffer' :
    buffer = skipped ++ header ++ data m ++ buffer' ->
    (3 <= length header)%nat ->
    Z.of_nat (length (data m)) <= MAX_MESSAGE_SIZE ->
    0 <= type m ->
    decode_outcome buffer (Return (Some m)) buffer'
| outcome_fault skipped rest L n :
    buffer = skipped ++ x00 :: rest ->
    decode (x00 :: rest) 1 = Return (L, n) ->
    MAX_MESSAGE_SIZE < L ->
    decode_outcome buffer (Throw (too_large L)) (x00 :: rest).

Lemma tryDecodeMessage_head_outcome (rest : Buffer) :
  decode_outcome (x00 :: rest) (fst (tryDecodeMessage (x00 :: rest)))
                 (snd (tryDecodeMessage (x00 :: rest))).
Proof.
  destruct (tryDecodeMessage (x00 :: rest)) as [[[m|]|e] buffer'] eqn:E;
    cbn [fst snd].
  - destruct (tryDecodeMessage_head_takes rest m buffer' E)
      as (header & E1 & H1 & H2 & H3).
    apply (outcome_frame _ [] header m buffer'); assumption.
  - destruct rest as [|b rest].
    + injection E as <-. apply (outcome_wait _ []). reflexivity.
    + rewrite tryDecodeMessage_head in E by discriminate. cbv zeta in E.
      apply (outcome_wait _ []). cbn [app].
      destruct (decode (x00 :: b :: rest) 1) as [[L lb]|e];
        [|injection E as <-; reflexivity].
      destruct (MAX_MESSAGE_SIZE <? L); [discriminate|].
      destruct (length (x00 :: b :: rest) <=? 1 + lb)%nat;
        [injection E as <-; reflexivity|].
      destruct (decode (x00 :: b :: rest) (1 + lb)) as [[T tb]|e];
        [|injection E as <-; reflexivity].
      destruct (Z.of_nat (length (x00 :: b :: rest)) <? Z.of_nat (1 + lb + tb) + L);
        [injection E as <-; reflexivity | discriminate].
  - destruct rest as [|b rest]; [discriminate|].
    rewrite tryDecodeMessage_head in E by discriminate. cbv zeta in E.
    destruct (decode (x00 :: b :: rest) 1) as [[L lb]|e'] eqn:D1;
      [|discriminate].
    destruct (Z.ltb_spec MAX_MESSAGE_SIZE L) as [HL|].
    + injection E as <- <-.
      apply (outcome_fault _ [] (b :: rest) L lb); [reflexivity | exact D1 | exact HL].
    + destruct (length (x00 :: b :: rest) <=? 1 + lb)%nat; [discriminate|].
      destruct (decode (x00 :: b :: rest) (1 + lb)) as [[T tb]|e'];
        [|discriminate].
      destruct (Z.of_nat (length (x00 :: b :: rest)) <? Z.of_nat (1 + lb + tb) + L);
        discriminate.
Qed.

Lemma decode_outcome_skip (junk buffer : Buffer) r buffer' :
  decode_outcome buffer r buffer' -> decode_outcome (junk ++ buffer) r buffer'.
Proof.
  intros [skipped b' E | skipped header m b' E H1 H2 H3 | skipped rest L n E D HL].
  - apply (outcome_wait _ (junk ++ skipped)). rewrite E, app_assoc. reflexivity.
  - apply (outcome_frame _ (junk ++ skipped) header); try assumption.
    rewrite E, <- app_assoc. reflexivity.
  - apply (outcome_fault _ (junk ++ skipped) rest L n); try assumption.
    rewrite E, <- app_assoc. reflexivity.
Qed.

Lemma indexOf_none (buffer : Buffer) :
  indexOf buffer x00 = None -> Forall (fun b => b <> x00) buffer.
Proof.
  induction buffer as [|b buffer IH]; intros H; [constructor|].
  simpl in H. destruct (Byte.eqb b x00) eqn:E; [discriminate|].
  destruct (indexOf buffer x00); [discriminate|].
  constructor; [intros ->; discriminate E | apply IH; reflexivity].
Qed.

Lemma indexOf_no_preamble (buffer : Buffer) :
  Forall (fun b => b <> x00) buffer -> indexOf buffer x00 = None.
Proof.
  induction 1 as [|b buffer Hb _ IH]; [reflexivity|]. simpl.
  destruct (Byte.eqb b x00) eqn:E;
    [apply Byte.byte_dec_bl in E; contradiction|].
  rewrite IH. reflexivity.
Qed.

(** A buffer that holds no preamble: one byte is kept, more are dropped. *)
Lemma tryDecodeMessage_no_preamble (buffer : Buffer) :
  Forall (fun b => b <> x00) buffer ->
  tryDecodeMessage buffer
  = (Return None, if (length buffer <? 2)%nat then buffer else []).
Proof.
  intros Hj. unfold tryDecodeMessage.
  destruct (length buffer <? 2)%nat; [reflexivity|].
  destruct buffer as [|b0 buffer]; [reflexivity|].
  rewrite (indexOf_no_preamble _ Hj).
  inversion Hj as [|? ? Hb _]; subst.
  destruct (Byte.eqb b0 x00) eqn:E;
    [apply Byte.byte_dec_bl in E; contradiction|].
  reflexivity.
Qed.

Lemma tryDecodeMessage_outcome (buffer : Buffer) :
  decode_outcome buffer (fst (tryDecodeMessage buffer))
                 (snd (tryDecodeMessage buffer)).
Proof.
  destruct (indexOf buffer x00) as [i|] eqn:Hi.
  - destruct (indexOf_split buffer i Hi) as (junk & rest & -> & Hj).
    rewrite tryDecodeMessage_resync by exact Hj.
    apply decode_outcome_skip, tryDecodeMessage_head_outcome.
  - rewrite (tryDecodeMessage_no_preamble buffer (indexOf_none buffer Hi)).
    cbn [fst snd].
    destruct (length buffer <? 2)%nat.
    + apply (outcome_wait _ []). reflexivity.
    + apply (outcome_wait _ buffer). rewrite app_nil_r. reflexivity.
Qed.

(** The bytes a list of messages took from the buffer at the least: a
    header of three bytes and the payload for each. *)
Definition frame_bytes (messages : list DecodedMessage) : nat :=
  list_sum (map (fun m => (3 + length (data m))%nat) messages).

Definition within_cap (m : DecodedMessage) : Prop :=
  Z.of_nat (length (data m)) <= MAX_MESSAGE_SIZE /\ 0 <= type m.

Lemma frame_bytes_app (a b : list DecodedMessage) :
  frame_bytes (a ++ b) = (frame_bytes a + frame_bytes b)%nat.
Proof. unfold frame_bytes. rewrite map_app, list_sum_app. reflexivity. Qed.

(** The outcomes of the loop of [addData]. *)
Inductive loop_outcome (buffer : Buffer) (acc : list DecodedMessage)
  : completion (list DecodedMessage) -> Buffer -> Prop :=
| loop_returns consumed more buffer' :
    buffer = consumed ++ buffer' ->
    (frame_bytes more <= length consumed)%nat ->
    Forall within_cap more ->
    loop_outcome buffer acc (Return (acc ++ more)) buffer'
| loop_throws consumed rest L n :
    buffer = consumed ++ x00 :: rest ->
    decode (x00 :: rest) 1 = Return (L, n) ->
    MAX_MESSAGE_SIZE < L ->
    loop_outcome buffer acc (Throw (too_large L)) (x00 :: rest).

Lemma addData_loop_outcome (fuel : nat) :
  forall buffer acc,
    loop_outcome buffer acc (fst (addData_loop fuel buffer acc))
                 (snd (addData_loop fuel buffer acc)).
Proof.
  induction fuel as [|fuel IH]; intros buffer acc.
  - cbn [addData_loop fst snd].
    rewrite <- (app_nil_r acc) at 2.
    apply (loop_returns _ _ [] [] buffer); [reflexivity | unfold frame_bytes; simpl; lia | constructor].
  - cbn [addData_loop].
    destruct (0 <? length buffer)%nat.
    + pose proof (tryDecodeMessage_outcome buffer) as Ho.
      destruct (tryDecodeMessage buffer) as [[[m|]|e] buffer1]; cbn [fst snd] in *.
      * inversion Ho as [| skipped header m' b' E H1 H2 H3 |]; subst.
        specialize (IH buffer1 (acc ++ [m])).
        destruct (addData_loop fuel buffer1 (acc ++ [m])) as [r2 buffer2].
        cbn [fst snd] in *.
        inversion IH as [consumed more b2 E2 Hb Hc | consumed rest L n E2 D HL];
          subst.
        -- rewrite <- app_assoc. cbn [app].
           apply (loop_returns _ _ (skipped ++ header ++ data m ++ consumed)
                               (m :: more)).
           ++ rewrite <- !app_assoc. reflexivity.
           ++ unfold frame_bytes, list_sum in *. cbn [map fold_right].
              rewrite !length_app. lia.
           ++ constructor; [split; assumption | exact Hc].
        -- apply (loop_throws _ _ (skipped ++ header ++ data m ++ consumed) rest L n);
             [rewrite <- !app_assoc; reflexivity | exact D | exact HL].
      * inversion Ho as [skipped b' E | |]; subst.
        rewrite <- (app_nil_r acc) at 2.
        apply (loop_returns _ _ skipped [] buffer1);
          [reflexivity | unfold frame_bytes; simpl; lia | constructor].
      * inversion Ho as [| | skipped rest L n E D HL]; subst.
        apply (loop_throws _ _ skipped rest L n); [reflexivity | exact D | exact HL].
    + cbn [fst snd]. rewrite <- (app_nil_r acc) at 2.
      apply (loop_returns _ _ [] [] buffer); [reflexivity | unfold frame_bytes; simpl; lia | constructor].
Qed.

Lemma addData_outcome (h : ProtocolHandler) (d : Buffer) :
  loop_outcome (buffer h ++ d) [] (fst (addData h d))
               (buffer (snd (addData h d))).
Proof.
  unfold addData.
  pose proof (addData_loop_outcome (length (buffer h ++ d)) (buffer h ++ d) [])
    as H.
  destruct (addData_loop (length (buffer h ++ d)) (buffer h ++ d) []) as [r b].
  exact H.
Qed.

End DecoderSafety.

(** X1 -- the cap holds for every input.  Whatever bytes arrive and
    whatever the buffer holds, each message [addData] returns has a payload
    of at most 1 MiB and a type that is not negative. *)
Theorem addData_payload_within_cap (h : ProtocolHandler) (d : Buffer) :
  match fst (addData h d) with
  | Return messages =>
      Forall (fun m => Z.of_nat (length (data m)) <= 1048576 /\ 0 <= type m)
             messages
  | Throw _ => True
  end.
Proof.
  pose proof (addData_outcome h d) as H.
  destruct (fst (addData h d)) as [messages|e]; [|exact I].
  inversion H as [consumed more b' E Hb Hc|]; subst. exact Hc.
Qed.

(** X2 -- no byte is made up or kept twice.  After any call of [addData]
    the buffer is an end of what was buffered and received: the input is
    the bytes the call consumed followed by the new buffer.  The messages
    it returns account for at least three header bytes and their payload
    each within the consumed part, so the buffer never grows by more than
    the data received, less the frames delivered. *)
Theorem addData_conserves_bytes (h : ProtocolHandler) (d : Buffer) :
  exists consumed,
    buffer h ++ d = consumed ++ buffer (snd (addData h d))
    /\ match fst (addData h d) with
       | Return messages =>
           (getBufferSize (snd (addData h d)) + frame_bytes messages
            <= getBufferSize h + length d)%nat
       | Throw _ =>
           (getBufferSize (snd (addData h d)) <= getBufferSize h + length d)%nat
       end.
Proof.
  pose proof (addData_outcome h d) as H. unfold getBufferSize.
  destruct (addData h d) as [r [b']]. cbn [fst snd buffer] in *.
  inversion H as [consumed more b2 E Hb Hc | consumed rest L n E D HL]; subst;
    exists consumed; (split; [exact E|]);
    apply (f_equal (@length byte)) in E; rewrite !length_app in E;
    cbn [app]; lia.
Qed.

Section DecoderNoise.

Import Varint.

(** A stream of frames with bytes other than the preamble in front of
    some of them. *)
Inductive noisy_stream : list DecodedMessage -> Buffer -> Prop :=
| noisy_nil : noisy_stream [] []
| noisy_cons junk m frame messages stream :
    Forall (fun b => b <> x00) junk ->
    valid_message m ->
    encodeMessage m.(type) m.(data) = Return frame ->
    noisy_stream messages stream ->
    noisy_stream (m :: messages) (junk ++ frame ++ stream).

Lemma noisy_stream_length (messages : list DecodedMessage) (stream : Buffer) :
  noisy_stream messages stream -> (length messages <= length stream)%nat.
Proof.
  induction 1 as [|junk m frame messages stream Hj Hv He _ IH]; [simpl; lia|].
  pose proof (frame_length m frame Hv He).
  rewrite !length_app. simpl. lia.
Qed.

Lemma addData_loop_noisy (messages : list DecodedMessage) (stream : Buffer) :
  noisy_stream messages stream ->
  forall fuel acc,
    (length messages <= fuel)%nat ->
    addData_loop fuel stream acc = (Return (acc ++ messages), []).
Proof.
  induction 1 as [|junk m frame messages stream Hj Hv He Hs IH];
    intros fuel acc Hfuel.
  - rewrite app_nil_r. destruct fuel; reflexivity.
  - destruct fuel as [|fuel]; [simpl in Hfuel; lia|].
    cbn [addData_loop].
    pose proof (frame_length m frame Hv He) as Hlen.
    destruct (Nat.ltb_spec 0 (length (junk ++ frame ++ stream)));
      [|rewrite !length_app in *; lia].
    destruct (encodeMessage_frame m Hv) as (lb & tb & E & _ & _).
    assert (Hf : tryDecodeMessage (frame ++ stream) = (Return (Some m), stream))
      by (apply tryDecodeMessage_frame; assumption).
    rewrite E in He. injection He as <-.
    cbn [app] in *. rewrite (tryDecodeMessage_resync junk _ Hj), Hf.
    rewrite IH by (simpl in Hfuel; lia).
    rewrite <- app_assoc. reflexivity.
Qed.

(** The fault of [addData] is raised at a preamble whose length varint is
    whole and above the cap, and the buffer is left at that preamble. *)
Lemma addData_throws (h : ProtocolHandler) (d : Buffer) e h' :
  addData h d = (Throw e, h') ->
  exists rest L n,
    buffer h' = x00 :: rest
    /\ decode (x00 :: rest) 1 = Return (L, n)
    /\ MAX_MESSAGE_SIZE < L
    /\ e = too_large L.
Proof.
  intros H. pose proof (addData_outcome h d) as Ho. rewrite H in Ho.
  cbn [fst snd] in Ho.
  inversion Ho as [|consumed rest L n E D HL]; subst.
  exists rest, L, n. repeat split; auto.
Qed.

Lemma addData_at_fault (rest d : Buffer) (L : Z) (n : nat) :
  decode (x00 :: rest) 1 = Return (L, n) ->
  MAX_MESSAGE_SIZE < L ->
  addData {| buffer := x00 :: rest |} d
  = (Throw (too_large L), {| buffer := (x00 :: rest) ++ d |}).
Proof.
  intros D HL. unfold addData. cbn [buffer app length addData_loop].
  change (0 <? S (length (rest ++ d)))%nat with true. cbn iota.
  rewrite (tryDecodeMessage_too_large (rest ++ d) L n); [reflexivity| |exact HL].
  apply (decode_more (x00 :: rest) d 1); [|exact D].
  cbn [length]. lia.
Qed.

End DecoderNoise.

(** X3 -- resynchronisation.  Bytes other than the preamble [00] in front
    of a frame are skipped: a stream of frames, each of them preceded by
    any number of such bytes, gives the messages of the frames in order and
    leaves the buffer empty, wherever the stream is cut between the buffer
    and the data. *)
Theorem addData_skips_noise
        (h : ProtocolHandler) (d : Buffer) (messages : list DecodedMessage) :
  noisy_stream messages (buffer h ++ d) ->
  addData h d = (Return messages, new_ProtocolHandler).
Proof.
  intros Hs. unfold addData.
  rewrite (addData_loop_noisy messages _ Hs _ []); [reflexivity|].
  apply noisy_stream_length, Hs.
Qed.

Lemma addData_skips_noise_witness :
  let h := {| buffer := [x55] |} in
  let d := [xaa; x00; x01; x21; x01; xff; x00; x00; x08] in
  let messages := [ {| type := 33; data := [x01] |};
                    {| type := 8; data := [] |} ] in
  noisy_stream messages (buffer h ++ d)
  /\ addData h d = (Return messages, new_ProtocolHandler).
Proof.
  intros h d messages.
  assert (H : noisy_stream messages (buffer h ++ d)).
  { apply (noisy_cons [x55; xaa] {| type := 33; data := [x01] |}
                      [x00; x01; x21; x01] _ [xff; x00; x00; x08]).
    - repeat constructor; discriminate.
    - split; cbn; unfold MAX_SAFE_INTEGER, MAX_MESSAGE_SIZE; lia.
    - reflexivity.
    - apply (noisy_cons [xff] {| type := 8; data := [] |} [x00; x00; x08] [] []).
      + repeat constructor; discriminate.
      + split; cbn; unfold MAX_SAFE_INTEGER, MAX_MESSAGE_SIZE; lia.
      + reflexivity.
      + constructor. }
  split; [exact H|].
  exact (addData_skips_noise h d messages H).
Defined.

(** X4 -- input without a preamble.  When what is buffered and received
    holds no byte [00], [addData] returns no message; it drops all of it,
    except that a lone byte stays in the buffer. *)
Theorem addData_without_preamble (h : ProtocolHandler) (d : Buffer) :
  Forall (fun b => b <> x00) (buffer h ++ d) ->
  addData h d
  = (Return [],
     {| buffer := if (length (buffer h ++ d) <? 2)%nat
                  then buffer h ++ d else [] |}).
Proof.
  intros Hj. unfold addData.
  destruct (buffer h ++ d) as [|b rest] eqn:E; [reflexivity|].
  cbn [length addData_loop].
  change (0 <? S (length rest))%nat with true. cbn iota.
  rewrite (tryDecodeMessage_no_preamble _ Hj). reflexivity.
Qed.

Lemma addData_without_preamble_witness :
  let h := new_ProtocolHandler in
  let d := [x48; x54; x54; x50] in
  Forall (fun b => b <> x00) (buffer h ++ d)
  /\ addData h d = (Return [], {| buffer := [] |}).
Proof.
  intros h d.
  assert (H : Forall (fun b => b <> x00) (buffer h ++ d))
    by (repeat constructor; discriminate).
  split; [exact H|].
  exact (addData_without_preamble h d H).
Defined.

(** X5 -- the encoder has no cap.  [encodeMessage] frames a payload of
    more than 1 MiB like any other; a decoder of this library that
    receives the frame, whatever follows it, raises the fault
    "Message too large" and keeps the frame in its buffer. *)
Theorem encodeMessage_beyond_cap
        (T : MessageType) (payload tail : Buffer) :
  0 <= T <= MAX_SAFE_INTEGER ->
  MAX_MESSAGE_SIZE < Z.of_nat (length payload) <= MAX_SAFE_INTEGER ->
  exists frame,
    encodeMessage T payload = Return frame
    /\ addData new_ProtocolHandler (frame ++ tail)
       = (Throw (ProtocolError
                   ("Message too large: "
                      ++ numberToString (Z.of_nat (length payload))
                      ++ " bytes")%string),
          {| buffer := frame ++ tail |}).
Proof.
  intros HT [Hbig Hsafe]. unfold encodeMessage.
  destruct (encode_varint T HT) as (tb & Et & Vt).
  assert (HL : 0 <= Z.of_nat (length payload) <= MAX_SAFE_INTEGER) by lia.
  destruct (encode_varint _ HL) as (lb & El & Vl).
  rewrite Et, El. eexists. split; [reflexivity|].
  cbn [app].
  pose proof (addData_at_fault
                (Buffer_from lb ++ Buffer_from tb ++ payload) tail
                (Z.of_nat (length payload)) (length (Buffer_from lb))
                (decode_length _ _ _ Vl) Hbig) as H.
  unfold new_ProtocolHandler, addData in *. cbn [buffer app] in *.
  exact H.
Qed.

Lemma encodeMessage_beyond_cap_witness :
  let T := 33 in
  let payload := repeat x00 (Z.to_nat 1048577) in
  0 <= T <= MAX_SAFE_INTEGER
  /\ MAX_MESSAGE_SIZE < Z.of_nat (length payload) <= MAX_SAFE_INTEGER
  /\ exists frame,
      encodeMessage T payload = Return frame
      /\ addData new_ProtocolHandler (frame ++ [x00; x00; x07])
         = (Throw (ProtocolError
                     ("Message too large: "
                        ++ numberToString (Z.of_nat (length payload))
                        ++ " bytes")%string),
            {| buffer := frame ++ [x00; x00; x07] |}).
Proof.
  intros T payload.
  assert (H1 : 0 <= T <= MAX_SAFE_INTEGER)
    by (unfold T, MAX_SAFE_INTEGER; lia).
  assert (H2 : MAX_MESSAGE_SIZE < Z.of_nat (length payload) <= MAX_SAFE_INTEGER).
  { unfold payload. rewrite repeat_length, Z2Nat.id by lia.
    unfold MAX_MESSAGE_SIZE, MAX_SAFE_INTEGER. lia. }
  split; [exact H1|]. split; [exact H2|].
  exact (encodeMessage_beyond_cap T payload [x00; x00; x07] H1 H2).
Defined.

(** X6 -- a fault stays.  Once [addData] has thrown, the header above the
    cap is still at the head of the buffer: every later call throws the
    same fault again, whatever it is given, and only adds to the buffer.
    [clearBuffer] is what makes the handler usable again. *)
Theorem addData_fault_is_sticky
        (h h' : ProtocolHandler) (d d' : Buffer) (e : Error) :
  addData h d = (Throw e, h') ->
  addData h' d' = (Throw e, {| buffer := buffer h' ++ d' |})
  /\ getBufferSize (snd (addData h' d')) = (getBufferSize h' + length d')%nat
  /\ addData (clearBuffer h') d' = addData new_ProtocolHandler d'.
Proof.
  intros H.
  destruct (addData_throws h d e h' H) as (rest & L & n & Eb & D & HL & ->).
  destruct h' as [b']. cbn [buffer] in *. subst b'.
  rewrite (addData_at_fault rest d' L n D HL).
  split; [reflexivity|]. split; [|reflexivity].
  unfold getBufferSize. cbn [snd buffer]. rewrite length_app. reflexivity.
Qed.

Lemma addData_fault_is_sticky_witness :
  let h := new_ProtocolHandler in
  let d := [x00; x81; x80; x40] in
  let h' := {| buffer := d |} in
  let d' := [x21; x01] in
  let e := ProtocolError "Message too large: 1048577 bytes" in
  addData h d = (Throw e, h')
  /\ addData h' d' = (Throw e, {| buffer := buffer h' ++ d' |})
  /\ getBufferSize (snd (addData h' d')) = (getBufferSize h' + length d')%nat
  /\ addData (clearBuffer h') d' = addData new_ProtocolHandler d'.
Proof.
  intros h d h' d' e.
  assert (H : addData h d = (Throw e, h')) by (vm_compute; reflexivity).
  split; [exact H|].
  exact (addData_fault_is_sticky h h' d d' e H).
Defined.

(** ** Chunking of arbitrary input *)

Section Chunking.

Import Varint.

(** The buffer from its first preamble on. *)
Fixpoint strip (b : Buffer) : Buffer :=
  match b with
  | [] => []
  | x :: b' => if Byte.eqb x x00 then b else strip b'
  end.

Lemma strip_split (b : Buffer) :
  exists junk, b = junk ++ strip b /\ Forall (fun x => x <> x00) junk.
Proof.
  induction b as [|x b (junk & E & Hj)].
  - exists []. split; [reflexivity | constructor].
  - cbn [strip]. destruct (Byte.eqb x x00) eqn:Ex.
    + exists []. split; [reflexivity | constructor].
    + exists (x :: junk). split; [cbn [app]; f_equal; exact E|].
      constructor; [intros ->; discriminate Ex | exact Hj].
Qed.

Lemma strip_junk (junk b : Buffer) :
  Forall (fun x => x <> x00) junk -> strip (junk ++ b) = strip b.
Proof.
  induction 1 as [|x junk Hx _ IH]; [reflexivity|]. cbn [app strip].
  destruct (Byte.eqb x x00) eqn:Ex;
    [apply Byte.byte_dec_bl in Ex; contradiction | exact IH].
Qed.

Lemma strip_head (b : Buffer) :
  strip b = [] \/ exists rest, strip b = x00 :: rest.
Proof.
  induction b as [|x b IH]; [left; reflexivity|]. cbn [strip].
  destruct (Byte.eqb x x00) eqn:Ex; [|exact IH].
  apply Byte.byte_dec_bl in Ex. subst x. right. eauto.
Qed.

Lemma strip_preamble (rest : Buffer) : strip (x00 :: rest) = x00 :: rest.
Proof. reflexivity. Qed.

(** Decoding starts at the first preamble, when there is one. *)
Lemma tryDecodeMessage_strip (b rest : Buffer) :
  strip b = x00 :: rest ->
  tryDecodeMessage b = tryDecodeMessage (x00 :: rest).
Proof.
  intros E. destruct (strip_split b) as (junk & Eb & Hj).
  rewrite E in Eb. rewrite Eb. apply tryDecodeMessage_resync, Hj.
Qed.

Lemma strip_none (b : Buffer) :
  strip b = [] -> Forall (fun x => x <> x00) b.
Proof.
  intros E. destruct (strip_split b) as (junk & Eb & Hj).
  rewrite E, app_nil_r in Eb. subst b. exact Hj.
Qed.

(** A frame or a fault found at the head of the buffer is found there
    whatever follows. *)
Lemma tryDecodeMessage_head_more (rest Y : Buffer) r b' :
  tryDecodeMessage (x00 :: rest) = (r, b') ->
  r <> Return None ->
  tryDecodeMessage (x00 :: rest ++ Y) = (r, b' ++ Y).
Proof.
  intros H Hr.
  destruct rest as [|x rest]; [injection H as <- <-; congruence|].
  rewrite tryDecodeMessage_head in H by discriminate.
  change (x00 :: (x :: rest) ++ Y) with (x00 :: x :: rest ++ Y).
  rewrite tryDecodeMessage_head by discriminate. cbv zeta in *.
  change (x00 :: x :: rest ++ Y) with ((x00 :: x :: rest) ++ Y).
  set (buffer := x00 :: x :: rest) in *.
  assert (Hlen : (2 <= length buffer)%nat) by (unfold buffer; simpl; lia).
  clearbody buffer.
  destruct (decode buffer 1) as [[L lb]|e] eqn:D1;
    [|injection H as <- <-; congruence].
  rewrite (decode_more buffer Y 1 _ ltac:(lia) D1).
  destruct (MAX_MESSAGE_SIZE <? L); [injection H as <- <-; reflexivity|].
  destruct (Nat.leb_spec (length buffer) (1 + lb)) as [|Hlb];
    [injection H as <- <-; congruence|].
  destruct (Nat.leb_spec (length (buffer ++ Y)) (1 + lb));
    [rewrite length_app in *; lia|].
  destruct (decode buffer (1 + lb)) as [[T tb]|e] eqn:D2;
    [|injection H as <- <-; congruence].
  rewrite (decode_more buffer Y (1 + lb) _ ltac:(lia) D2).
  apply decode_result in D1. destruct D1 as [HL0 _].
  set (d := (1 + lb + tb)%nat) in *.
  destruct (Z.ltb_spec (Z.of_nat (length buffer)) (Z.of_nat d + L)) as [|Hfit];
    [injection H as <- <-; congruence|].
  destruct (Z.ltb_spec (Z.of_nat (length (buffer ++ Y))) (Z.of_nat d + L));
    [rewrite length_app in *; lia|].
  assert (Et : Z.to_nat (Z.of_nat d + L) = (Z.to_nat L + d)%nat) by lia.
  rewrite Et in *. clearbody d.
  injection H as <- <-. unfold slice, slice_from.
  replace (Z.to_nat L + d - d)%nat with (Z.to_nat L) by lia.
  rewrite !skipn_app.
  replace (d - length buffer)%nat with O by lia.
  replace (Z.to_nat L + d - length buffer)%nat with O by lia.
  cbn [skipn]. rewrite firstn_app, length_skipn.
  replace (Z.to_nat L - (length buffer - d))%nat with O by lia.
  cbn [firstn]. rewrite app_nil_r. reflexivity.
Qed.

Lemma tryDecodeMessage_more (b Y : Buffer) r b' :
  tryDecodeMessage b = (r, b') ->
  r <> Return None ->
  tryDecodeMessage (b ++ Y) = (r, b' ++ Y).
Proof.
  intros H Hr.
  destruct (strip_head b) as [E | (rest & E)].
  - rewrite (tryDecodeMessage_no_preamble b (strip_none b E)) in H.
    injection H as <- _. congruence.
  - destruct (strip_split b) as (junk & Eb & Hj). rewrite E in Eb.
    rewrite (tryDecodeMessage_strip b rest E) in H.
    rewrite Eb, <- app_assoc. cbn [app].
    rewrite (tryDecodeMessage_resync junk _ Hj).
    apply tryDecodeMessage_head_more; assumption.
Qed.

(** When nothing is taken, what stays in the buffer starts, with what
    follows, at the same preamble as before. *)
Lemma tryDecodeMessage_wait_strip (b Y : Buffer) b' :
  tryDecodeMessage b = (Return None, b') ->
  strip (b ++ Y) = strip (b' ++ Y).
Proof.
  intros H.
  destruct (strip_head b) as [E | (rest & E)].
  - pose proof (strip_none b E) as Hj.
    rewrite (tryDecodeMessage_no_preamble b Hj) in H.
    injection H as <-. destruct (length b <? 2)%nat; [reflexivity|].
    apply strip_junk, Hj.
  - destruct (strip_split b) as (junk & Eb & Hj). rewrite E in Eb.
    rewrite (tryDecodeMessage_strip b rest E) in H.
    assert (Hb' : b' = x00 :: rest).
    { pose proof (tryDecodeMessage_head_outcome rest) as Ho.
      rewrite H in Ho. cbn [fst snd] in Ho.
      destruct rest as [|x rest]; [injection H as <-; reflexivity|].
      rewrite tryDecodeMessage_head in H by discriminate. cbv zeta in H.
      destruct (decode (x00 :: x :: rest) 1) as [[L lb]|e];
        [|injection H as <-; reflexivity].
      destruct (MAX_MESSAGE_SIZE <? L); [discriminate|].
      destruct (length (x00 :: x :: rest) <=? 1 + lb)%nat;
        [injection H as <-; reflexivity|].
      destruct (decode (x00 :: x :: rest) (1 + lb)) as [[T tb]|e];
        [|injection H as <-; reflexivity].
      destruct (Z.of_nat (length (x00 :: x :: rest)) <? Z.of_nat (1 + lb + tb) + L);
        [injection H as <-; reflexivity | discriminate]. }
    subst b'. rewrite Eb at 1. rewrite <- app_assoc.
    apply strip_junk, Hj.
Qed.

(** The loop with as many rounds as it may need. *)
Definition run (b : Buffer) (acc : list DecodedMessage)
  : completion (list DecodedMessage) * Buffer :=
  addData_loop (length b) b acc.

Lemma run_step (b : Buffer) (acc : list DecodedMessage) :
  run b acc
  = if (0 <? length b)%nat then
      match tryDecodeMessage b with
      | (Return None, b') => (Return acc, b')
      | (Return (Some m), b') => run b' (acc ++ [m])
      | (Throw e, b') => (Throw e, b')
      end
    else (Return acc, b).
Proof.
  unfold run. destruct b as [|x b]; [reflexivity|].
  cbn [length addData_loop].
  change (0 <? S (length b))%nat with true. cbn iota.
  destruct (tryDecodeMessage (x :: b)) as [[[m|]|e] b'] eqn:E; try reflexivity.
  apply tryDecodeMessage_shrinks in E. cbn [length] in E.
  apply addData_loop_fuel. lia.
Qed.

(** Two buffers that agree from their first preamble on give the same
    messages or fault, and buffers that agree in the same way. *)
Lemma run_strip (b1 b2 : Buffer) (acc : list DecodedMessage) :
  strip b1 = strip b2 ->
  fst (run b1 acc) = fst (run b2 acc)
  /\ strip (snd (run b1 acc)) = strip (snd (run b2 acc)).
Proof.
  intros E.
  assert (Hjunk : forall b, strip b = [] ->
            fst (run b acc) = Return acc /\ strip (snd (run b acc)) = []).
  { intros b Eb. rewrite run_step.
    destruct (0 <? length b)%nat; [|split; [reflexivity | exact Eb]].
    rewrite (tryDecodeMessage_no_preamble b (strip_none b Eb)).
    cbn [fst snd]. split; [reflexivity|].
    destruct (length b <? 2)%nat; [exact Eb | reflexivity]. }
  assert (Hpre : forall b rest, strip b = x00 :: rest ->
            run b acc = run (x00 :: rest) acc).
  { intros b rest Eb. rewrite (run_step b), (run_step (x00 :: rest)).
    rewrite (tryDecodeMessage_strip b rest Eb).
    destruct b as [|x b]; [discriminate Eb | reflexivity]. }
  destruct (strip_head b1) as [E1 | (rest & E1)].
  - destruct (Hjunk b1 E1) as [F1 S1].
    destruct (Hjunk b2 ltac:(congruence)) as [F2 S2].
    split; congruence.
  - rewrite (Hpre b1 rest E1), (Hpre b2 rest ltac:(congruence)).
    split; reflexivity.
Qed.

(** The loop on a buffer with more behind it: it goes as far as on the
    buffer alone, and on from what that leaves. *)
Lemma run_more (n : nat) :
  forall X Y acc,
    (length X <= n)%nat ->
    match run X acc with
    | (Return messages, X') =>
        fst (run (X ++ Y) acc) = fst (run (X' ++ Y) messages)
        /\ strip (snd (run (X ++ Y) acc)) = strip (snd (run (X' ++ Y) messages))
    | (Throw e, _) => fst (run (X ++ Y) acc) = Throw e
    end.
Proof.
  induction n as [|n IH]; intros X Y acc Hn.
  - destruct X; [|simpl in Hn; lia]. rewrite run_step. cbn [length Nat.ltb Nat.leb].
    cbn [app]. split; reflexivity.
  - rewrite (run_step X).
    destruct (Nat.ltb_spec 0 (length X)) as [Hpos|Hz].
    + destruct (tryDecodeMessage X) as [[[m|]|e] X'] eqn:E.
      * pose proof (tryDecodeMessage_shrinks X m X' E) as Hs.
        specialize (IH X' Y (acc ++ [m]) ltac:(lia)).
        assert (Hstep : run (X ++ Y) acc = run (X' ++ Y) (acc ++ [m])).
        { rewrite (run_step (X ++ Y)).
          rewrite (tryDecodeMessage_more X Y _ _ E) by discriminate.
          destruct (Nat.ltb_spec 0 (length (X ++ Y)));
            [reflexivity | rewrite length_app in *; lia]. }
        rewrite Hstep. exact IH.
      * apply run_strip, (tryDecodeMessage_wait_strip X Y X' E).
      * rewrite (run_step (X ++ Y)).
        rewrite (tryDecodeMessage_more X Y _ _ E) by discriminate.
        destruct (Nat.ltb_spec 0 (length (X ++ Y)));
          [reflexivity | rewrite length_app in *; lia].
    + destruct X; [|simpl in Hz; lia]. cbn [app]. split; reflexivity.
Qed.

(** The messages found so far are handed on as they are. *)
Lemma addData_loop_acc (fuel : nat) :
  forall b acc,
    addData_loop fuel b acc
    = (match fst (addData_loop fuel b []) with
       | Return messages => Return (acc ++ messages)
       | Throw e => Throw e
       end, snd (addData_loop fuel b [])).
Proof.
  induction fuel as [|fuel IH]; intros b acc.
  - cbn. rewrite app_nil_r. reflexivity.
  - cbn [addData_loop].
    destruct (0 <? length b)%nat; [|cbn; rewrite app_nil_r; reflexivity].
    destruct (tryDecodeMessage b) as [[[m|]|e] b'];
      [|cbn; rewrite app_nil_r; reflexivity | reflexivity].
    rewrite (IH b' (acc ++ [m])), (IH b' ([] ++ [m])).
    destruct (fst (addData_loop fuel b' [])); cbn [fst snd];
      [rewrite <- app_assoc|]; reflexivity.
Qed.

Lemma addData_run (h : ProtocolHandler) (d : Buffer) :
  addData h d
  = (fst (run (buffer h ++ d) []), {| buffer := snd (run (buffer h ++ d) []) |}).
Proof.
  unfold addData, run.
  destruct (addData_loop (length (buffer h ++ d)) (buffer h ++ d) []);
    reflexivity.
Qed.

Definition joined (r : completion (list (list DecodedMessage)))
  : completion (list DecodedMessage) :=
  match r with
  | Return outs => Return (concat outs)
  | Throw e => Throw e
  end.

Lemma feed_joined (chunks : list Buffer) :
  forall h chunk,
    fst (addData h (concat (chunk :: chunks)))
    = joined (fst (feed h (chunk :: chunks))).
Proof.
  induction chunks as [|chunk2 chunks IH]; intros h chunk.
  - cbn [concat feed]. rewrite app_nil_r.
    destruct (addData h chunk) as [[messages|e] h']; cbn;
      [rewrite app_nil_r|]; reflexivity.
  - specialize (IH (snd (addData h chunk)) chunk2).
    cbn [feed] in *. cbn [concat] in *.
    set (Y := chunk2 ++ concat chunks) in *.
    pose proof (run_more (length (buffer h ++ chunk)) (buffer h ++ chunk) Y []
                         ltac:(lia)) as Hm.
    rewrite (addData_run h (chunk ++ Y)), (addData_run h chunk) in *.
    cbn [fst snd buffer] in *. rewrite app_assoc.
    destruct (run (buffer h ++ chunk) []) as [[messages|e] X'];
      cbn [fst snd] in *; [|exact Hm].
    destruct Hm as [Hm _]. rewrite Hm.
    rewrite (addData_run {| buffer := X' |} Y) in IH. cbn [fst snd buffer] in IH.
    unfold run in *. rewrite addData_loop_acc. cbn [fst]. rewrite IH.
    destruct (addData {| buffer := X' |} chunk2) as [[m2|e2] h2];
      [|reflexivity].
    destruct (feed h2 chunks) as [[outs|e3] h3]; reflexivity.
Qed.

End Chunking.

(** X7 -- chunking of any input.  Whatever the bytes are, well formed or
    not, and whatever the buffer holds at the start, cutting the input
    into chunks changes neither the messages nor the fault: one call of
    [addData] on the whole input returns the messages of the successive
    calls on its chunks, in order, or throws the fault that one of them
    throws. *)
Theorem addData_chunking_any_input
        (h : ProtocolHandler) (chunk : Buffer) (chunks : list Buffer) :
  fst (addData h (concat (chunk :: chunks)))
  = match fst (feed h (chunk :: chunks)) with
    | Return outs => Return (concat outs)
    | Throw e => Throw e
    end.
Proof. exact (feed_joined chunks h chunk). Qed.

(** ** What happens to a connection, and what every step keeps *)

Section Reactions.

Import Conn.

(** The calls of the public methods and the callbacks of the socket, of
    the timers and of the promises: the ways the code of a connection is
    entered, each run to its end before the next.

    A call of [connect()] is there twice.  [do_connect network] is a call
    during which nothing else happens, with the outcome of each of its
    attempts; so is [on_reconnectTimer network] for the callback of the
    reconnect timer.  The steps such a call is made of are stimuli of
    their own, with anything between them: [connect_begins] to
    [reconnect_failed]. *)
Inductive Stimulus : Type :=
| do_connect (network : nat -> SocketOutcome)
| do_disconnect
| do_sendMessage (type : MessageType) (data : Buffer)
| do_setDeepSleepMode (enabled : bool)
| do_destroy
| do_setAuthenticated (authenticated : bool)
| do_setApiVersion (major minor : Number)
| do_setServerInfo (info : string)
| on_data (data : Buffer)
| on_error (first : bool) (error : Error)
| on_close
| on_end
| on_pingInterval
| on_pingTimeout
| on_reconnectTimer (network : nat -> SocketOutcome)
| connect_begins
| socket_connects
| socket_fails (message : string)
| connect_times_out
| retry_waits (ms : Z)
| retry_fires
| reconnect_begins
| reconnect_done
| reconnect_failed.

Definition react (s : Stimulus) : M unit :=
  match s with
  | do_connect network => connect network
  | do_disconnect => disconnect
  | do_sendMessage type data => sendMessage type data
  | do_setDeepSleepMode enabled => setDeepSleepMode enabled
  | do_destroy => destroy
  | do_setAuthenticated a => setAuthenticated a
  | do_setApiVersion major minor => setApiVersion major minor
  | do_setServerInfo info => setServerInfo info
  | on_data data => onData data
  | on_error first error => onError first error
  | on_close => onClose
  | on_end => onEnd
  | on_pingInterval => onPingInterval
  | on_pingTimeout => onPingTimeout
  | on_reconnectTimer network => onReconnectTimer network
  | connect_begins => connectBegin
  | socket_connects => onSocketConnect
  | socket_fails m => onSocketError m
  | connect_times_out => onConnectTimeout
  | retry_waits ms => retryWait ms
  | retry_fires => onRetry
  | reconnect_begins => reconnectBegin
  | reconnect_done => reconnectDone
  | reconnect_failed => reconnectFailed
  end.

(** The stimuli that are not a step of a [connect()] under way. *)
Definition whole (s : Stimulus) : bool :=
  match s with
  | connect_begins | socket_connects | socket_fails _ | connect_times_out
  | retry_waits _ | retry_fires | reconnect_begins | reconnect_done
  | reconnect_failed => false
  | _ => true
  end.

(** The connection after a sequence of stimuli, one after the other; a
    call that throws leaves the connection as it was when it threw. *)
Definition after (stimuli : list Stimulus) (c : Connection) : Connection :=
  fold_left (fun c s => snd (react s c)) stimuli c.

Lemma after_app (s1 s2 : list Stimulus) (c : Connection) :
  after (s1 ++ s2) c = after s2 (after s1 c).
Proof. apply fold_left_app. Qed.

(** [m] keeps [I]: from a connection where [I] holds it leaves one where
    [I] holds, whether it returns or throws. *)
Definition keeps (I : Connection -> Prop) {A} (m : M A) : Prop :=
  forall c, I c -> I (snd (m c)).

Lemma keeps_ret (I : Connection -> Prop) {A} (a : A) : keeps I (ret a).
Proof. intros c H. exact H. Qed.

Lemma keeps_throw (I : Connection -> Prop) {A} (e : Error) :
  keeps I (@throw A e).
Proof. intros c H. exact H. Qed.

Lemma keeps_read (I : Connection -> Prop) {A} (f : Connection -> A) :
  keeps I (read f).
Proof. intros c H. exact H. Qed.

Lemma keeps_bind (I : Connection -> Prop) {A B} (m : M A) (k : A -> M B) :
  keeps I m -> (forall a, keeps I (k a)) -> keeps I (bind m k).
Proof.
  intros Hm Hk c Hc. unfold bind. specialize (Hm c Hc).
  destruct (m c) as [[a|e] c']; cbn [snd] in *; [apply Hk, Hm | exact Hm].
Qed.

Lemma keeps_try_catch (I : Connection -> Prop) {A} (m : M A)
      (handler : Error -> M A) :
  keeps I m -> (forall e, keeps I (handler e)) -> keeps I (try_catch m handler).
Proof.
  intros Hm Hh c Hc. unfold try_catch. specialize (Hm c Hc).
  destruct (m c) as [[a|e] c']; cbn [snd] in *; [exact Hm | apply Hh, Hm].
Qed.

Lemma keeps_when (I : Connection -> Prop) (b : bool) (m : M unit) :
  keeps I m -> keeps I (when b m).
Proof. intros H. destruct b; [exact H | apply keeps_ret]. Qed.

Lemma keeps_if (I : Connection -> Prop) {A} (b : bool) (m1 m2 : M A) :
  keeps I m1 -> keeps I m2 -> keeps I (if b then m1 else m2).
Proof. intros H1 H2. destruct b; assumption. Qed.

Lemma keeps_forEach (I : Connection -> Prop) :
  (forall message, keeps I (handleMessage message)) ->
  forall messages, keeps I (forEach_handleMessage messages).
Proof.
  intros H messages. induction messages as [|m more IH]; cbn [forEach_handleMessage].
  - apply keeps_ret.
  - apply keeps_bind; [apply H | intros _; exact IH].
Qed.

Lemma keeps_after (I : Connection -> Prop) (allowed : Stimulus -> Prop) :
  (forall s, allowed s -> keeps I (react s)) ->
  forall stimuli c, Forall allowed stimuli -> I c -> I (after stimuli c).
Proof.
  intros H stimuli. induction stimuli as [|s stimuli IH]; intros c Ha Hc;
    [exact Hc|].
  inversion Ha as [|? ? Hs Ha']; subst.
  cbn [after fold_left]. apply IH; [exact Ha' | apply H; assumption].
Qed.

(** *** A call of [connect()] in steps *)

Definition settles (outcome : SocketOutcome) : Stimulus :=
  match outcome with
  | SocketConnected => socket_connects
  | SocketFailed m => socket_fails m
  | SocketSilent => connect_times_out
  end.

(** The steps of the attempts [n], [n + 1], ... of [p-retry], after the
    start of the first: how each one ends, and between two attempts the
    wait and the retry. *)
Fixpoint attempt_steps (network : nat -> SocketOutcome) (retries n : nat)
  : list Stimulus :=
  settles (network n)
  :: match network n, retries with
     | SocketConnected, _ | _, O => []
     | _, S retries' =>
         retry_waits (Z.min (1000 * 2 ^ Z.of_nat (n - 1)) 5000)
         :: retry_fires :: attempt_steps network retries' (S n)
     end.

(** The steps of [connect()]. *)
Definition connect_steps (network : nat -> SocketOutcome) (c : Connection)
  : list Stimulus :=
  connect_begins
  :: if isDestroyed c || State.is_connected (state c) then []
     else attempt_steps network
            (if reconnect (options c) then 3%nat else 0%nat) 1.

(** The steps of the callback of the reconnect timer. *)
Definition reconnect_steps (network : nat -> SocketOutcome) (c : Connection)
  : list Stimulus :=
  if isDestroyed c then [reconnect_begins]
  else
    reconnect_begins
    :: (if State.is_connected (state c) then []
        else attempt_steps network
               (if reconnect (options c) then 3%nat else 0%nat) 1)
    ++ [match fst (connect network c) with
        | Return _ => reconnect_done
        | Throw _ => reconnect_failed
        end].

Lemma settle_returns (outcome : SocketOutcome) (c : Connection) :
  match outcome with
  | SocketConnected => fst (settle outcome c) = Return tt
  | _ => exists e, fst (settle outcome c) = Throw e
  end.
Proof.
  destruct outcome; cbn [settle].
  - destruct c as [so pr st op rt pt ptt ir idd ed hd tr].
    unfold onSocketConnect. conn_cbv. rewrite updateState_spec.
    destruct hd, pt, ptt; reflexivity.
  - eexists. destruct c. reflexivity.
  - eexists. destruct c. reflexivity.
Qed.

Lemma react_settles (outcome : SocketOutcome) :
  react (settles outcome) = settle outcome.
Proof. destruct outcome; reflexivity. Qed.

(** [p-retry] with nothing else happening between its steps is the
    sequence of its steps. *)
Lemma pRetry_steps (network : nat -> SocketOutcome) (retries : nat) :
  forall n errors c,
    snd (pRetry (fun k => establishConnection (network k))
                retries 1000 5000 n errors c)
    = after (attempt_steps network retries n) (snd (openSocket c)).
Proof.
  induction retries as [|retries IH]; intros n errors c;
    cbn [pRetry attempt_steps]; unfold try_catch, establishConnection;
    unfold bind at 1; rewrite openSocket_spec; cbn [snd];
    pose proof (settle_returns (network n) (opened c)) as Hs;
    cbn [after fold_left]; rewrite react_settles;
    destruct (network n) as [|m|];
    destruct (settle _ (opened c)) as [[[]|e] c1];
    cbn [fst snd] in *;
    try reflexivity; try discriminate Hs;
    try (destruct Hs as [e' Hs]; discriminate Hs).
  - unfold bind at 1, effect at 1, assign at 1. rewrite IH.
    rewrite openSocket_spec. cbn [after fold_left react snd].
    unfold retryWait, effect, assign, onRetry. cbn [snd].
    rewrite openSocket_spec. reflexivity.
  - unfold bind at 1, effect at 1, assign at 1. rewrite IH.
    rewrite openSocket_spec. cbn [after fold_left react snd].
    unfold retryWait, effect, assign, onRetry. cbn [snd].
    rewrite openSocket_spec. reflexivity.
Qed.

(** A call of [connect()] during which nothing else happens is the
    sequence of its steps, none of them whole. *)
Lemma connect_in_steps (network : nat -> SocketOutcome) (c : Connection) :
  snd (connect network c) = after (connect_steps network c) c.
Proof.
  unfold connect, connect_steps, bind, read.
  cbn [after fold_left react]. unfold connectBegin, bind, read.
  destruct (isDestroyed c); [reflexivity|]. cbn [orb].
  destruct (State.is_connected (state c)); [reflexivity|].
  unfold try_catch.
  rewrite <- (pRetry_steps network _ 1%nat [] c).
  destruct (pRetry _ _ _ _ _ _ c) as [[[]|e] c1]; reflexivity.
Qed.

Lemma onReconnectTimer_in_steps
      (network : nat -> SocketOutcome) (c : Connection) :
  snd (onReconnectTimer network c) = after (reconnect_steps network c) c.
Proof.
  unfold onReconnectTimer, reconnect_steps, bind at 1, read at 1.
  destruct (isDestroyed c) eqn:Ed.
  - cbn [after fold_left react]. unfold reconnectBegin, bind, read.
    rewrite Ed. reflexivity.
  - pose proof (connect_in_steps network c) as Hc.
    unfold connect_steps in Hc. rewrite Ed in Hc. cbn [orb] in Hc.
    change (reconnect_begins :: ?l ++ ?t)
      with ((reconnect_begins :: l) ++ t).
    rewrite after_app.
    assert (Hb : snd (react reconnect_begins c) = snd (react connect_begins c)).
    { cbn [react]. unfold reconnectBegin, bind at 1, read at 1.
      rewrite Ed. reflexivity. }
    assert (Hs : after
                   (reconnect_begins
                      :: (if State.is_connected (state c) then []
                          else attempt_steps network
                                 (if reconnect (options c)
                                  then 3%nat else 0%nat) 1)) c
                 = snd (connect network c)).
    { rewrite Hc. cbn [after fold_left]. rewrite Hb. reflexivity. }
    rewrite Hs. unfold try_catch, bind at 1.
    destruct (connect network c) as [[[]|e] c1]; reflexivity.
Qed.

Lemma steps_not_whole (network : nat -> SocketOutcome) (c : Connection) :
  forallb whole (connect_steps network c) = false
  /\ forallb whole (reconnect_steps network c) = false.
Proof.
  unfold connect_steps, reconnect_steps.
  destruct (isDestroyed c); split; reflexivity.
Qed.

(** What must be shown of the parts of the code for every stimulus to
    keep [I]. *)
Record kept (I : Connection -> Prop) : Prop := {
  kept_stopPingTimer : keeps I stopPingTimer;
  kept_stopPingTimeoutTimer : keeps I stopPingTimeoutTimer;
  kept_sendMessage : forall type data, keeps I (sendMessage type data);
  kept_disconnect : keeps I disconnect;
  kept_handleDisconnect : keeps I handleDisconnect;
  kept_scheduleReconnect : keeps I scheduleReconnect;
  kept_ping : keeps I onPingInterval;
  kept_connect : forall network, keeps I (connect network);
  kept_destroy : keeps I destroy;
  kept_update : forall p,
    State.key p <> State.Kconnected -> keeps I (updateState [p]);
  kept_emit : forall e, e <> connect_event -> keeps I (emit e);
  kept_clear : keeps I (effect (ClearTimeout connectTimeoutTimer));
  kept_assign : forall f,
    (forall c, socket (f c) = socket c /\ state (f c) = state c
               /\ trace (f c) = trace c /\ isDestroyed (f c) = isDestroyed c
               /\ reconnectTimer (f c) = reconnectTimer c
               /\ pingTimer (f c) = pingTimer c
               /\ pingTimeoutTimer (f c) = pingTimeoutTimer c) ->
    keeps I (assign f)
}.

Lemma set_field_frame :
  (forall v c, socket (set_expectedDisconnect v c) = socket c
               /\ state (set_expectedDisconnect v c) = state c
               /\ trace (set_expectedDisconnect v c) = trace c
               /\ isDestroyed (set_expectedDisconnect v c) = isDestroyed c
               /\ reconnectTimer (set_expectedDisconnect v c) = reconnectTimer c
               /\ pingTimer (set_expectedDisconnect v c) = pingTimer c
               /\ pingTimeoutTimer (set_expectedDisconnect v c) = pingTimeoutTimer c)
  /\ (forall v c, socket (set_reconnect v c) = socket c
               /\ state (set_reconnect v c) = state c
               /\ trace (set_reconnect v c) = trace c
               /\ isDestroyed (set_reconnect v c) = isDestroyed c
               /\ reconnectTimer (set_reconnect v c) = reconnectTimer c
               /\ pingTimer (set_reconnect v c) = pingTimer c
               /\ pingTimeoutTimer (set_reconnect v c) = pingTimeoutTimer c)
  /\ (forall v c, socket (set_isReconnecting v c) = socket c
               /\ state (set_isReconnecting v c) = state c
               /\ trace (set_isReconnecting v c) = trace c
               /\ isDestroyed (set_isReconnecting v c) = isDestroyed c
               /\ reconnectTimer (set_isReconnecting v c) = reconnectTimer c
               /\ pingTimer (set_isReconnecting v c) = pingTimer c
               /\ pingTimeoutTimer (set_isReconnecting v c) = pingTimeoutTimer c)
  /\ (forall v c, socket (set_hasDeepSleep v c) = socket c
               /\ state (set_hasDeepSleep v c) = state c
               /\ trace (set_hasDeepSleep v c) = trace c
               /\ isDestroyed (set_hasDeepSleep v c) = isDestroyed c
               /\ reconnectTimer (set_hasDeepSleep v c) = reconnectTimer c
               /\ pingTimer (set_hasDeepSleep v c) = pingTimer c
               /\ pingTimeoutTimer (set_hasDeepSleep v c) = pingTimeoutTimer c)
  /\ (forall v c, socket (set_protocol v c) = socket c
               /\ state (set_protocol v c) = state c
               /\ trace (set_protocol v c) = trace c
               /\ isDestroyed (set_protocol v c) = isDestroyed c
               /\ reconnectTimer (set_protocol v c) = reconnectTimer c
               /\ pingTimer (set_protocol v c) = pingTimer c
               /\ pingTimeoutTimer (set_protocol v c) = pingTimeoutTimer c).
Proof. repeat split. Qed.

Section Kept.

Variable I : Connection -> Prop.
Hypothesis HI : kept I.

Lemma kept_handleDisconnectRequest : keeps I handleDisconnectRequest.
Proof.
  destruct set_field_frame as (F1 & F2 & _).
  unfold handleDisconnectRequest.
  apply keeps_bind;
    [apply keeps_try_catch;
       [apply (kept_sendMessage I HI) | intros _; apply keeps_ret]|].
  intros _. apply keeps_bind; [apply (kept_assign I HI), F1|].
  intros _. apply keeps_bind; [apply (kept_stopPingTimer I HI)|].
  intros _. apply keeps_bind; [apply (kept_stopPingTimeoutTimer I HI)|].
  intros _. apply keeps_bind; [apply keeps_read|].
  intros deep. apply keeps_bind;
    [apply keeps_when, (kept_assign I HI), F2
    | intros _; apply (kept_disconnect I HI)].
Qed.

Lemma kept_handleMessage (message : DecodedMessage) :
  keeps I (handleMessage message).
Proof.
  unfold handleMessage.
  apply keeps_if; [apply (kept_sendMessage I HI)|].
  apply keeps_if; [apply (kept_stopPingTimeoutTimer I HI)|].
  apply keeps_if; [apply kept_handleDisconnectRequest|].
  apply (kept_emit I HI). discriminate.
Qed.

Lemma kept_onData (data : Buffer) : keeps I (onData data).
Proof.
  destruct set_field_frame as (_ & _ & _ & _ & F5).
  unfold onData. apply keeps_try_catch.
  - apply keeps_bind.
    + intros c Hc. destruct (addData (protocol c) data) as [r p] eqn:E.
      cbn [snd].
      exact (kept_assign I HI (set_protocol p) (F5 p) c Hc).
    + intros messages. apply keeps_forEach, kept_handleMessage.
  - intros err. apply keeps_bind;
      [apply (kept_emit I HI); discriminate
      | intros _; apply (kept_disconnect I HI)].
Qed.

Lemma kept_onReconnectTimer (network : nat -> SocketOutcome) :
  keeps I (onReconnectTimer network).
Proof.
  destruct set_field_frame as (_ & _ & F3 & _).
  unfold onReconnectTimer.
  apply keeps_bind; [apply keeps_read|]. intros destroyed.
  apply keeps_if; [apply keeps_ret|].
  apply keeps_try_catch.
  - apply keeps_bind;
      [apply (kept_connect I HI) | intros _; apply (kept_assign I HI), F3].
  - intros _. apply keeps_bind;
      [apply (kept_assign I HI), F3
      | intros _; apply (kept_scheduleReconnect I HI)].
Qed.

Lemma kept_react (s : Stimulus) : whole s = true -> keeps I (react s).
Proof.
  destruct set_field_frame as (_ & _ & _ & F4 & _).
  destruct s; cbn [react whole]; intros Hs; try discriminate Hs.
  - apply (kept_connect I HI).
  - apply (kept_disconnect I HI).
  - apply (kept_sendMessage I HI).
  - unfold setDeepSleepMode.
    apply keeps_bind; [apply (kept_assign I HI), F4|]. intros _.
    apply keeps_bind; [apply keeps_read|]. intros isConn.
    apply keeps_when, (kept_stopPingTimer I HI).
  - apply (kept_destroy I HI).
  - apply (kept_update I HI). discriminate.
  - apply (kept_update I HI). discriminate.
  - apply (kept_update I HI). discriminate.
  - apply kept_onData.
  - unfold onError. apply keeps_bind;
      [apply keeps_when, (kept_clear I HI)
      | intros _; apply (kept_emit I HI); discriminate].
  - apply (kept_handleDisconnect I HI).
  - apply (kept_handleDisconnect I HI).
  - apply (kept_ping I HI).
  - apply (kept_handleDisconnect I HI).
  - apply kept_onReconnectTimer.
Qed.


End Kept.

End Reactions.

(** ** A varint that does not end *)

(** A buffer that starts with a preamble and a header whose length
    varint, or whose type varint after a length within the cap, runs on
    for ten bytes or more with the continuation bit set. *)
Definition malformed_header (buffer : Buffer) : Prop :=
  malformed_varint_at buffer 1
  \/ (exists L n,
        Varint.decode buffer 1 = Return (L, n)
        /\ L <= MAX_MESSAGE_SIZE
        /\ malformed_varint_at buffer (1 + n)).

Lemma malformed_varint_more (buffer more : Buffer) (offset : nat) :
  malformed_varint_at buffer offset ->
  malformed_varint_at (buffer ++ more) offset.
Proof.
  intros (cont & Y & E & Hlen & Hc).
  exists cont, (Y ++ more). split; [|split; assumption].
  assert (Ho : (offset <= length buffer)%nat).
  { destruct (Nat.le_gt_cases offset (length buffer)) as [H|H]; [exact H|].
    rewrite skipn_all2 in E by lia. destruct cont; [cbn in Hlen; lia|].
    discriminate E. }
  rewrite skipn_app, E.
  replace (offset - length buffer)%nat with 0%nat by lia.
  cbn [skipn]. rewrite app_assoc. reflexivity.
Qed.

Lemma malformed_header_more (rest more : Buffer) :
  malformed_header (x00 :: rest) -> malformed_header (x00 :: rest ++ more).
Proof.
  change (x00 :: rest ++ more) with ((x00 :: rest) ++ more).
  intros [H | (L & n & D & HL & H)].
  - left. apply malformed_varint_more, H.
  - right. exists L, n. split; [|split; [exact HL|]].
    + apply decode_more; [cbn [length]; lia | exact D].
    + apply malformed_varint_more, H.
Qed.

Lemma malformed_header_waits (rest : Buffer) :
  malformed_header (x00 :: rest) ->
  tryDecodeMessage (x00 :: rest) = (Return None, x00 :: rest).
Proof.
  intros [Hl | (L & n & D & HL & Ht)].
  - eapply tryDecodeMessage_length_throws. apply decode_malformed, Hl.
  - eapply tryDecodeMessage_type_throws; eauto.
    apply decode_malformed, Ht.
Qed.

(** Nothing that arrives later is decoded: the buffer grows. *)
Lemma feed_stuck (chunks : list Buffer) :
  forall rest,
    malformed_header (x00 :: rest) ->
    feed {| buffer := x00 :: rest |} chunks
    = (Return (map (fun _ => []) chunks),
       {| buffer := x00 :: rest ++ concat chunks |}).
Proof.
  induction chunks as [|chunk chunks IH]; intros rest H.
  - cbn [feed map concat]. rewrite app_nil_r. reflexivity.
  - cbn [feed map concat].
    rewrite (addData_wait {| buffer := x00 :: rest |} chunk (rest ++ chunk))
      by (try reflexivity;
          apply malformed_header_waits, malformed_header_more, H).
    rewrite (IH (rest ++ chunk)) by apply malformed_header_more, H.
    rewrite <- app_assoc. reflexivity.
Qed.

Lemma after_stuck (chunks : list Buffer) :
  forall rest c,
    Conn.protocol c = {| buffer := x00 :: rest |} ->
    malformed_header (x00 :: rest) ->
    after (map on_data chunks) c
    = Conn.set_protocol {| buffer := x00 :: rest ++ concat chunks |} c.
Proof.
  induction chunks as [|chunk chunks IH]; intros rest c Hp H.
  - cbn [map after fold_left concat]. rewrite app_nil_r, <- Hp.
    destruct c. reflexivity.
  - cbn [map after fold_left concat react].
    rewrite (onData_returns c chunk {| buffer := x00 :: rest ++ chunk |}).
    + cbn [snd].
      change (fold_left (fun c s => snd (react s c)) (map on_data chunks))
        with (after (map on_data chunks)).
      rewrite (IH (rest ++ chunk)).
      * rewrite <- app_assoc. destruct c. reflexivity.
      * destruct c. reflexivity.
      * apply malformed_header_more, H.
    + rewrite Hp. apply addData_wait; [reflexivity|].
      apply malformed_header_waits, malformed_header_more, H.
Qed.

(** C3 -- the code at a varint that does not end.  When the length
    varint of a header, or its type varint after a length within the cap,
    runs on for ten bytes or more with the continuation bit set,
    [varint.decode] throws and the [catch] of [tryDecodeMessage], written
    for a varint that is cut short, takes it for one: [addData] raises no
    fault and returns no message, and the connection's data handler emits
    no [error] and does not disconnect.  The decoder never gets past
    these bytes: whatever arrives afterwards, frames that are well formed
    as well, is added to the buffer and never decoded; no call throws,
    and the connection is left as it was but for its buffer. *)
Theorem malformed_varint_is_swallowed
        (c : Conn.Connection) (data rest : Buffer) (chunks : list Buffer) :
  buffer (Conn.protocol c) ++ data = x00 :: rest ->
  malformed_header (x00 :: rest) ->
  addData (Conn.protocol c) data = (Return [], {| buffer := x00 :: rest |})
  /\ Conn.onData data c
     = (Return tt, Conn.set_protocol {| buffer := x00 :: rest |} c)
  /\ feed (Conn.protocol c) (data :: chunks)
     = (Return (map (fun _ => []) (data :: chunks)),
        {| buffer := x00 :: rest ++ concat chunks |})
  /\ after (map on_data (data :: chunks)) c
     = Conn.set_protocol {| buffer := x00 :: rest ++ concat chunks |} c.
Proof.
  intros E Hbad.
  pose proof (addData_wait (Conn.protocol c) data rest E
                (malformed_header_waits rest Hbad)) as Ha.
  pose proof (onData_returns c data _ Ha) as Hd.
  split; [exact Ha|]. split; [exact Hd|]. split.
  - cbn [feed map]. rewrite Ha, (feed_stuck chunks rest Hbad). reflexivity.
  - cbn [map after fold_left react]. rewrite Hd. cbn [snd].
    change (fold_left (fun c s => snd (react s c)) (map on_data chunks))
      with (after (map on_data chunks)).
    rewrite (after_stuck chunks rest) by (try exact Hbad; destruct c; reflexivity).
    destruct c. reflexivity.
Qed.

Lemma malformed_varint_is_swallowed_witness :
  let c := connected_device in
  let data := x00 :: x01 :: repeat xff 10 in
  let rest := x01 :: repeat xff 10 in
  let chunks := [[x00; x00; x07]; [x00; x01; x08; xaa]] in
  buffer (Conn.protocol c) ++ data = x00 :: rest
  /\ malformed_header (x00 :: rest)
  /\ addData (Conn.protocol c) data = (Return [], {| buffer := x00 :: rest |})
  /\ Conn.onData data c
     = (Return tt, Conn.set_protocol {| buffer := x00 :: rest |} c)
  /\ feed (Conn.protocol c) (data :: chunks)
     = (Return (map (fun _ => []) (data :: chunks)),
        {| buffer := x00 :: rest ++ concat chunks |})
  /\ after (map on_data (data :: chunks)) c
     = Conn.set_protocol {| buffer := x00 :: rest ++ concat chunks |} c.
Proof.
  intros c data rest chunks.
  assert (H1 : buffer (Conn.protocol c) ++ data = x00 :: rest) by reflexivity.
  assert (H2 : malformed_header (x00 :: rest)).
  { right. exists 1, 1%nat. split; [reflexivity|].
    split; [unfold MAX_MESSAGE_SIZE; lia|].
    exists (repeat xff 10), []. split; [reflexivity|].
    split; [simpl; lia|].
    apply Forall_forall. intros b Hb. apply repeat_spec in Hb. subst b.
    unfold continued. vm_compute. discriminate. }
  split; [exact H1|]. split; [exact H2|].
  exact (malformed_varint_is_swallowed c data rest chunks H1 H2).
Defined.

(** C3, the claim fails at these inputs: a preamble followed by ten
    bytes [ff], and a preamble and a length of one followed by ten bytes
    [ff], raise nothing; the data handler keeps the bytes and emits no
    event, and a ping request that follows is neither answered nor
    decoded.  A length above the cap, checked two lines further in
    [tryDecodeMessage], throws. *)
Lemma malformed_varint_counterexample :
  addData new_ProtocolHandler (x00 :: repeat xff 10)
  = (Return [], {| buffer := x00 :: repeat xff 10 |})
  /\ addData new_ProtocolHandler (x00 :: x01 :: repeat xff 10)
     = (Return [], {| buffer := x00 :: x01 :: repeat xff 10 |})
  /\ Conn.onData (x00 :: repeat xff 10) connected_device
     = (Return tt,
        Conn.set_protocol {| buffer := x00 :: repeat xff 10 |} connected_device)
  /\ after [on_data (x00 :: repeat xff 10); on_data [x00; x00; x07]]
           connected_device
     = Conn.set_protocol {| buffer := x00 :: repeat xff 10 ++ [x00; x00; x07] |}
                         connected_device
  /\ fst (addData new_ProtocolHandler [x00; x81; x80; x40; x21])
     = Throw (ProtocolError "Message too large: 1048577 bytes").
Proof. vm_compute. repeat split. Qed.

(** ** Timers *)

Section Timers.

Import Conn.

Definition Timer_eqb (a b : Timer) : bool :=
  match a, b with
  | connectTimeoutTimer, connectTimeoutTimer
  | reconnectTimer_, reconnectTimer_
  | pingTimer_, pingTimer_
  | pingTimeoutTimer_, pingTimeoutTimer_ => true
  | _, _ => false
  end.

(** Whether timer [t] is armed once [e] has happened, given whether it
    was before. *)
Definition arms (t : Timer) (on : bool) (e : Effect) : bool :=
  match e with
  | SetTimeout t' _ | SetInterval t' _ => if Timer_eqb t' t then true else on
  | ClearTimeout t' | ClearInterval t' => if Timer_eqb t' t then false else on
  | _ => on
  end.

(** Timer [t] has been set and not cleared since. *)
Definition armed (t : Timer) (trace : list Effect) : bool :=
  fold_left (arms t) trace false.

(** Each of the three timers the connection keeps in a field is armed
    exactly when the field holds it. *)
Definition timers_recorded (c : Connection) : Prop :=
  armed pingTimer_ (trace c) = isSome (pingTimer c)
  /\ armed pingTimeoutTimer_ (trace c) = isSome (pingTimeoutTimer c)
  /\ armed reconnectTimer_ (trace c) = isSome (reconnectTimer c).

Lemma armed_app (t : Timer) (a b : list Effect) :
  armed t (a ++ b) = fold_left (arms t) b (armed t a).
Proof. apply fold_left_app. Qed.

Ltac timers :=
  unfold timers_recorded;
  cbn [snd trace pingTimer pingTimeoutTimer reconnectTimer isSome];
  rewrite ?armed_app; cbn [fold_left arms Timer_eqb];
  intuition congruence.

Lemma timers_stopPingTimeoutTimer : keeps timers_recorded stopPingTimeoutTimer.
Proof.
  intros [so pr st op rt pt ptt ir idd ed hd tr]. destruct ptt; conn_cbv; timers.
Qed.

Lemma timers_stopPingTimer : keeps timers_recorded stopPingTimer.
Proof.
  intros [so pr st op rt pt ptt ir idd ed hd tr].
  destruct pt, ptt; conn_cbv; timers.
Qed.

Lemma timers_cleanup : keeps timers_recorded cleanup.
Proof.
  intros c. rewrite cleanup_spec. cbn [snd].
  destruct c as [so pr st op rt pt ptt ir idd ed hd tr].
  unfold cleaned, cleanup_effects.
  destruct pt, ptt, rt, so; timers.
Qed.

Lemma timers_effect (e : Effect) :
  (forall t on, t <> connectTimeoutTimer -> arms t on e = on) ->
  keeps timers_recorded (effect e).
Proof.
  intros He [so pr st op rt pt ptt ir idd ed hd tr].
  conn_cbv. unfold timers_recorded.
  cbn [snd trace pingTimer pingTimeoutTimer reconnectTimer].
  rewrite !armed_app. cbn [fold_left]. rewrite !He by discriminate. tauto.
Qed.

Lemma timers_emit (e : Event) : keeps timers_recorded (emit e).
Proof. apply timers_effect. reflexivity. Qed.

Lemma timers_assign (f : Connection -> Connection) :
  (forall c, trace (f c) = trace c
             /\ reconnectTimer (f c) = reconnectTimer c
             /\ pingTimer (f c) = pingTimer c
             /\ pingTimeoutTimer (f c) = pingTimeoutTimer c) ->
  keeps timers_recorded (assign f).
Proof.
  intros Hf c (H1 & H2 & H3). unfold assign. cbn [snd].
  destruct (Hf c) as (Et & Er & Ep & Eq).
  unfold timers_recorded. rewrite Et, Er, Ep, Eq. tauto.
Qed.

Lemma timers_updateState (newState : State.ConnectionState) :
  keeps timers_recorded (updateState newState).
Proof.
  intros c. rewrite updateState_spec. cbn [snd].
  destruct c as [so pr st op rt pt ptt ir idd ed hd tr].
  unfold updated, state_events. conn_cbv.
  destruct (String.eqb _ _); timers.
Qed.

Lemma timers_sendMessage (type : MessageType) (data : Buffer) :
  keeps timers_recorded (sendMessage type data).
Proof.
  intros c. rewrite sendMessage_spec.
  destruct (isSome (socket c) && isConnected c); [|intros H; exact H].
  destruct (encodeMessage type data) as [frame|e]; [|intros H; exact H].
  destruct c as [so pr st op rt pt ptt ir idd ed hd tr]. cbn [snd]. conn_cbv.
  timers.
Qed.

Lemma timers_scheduleReconnect : keeps timers_recorded scheduleReconnect.
Proof.
  intros [so pr st op rt pt ptt ir idd ed hd tr]. unfold scheduleReconnect.
  destruct ir, idd; conn_cbv; cbn [orb]; timers.
Qed.

Lemma timers_startPingTimeoutTimer : keeps timers_recorded startPingTimeoutTimer.
Proof.
  intros [so pr st op rt pt ptt ir idd ed hd tr]. unfold startPingTimeoutTimer.
  destruct ptt; conn_cbv; timers.
Qed.

Lemma timers_startPingTimer : keeps timers_recorded startPingTimer.
Proof.
  intros [so pr st op rt pt ptt ir idd ed hd tr].
  destruct hd, pt, ptt; conn_cbv; timers.
Qed.

Lemma timers_disconnect : keeps timers_recorded disconnect.
Proof.
  unfold disconnect.
  apply keeps_bind; [apply timers_cleanup|]. intros _.
  apply keeps_bind; [apply timers_updateState|]. intros _.
  apply keeps_bind; [apply timers_emit|]. intros _.
  apply timers_assign. repeat split.
Qed.

Lemma timers_handleDisconnect : keeps timers_recorded handleDisconnect.
Proof.
  unfold handleDisconnect.
  apply keeps_bind; [apply keeps_read|]. intros wasConnected.
  apply keeps_bind; [apply timers_cleanup|]. intros _.
  apply keeps_bind; [apply timers_updateState|]. intros _.
  apply keeps_bind; [apply keeps_when, timers_emit|]. intros _.
  apply keeps_bind; [apply keeps_read|]. intros re.
  apply keeps_bind; [apply keeps_read|]. intros d.
  apply keeps_bind; [apply keeps_read|]. intros r.
  apply keeps_when, timers_scheduleReconnect.
Qed.

Lemma timers_onPingInterval : keeps timers_recorded onPingInterval.
Proof.
  unfold onPingInterval.
  apply keeps_bind; [apply keeps_read|]. intros isConn.
  apply keeps_if; [apply timers_stopPingTimer|].
  apply keeps_try_catch.
  - apply keeps_bind; [apply timers_sendMessage|]. intros _.
    apply timers_startPingTimeoutTimer.
  - intros _. apply timers_handleDisconnect.
Qed.

Lemma timers_clear :
  keeps timers_recorded (effect (ClearTimeout connectTimeoutTimer)).
Proof. apply timers_effect. intros [] on H; try reflexivity; congruence. Qed.

Lemma timers_openSocket : keeps timers_recorded openSocket.
Proof.
  unfold openSocket.
  apply keeps_bind; [apply timers_cleanup|]. intros _.
  apply keeps_bind; [apply keeps_read|]. intros ms.
  apply keeps_bind;
    [apply timers_effect; intros [] on H; try reflexivity; congruence|].
  intros _. apply keeps_bind; [apply keeps_read|]. intros o.
  apply timers_effect; reflexivity.
Qed.

Lemma timers_onSocketConnect : keeps timers_recorded onSocketConnect.
Proof.
  unfold onSocketConnect.
  apply keeps_bind; [apply timers_clear|].
  intros _. apply keeps_bind; [apply keeps_read|]. intros o.
  apply keeps_bind; [apply timers_assign; repeat split|].
  intros _. apply keeps_bind; [apply timers_updateState|].
  intros _. apply keeps_bind; [apply timers_startPingTimer|].
  intros _. apply timers_emit.
Qed.

Lemma timers_onSocketError (m : string) :
  keeps timers_recorded (onSocketError m).
Proof.
  unfold onSocketError.
  apply keeps_bind; [apply timers_clear | intros _; apply keeps_throw].
Qed.

Lemma timers_onConnectTimeout : keeps timers_recorded onConnectTimeout.
Proof.
  unfold onConnectTimeout.
  apply keeps_bind;
    [apply timers_effect; reflexivity | intros _; apply keeps_throw].
Qed.

Lemma timers_establishConnection (outcome : SocketOutcome) :
  keeps timers_recorded (establishConnection outcome).
Proof.
  unfold establishConnection.
  apply keeps_bind; [apply timers_openSocket|]. intros _.
  destruct outcome; cbn [settle].
  - apply timers_onSocketConnect.
  - apply timers_onSocketError.
  - apply timers_onConnectTimeout.
Qed.

Lemma keeps_pRetry (I : Connection -> Prop) (fn : nat -> M unit)
      (minTimeout maxTimeout : Z) :
  (forall n, keeps I (fn n)) ->
  (forall ms, keeps I (effect (RetryDelay ms))) ->
  forall retries n errors,
    keeps I (pRetry fn retries minTimeout maxTimeout n errors).
Proof.
  intros Hfn Hd retries.
  induction retries as [|retries IH]; intros n errors; cbn [pRetry];
    apply keeps_try_catch; try apply Hfn; intros e.
  - apply keeps_throw.
  - apply keeps_bind; [apply Hd | intros _; apply IH].
Qed.

Lemma timers_connect (network : nat -> SocketOutcome) :
  keeps timers_recorded (connect network).
Proof.
  unfold connect.
  apply keeps_bind; [apply keeps_read|]. intros destroyed.
  apply keeps_if; [apply keeps_throw|].
  apply keeps_bind; [apply keeps_read|]. intros isConn.
  apply keeps_if; [apply keeps_ret|].
  apply keeps_bind; [apply keeps_read|]. intros re.
  apply keeps_try_catch; [|intros e; apply keeps_throw].
  apply keeps_pRetry.
  - intros n. apply timers_establishConnection.
  - intros ms. apply timers_effect. reflexivity.
Qed.

Lemma timers_destroy : keeps timers_recorded destroy.
Proof.
  unfold destroy.
  apply keeps_bind; [apply timers_assign; repeat split|].
  intros _. apply timers_cleanup.
Qed.

Lemma timers_kept : kept timers_recorded.
Proof.
  constructor.
  - apply timers_stopPingTimer.
  - apply timers_stopPingTimeoutTimer.
  - apply timers_sendMessage.
  - apply timers_disconnect.
  - apply timers_handleDisconnect.
  - apply timers_scheduleReconnect.
  - apply timers_onPingInterval.
  - apply timers_connect.
  - apply timers_destroy.
  - intros p _. apply timers_updateState.
  - intros e _. apply timers_emit.
  - apply timers_clear.
  - intros f Hf. apply timers_assign. intros c. specialize (Hf c). tauto.
Qed.

(** Every stimulus keeps the timers recorded, the steps of a [connect()]
    under way as well. *)
Lemma timers_react (s : Stimulus) : keeps timers_recorded (react s).
Proof.
  destruct (whole s) eqn:W; [apply (kept_react _ timers_kept), W|].
  destruct s; try discriminate W; cbn [react].
  - unfold connectBegin.
    apply keeps_bind; [apply keeps_read|]. intros destroyed.
    apply keeps_if; [apply keeps_throw|].
    apply keeps_bind; [apply keeps_read|]. intros isConn.
    apply keeps_if; [apply keeps_ret | apply timers_openSocket].
  - apply timers_onSocketConnect.
  - apply timers_onSocketError.
  - apply timers_onConnectTimeout.
  - apply timers_effect. reflexivity.
  - apply timers_openSocket.
  - unfold reconnectBegin, connectBegin.
    apply keeps_bind; [apply keeps_read|]. intros destroyed.
    apply keeps_if; [apply keeps_ret|].
    apply keeps_bind; [apply keeps_read|]. intros destroyed'.
    apply keeps_if; [apply keeps_throw|].
    apply keeps_bind; [apply keeps_read|]. intros isConn.
    apply keeps_if; [apply keeps_ret | apply timers_openSocket].
  - apply timers_assign. repeat split.
  - unfold reconnectFailed.
    apply keeps_bind; [apply timers_assign; repeat split|].
    intros _. apply timers_scheduleReconnect.
Qed.

Lemma timers_new (o : ConnectionOptions) : timers_recorded (new_Connection o).
Proof. repeat split. Qed.

Lemma cleaned_timers (c : Connection) :
  pingTimer (cleaned c) = None
  /\ pingTimeoutTimer (cleaned c) = None
  /\ reconnectTimer (cleaned c) = None.
Proof. repeat split. Qed.

Lemma disconnected_timers (c : Connection) :
  pingTimer (disconnected c) = None
  /\ pingTimeoutTimer (disconnected c) = None
  /\ reconnectTimer (disconnected c) = None.
Proof. destruct c. repeat split. Qed.

End Timers.

(** X8 -- no timer is lost.  Whatever has happened to a connection since
    it was made (calls of its methods, data, errors and the end of the
    socket, timers that fire, the steps of calls of [connect()] under
    way, one at a time), each of the ping timer, the
    ping timeout timer and the reconnect timer has been set and not
    cleared since exactly when the connection holds it in its field, so
    that [cleanup] reaches every timer that was set; and after
    [disconnect()] as after [destroy()] none of the three is left set. *)
Theorem no_timer_is_lost (o : Conn.ConnectionOptions) (stimuli : list Stimulus) :
  let c := after stimuli (Conn.new_Connection o) in
  (armed Conn.pingTimer_ (Conn.trace c) = Conn.isSome (Conn.pingTimer c)
   /\ armed Conn.pingTimeoutTimer_ (Conn.trace c)
      = Conn.isSome (Conn.pingTimeoutTimer c)
   /\ armed Conn.reconnectTimer_ (Conn.trace c)
      = Conn.isSome (Conn.reconnectTimer c))
  /\ (forall t, t <> Conn.connectTimeoutTimer ->
      armed t (Conn.trace (snd (Conn.disconnect c))) = false
      /\ armed t (Conn.trace (snd (Conn.destroy c))) = false).
Proof.
  intros c.
  assert (Hc : timers_recorded c).
  { apply (keeps_after timers_recorded (fun _ => True)).
    - intros s _. apply timers_react.
    - apply Forall_forall. intros s _. exact I.
    - apply timers_new. }
  split; [exact Hc|]. intros t Ht.
  pose proof (timers_disconnect c Hc) as (D1 & D2 & D3).
  pose proof (timers_destroy c Hc) as (E1 & E2 & E3).
  rewrite disconnect_spec in *. cbn [snd] in *.
  destruct (disconnected_timers c) as (F1 & F2 & F3).
  rewrite F1 in D1. rewrite F2 in D2. rewrite F3 in D3.
  assert (Hd : snd (Conn.destroy c) = cleaned (Conn.set_isDestroyed true c)).
  { unfold Conn.destroy, Conn.bind, Conn.assign. rewrite cleanup_spec.
    reflexivity. }
  rewrite Hd in *.
  destruct (cleaned_timers (Conn.set_isDestroyed true c)) as (G1 & G2 & G3).
  rewrite G1 in E1. rewrite G2 in E2. rewrite G3 in E3.
  destruct t; [congruence | split; assumption ..].
Qed.

(** ** The socket and the [connected] flag *)

Section Link.

Import Conn.

(** On a connection that is not destroyed, [state.connected] tells
    whether there is a socket. *)
Definition linked (c : Connection) : Prop :=
  isDestroyed c = false -> State.is_connected (state c) = isSome (socket c).

(** [m] leaves the socket, the state and the [isDestroyed] flag alone. *)
Definition same_link {A} (m : M A) : Prop :=
  forall c, socket (snd (m c)) = socket c
            /\ state (snd (m c)) = state c
            /\ isDestroyed (snd (m c)) = isDestroyed c.

Lemma same_link_keeps {A} (m : M A) : same_link m -> keeps linked m.
Proof.
  intros H c Hc. destruct (H c) as (E1 & E2 & E3).
  unfold linked. rewrite E1, E2, E3. exact Hc.
Qed.

Lemma same_link_bind {A B} (m : M A) (k : A -> M B) :
  same_link m -> (forall a, same_link (k a)) -> same_link (bind m k).
Proof.
  intros Hm Hk c. unfold bind. specialize (Hm c).
  destruct (m c) as [[a|e] c']; cbn [snd] in *; [|exact Hm].
  destruct (Hk a c') as (E1 & E2 & E3). destruct Hm as (F1 & F2 & F3).
  repeat split; congruence.
Qed.

Lemma same_link_stopPingTimeoutTimer : same_link stopPingTimeoutTimer.
Proof.
  intros [so pr st op rt pt ptt ir idd ed hd tr].
  destruct ptt; conn_cbv; repeat split.
Qed.

Lemma same_link_stopPingTimer : same_link stopPingTimer.
Proof.
  intros [so pr st op rt pt ptt ir idd ed hd tr].
  destruct pt, ptt; conn_cbv; repeat split.
Qed.

Lemma same_link_startPingTimeoutTimer : same_link startPingTimeoutTimer.
Proof.
  intros [so pr st op rt pt ptt ir idd ed hd tr]. unfold startPingTimeoutTimer.
  destruct ptt; conn_cbv; repeat split.
Qed.

Lemma same_link_effect (e : Effect) : same_link (effect e).
Proof. intros []. repeat split. Qed.

Lemma same_link_sendMessage (type : MessageType) (data : Buffer) :
  same_link (sendMessage type data).
Proof.
  intros c. rewrite sendMessage_spec.
  destruct (isSome (socket c) && isConnected c); [|repeat split].
  destruct (encodeMessage type data); [|repeat split].
  destruct c. repeat split.
Qed.

Lemma same_link_scheduleReconnect : same_link scheduleReconnect.
Proof.
  intros [so pr st op rt pt ptt ir idd ed hd tr]. unfold scheduleReconnect.
  destruct ir, idd; conn_cbv; repeat split.
Qed.

Lemma offline_link (c : Connection) :
  State.is_connected (state (updated offline (cleaned c))) = false
  /\ socket (updated offline (cleaned c)) = None.
Proof.
  destruct c as [so pr st op rt pt ptt ir idd ed hd tr].
  unfold updated, cleaned. conn_cbv. cbn [state socket].
  split; [apply is_connected_spread | reflexivity].
Qed.

Lemma linked_offline (c : Connection) : linked (updated offline (cleaned c)).
Proof.
  destruct (offline_link c) as [E1 E2]. intros _. rewrite E1, E2. reflexivity.
Qed.

Lemma linked_disconnect : keeps linked disconnect.
Proof.
  intros c _. rewrite disconnect_spec. cbn [snd].
  destruct (disconnected_offline c) as (E1 & E2 & _).
  intros _. unfold isConnected in E1. rewrite E1, E2. reflexivity.
Qed.

Lemma linked_handleDisconnect : keeps linked handleDisconnect.
Proof.
  intros c _. unfold handleDisconnect, bind at 1, read at 1.
  unfold bind at 1. rewrite cleanup_spec.
  unfold bind at 1. rewrite updateState_spec.
  apply (same_link_keeps
           (when (State.is_connected (state c)) (emit disconnect_event);;
            re <- read (fun c => reconnect (options c));;
            d <- read isDestroyed;;
            r <- read isReconnecting;;
            when (re && negb d && negb r) scheduleReconnect));
    [|apply linked_offline].
  apply same_link_bind;
    [destruct (State.is_connected (state c));
       [apply same_link_effect | intros ?; repeat split]|].
  intros _ c1. unfold bind, read.
  destruct (reconnect (options c1) && negb (isDestroyed c1)
            && negb (isReconnecting c1));
    [apply same_link_scheduleReconnect | repeat split].
Qed.

Lemma linked_onPingInterval : keeps linked onPingInterval.
Proof.
  unfold onPingInterval.
  apply keeps_bind; [apply keeps_read|]. intros isConn.
  apply keeps_if; [apply same_link_keeps, same_link_stopPingTimer|].
  apply keeps_try_catch.
  - apply same_link_keeps, same_link_bind;
      [apply same_link_sendMessage
      | intros _; apply same_link_startPingTimeoutTimer].
  - intros _. apply linked_handleDisconnect.
Qed.

(** An attempt on a connection that is not connected leaves it with a
    socket and connected, or with neither. *)
Lemma establishConnection_link (outcome : SocketOutcome) (c : Connection) :
  State.is_connected (state c) = false ->
  let r := fst (establishConnection outcome c) in
  let c' := snd (establishConnection outcome c) in
  isDestroyed c' = isDestroyed c
  /\ State.is_connected (state c') = isSome (socket c')
  /\ (forall e, r = Throw e -> State.is_connected (state c') = false).
Proof.
  intros Hc. rewrite establishConnection_spec.
  destruct c as [so pr st op rt pt ptt ir idd ed hd tr]. cbn [state] in Hc.
  destruct outcome; cbn [fst snd].
  - unfold established. destruct hd; conn_cbv; cbn [state socket isSome];
      (split; [reflexivity|]);
      (split; [apply is_connected_spread | discriminate]).
  - unfold failed_attempt. conn_cbv. cbn [state socket isSome]. auto.
  - unfold failed_attempt. conn_cbv. cbn [state socket isSome]. auto.
Qed.

Lemma pRetry_link (network : nat -> SocketOutcome) (retries : nat) :
  forall n errors c,
    State.is_connected (state c) = false ->
    let c' := snd (pRetry (fun k => establishConnection (network k))
                          retries 1000 5000 n errors c) in
    isDestroyed c' = isDestroyed c
    /\ State.is_connected (state c') = isSome (socket c').
Proof.
  induction retries as [|retries IH]; intros n errors c Hc;
    destruct (establishConnection_link (network n) c Hc) as (E1 & E2 & E3);
    cbn [pRetry]; unfold try_catch;
    destruct (establishConnection (network n) c) as [[[]|e] c1];
    cbn [fst snd] in *; try (split; assumption).
  specialize (E3 e eq_refl).
  unfold bind, effect, assign.
  set (c2 := set_trace _ c1).
  assert (H2 : State.is_connected (state c2) = false
               /\ isDestroyed c2 = isDestroyed c1)
    by (unfold c2; destruct c1; split; [exact E3 | reflexivity]).
  destruct H2 as [H2 H3].
  destruct (IH (S n) (errors ++ [e]) c2 H2) as [F1 F2].
  split; [congruence | exact F2].
Qed.

Lemma linked_connect (network : nat -> SocketOutcome) :
  keeps linked (connect network).
Proof.
  intros c Hc. unfold connect, bind, read.
  destruct (isDestroyed c) eqn:Ed; [exact Hc|].
  destruct (State.is_connected (state c)) eqn:Es; [exact Hc|].
  unfold try_catch.
  destruct (pRetry_link network (if reconnect (options c) then 3%nat else 0%nat)
                        1%nat [] c Es) as [E1 E2].
  destruct (pRetry _ _ _ _ _ _ c) as [[[]|e] c']; cbn [snd] in *;
    intros _; exact E2.
Qed.

Lemma linked_destroy : keeps linked destroy.
Proof.
  intros c _. unfold destroy, bind, assign. rewrite cleanup_spec. cbn [snd].
  destruct c. intros H. discriminate H.
Qed.

Lemma is_connected_set (p : State.Property) (o : State.ConnectionState) :
  State.key p <> State.Kconnected ->
  State.is_connected (State.spread o [p]) = State.is_connected o.
Proof.
  intros H. unfold State.is_connected, State.spread. cbn [fold_left].
  rewrite get_set_other by congruence. reflexivity.
Qed.

Lemma linked_update (p : State.Property) :
  State.key p <> State.Kconnected -> keeps linked (updateState [p]).
Proof.
  intros Hp c Hc. rewrite updateState_spec. cbn [snd].
  destruct c as [so pr st op rt pt ptt ir idd ed hd tr].
  unfold linked, updated in *. conn_cbv. cbn [state socket isDestroyed] in *.
  rewrite is_connected_set by exact Hp. exact Hc.
Qed.

Lemma linked_kept : kept linked.
Proof.
  constructor.
  - apply same_link_keeps, same_link_stopPingTimer.
  - apply same_link_keeps, same_link_stopPingTimeoutTimer.
  - intros type data. apply same_link_keeps, same_link_sendMessage.
  - apply linked_disconnect.
  - apply linked_handleDisconnect.
  - apply same_link_keeps, same_link_scheduleReconnect.
  - apply linked_onPingInterval.
  - apply linked_connect.
  - apply linked_destroy.
  - apply linked_update.
  - intros e _. apply same_link_keeps, same_link_effect.
  - apply same_link_keeps, same_link_effect.
  - intros f Hf c Hc. unfold assign. cbn [snd]. unfold linked.
    destruct (Hf c) as (E1 & E2 & _ & E3 & _). rewrite E1, E2, E3. exact Hc.
Qed.

(** No retry of [p-retry] finds the connection connected: no call of
    [connect()] has succeeded while the retry of another one was
    waiting. *)
Fixpoint calm (stimuli : list Stimulus) (c : Connection) : bool :=
  match stimuli with
  | [] => true
  | s :: more =>
      match s with
      | retry_fires => negb (State.is_connected (state c))
      | _ => true
      end
      && calm more (snd (react s c))
  end.

Lemma openSocket_link (c : Connection) :
  socket (opened c) = None
  /\ state (opened c) = state c
  /\ isDestroyed (opened c) = isDestroyed c.
Proof. destruct c. repeat split. Qed.

Lemma linked_openSocket (c : Connection) :
  State.is_connected (state c) = false -> linked (snd (openSocket c)).
Proof.
  intros Hc. rewrite openSocket_spec. cbn [snd].
  destruct (openSocket_link c) as (E1 & E2 & E3).
  intros _. rewrite E1, E2, Hc. reflexivity.
Qed.

Lemma onSocketConnect_link (c : Connection) :
  State.is_connected (state (snd (onSocketConnect c))) = true
  /\ isSome (socket (snd (onSocketConnect c))) = true
  /\ isDestroyed (snd (onSocketConnect c)) = isDestroyed c.
Proof.
  destruct c as [so pr st op rt pt ptt ir idd ed hd tr].
  unfold onSocketConnect. conn_cbv. rewrite updateState_spec.
  destruct hd, pt, ptt; conn_cbv; cbn [snd state socket isDestroyed isSome];
    (split; [apply is_connected_spread | split; reflexivity]).
Qed.

Lemma linked_connectBegin : keeps linked connectBegin.
Proof.
  intros c Hc. unfold connectBegin, bind, read.
  destruct (isDestroyed c); [exact Hc|].
  destruct (State.is_connected (state c)) eqn:Es; [exact Hc|].
  apply linked_openSocket, Es.
Qed.

(** A step keeps the link, a retry when it does not find the connection
    connected. *)
Lemma linked_react (s : Stimulus) (c : Connection) :
  (s = retry_fires -> State.is_connected (state c) = false) ->
  linked c -> linked (snd (react s c)).
Proof.
  intros Hr Hc.
  destruct (whole s) eqn:W; [apply (kept_react _ linked_kept), Hc; exact W|].
  destruct s; try discriminate W; cbn [react].
  - apply linked_connectBegin, Hc.
  - destruct (onSocketConnect_link c) as (E1 & E2 & E3).
    intros _. rewrite E1, E2. reflexivity.
  - revert c Hr Hc. intros c _. apply same_link_keeps.
    unfold onSocketError. apply same_link_bind;
      [apply same_link_effect | intros _ ?; repeat split].
  - revert c Hr Hc. intros c _. apply same_link_keeps.
    unfold onConnectTimeout. apply same_link_bind;
      [apply same_link_effect | intros _ ?; repeat split].
  - revert c Hr Hc. intros c _. apply same_link_keeps, same_link_effect.
  - apply linked_openSocket, Hr. reflexivity.
  - unfold reconnectBegin, bind at 1, read at 1.
    destruct (isDestroyed c); [exact Hc | apply linked_connectBegin, Hc].
  - revert c Hr Hc. intros c _. apply same_link_keeps. intros []. repeat split.
  - revert c Hr Hc. intros c _. apply same_link_keeps.
    unfold reconnectFailed. apply same_link_bind;
      [intros []; repeat split | intros _; apply same_link_scheduleReconnect].
Qed.

(** A connection that holds a socket says it is connected; this needs
    no condition. *)
Definition held (c : Connection) : Prop :=
  isSome (socket c) = true -> State.is_connected (state c) = true.

Lemma held_same {A} (m : M A) : same_link m -> keeps held m.
Proof.
  intros H c Hc. destruct (H c) as (E1 & E2 & _).
  unfold held. rewrite E1, E2. exact Hc.
Qed.

Lemma held_none (c : Connection) : socket c = None -> held c.
Proof. intros H. unfold held. rewrite H. discriminate. Qed.

Lemma held_handleDisconnect : keeps held handleDisconnect.
Proof.
  intros c _. unfold handleDisconnect, bind at 1, read at 1.
  unfold bind at 1. rewrite cleanup_spec.
  unfold bind at 1. rewrite updateState_spec.
  apply (held_same
           (when (State.is_connected (state c)) (emit disconnect_event);;
            re <- read (fun c => reconnect (options c));;
            d <- read isDestroyed;;
            r <- read isReconnecting;;
            when (re && negb d && negb r) scheduleReconnect));
    [|apply held_none, offline_link].
  apply same_link_bind;
    [destruct (State.is_connected (state c));
       [apply same_link_effect | intros ?; repeat split]|].
  intros _ c1. unfold bind, read.
  destruct (reconnect (options c1) && negb (isDestroyed c1)
            && negb (isReconnecting c1));
    [apply same_link_scheduleReconnect | repeat split].
Qed.

Lemma held_openSocket : keeps held openSocket.
Proof.
  intros c _. rewrite openSocket_spec. apply held_none, openSocket_link.
Qed.

Lemma held_connect (network : nat -> SocketOutcome) :
  keeps held (connect network).
Proof.
  intros c Hc. unfold connect, bind, read.
  destruct (isDestroyed c) eqn:Ed; [exact Hc|].
  destruct (State.is_connected (state c)) eqn:Es; [exact Hc|].
  unfold try_catch.
  destruct (pRetry_link network (if reconnect (options c) then 3%nat else 0%nat)
                        1%nat [] c Es) as [E1 E2].
  destruct (pRetry _ _ _ _ _ _ c) as [[[]|e] c']; cbn [snd] in *;
    intros H; exact (eq_trans E2 H).
Qed.

Lemma held_kept : kept held.
Proof.
  constructor.
  - apply held_same, same_link_stopPingTimer.
  - apply held_same, same_link_stopPingTimeoutTimer.
  - intros type data. apply held_same, same_link_sendMessage.
  - intros c _. rewrite disconnect_spec.
    apply held_none, disconnected_offline.
  - apply held_handleDisconnect.
  - apply held_same, same_link_scheduleReconnect.
  - unfold onPingInterval.
    apply keeps_bind; [apply keeps_read|]. intros isConn.
    apply keeps_if; [apply held_same, same_link_stopPingTimer|].
    apply keeps_try_catch.
    + apply held_same, same_link_bind;
        [apply same_link_sendMessage
        | intros _; apply same_link_startPingTimeoutTimer].
    + intros _. apply held_handleDisconnect.
  - apply held_connect.
  - intros c _. unfold destroy, bind, assign. rewrite cleanup_spec.
    apply held_none. reflexivity.
  - intros p Hp c Hc. rewrite updateState_spec. cbn [snd].
    destruct c as [so pr st op rt pt ptt ir idd ed hd tr].
    unfold held, updated in *. conn_cbv. cbn [state socket] in *.
    rewrite is_connected_set by exact Hp. exact Hc.
  - intros e _. apply held_same, same_link_effect.
  - apply held_same, same_link_effect.
  - intros f Hf c Hc. unfold assign. cbn [snd]. unfold held.
    destruct (Hf c) as (E1 & E2 & _). rewrite E1, E2. exact Hc.
Qed.

Lemma held_react (s : Stimulus) : keeps held (react s).
Proof.
  destruct (whole s) eqn:W; [apply (kept_react _ held_kept), W|].
  destruct s; try discriminate W; cbn [react].
  - unfold connectBegin.
    apply keeps_bind; [apply keeps_read|]. intros destroyed.
    apply keeps_if; [apply keeps_throw|].
    apply keeps_bind; [apply keeps_read|]. intros isConn.
    apply keeps_if; [apply keeps_ret | apply held_openSocket].
  - intros c _. destruct (onSocketConnect_link c) as (E1 & _). intros _.
    exact E1.
  - apply held_same. unfold onSocketError. apply same_link_bind;
      [apply same_link_effect | intros _ ?; repeat split].
  - apply held_same. unfold onConnectTimeout. apply same_link_bind;
      [apply same_link_effect | intros _ ?; repeat split].
  - apply held_same, same_link_effect.
  - apply held_openSocket.
  - unfold reconnectBegin, connectBegin.
    apply keeps_bind; [apply keeps_read|]. intros destroyed.
    apply keeps_if; [apply keeps_ret|].
    apply keeps_bind; [apply keeps_read|]. intros destroyed'.
    apply keeps_if; [apply keeps_throw|].
    apply keeps_bind; [apply keeps_read|]. intros isConn.
    apply keeps_if; [apply keeps_ret | apply held_openSocket].
  - apply held_same. intros []. repeat split.
  - apply held_same. unfold reconnectFailed. apply same_link_bind;
      [intros []; repeat split | intros _; apply same_link_scheduleReconnect].
Qed.

Lemma linked_after (stimuli : list Stimulus) :
  forall c, calm stimuli c = true -> linked c -> linked (after stimuli c).
Proof.
  induction stimuli as [|s stimuli IH]; intros c Hq Hc; [exact Hc|].
  cbn [calm] in Hq. apply andb_prop in Hq. destruct Hq as [Hs Hq].
  cbn [after fold_left]. apply IH; [exact Hq|].
  apply linked_react; [|exact Hc].
  intros ->. destruct (State.is_connected (state c)); [discriminate Hs|].
  reflexivity.
Qed.

End Link.

(** X9 -- connected means a socket.  Whatever has happened to a
    connection since it was made (calls of its methods, callbacks of the
    socket and of the timers, the steps of calls of [connect()] under
    way, one at a time), a connection that holds a socket says it is
    connected.  As long as it has not been destroyed and no retry of
    [p-retry] has found it connected, the converse holds as well:
    [isConnected()] is true exactly when it holds a socket; so
    [sendMessage] throws "Not connected" exactly when [isConnected()] is
    false, and otherwise writes the frame the encoder returns. *)
Theorem connected_means_socket
        (o : Conn.ConnectionOptions) (stimuli : list Stimulus)
        (T : MessageType) (payload : Buffer) :
  let c := after stimuli (Conn.new_Connection o) in
  (Conn.socket c <> None -> Conn.isConnected c = true)
  /\ (calm stimuli (Conn.new_Connection o) = true ->
      Conn.isDestroyed c = false ->
      Conn.isConnected c = Conn.isSome (Conn.socket c)
      /\ Conn.sendMessage T payload c
         = if Conn.isConnected c
           then match encodeMessage T payload with
                | Return frame =>
                    (Return tt,
                     Conn.set_trace
                       (Conn.trace c ++ [Conn.SocketWrite frame]) c)
                | Throw e => (Throw e, c)
                end
           else (Throw (ConnectionError "Not connected"), c)).
Proof.
  intros c. split.
  - assert (Hh : held c).
    { apply (keeps_after held (fun _ => True)).
      - intros s _. apply held_react.
      - apply Forall_forall. intros s _. exact I.
      - apply held_none. reflexivity. }
    intros Hs. apply Hh. destruct (Conn.socket c); [reflexivity | congruence].
  - intros Hq Hd.
    assert (Hc : linked c).
    { apply linked_after; [exact Hq|]. intros _. reflexivity. }
    specialize (Hc Hd). unfold Conn.isConnected. split; [exact Hc|].
    rewrite sendMessage_spec. unfold Conn.isConnected. rewrite <- Hc.
    destruct (State.is_connected (Conn.state c)); reflexivity.
Qed.

Lemma connected_means_socket_witness :
  let stimuli := [connect_begins; socket_fails "connect ECONNREFUSED";
                  retry_waits 1000; retry_fires; socket_connects;
                  do_setAuthenticated true; on_data [x00; x00; x07]] in
  let c := after stimuli (Conn.new_Connection device) in
  calm stimuli (Conn.new_Connection device) = true
  /\ Conn.isDestroyed c = false
  /\ Conn.isConnected c = Conn.isSome (Conn.socket c)
  /\ Conn.sendMessage 33 [x08; x01] c
     = if Conn.isConnected c
       then match encodeMessage 33 [x08; x01] with
            | Return frame =>
                (Return tt,
                 Conn.set_trace (Conn.trace c ++ [Conn.SocketWrite frame]) c)
            | Throw e => (Throw e, c)
            end
       else (Throw (ConnectionError "Not connected"), c).
Proof.
  intros stimuli c.
  assert (Hq : calm stimuli (Conn.new_Connection device) = true)
    by (vm_compute; reflexivity).
  assert (H : Conn.isDestroyed c = false) by (vm_compute; reflexivity).
  split; [exact Hq|]. split; [exact H|].
  exact (proj2 (connected_means_socket device stimuli 33 [x08; x01]) Hq H).
Defined.

(** Without that condition the link breaks.  A first [connect()] fails
    its first attempt and waits for its retry; a second [connect()]
    succeeds; the retry of the first then runs [cleanup], which destroys
    the socket of the second and leaves [state.connected] as it is:
    [isConnected()] is true and there is no socket. *)
Example overlapping_connects :
  let stimuli := [connect_begins; socket_fails "connect ECONNREFUSED";
                  retry_waits 1000; connect_begins; socket_connects;
                  retry_fires] in
  let c := after stimuli (Conn.new_Connection device) in
  calm stimuli (Conn.new_Connection device) = false
  /\ Conn.isDestroyed c = false
  /\ Conn.isConnected c = true
  /\ Conn.socket c = None
  /\ fst (Conn.sendMessage 33 [x08; x01] c)
     = Throw (ConnectionError "Not connected").
Proof. vm_compute. repeat split. Qed.

(** ** After [destroy()] *)

Section Destroyed.

Import Conn.

(** What a destroyed connection may still do: clear timers, emit events
    (to no listener, [destroy()] removes them all); not open or write to a
    socket, arm a timer, wait for a retry or announce a connection. *)
Definition inert (e : Effect) : bool :=
  match e with
  | SocketConnect _ _ | SocketWrite _ | SetTimeout _ _ | SetInterval _ _
  | RetryDelay _ | Emit connect_event => false
  | _ => true
  end.

Definition dead (base : list Effect) (c : Connection) : Prop :=
  isDestroyed c = true /\ socket c = None
  /\ exists effects, trace c = base ++ effects /\ forallb inert effects = true.

(** On a destroyed connection without a socket [m] does only inert
    things. *)
Definition quiet {A} (m : M A) : Prop :=
  forall c, isDestroyed c = true -> socket c = None ->
    isDestroyed (snd (m c)) = true /\ socket (snd (m c)) = None
    /\ exists effects,
        trace (snd (m c)) = trace c ++ effects
        /\ forallb inert effects = true.

Lemma quiet_keeps {A} (m : M A) (base : list Effect) :
  quiet m -> keeps (dead base) m.
Proof.
  intros H c (Hd & Hs & eff & Ht & Hi).
  destruct (H c Hd Hs) as (E1 & E2 & eff' & E3 & E4).
  split; [exact E1|]. split; [exact E2|].
  exists (eff ++ eff'). rewrite E3, Ht, app_assoc. split; [reflexivity|].
  rewrite forallb_app, Hi, E4. reflexivity.
Qed.

Ltac quiet_done :=
  cbn [snd isDestroyed socket trace];
  (split; [reflexivity|]); (split; [reflexivity|]);
  first [ exists []; split; [symmetry; apply app_nil_r | reflexivity]
        | eexists; split; [reflexivity | reflexivity]
        | eexists; split; [rewrite <- ?app_assoc; reflexivity | reflexivity] ].

Lemma quiet_stopPingTimeoutTimer : quiet stopPingTimeoutTimer.
Proof.
  intros [so pr st op rt pt ptt ir idd ed hd tr] Hd Hs.
  cbn [isDestroyed socket] in *. subst.
  destruct ptt; conn_cbv; quiet_done.
Qed.

Lemma quiet_stopPingTimer : quiet stopPingTimer.
Proof.
  intros [so pr st op rt pt ptt ir idd ed hd tr] Hd Hs.
  cbn [isDestroyed socket] in *. subst.
  destruct pt, ptt; conn_cbv; quiet_done.
Qed.

Lemma quiet_cleanup : quiet cleanup.
Proof.
  intros c Hd Hs. rewrite cleanup_spec.
  destruct c as [so pr st op rt pt ptt ir idd ed hd tr].
  cbn [isDestroyed socket] in *. subst.
  unfold cleaned, cleanup_effects.
  cbn [snd isDestroyed socket trace pingTimer pingTimeoutTimer reconnectTimer].
  split; [reflexivity|]. split; [reflexivity|].
  eexists. split; [reflexivity|]. destruct pt, ptt, rt; reflexivity.
Qed.

Lemma quiet_updateState (newState : State.ConnectionState) :
  quiet (updateState newState).
Proof.
  intros c Hd Hs. rewrite updateState_spec.
  destruct c as [so pr st op rt pt ptt ir idd ed hd tr].
  cbn [isDestroyed socket] in *. subst.
  unfold updated, state_events. conn_cbv.
  cbn [snd isDestroyed socket trace].
  split; [reflexivity|]. split; [reflexivity|].
  eexists. split; [reflexivity|]. destruct (String.eqb _ _); reflexivity.
Qed.

Lemma quiet_sendMessage (type : MessageType) (data : Buffer) :
  quiet (sendMessage type data).
Proof.
  intros c Hd Hs. rewrite sendMessage_spec, Hs. cbn [isSome andb snd].
  split; [exact Hd|]. split; [exact Hs|].
  exists []. split; [symmetry; apply app_nil_r | reflexivity].
Qed.

Lemma quiet_effect (e : Effect) : inert e = true -> quiet (effect e).
Proof.
  intros He [so pr st op rt pt ptt ir idd ed hd tr] Hd Hs.
  cbn [isDestroyed socket] in *. subst. conn_cbv.
  cbn [snd isDestroyed socket trace].
  split; [reflexivity|]. split; [reflexivity|].
  eexists. split; [reflexivity|]. cbn [forallb]. rewrite He. reflexivity.
Qed.

Lemma quiet_emit (e : Event) : e <> connect_event -> quiet (emit e).
Proof.
  intros He [so pr st op rt pt ptt ir idd ed hd tr] Hd Hs.
  cbn [isDestroyed socket] in *. subst. conn_cbv.
  cbn [snd isDestroyed socket trace].
  split; [reflexivity|]. split; [reflexivity|].
  eexists. split; [reflexivity|]. destruct e; try reflexivity. congruence.
Qed.

Lemma quiet_scheduleReconnect : quiet scheduleReconnect.
Proof.
  intros [so pr st op rt pt ptt ir idd ed hd tr] Hd Hs.
  cbn [isDestroyed socket] in *. subst. unfold scheduleReconnect.
  destruct ir; conn_cbv; quiet_done.
Qed.

Lemma quiet_assign (f : Connection -> Connection) :
  (forall c, socket (f c) = socket c /\ trace (f c) = trace c
             /\ isDestroyed (f c) = isDestroyed c) ->
  quiet (assign f).
Proof.
  intros Hf c Hd Hs. destruct (Hf c) as (E1 & E2 & E3).
  unfold assign. cbn [snd]. rewrite E1, E2, E3.
  split; [exact Hd|]. split; [exact Hs|].
  exists []. split; [symmetry; apply app_nil_r | reflexivity].
Qed.

Section Base.

Variable base : list Effect.

Lemma dead_disconnect : keeps (dead base) disconnect.
Proof.
  unfold disconnect.
  apply keeps_bind; [apply quiet_keeps, quiet_cleanup|]. intros _.
  apply keeps_bind; [apply quiet_keeps, quiet_updateState|]. intros _.
  apply keeps_bind; [apply quiet_keeps, quiet_emit; discriminate|]. intros _.
  apply quiet_keeps, quiet_assign. intros []. repeat split.
Qed.

Lemma dead_handleDisconnect : keeps (dead base) handleDisconnect.
Proof.
  unfold handleDisconnect.
  apply keeps_bind; [apply keeps_read|]. intros wasConnected.
  apply keeps_bind; [apply quiet_keeps, quiet_cleanup|]. intros _.
  apply keeps_bind; [apply quiet_keeps, quiet_updateState|]. intros _.
  apply keeps_bind;
    [apply keeps_when, quiet_keeps, quiet_emit; discriminate|]. intros _.
  apply keeps_bind; [apply keeps_read|]. intros re.
  apply keeps_bind; [apply keeps_read|]. intros d.
  apply keeps_bind; [apply keeps_read|]. intros r.
  apply keeps_when, quiet_keeps, quiet_scheduleReconnect.
Qed.

(** The ping cannot be sent, so the timeout timer is not started. *)
Lemma dead_onPingInterval : keeps (dead base) onPingInterval.
Proof.
  intros c Hc. pose proof Hc as (Hd & Hs & _).
  unfold onPingInterval, bind at 1, read at 1.
  destruct (negb (State.is_connected (state c)));
    [apply (quiet_keeps _ base quiet_stopPingTimer c Hc)|].
  unfold try_catch, bind. rewrite sendMessage_spec, Hs. cbn [isSome andb].
  apply dead_handleDisconnect, Hc.
Qed.

Lemma dead_connect (network : nat -> SocketOutcome) :
  keeps (dead base) (connect network).
Proof.
  intros c Hc. pose proof Hc as (Hd & _).
  unfold connect, bind, read. rewrite Hd. exact Hc.
Qed.

Lemma dead_destroy : keeps (dead base) destroy.
Proof.
  unfold destroy.
  apply keeps_bind; [|intros _; apply quiet_keeps, quiet_cleanup].
  intros c (Hd & Hs & eff & Ht & Hi). unfold assign. cbn [snd].
  destruct c as [so pr st op rt pt ptt ir idd ed hd tr].
  cbn [isDestroyed socket trace] in *. subst.
  split; [reflexivity|]. split; [reflexivity|].
  exists eff. split; [reflexivity | exact Hi].
Qed.

Lemma dead_kept : kept (dead base).
Proof.
  constructor.
  - apply quiet_keeps, quiet_stopPingTimer.
  - apply quiet_keeps, quiet_stopPingTimeoutTimer.
  - intros type data. apply quiet_keeps, quiet_sendMessage.
  - apply dead_disconnect.
  - apply dead_handleDisconnect.
  - apply quiet_keeps, quiet_scheduleReconnect.
  - apply dead_onPingInterval.
  - apply dead_connect.
  - apply dead_destroy.
  - intros p _. apply quiet_keeps, quiet_updateState.
  - intros e He. apply quiet_keeps, quiet_emit, He.
  - apply quiet_keeps, quiet_effect. reflexivity.
  - intros f Hf. apply quiet_keeps, quiet_assign.
    intros c. specialize (Hf c). tauto.
Qed.

(** The steps of an attempt of [connect()] that was under way: the
    socket that connects, [p-retry] that arms its timer, and the retry.
    None of them looks at [isDestroyed]. *)
Definition late (s : Stimulus) : bool :=
  match s with
  | socket_connects | retry_waits _ | retry_fires => true
  | _ => false
  end.

Lemma dead_react (s : Stimulus) :
  late s = false -> keeps (dead base) (react s).
Proof.
  intros L.
  destruct (whole s) eqn:W; [apply (kept_react _ dead_kept), W|].
  destruct s; try discriminate W; try discriminate L; cbn [react].
  - intros c Hc. pose proof Hc as (Hd & _).
    unfold connectBegin, bind, read. rewrite Hd. exact Hc.
  - unfold onSocketError. apply keeps_bind;
      [apply quiet_keeps, quiet_effect; reflexivity
      | intros _; apply keeps_throw].
  - unfold onConnectTimeout. apply keeps_bind;
      [apply quiet_keeps, quiet_effect; reflexivity
      | intros _; apply keeps_throw].
  - intros c Hc. pose proof Hc as (Hd & _).
    unfold reconnectBegin, bind, read. rewrite Hd. exact Hc.
  - apply quiet_keeps, quiet_assign. intros []. repeat split.
  - unfold reconnectFailed. apply keeps_bind;
      [apply quiet_keeps, quiet_assign; intros []; repeat split
      | intros _; apply quiet_keeps, quiet_scheduleReconnect].
Qed.

End Base.

(** A destroyed connection stays destroyed: nothing sets [isDestroyed]
    back. *)
Definition gone (c : Connection) : Prop := isDestroyed c = true.

Lemma gone_same {A} (m : M A) : same_link m -> keeps gone m.
Proof. intros H c Hc. destruct (H c) as (_ & _ & E). unfold gone. congruence. Qed.

Lemma gone_cleanup : keeps gone cleanup.
Proof. intros c Hc. rewrite cleanup_spec. destruct c. exact Hc. Qed.

Lemma gone_updateState (newState : State.ConnectionState) :
  keeps gone (updateState newState).
Proof. intros c Hc. rewrite updateState_spec. destruct c. exact Hc. Qed.

Lemma gone_assign (f : Connection -> Connection) :
  (forall c, isDestroyed (f c) = isDestroyed c) -> keeps gone (assign f).
Proof. intros Hf c Hc. unfold assign, gone. cbn [snd]. rewrite Hf. exact Hc. Qed.

Lemma gone_disconnect : keeps gone disconnect.
Proof.
  unfold disconnect.
  apply keeps_bind; [apply gone_cleanup|]. intros _.
  apply keeps_bind; [apply gone_updateState|]. intros _.
  apply keeps_bind; [apply gone_same, same_link_effect|]. intros _.
  apply gone_assign. intros []. reflexivity.
Qed.

Lemma gone_handleDisconnect : keeps gone handleDisconnect.
Proof.
  unfold handleDisconnect.
  apply keeps_bind; [apply keeps_read|]. intros wasConnected.
  apply keeps_bind; [apply gone_cleanup|]. intros _.
  apply keeps_bind; [apply gone_updateState|]. intros _.
  apply keeps_bind; [apply keeps_when, gone_same, same_link_effect|].
  intros _. apply keeps_bind; [apply keeps_read|]. intros re.
  apply keeps_bind; [apply keeps_read|]. intros d.
  apply keeps_bind; [apply keeps_read|]. intros r.
  apply keeps_when, gone_same, same_link_scheduleReconnect.
Qed.

Lemma gone_openSocket : keeps gone openSocket.
Proof. intros c Hc. rewrite openSocket_spec. destruct c. exact Hc. Qed.

Lemma gone_onSocketConnect : keeps gone onSocketConnect.
Proof.
  intros c Hc. destruct (onSocketConnect_link c) as (_ & _ & E).
  unfold gone. rewrite E. exact Hc.
Qed.

Lemma gone_onSocketError (m : string) : keeps gone (onSocketError m).
Proof.
  unfold onSocketError. apply keeps_bind;
    [apply gone_same, same_link_effect | intros _; apply keeps_throw].
Qed.

Lemma gone_onConnectTimeout : keeps gone onConnectTimeout.
Proof.
  unfold onConnectTimeout. apply keeps_bind;
    [apply gone_same, same_link_effect | intros _; apply keeps_throw].
Qed.

Lemma gone_connect (network : nat -> SocketOutcome) :
  keeps gone (connect network).
Proof.
  intros c Hc. unfold connect, bind, read. rewrite Hc. exact Hc.
Qed.

Lemma gone_connectBegin : keeps gone connectBegin.
Proof.
  intros c Hc. unfold connectBegin, bind, read. rewrite Hc. exact Hc.
Qed.

Lemma gone_kept : kept gone.
Proof.
  constructor.
  - apply gone_same, same_link_stopPingTimer.
  - apply gone_same, same_link_stopPingTimeoutTimer.
  - intros type data. apply gone_same, same_link_sendMessage.
  - apply gone_disconnect.
  - apply gone_handleDisconnect.
  - apply gone_same, same_link_scheduleReconnect.
  - unfold onPingInterval.
    apply keeps_bind; [apply keeps_read|]. intros isConn.
    apply keeps_if; [apply gone_same, same_link_stopPingTimer|].
    apply keeps_try_catch.
    + apply keeps_bind; [apply gone_same, same_link_sendMessage|].
      intros _. apply gone_same, same_link_startPingTimeoutTimer.
    + intros _. apply gone_handleDisconnect.
  - apply gone_connect.
  - unfold destroy. apply keeps_bind; [|intros _; apply gone_cleanup].
    intros c _. destruct c. reflexivity.
  - intros p _. apply gone_updateState.
  - intros e _. apply gone_same, same_link_effect.
  - apply gone_same, same_link_effect.
  - intros f Hf. apply gone_assign. intros c. specialize (Hf c). tauto.
Qed.

Lemma gone_react (s : Stimulus) : keeps gone (react s).
Proof.
  destruct (whole s) eqn:W; [apply (kept_react _ gone_kept), W|].
  destruct s; try discriminate W; cbn [react].
  - apply gone_connectBegin.
  - apply gone_onSocketConnect.
  - apply gone_onSocketError.
  - apply gone_onConnectTimeout.
  - apply gone_same, same_link_effect.
  - apply gone_openSocket.
  - intros c Hc. unfold reconnectBegin, bind, read. rewrite Hc. exact Hc.
  - apply gone_assign. intros []. reflexivity.
  - unfold reconnectFailed. apply keeps_bind;
      [apply gone_assign; intros []; reflexivity
      | intros _; apply gone_same, same_link_scheduleReconnect].
Qed.

Lemma none_late (stimuli : list Stimulus) :
  existsb late stimuli = false -> Forall (fun s => late s = false) stimuli.
Proof.
  induction stimuli as [|s stimuli IH]; intros H; [constructor|].
  cbn [existsb] in H. apply Bool.orb_false_iff in H. destruct H as [H1 H2].
  constructor; [exact H1 | apply IH, H2].
Qed.

Lemma destroy_spec (c : Connection) :
  destroy c = (Return tt, cleaned (set_isDestroyed true c)).
Proof.
  unfold destroy, bind, assign. rewrite cleanup_spec. reflexivity.
Qed.

End Destroyed.

(** X10 -- [destroy()] is final.  [destroy()] clears the timers, destroys
    the socket and leaves the state as it is (no event is emitted, and
    [isConnected()] answers as before).  From then on, whatever is called
    and whatever callback runs, one at a time, the connection stays
    destroyed, and [connect()] throws "Connection has been destroyed"
    without doing anything.  When no step of an attempt that was under
    way runs after [destroy()] (its socket connecting, [p-retry] arming
    its timer, its retry), the connection also stays without a socket: it
    never opens a socket, writes to one, arms a timer or emits [connect]
    again. *)
Theorem destroy_is_final
        (c : Conn.Connection) (stimuli : list Stimulus)
        (network : nat -> Conn.SocketOutcome) :
  let destroyed := snd (Conn.destroy c) in
  let later := after stimuli destroyed in
  fst (Conn.destroy c) = Return tt
  /\ Conn.state destroyed = Conn.state c
  /\ Conn.trace destroyed = Conn.trace c ++ cleanup_effects c
  /\ Conn.isDestroyed later = true
  /\ Conn.connect network later
     = (Throw (ConnectionError "Connection has been destroyed"), later)
  /\ (existsb late stimuli = false ->
      Conn.socket later = None
      /\ exists effects,
          Conn.trace later = Conn.trace destroyed ++ effects
          /\ forallb inert effects = true).
Proof.
  intros destroyed later. unfold later, destroyed.
  rewrite destroy_spec. cbn [fst snd].
  set (d := cleaned (Conn.set_isDestroyed true c)).
  assert (Hg : gone (after stimuli d)).
  { apply (keeps_after gone (fun _ => True)).
    - intros s _. apply gone_react.
    - apply Forall_forall. intros s _. exact I.
    - unfold d. destruct c. reflexivity. }
  split; [reflexivity|].
  split; [unfold d; destruct c; reflexivity|].
  split; [unfold d; destruct c; reflexivity|].
  split; [exact Hg|].
  split; [unfold Conn.connect, Conn.bind, Conn.read; rewrite Hg; reflexivity|].
  intros Hl.
  assert (Hd : dead (Conn.trace d) d).
  { unfold d. destruct c. split; [reflexivity|]. split; [reflexivity|].
    exists []. split; [symmetry; apply app_nil_r | reflexivity]. }
  pose proof (keeps_after (dead (Conn.trace d)) (fun s => late s = false)
                (dead_react (Conn.trace d)) stimuli d (none_late stimuli Hl) Hd)
    as (_ & H2 & H3).
  split; [exact H2 | exact H3].
Qed.

(** A socket that connects after [destroy()].  [destroy()] while
    [connect()] waits for its socket leaves that socket alone, and the
    callback of its ['connect'] does not look at [isDestroyed]: the
    destroyed connection takes the socket, says it is connected, starts
    the ping interval and emits [connect]. *)
Example destroy_during_connect :
  let stimuli := [connect_begins; do_destroy; socket_connects] in
  let c := after stimuli (Conn.new_Connection device) in
  Conn.isDestroyed c = true
  /\ Conn.isConnected c = true
  /\ Conn.socket c = Some {| Conn.remotePort := 6053;
                             Conn.remoteHost := "esphome.local" |}
  /\ Conn.pingTimer c = Some Conn.pingTimer_
  /\ last (Conn.trace c) Conn.SocketDestroy = Conn.Emit Conn.connect_event.
Proof. vm_compute. repeat split. Qed.

(** ** The end of a connection, asked for or not *)

Section Endings.

Import Conn.

Lemma is_authenticated_spread (o : State.ConnectionState) (b a : bool) :
  State.is_authenticated
    (State.spread o [State.connected b; State.authenticated a]) = a.
Proof.
  unfold State.is_authenticated, State.spread. cbn [fold_left].
  change State.Kauthenticated with (State.key (State.authenticated a)).
  rewrite get_set_same. reflexivity.
Qed.

(** Whether [handleDisconnect] arms the reconnect timer. *)
Definition reconnects (c : Connection) : bool :=
  reconnect (options c) && negb (isDestroyed c) && negb (isReconnecting c).

(** The connection after [handleDisconnect]. *)
Definition lost (c : Connection) : Connection :=
  let c1 := updated offline (cleaned c) in
  let c2 :=
    if State.is_connected (state c)
    then set_trace (trace c1 ++ [Emit disconnect_event]) c1 else c1 in
  if reconnects c
  then set_reconnectTimer (Some reconnectTimer_)
         (set_trace
            (trace c2 ++ [SetTimeout reconnectTimer_
                                     (reconnectInterval (options c))])
            (set_isReconnecting true c2))
  else c2.

Lemma handleDisconnect_spec (c : Connection) :
  handleDisconnect c = (Return tt, lost c).
Proof.
  unfold handleDisconnect, bind at 1, read at 1.
  unfold bind at 1. rewrite cleanup_spec.
  unfold bind at 1. rewrite updateState_spec.
  unfold lost, reconnects.
  generalize (State.is_connected (state c)). intros w.
  destruct c as [so pr st op rt pt ptt ir idd ed hd tr].
  unfold scheduleReconnect. conn_cbv.
  destruct w, (reconnect op), idd, ir; cbn [andb negb orb]; conn_cbv;
    reflexivity.
Qed.

Lemma lost_trace (c : Connection) :
  trace (lost c)
  = trace c ++ disconnect_effects c
      ++ (if State.is_connected (state c) then [Emit disconnect_event] else [])
      ++ (if reconnects c
          then [SetTimeout reconnectTimer_ (reconnectInterval (options c))]
          else []).
Proof.
  unfold lost, disconnect_effects.
  generalize (State.is_connected (state c)). intros w.
  destruct (reconnects c);
    destruct c as [so pr st op rt pt ptt ir idd ed hd tr];
    destruct w; conn_cbv; rewrite <- ?app_assoc, ?app_nil_r; reflexivity.
Qed.

Lemma lost_fields (c : Connection) :
  State.is_connected (state (lost c)) = false
  /\ State.is_authenticated (state (lost c)) = false
  /\ socket (lost c) = None
  /\ protocol (lost c) = new_ProtocolHandler
  /\ pingTimer (lost c) = None
  /\ pingTimeoutTimer (lost c) = None
  /\ reconnectTimer (lost c)
     = (if reconnects c then Some reconnectTimer_ else None)
  /\ isReconnecting (lost c) = isReconnecting c || reconnects c
  /\ options (lost c) = options c.
Proof.
  unfold lost.
  generalize (State.is_connected (state c)). intros w.
  destruct (reconnects c);
    destruct c as [so pr st op rt pt ptt ir idd ed hd tr];
    destruct w; conn_cbv; unfold offline;
    rewrite is_connected_spread, is_authenticated_spread, ?orb_true_r,
      ?orb_false_r;
    repeat split.
Qed.

(** Clearing timers, destroying the socket and announcing a change of
    state: what goes with the end of a connection. *)
Definition housekeeping (e : Effect) : bool :=
  match e with
  | ClearTimeout _ | ClearInterval _ | SocketDestroy
  | Emit (stateChange_event _) => true
  | _ => false
  end.

Lemma disconnect_effects_housekeeping (c : Connection) :
  forallb housekeeping (disconnect_effects c) = true.
Proof.
  unfold disconnect_effects, cleanup_effects, state_events.
  destruct (isSome (pingTimer c)), (isSome (pingTimeoutTimer c)),
    (isSome (reconnectTimer c)), (isSome (socket c)), (String.eqb _ _);
    reflexivity.
Qed.

Lemma disconnected_fields (c : Connection) :
  expectedDisconnect (disconnected c) = false
  /\ options (disconnected c) = options c
  /\ pingTimer (disconnected c) = None
  /\ pingTimeoutTimer (disconnected c) = None
  /\ reconnectTimer (disconnected c) = None
  /\ isReconnecting (disconnected c) = isReconnecting c
  /\ hasDeepSleep (disconnected c) = hasDeepSleep c
  /\ State.is_authenticated (state (disconnected c)) = false.
Proof.
  destruct c as [so pr st op rt pt ptt ir idd ed hd tr].
  unfold disconnected. conn_cbv. unfold offline.
  rewrite is_authenticated_spread. repeat split.
Qed.

Lemma encode_DisconnectResponse :
  encodeMessage DisconnectResponse [] = Return [x00; x00; x06].
Proof. reflexivity. Qed.

Lemma encode_PingRequest :
  encodeMessage PingRequest [] = Return [x00; x00; x07].
Proof. reflexivity. Qed.

(** The connection when [handleDisconnectRequest] calls [disconnect()]. *)
Definition acknowledged (c : Connection) : Connection :=
  let up := isSome (socket c) && State.is_connected (state c) in
  {| socket := socket c;
     protocol := protocol c;
     state := state c;
     options :=
       if hasDeepSleep c then options (set_reconnect false c) else options c;
     reconnectTimer := reconnectTimer c;
     pingTimer := None;
     pingTimeoutTimer := None;
     isReconnecting := isReconnecting c;
     isDestroyed := isDestroyed c;
     expectedDisconnect := true;
     hasDeepSleep := hasDeepSleep c;
     trace := trace c
                ++ (if up then [SocketWrite [x00; x00; x06]] else [])
                ++ (if isSome (pingTimer c)
                    then [ClearInterval pingTimer_] else [])
                ++ (if isSome (pingTimeoutTimer c)
                    then [ClearTimeout pingTimeoutTimer_] else []) |}.

Lemma handleDisconnectRequest_spec (c : Connection) :
  handleDisconnectRequest c = (Return tt, disconnected (acknowledged c)).
Proof.
  unfold handleDisconnectRequest, bind at 1, try_catch.
  rewrite sendMessage_spec, encode_DisconnectResponse.
  unfold acknowledged, isConnected.
  generalize (State.is_connected (state c)). intros w.
  destruct c as [so pr st op rt pt ptt ir idd ed hd tr].
  destruct so, w; cbn [isSome socket andb];
    destruct pt, ptt, hd; conn_cbv; rewrite disconnect_spec;
      rewrite <- ?app_assoc, ?app_nil_r; reflexivity.
Qed.

End Endings.

(** X11 -- the loss of the socket.  When the socket closes or ends, or
    the ping times out, [handleDisconnect] clears the timers, destroys the
    socket, empties the buffer and makes the state disconnected and
    unauthenticated; it emits [disconnect] exactly when the connection was
    connected, and arms the reconnect timer, with [reconnectInterval],
    exactly when reconnection is enabled, the connection is not destroyed
    and no reconnection is under way, which it then is. *)
Theorem socket_loss (c : Conn.Connection) :
  let c' := snd (Conn.handleDisconnect c) in
  Conn.onClose c = (Return tt, c')
  /\ Conn.onEnd c = (Return tt, c')
  /\ Conn.onPingTimeout c = (Return tt, c')
  /\ (exists effects,
        Conn.trace c'
        = Conn.trace c ++ effects
            ++ (if Conn.isConnected c
                then [Conn.Emit Conn.disconnect_event] else [])
            ++ (if reconnects c
                then [Conn.SetTimeout Conn.reconnectTimer_
                        (Conn.reconnectInterval (Conn.options c))]
                else [])
        /\ forallb housekeeping effects = true)
  /\ Conn.isConnected c' = false
  /\ Conn.isAuthenticated c' = false
  /\ Conn.socket c' = None
  /\ Conn.protocol c' = new_ProtocolHandler
  /\ Conn.pingTimer c' = None
  /\ Conn.pingTimeoutTimer c' = None
  /\ Conn.reconnectTimer c'
     = (if reconnects c then Some Conn.reconnectTimer_ else None)
  /\ Conn.isReconnecting c' = Conn.isReconnecting c || reconnects c.
Proof.
  intros c'. unfold c', Conn.onClose, Conn.onEnd, Conn.onPingTimeout.
  rewrite handleDisconnect_spec. cbn [snd].
  destruct (lost_fields c) as (F1 & F2 & F3 & F4 & F5 & F6 & F7 & F8 & _).
  repeat (split; [reflexivity|]).
  split.
  - exists (disconnect_effects c). split; [apply lost_trace|].
    apply disconnect_effects_housekeeping.
  - unfold Conn.isConnected, Conn.isAuthenticated. repeat split; assumption.
Qed.

(** X12 -- a device that goes to sleep.  On a [DisconnectRequest] the
    connection first acknowledges with the [DisconnectResponse] frame
    [00 00 06] (if it is connected; a failure to send is ignored), stops
    the ping timers and disconnects: [disconnect] is emitted once and no
    [message] event.  No reconnect timer is armed, whatever the reconnect
    policy; in deep sleep mode the policy is switched off for good.
    [isExpectedDisconnect()] is true only while [disconnect] is emitted:
    [disconnect()] resets it before it returns. *)
Theorem disconnect_request_handled
        (c : Conn.Connection) (message : DecodedMessage) :
  message.(type) = Conn.DisconnectRequest ->
  exists c' effects,
    Conn.handleMessage message c = (Return tt, c')
    /\ Conn.trace c'
       = Conn.trace c
           ++ (if Conn.isSome (Conn.socket c) && Conn.isConnected c
               then [Conn.SocketWrite [x00; x00; x06]] else [])
           ++ effects ++ [Conn.Emit Conn.disconnect_event]
    /\ forallb housekeeping effects = true
    /\ Conn.isConnected c' = false
    /\ Conn.isAuthenticated c' = false
    /\ Conn.socket c' = None
    /\ Conn.pingTimer c' = None
    /\ Conn.pingTimeoutTimer c' = None
    /\ Conn.reconnectTimer c' = None
    /\ Conn.isExpectedDisconnect c' = false
    /\ Conn.reconnect (Conn.options c')
       = Conn.reconnect (Conn.options c) && negb (Conn.hasDeepSleep c).
Proof.
  intros Ht. unfold Conn.handleMessage. rewrite Ht.
  cbn [Z.eqb Conn.DisconnectRequest Conn.PingRequest Conn.PingResponse Pos.eqb].
  rewrite handleDisconnectRequest_spec.
  set (a := acknowledged c).
  destruct (disconnected_fields a) as (F1 & F2 & F3 & F4 & F5 & _ & _ & F8).
  destruct (disconnected_offline a) as (G1 & G2 & _).
  exists (disconnected a),
    ((if Conn.isSome (Conn.pingTimer c)
      then [Conn.ClearInterval Conn.pingTimer_] else [])
       ++ (if Conn.isSome (Conn.pingTimeoutTimer c)
           then [Conn.ClearTimeout Conn.pingTimeoutTimer_] else [])
       ++ disconnect_effects a).
  split; [reflexivity|]. split; [|split].
  - rewrite disconnected_trace. unfold a at 1, acknowledged.
    cbn [Conn.trace]. unfold Conn.isConnected.
    rewrite <- !app_assoc. reflexivity.
  - rewrite !forallb_app, disconnect_effects_housekeeping.
    destruct (Conn.isSome (Conn.pingTimer c)),
      (Conn.isSome (Conn.pingTimeoutTimer c)); reflexivity.
  - unfold Conn.isAuthenticated, Conn.isExpectedDisconnect.
    repeat (split; [assumption|]).
    rewrite F2. unfold a, acknowledged. cbn [Conn.options].
    destruct c as [so pr st op rt pt ptt ir idd ed hd tr].
    destruct hd; cbn; rewrite ?andb_true_r, ?andb_false_r; reflexivity.
Qed.

Lemma disconnect_request_handled_witness :
  let c := connected_device in
  let message := {| type := Conn.DisconnectRequest; data := [] |} in
  message.(type) = Conn.DisconnectRequest
  /\ exists c' effects,
      Conn.handleMessage message c = (Return tt, c')
      /\ Conn.trace c'
         = Conn.trace c
             ++ (if Conn.isSome (Conn.socket c) && Conn.isConnected c
                 then [Conn.SocketWrite [x00; x00; x06]] else [])
             ++ effects ++ [Conn.Emit Conn.disconnect_event]
      /\ forallb housekeeping effects = true
      /\ Conn.isConnected c' = false
      /\ Conn.isAuthenticated c' = false
      /\ Conn.socket c' = None
      /\ Conn.pingTimer c' = None
      /\ Conn.pingTimeoutTimer c' = None
      /\ Conn.reconnectTimer c' = None
      /\ Conn.isExpectedDisconnect c' = false
      /\ Conn.reconnect (Conn.options c')
         = Conn.reconnect (Conn.options c) && negb (Conn.hasDeepSleep c).
Proof.
  intros c message.
  assert (H : message.(type) = Conn.DisconnectRequest) by reflexivity.
  split; [exact H|].
  exact (disconnect_request_handled c message H).
Defined.

(** ** Pings *)

Section Pings.

Import Conn.

(** The connection after the callback of the ping interval has sent its
    ping. *)
Definition pinged (c : Connection) : Connection :=
  set_pingTimeoutTimer (Some pingTimeoutTimer_)
    (set_trace
       (trace c
          ++ [SocketWrite [x00; x00; x07]]
          ++ (if isSome (pingTimeoutTimer c)
              then [ClearTimeout pingTimeoutTimer_] else [])
          ++ [SetTimeout pingTimeoutTimer_ (pingTimeout (options c))])
       c).

Lemma onPingInterval_spec (c : Connection) :
  onPingInterval c
  = if State.is_connected (state c)
    then if isSome (socket c) then (Return tt, pinged c)
         else handleDisconnect c
    else stopPingTimer c.
Proof.
  unfold onPingInterval, bind at 1, read at 1.
  destruct (State.is_connected (state c)) eqn:Hc; [|reflexivity].
  cbn [negb]. unfold try_catch, bind at 1.
  rewrite sendMessage_spec, encode_PingRequest.
  unfold isConnected. rewrite Hc.
  destruct (socket c) eqn:Hs; cbn [isSome andb]; [|reflexivity].
  unfold pinged. destruct c as [so pr st op rt pt ptt ir idd ed hd tr].
  unfold startPingTimeoutTimer.
  destruct ptt; conn_cbv; rewrite <- ?app_assoc; reflexivity.
Qed.

Lemma stopPingTimeoutTimer_armed (c : Connection) :
  pingTimeoutTimer c <> None ->
  stopPingTimeoutTimer c
  = (Return tt,
     set_pingTimeoutTimer None
       (set_trace (trace c ++ [ClearTimeout pingTimeoutTimer_]) c)).
Proof.
  destruct c as [so pr st op rt pt ptt ir idd ed hd tr].
  destruct ptt; [reflexivity | cbn; congruence].
Qed.

End Pings.

(** X13 -- the ping cycle.  On a connected socket the callback of the
    ping interval writes the [PingRequest] frame [00 00 07] and arms the
    ping timeout timer with [pingTimeout], after clearing the one there
    was; a [PingResponse] that arrives then clears the timer and does
    nothing else: it is not emitted as a [message], and the state, the
    socket and the interval stay as they are. *)
Theorem ping_cycle (c : Conn.Connection) (pong : DecodedMessage) :
  pong.(type) = Conn.PingResponse ->
  Conn.socket c <> None ->
  Conn.isConnected c = true ->
  let c1 := snd (Conn.onPingInterval c) in
  let c2 := snd (Conn.handleMessage pong c1) in
  fst (Conn.onPingInterval c) = Return tt
  /\ Conn.trace c1
     = Conn.trace c
         ++ [Conn.SocketWrite [x00; x00; x07]]
         ++ (if Conn.isSome (Conn.pingTimeoutTimer c)
             then [Conn.ClearTimeout Conn.pingTimeoutTimer_] else [])
         ++ [Conn.SetTimeout Conn.pingTimeoutTimer_
                             (Conn.pingTimeout (Conn.options c))]
  /\ Conn.pingTimeoutTimer c1 = Some Conn.pingTimeoutTimer_
  /\ fst (Conn.handleMessage pong c1) = Return tt
  /\ Conn.trace c2 = Conn.trace c1 ++ [Conn.ClearTimeout Conn.pingTimeoutTimer_]
  /\ Conn.pingTimeoutTimer c2 = None
  /\ Conn.pingTimer c2 = Conn.pingTimer c
  /\ Conn.state c2 = Conn.state c
  /\ Conn.socket c2 = Conn.socket c.
Proof.
  intros Ht Hs Hc c1 c2. unfold c2, c1. clear c1 c2.
  unfold Conn.handleMessage. rewrite Ht.
  cbn [Z.eqb Conn.PingRequest Conn.PingResponse Pos.eqb].
  unfold Conn.handlePongResponse.
  rewrite onPingInterval_spec. unfold Conn.isConnected in Hc. rewrite Hc.
  destruct (Conn.socket c) eqn:Es; [|congruence]. cbn [Conn.isSome fst snd].
  rewrite stopPingTimeoutTimer_armed
    by (unfold pinged; destruct c; discriminate).
  unfold pinged. destruct c as [so pr st op rt pt ptt ir idd ed hd tr].
  cbn [fst snd Conn.trace Conn.set_trace Conn.set_pingTimeoutTimer
       Conn.pingTimeoutTimer Conn.pingTimer Conn.state Conn.socket
       Conn.options] in *.
  repeat split. exact Es.
Qed.

Lemma ping_cycle_witness :
  let c := connected_device in
  let pong := {| type := Conn.PingResponse; data := [] |} in
  let c1 := snd (Conn.onPingInterval c) in
  let c2 := snd (Conn.handleMessage pong c1) in
  pong.(type) = Conn.PingResponse
  /\ Conn.socket c <> None
  /\ Conn.isConnected c = true
  /\ fst (Conn.onPingInterval c) = Return tt
  /\ Conn.trace c1
     = Conn.trace c
         ++ [Conn.SocketWrite [x00; x00; x07]]
         ++ (if Conn.isSome (Conn.pingTimeoutTimer c)
             then [Conn.ClearTimeout Conn.pingTimeoutTimer_] else [])
         ++ [Conn.SetTimeout Conn.pingTimeoutTimer_
                             (Conn.pingTimeout (Conn.options c))]
  /\ Conn.pingTimeoutTimer c1 = Some Conn.pingTimeoutTimer_
  /\ fst (Conn.handleMessage pong c1) = Return tt
  /\ Conn.trace c2 = Conn.trace c1 ++ [Conn.ClearTimeout Conn.pingTimeoutTimer_]
  /\ Conn.pingTimeoutTimer c2 = None
  /\ Conn.pingTimer c2 = Conn.pingTimer c
  /\ Conn.state c2 = Conn.state c
  /\ Conn.socket c2 = Conn.socket c.
Proof.
  intros c pong c1 c2.
  assert (H1 : pong.(type) = Conn.PingResponse) by reflexivity.
  assert (H2 : Conn.socket c <> None) by (vm_compute; discriminate).
  assert (H3 : Conn.isConnected c = true) by reflexivity.
  split; [exact H1|]. split; [exact H2|]. split; [exact H3|].
  exact (ping_cycle c pong H1 H2 H3).
Defined.

(** ** Deep sleep mode *)

Section DeepSleep.

Import Conn.

Definition is_interval (e : Effect) : bool :=
  match e with SetInterval _ _ => true | _ => false end.

(** In deep sleep mode, with no ping interval set since [base]. *)
Definition sleeping (base : list Effect) (c : Connection) : Prop :=
  hasDeepSleep c = true
  /\ exists effects,
      trace c = base ++ effects /\ occurrences is_interval effects = 0%nat.

(** [m] keeps the mode and sets no interval. *)
Definition no_interval {A} (m : M A) : Prop :=
  forall c, hasDeepSleep c = true ->
    hasDeepSleep (snd (m c)) = true
    /\ exists effects,
        trace (snd (m c)) = trace c ++ effects
        /\ occurrences is_interval effects = 0%nat.

Lemma no_interval_keeps {A} (m : M A) (base : list Effect) :
  no_interval m -> keeps (sleeping base) m.
Proof.
  intros H c (Hd & eff & Ht & Hi).
  destruct (H c Hd) as (E1 & eff' & E2 & E3).
  split; [exact E1|].
  exists (eff ++ eff'). rewrite E2, Ht, app_assoc. split; [reflexivity|].
  rewrite occurrences_app, Hi, E3. reflexivity.
Qed.

Lemma no_interval_effect (e : Effect) :
  is_interval e = false -> no_interval (effect e).
Proof.
  intros He [so pr st op rt pt ptt ir idd ed hd tr] Hd. conn_cbv.
  cbn [snd hasDeepSleep trace] in *. split; [exact Hd|].
  exists [e]. split; [reflexivity|].
  unfold occurrences. cbn [filter]. rewrite He. reflexivity.
Qed.

Lemma no_interval_cleanup : no_interval cleanup.
Proof.
  intros c Hd. rewrite cleanup_spec.
  destruct c as [so pr st op rt pt ptt ir idd ed hd tr].
  unfold cleaned, cleanup_effects.
  cbn [snd hasDeepSleep trace pingTimer pingTimeoutTimer reconnectTimer socket]
    in *.
  split; [exact Hd|]. eexists. split; [reflexivity|].
  destruct pt, ptt, rt, so; reflexivity.
Qed.

Lemma no_interval_updateState (newState : State.ConnectionState) :
  no_interval (updateState newState).
Proof.
  intros c Hd. rewrite updateState_spec.
  destruct c as [so pr st op rt pt ptt ir idd ed hd tr].
  unfold updated, state_events. conn_cbv. cbn [snd hasDeepSleep trace] in *.
  split; [exact Hd|]. eexists. split; [reflexivity|].
  destruct (String.eqb _ _); reflexivity.
Qed.

Lemma no_interval_startPingTimer : no_interval startPingTimer.
Proof.
  intros [so pr st op rt pt ptt ir idd ed hd tr] Hd.
  cbn [hasDeepSleep] in Hd. subst hd. conn_cbv. cbn [snd hasDeepSleep trace].
  split; [reflexivity|]. exists []. split; [symmetry; apply app_nil_r|].
  reflexivity.
Qed.

Lemma sleeping_establishConnection (base : list Effect)
      (outcome : SocketOutcome) :
  keeps (sleeping base) (establishConnection outcome).
Proof.
  unfold establishConnection. apply keeps_bind.
  { unfold openSocket.
    apply keeps_bind; [apply no_interval_keeps, no_interval_cleanup|].
    intros _. apply keeps_bind; [apply keeps_read|]. intros ms.
    apply keeps_bind;
      [apply no_interval_keeps, no_interval_effect; reflexivity|].
    intros _. apply keeps_bind; [apply keeps_read|]. intros o.
    apply no_interval_keeps, no_interval_effect; reflexivity. }
  intros _. destruct outcome; cbn [settle].
  - unfold onSocketConnect. apply keeps_bind;
      [apply no_interval_keeps, no_interval_effect; reflexivity|].
    intros _. apply keeps_bind; [apply keeps_read|]. intros o.
    apply keeps_bind.
    { intros c (Hd & eff & Ht & Hi). unfold assign. cbn [snd].
      destruct c. split; [exact Hd|]. exists eff. split; assumption. }
    intros _. apply keeps_bind;
      [apply no_interval_keeps, no_interval_updateState|].
    intros _. apply keeps_bind;
      [apply no_interval_keeps, no_interval_startPingTimer|].
    intros _. apply no_interval_keeps, no_interval_effect. reflexivity.
  - unfold onSocketError. apply keeps_bind;
      [apply no_interval_keeps, no_interval_effect; reflexivity|].
    intros _. apply keeps_throw.
  - unfold onConnectTimeout. apply keeps_bind;
      [apply no_interval_keeps, no_interval_effect; reflexivity|].
    intros _. apply keeps_throw.
Qed.

Lemma sleeping_connect (base : list Effect) (network : nat -> SocketOutcome) :
  keeps (sleeping base) (connect network).
Proof.
  unfold connect.
  apply keeps_bind; [apply keeps_read|]. intros destroyed.
  apply keeps_if; [apply keeps_throw|].
  apply keeps_bind; [apply keeps_read|]. intros isConn.
  apply keeps_if; [apply keeps_ret|].
  apply keeps_bind; [apply keeps_read|]. intros re.
  apply keeps_try_catch; [|intros e; apply keeps_throw].
  apply keeps_pRetry.
  - intros n. apply sleeping_establishConnection.
  - intros ms. apply no_interval_keeps, no_interval_effect. reflexivity.
Qed.

Lemma setDeepSleepMode_spec (enabled : bool) (c : Connection) :
  setDeepSleepMode enabled c
  = (Return tt,
     if enabled && State.is_connected (state c)
     then snd (stopPingTimer (set_hasDeepSleep enabled c))
     else set_hasDeepSleep enabled c).
Proof.
  unfold setDeepSleepMode, bind at 1, assign at 1.
  unfold bind at 1, read at 1.
  replace (state (set_hasDeepSleep enabled c)) with (state c)
    by (destruct c; reflexivity).
  destruct (enabled && State.is_connected (state c)); [|reflexivity].
  cbn [when]. destruct c as [so pr st op rt pt ptt ir idd ed hd tr].
  destruct pt, ptt; reflexivity.
Qed.

End DeepSleep.

(** X14 -- deep sleep mode.  [setDeepSleepMode(true)] on a connected
    connection clears the ping timers; while the mode is on, [connect()]
    sets no ping interval, however many attempts it takes, and leaves the
    mode on.  [setDeepSleepMode(false)] only lowers the flag: it does not
    start the pings again. *)
Theorem deep_sleep_stops_pings
        (c : Conn.Connection) (network : nat -> Conn.SocketOutcome) :
  let asleep := snd (Conn.setDeepSleepMode true c) in
  let awake := snd (Conn.setDeepSleepMode false c) in
  Conn.hasDeepSleep asleep = true
  /\ Conn.trace asleep
     = Conn.trace c
         ++ (if Conn.isConnected c
             then (if Conn.isSome (Conn.pingTimer c)
                   then [Conn.ClearInterval Conn.pingTimer_] else [])
                  ++ (if Conn.isSome (Conn.pingTimeoutTimer c)
                      then [Conn.ClearTimeout Conn.pingTimeoutTimer_] else [])
             else [])
  /\ (Conn.isConnected c = true ->
      Conn.pingTimer asleep = None /\ Conn.pingTimeoutTimer asleep = None)
  /\ (Conn.hasDeepSleep (snd (Conn.connect network asleep)) = true
      /\ exists effects,
          Conn.trace (snd (Conn.connect network asleep))
          = Conn.trace asleep ++ effects
          /\ occurrences is_interval effects = 0%nat)
  /\ Conn.hasDeepSleep awake = false
  /\ Conn.trace awake = Conn.trace c
  /\ Conn.pingTimer awake = Conn.pingTimer c.
Proof.
  intros asleep awake. unfold asleep, awake. clear asleep awake.
  rewrite !setDeepSleepMode_spec. cbn [andb snd]. unfold Conn.isConnected.
  assert (Hs : sleeping
                 (Conn.trace
                    (if State.is_connected (Conn.state c)
                     then snd (Conn.stopPingTimer (Conn.set_hasDeepSleep true c))
                     else Conn.set_hasDeepSleep true c))
                 (if State.is_connected (Conn.state c)
                  then snd (Conn.stopPingTimer (Conn.set_hasDeepSleep true c))
                  else Conn.set_hasDeepSleep true c)).
  { split; [|exists []; split; [symmetry; apply app_nil_r | reflexivity]].
    destruct (State.is_connected (Conn.state c));
      destruct c as [so pr st op rt pt ptt ir idd ed hd tr];
      [destruct pt, ptt|]; reflexivity. }
  pose proof (sleeping_connect _ network _ Hs) as Hc.
  split; [apply Hs|]. split; [|split; [|split; [exact Hc|]]].
  - destruct (State.is_connected (Conn.state c));
      destruct c as [so pr st op rt pt ptt ir idd ed hd tr];
      [destruct pt, ptt|]; conn_cbv; cbn [snd]; conn_cbv;
      rewrite <- ?app_assoc, ?app_nil_r; reflexivity.
  - intros ->. destruct c as [so pr st op rt pt ptt ir idd ed hd tr].
    destruct pt, ptt; split; reflexivity.
  - destruct c. repeat split.
Qed.

Lemma deep_sleep_stops_pings_witness :
  let c := connected_device in
  let asleep := snd (Conn.setDeepSleepMode true c) in
  Conn.isConnected c = true
  /\ Conn.trace asleep = Conn.trace c ++ [Conn.ClearInterval Conn.pingTimer_]
  /\ Conn.pingTimer asleep = None
  /\ Conn.hasDeepSleep (snd (Conn.connect accepts asleep)) = true.
Proof.
  intros c asleep.
  destruct (deep_sleep_stops_pings c accepts)
    as (_ & H2 & H3 & (H4 & _) & _).
  assert (Hc : Conn.isConnected c = true) by reflexivity.
  split; [exact Hc|]. split; [exact H2|].
  split; [exact (proj1 (H3 Hc)) | exact H4].
Defined.

(** ** Connecting and reconnecting *)

Section Connecting.

Import Conn.

(** The error an attempt that fails is rejected with. *)
Definition attempt_error (outcome : SocketOutcome) : Error :=
  match outcome with
  | SocketFailed m => ConnectionError ("Socket error: " ++ m)
  | _ => ConnectionError "Connection timeout"
  end.

Definition is_event (e : Effect) : bool :=
  match e with Emit _ => true | _ => false end.

Definition is_reconnect_arm (e : Effect) : bool :=
  match e with SetTimeout reconnectTimer_ _ => true | _ => false end.

(** A connection that no attempt has got anywhere with: as it was, but
    for what [cleanup] clears. *)
Definition still_down (c c' : Connection) : Prop :=
  state c' = state c /\ options c' = options c
  /\ isDestroyed c' = isDestroyed c /\ isReconnecting c' = isReconnecting c
  /\ hasDeepSleep c' = hasDeepSleep c
  /\ expectedDisconnect c' = expectedDisconnect c
  /\ socket c' = None /\ protocol c' = new_ProtocolHandler
  /\ pingTimer c' = None /\ pingTimeoutTimer c' = None
  /\ reconnectTimer c' = None.

Lemma still_down_trans (a b c : Connection) :
  still_down a b -> still_down b c -> still_down a c.
Proof. unfold still_down. intuition congruence. Qed.

Lemma failed_attempt_down (last : Effect) (c : Connection) :
  still_down c (failed_attempt last c).
Proof. destruct c. repeat split. Qed.

Lemma attempt_effects_quiet (c : Connection) :
  occurrences is_event (attempt_effects c) = 0%nat
  /\ occurrences is_reconnect_arm (attempt_effects c) = 0%nat.
Proof.
  unfold attempt_effects, cleanup_effects, occurrences.
  destruct (isSome (pingTimer c)), (isSome (pingTimeoutTimer c)),
    (isSome (reconnectTimer c)), (isSome (socket c)); split; reflexivity.
Qed.

Lemma establishConnection_fails (outcome : SocketOutcome) (c : Connection) :
  outcome <> SocketConnected ->
  exists c' effects,
    establishConnection outcome c = (Throw (attempt_error outcome), c')
    /\ still_down c c'
    /\ trace c' = trace c ++ effects
    /\ occurrences is_attempt effects = 1%nat
    /\ occurrences is_event effects = 0%nat
    /\ occurrences is_reconnect_arm effects = 0%nat.
Proof.
  intros Ho. rewrite establishConnection_spec.
  destruct (attempt_effects_count c) as (A1 & _).
  destruct (attempt_effects_quiet c) as (A2 & A3).
  destruct outcome as [|m|]; [congruence | |].
  - destruct (failed_attempt_trace (ClearTimeout connectTimeoutTimer) c)
      as (_ & _ & Ht).
    eexists _, _. split; [reflexivity|].
    split; [apply failed_attempt_down|]. split; [exact Ht|].
    rewrite !occurrences_app, A1, A2, A3. repeat split.
  - destruct (failed_attempt_trace SocketDestroy c) as (_ & _ & Ht).
    eexists _, _. split; [reflexivity|].
    split; [apply failed_attempt_down|]. split; [exact Ht|].
    rewrite !occurrences_app, A1, A2, A3. repeat split.
Qed.

(** The errors of the attempts [n], ..., [n + k - 1]. *)
Definition attempt_errors (network : nat -> SocketOutcome) (n k : nat)
  : list Error :=
  map (fun i => attempt_error (network (n + i)%nat)) (seq 0 k).

Lemma attempt_errors_S (network : nat -> SocketOutcome) (n k : nat) :
  attempt_errors network n (S k)
  = attempt_error (network n) :: attempt_errors network (S n) k.
Proof.
  unfold attempt_errors. cbn [seq map]. rewrite Nat.add_0_r. f_equal.
  rewrite <- seq_shift, map_map. apply map_ext. intros i.
  replace (S n + i)%nat with (n + S i)%nat by lia. reflexivity.
Qed.

Lemma attempt_errors_last (network : nat -> SocketOutcome) (k : nat) :
  forall n,
    attempt_errors network n (S k)
    = attempt_errors network n k ++ [attempt_error (network (n + k)%nat)].
Proof.
  induction k as [|k IH]; intros n.
  - unfold attempt_errors. cbn [seq map app]. reflexivity.
  - rewrite attempt_errors_S, (IH (S n)), (attempt_errors_S network n k).
    replace (S n + k)%nat with (n + S k)%nat by lia. reflexivity.
Qed.

Lemma pRetry_fails (network : nat -> SocketOutcome) :
  (forall k, network k <> SocketConnected) ->
  forall retries n errors c,
  exists c' effects,
    pRetry (fun k => establishConnection (network k)) retries 1000 5000 n
           errors c
    = (Throw (rejection (errors ++ attempt_errors network n retries)
                        (attempt_error (network (n + retries)%nat))), c')
    /\ still_down c c'
    /\ trace c' = trace c ++ effects
    /\ occurrences is_attempt effects = S retries
    /\ occurrences is_event effects = 0%nat
    /\ occurrences is_reconnect_arm effects = 0%nat.
Proof.
  intros Hn retries.
  induction retries as [|retries IH]; intros n errors c;
    destruct (establishConnection_fails (network n) c (Hn n))
      as (c1 & eff1 & E1 & D1 & T1 & A1 & B1 & C1);
    cbn [pRetry]; unfold try_catch; rewrite E1.
  - exists c1, eff1. rewrite Nat.add_0_r.
    unfold attempt_errors. cbn [seq map]. rewrite app_nil_r.
    split; [reflexivity|]. split; [exact D1|]. repeat split; assumption.
  - set (d := Z.min (1000 * 2 ^ Z.of_nat (n - 1)) 5000).
    set (c2 := set_trace (trace c1 ++ [RetryDelay d]) c1).
    assert (H2 : still_down c1 c2 /\ trace c2 = trace c1 ++ [RetryDelay d]).
    { unfold c2. destruct D1 as (_ & _ & _ & _ & _ & _ & Q1 & Q2 & Q3 & Q4 & Q5).
      destruct c1. cbn in *. subst. repeat split. }
    destruct H2 as [D2 T2].
    destruct (IH (S n) (errors ++ [attempt_error (network n)]) c2)
      as (c3 & eff3 & E3 & D3 & T3 & A3 & B3 & C3).
    exists c3, (eff1 ++ RetryDelay d :: eff3).
    unfold bind, effect, assign. fold d. fold c2. rewrite E3.
    replace (n + S retries)%nat with (S n + retries)%nat by lia.
    rewrite attempt_errors_S, <- app_assoc. cbn [app].
    split; [reflexivity|].
    split; [exact (still_down_trans _ _ _ D1 (still_down_trans _ _ _ D2 D3))|].
    split; [rewrite T3, T2, T1, <- !app_assoc; reflexivity|].
    rewrite !occurrences_app, A1, B1, C1.
    change (occurrences is_attempt (RetryDelay d :: eff3))
      with (occurrences is_attempt eff3).
    change (occurrences is_event (RetryDelay d :: eff3))
      with (occurrences is_event eff3).
    change (occurrences is_reconnect_arm (RetryDelay d :: eff3))
      with (occurrences is_reconnect_arm eff3).
    rewrite A3, B3, C3. repeat split.
Qed.

(** *** The main error *)

(** How many of the errors have the message [m]. *)
Definition frequency (m : string) (errors : list Error) : nat :=
  length (filter (fun e => String.eqb (message e) m) errors).

Lemma frequency_app (m : string) (a b : list Error) :
  frequency m (a ++ b) = (frequency m a + frequency m b)%nat.
Proof. unfold frequency. rewrite filter_app, length_app. reflexivity. Qed.

Lemma frequency_one (m : string) (e : Error) :
  frequency m [e] = if String.eqb (message e) m then 1%nat else 0%nat.
Proof. unfold frequency. cbn [filter]. destruct (String.eqb _ _); reflexivity. Qed.

(** The state of the loop of [mainError()] once it has seen [seen]. *)
Definition counting (seen : list Error) (counts : list (string * nat))
           (main : option Error) (mainCount : nat) : Prop :=
  (forall m, counted counts m = frequency m seen)
  /\ (forall m, (frequency m seen <= mainCount)%nat)
  /\ match main with
     | None => mainCount = 0%nat
     | Some e => In e seen /\ frequency (message e) seen = mainCount
     end.

Lemma mainError_loop_spec (rest : list Error) :
  forall seen counts main mainCount,
    counting seen counts main mainCount ->
    match mainError_loop rest counts main mainCount with
    | Some e =>
        In e (seen ++ rest)
        /\ forall m, (frequency m (seen ++ rest)
                      <= frequency (message e) (seen ++ rest))%nat
    | None => rest = [] /\ main = None
    end.
Proof.
  induction rest as [|e rest IH]; intros seen counts main mainCount
                                         (H1 & H2 & H3).
  - cbn [mainError_loop]. rewrite app_nil_r. destruct main as [r|].
    + destruct H3 as [Hin Hf]. split; [exact Hin|].
      intros m. rewrite Hf. apply H2.
    + split; reflexivity.
  - cbn [mainError_loop].
    assert (Hc : forall m,
               counted ((message e, (counted counts (message e) + 1)%nat)
                          :: counts) m
               = frequency m (seen ++ [e])).
    { intros m. cbn [counted]. rewrite frequency_app, frequency_one.
      destruct (String.eqb (message e) m) eqn:Em.
      - apply String.eqb_eq in Em. subst m. rewrite H1. reflexivity.
      - rewrite H1. lia. }
    assert (He : frequency (message e) (seen ++ [e])
                 = (counted counts (message e) + 1)%nat).
    { rewrite frequency_app, frequency_one, String.eqb_refl, H1.
      reflexivity. }
    replace (seen ++ e :: rest) with ((seen ++ [e]) ++ rest)
      by (rewrite <- app_assoc; reflexivity).
    destruct (mainCount <=? counted counts (message e) + 1)%nat eqn:Hle.
    + apply Nat.leb_le in Hle.
      specialize (IH (seen ++ [e])
                     ((message e, (counted counts (message e) + 1)%nat)
                        :: counts)
                     (Some e) (counted counts (message e) + 1)%nat).
      destruct (mainError_loop rest _ (Some e) _) as [r|].
      * apply IH. split; [exact Hc|]. split.
        -- intros m. rewrite frequency_app, frequency_one.
           destruct (String.eqb (message e) m) eqn:Em.
           ++ apply String.eqb_eq in Em. subst m. rewrite H1. lia.
           ++ specialize (H2 m). lia.
        -- split; [apply in_or_app; right; left; reflexivity | exact He].
      * exfalso. assert (X : e :: rest = e :: rest) by reflexivity.
        destruct IH as [_ IH]; [|discriminate IH].
        split; [exact Hc|]. split.
        -- intros m. rewrite frequency_app, frequency_one.
           destruct (String.eqb (message e) m) eqn:Em.
           ++ apply String.eqb_eq in Em. subst m. rewrite H1. lia.
           ++ specialize (H2 m). lia.
        -- split; [apply in_or_app; right; left; reflexivity | exact He].
    + apply Nat.leb_gt in Hle.
      destruct main as [r|]; [|lia].
      destruct H3 as [Hin Hf].
      assert (Hr : String.eqb (message e) (message r) = false).
      { destruct (String.eqb (message e) (message r)) eqn:Em; [|reflexivity].
        apply String.eqb_eq in Em. rewrite Em, H1, Hf in Hle. lia. }
      specialize (IH (seen ++ [e])
                     ((message e, (counted counts (message e) + 1)%nat)
                        :: counts)
                     (Some r) mainCount).
      assert (Hk : counting (seen ++ [e])
                     ((message e, (counted counts (message e) + 1)%nat)
                        :: counts)
                     (Some r) mainCount).
      { split; [exact Hc|]. split.
        - intros m. rewrite frequency_app, frequency_one.
          destruct (String.eqb (message e) m) eqn:Em.
          + apply String.eqb_eq in Em. subst m. rewrite H1 in Hle. lia.
          + specialize (H2 m). lia.
        - split; [apply in_or_app; left; exact Hin|].
          rewrite frequency_app, frequency_one, Hr. lia. }
      specialize (IH Hk).
      destruct (mainError_loop rest _ (Some r) mainCount) as [r'|];
        [exact IH | destruct IH as [_ IH]; discriminate IH].
Qed.

(** [mainError()] returns one of the errors, and no message is more
    frequent among them than its message. *)
Lemma mainError_spec (errors : list Error) (e : Error) :
  exists main,
    mainError (errors ++ [e]) = Some main
    /\ rejection errors e = main
    /\ In main (errors ++ [e])
    /\ forall m, (frequency m (errors ++ [e])
                  <= frequency (message main) (errors ++ [e]))%nat.
Proof.
  unfold rejection, mainError.
  pose proof (mainError_loop_spec (errors ++ [e]) [] [] None 0%nat) as H.
  cbn [app] in H.
  destruct (mainError_loop (errors ++ [e]) [] None 0) as [main|].
  - exists main. split; [reflexivity|]. split; [reflexivity|].
    apply H. split; [intros m; reflexivity|].
    split; [intros m; apply Nat.le_refl | reflexivity].
  - exfalso. destruct H as [H _].
    + split; [intros m; reflexivity|].
      split; [intros m; apply Nat.le_refl | reflexivity].
    + destruct errors; discriminate H.
Qed.

(** The number of the last attempt of [connect()]. *)
Definition last_attempt (c : Connection) : nat :=
  if reconnect (options c) then 4%nat else 1%nat.

(** The errors of all the attempts of a [connect()] that fails. *)
Definition connect_errors (network : nat -> SocketOutcome) (c : Connection)
  : list Error :=
  attempt_errors network 1 (last_attempt c).

Lemma connect_fails (network : nat -> SocketOutcome) (c : Connection) :
  isDestroyed c = false ->
  State.is_connected (state c) = false ->
  (forall k, network k <> SocketConnected) ->
  exists c' effects main,
    connect network c
    = (Throw (ConnectionError ("Failed to connect: " ++ message main)), c')
    /\ (mainError (connect_errors network c) = Some main
        /\ In main (connect_errors network c)
        /\ forall m, (frequency m (connect_errors network c)
                      <= frequency (message main)
                           (connect_errors network c))%nat)
    /\ still_down c c'
    /\ trace c' = trace c ++ effects
    /\ occurrences is_attempt effects = last_attempt c
    /\ occurrences is_event effects = 0%nat
    /\ occurrences is_reconnect_arm effects = 0%nat.
Proof.
  intros Hd Hc Hn. unfold connect, bind, read. rewrite Hd, Hc.
  unfold try_catch, connect_errors, last_attempt.
  destruct (pRetry_fails network Hn
              (if reconnect (options c) then 3%nat else 0%nat) 1%nat [] c)
    as (c' & eff & E & D & T & A & B & C).
  rewrite E. cbn [app].
  destruct (mainError_spec
              (attempt_errors network 1
                 (if reconnect (options c) then 3%nat else 0%nat))
              (attempt_error
                 (network (1 + (if reconnect (options c)
                                then 3%nat else 0%nat))%nat)))
    as (main & M1 & M2 & M3 & M4).
  rewrite M2. rewrite <- attempt_errors_last in M1, M3, M4.
  exists c', eff, main.
  destruct (reconnect (options c));
    (split; [reflexivity|]); (split; [repeat split; assumption|]);
    (split; [exact D|]); repeat split; assumption.
Qed.

Lemma connect_succeeds (network : nat -> SocketOutcome) (c : Connection) :
  isDestroyed c = false ->
  State.is_connected (state c) = false ->
  network 1%nat = SocketConnected ->
  connect network c = (Return tt, established c).
Proof.
  intros Hd Hc Hn. unfold connect, bind, read. rewrite Hd, Hc.
  unfold try_catch.
  destruct (reconnect (options c)); cbn [pRetry]; unfold try_catch;
    rewrite Hn, establishConnection_spec; reflexivity.
Qed.

Lemma established_fields (c : Connection) :
  State.is_connected (state (established c)) = true
  /\ State.is_authenticated (state (established c)) = false
  /\ socket (established c)
     = Some {| remotePort := port (options c); remoteHost := host (options c) |}
  /\ protocol (established c) = new_ProtocolHandler
  /\ pingTimer (established c)
     = (if hasDeepSleep c then None else Some pingTimer_)
  /\ pingTimeoutTimer (established c) = None
  /\ reconnectTimer (established c) = None
  /\ isDestroyed (established c) = isDestroyed c
  /\ isReconnecting (established c) = isReconnecting c
  /\ state (established c) = State.spread (state c) online.
Proof.
  destruct c as [so pr st op rt pt ptt ir idd ed hd tr].
  unfold established.
  destruct hd; conn_cbv; unfold online;
    rewrite is_connected_spread, is_authenticated_spread; repeat split.
Qed.

Lemma get_spread_online (k : State.Key) (o : State.ConnectionState) :
  k <> State.Kconnected -> k <> State.Kauthenticated ->
  State.get k (State.spread o online) = State.get k o.
Proof.
  intros H1 H2. unfold State.spread, online. cbn [fold_left].
  rewrite !get_set_other by (cbn; congruence). reflexivity.
Qed.

End Connecting.

(** X15 -- a connection that comes up.  When the first attempt of
    [connect()] on a connection that is neither destroyed nor connected
    is accepted, the call returns after that one attempt, with [connect]
    emitted last; the connection is connected and not authenticated,
    whatever it was before, holds a socket to the host and port of its
    options and an empty buffer, and has the ping interval running unless
    it is in deep sleep mode.  The API version and the server info of an
    earlier session are still in the state.  A second [connect()] then
    does nothing. *)
Theorem connect_accepted
        (c : Conn.Connection) (network again : nat -> Conn.SocketOutcome) :
  Conn.isDestroyed c = false ->
  Conn.isConnected c = false ->
  network 1%nat = Conn.SocketConnected ->
  exists c' effects,
    Conn.connect network c = (Return tt, c')
    /\ Conn.trace c' = Conn.trace c ++ effects ++ [Conn.Emit Conn.connect_event]
    /\ occurrences is_attempt effects = 1%nat
    /\ delays effects = []
    /\ Conn.isConnected c' = true
    /\ Conn.isAuthenticated c' = false
    /\ Conn.socket c'
       = Some {| Conn.remotePort := Conn.port (Conn.options c);
                 Conn.remoteHost := Conn.host (Conn.options c) |}
    /\ Conn.protocol c' = new_ProtocolHandler
    /\ Conn.pingTimer c'
       = (if Conn.hasDeepSleep c then None else Some Conn.pingTimer_)
    /\ State.get State.KapiVersion (Conn.state c')
       = State.get State.KapiVersion (Conn.state c)
    /\ State.get State.KserverInfo (Conn.state c')
       = State.get State.KserverInfo (Conn.state c)
    /\ Conn.connect again c' = (Return tt, c').
Proof.
  intros Hd Hc Hn. unfold Conn.isConnected in Hc.
  rewrite (connect_succeeds network c Hd Hc Hn).
  destruct (established_fields c)
    as (F1 & F2 & F3 & F4 & F5 & _ & _ & F8 & _ & F10).
  destruct (established_trace c) as [_ Ht].
  destruct (attempt_effects_count c) as (A1 & A2 & _).
  destruct (state_events_plain (Conn.state c)
              (State.spread (Conn.state c) online)) as [S1 S2].
  exists (established c),
    (attempt_effects c
       ++ [Conn.ClearTimeout Conn.connectTimeoutTimer]
       ++ state_events (Conn.state c) (State.spread (Conn.state c) online)
       ++ (if Conn.hasDeepSleep c then [] else
             [Conn.SetInterval Conn.pingTimer_
                               (Conn.pingInterval (Conn.options c))])).
  split; [reflexivity|].
  split; [rewrite Ht, <- !app_assoc; reflexivity|].
  rewrite !occurrences_app, !delays_app, A1, A2, S1, S2.
  split; [destruct (Conn.hasDeepSleep c); reflexivity|].
  split; [destruct (Conn.hasDeepSleep c); reflexivity|].
  unfold Conn.isConnected, Conn.isAuthenticated.
  repeat (split; [assumption|]).
  rewrite F10, !get_spread_online by discriminate.
  repeat split.
  unfold Conn.connect, Conn.bind, Conn.read. rewrite F8, Hd, F1. reflexivity.
Qed.

Lemma connect_accepted_witness :
  let c := new_Connection_device in
  Conn.isDestroyed c = false
  /\ Conn.isConnected c = false
  /\ accepts 1%nat = Conn.SocketConnected
  /\ exists c' effects,
      Conn.connect accepts c = (Return tt, c')
      /\ Conn.trace c' = Conn.trace c ++ effects ++ [Conn.Emit Conn.connect_event]
      /\ occurrences is_attempt effects = 1%nat
      /\ delays effects = []
      /\ Conn.isConnected c' = true
      /\ Conn.isAuthenticated c' = false
      /\ Conn.socket c'
         = Some {| Conn.remotePort := Conn.port (Conn.options c);
                   Conn.remoteHost := Conn.host (Conn.options c) |}
      /\ Conn.protocol c' = new_ProtocolHandler
      /\ Conn.pingTimer c'
         = (if Conn.hasDeepSleep c then None else Some Conn.pingTimer_)
      /\ State.get State.KapiVersion (Conn.state c')
         = State.get State.KapiVersion (Conn.state c)
      /\ State.get State.KserverInfo (Conn.state c')
         = State.get State.KserverInfo (Conn.state c)
      /\ Conn.connect refuses c' = (Return tt, c').
Proof.
  intros c.
  assert (H1 : Conn.isDestroyed c = false) by reflexivity.
  assert (H2 : Conn.isConnected c = false) by reflexivity.
  assert (H3 : accepts 1%nat = Conn.SocketConnected) by reflexivity.
  split; [exact H1|]. split; [exact H2|]. split; [exact H3|].
  exact (connect_accepted c accepts refuses H1 H2 H3).
Defined.

(** X16 -- a connection that does not come up.  When every attempt
    fails, [connect()] rejects with a [ConnectionError] whose message is
    "Failed to connect: " followed by the message of the main error of
    [p-retry]: the error [mainError()] picks among the errors of the
    attempts ("Socket error: ..." or "Connection timeout"), one of them
    with a message that no other message outnumbers.  No event has been
    emitted and no reconnect timer armed; the state and the options are
    as before, and there is no socket and no timer left. *)
Theorem connect_rejected
        (c : Conn.Connection) (network : nat -> Conn.SocketOutcome) :
  Conn.isDestroyed c = false ->
  Conn.isConnected c = false ->
  (forall k, network k <> Conn.SocketConnected) ->
  exists c' effects main,
    Conn.connect network c
    = (Throw (ConnectionError ("Failed to connect: " ++ message main)), c')
    /\ Conn.mainError (connect_errors network c) = Some main
    /\ In main (connect_errors network c)
    /\ (forall m, (frequency m (connect_errors network c)
                   <= frequency (message main) (connect_errors network c))%nat)
    /\ Conn.trace c' = Conn.trace c ++ effects
    /\ occurrences is_event effects = 0%nat
    /\ occurrences is_reconnect_arm effects = 0%nat
    /\ Conn.state c' = Conn.state c
    /\ Conn.options c' = Conn.options c
    /\ Conn.socket c' = None
    /\ Conn.pingTimer c' = None
    /\ Conn.pingTimeoutTimer c' = None
    /\ Conn.reconnectTimer c' = None.
Proof.
  intros Hd Hc Hn.
  destruct (connect_fails network c Hd Hc Hn)
    as (c' & eff & main & E & (M1 & M2 & M3) & D & T & _ & B & C).
  destruct D as (D1 & D2 & _ & _ & _ & _ & D7 & _ & D9 & D10 & D11).
  exists c', eff, main. repeat split; assumption.
Qed.

(** A device that refuses twice, is silent once and then resets. *)
Definition falters : nat -> Conn.SocketOutcome :=
  fun n =>
    match n with
    | 1%nat | 2%nat => Conn.SocketFailed "connect ECONNREFUSED"
    | 3%nat => Conn.SocketSilent
    | _ => Conn.SocketFailed "read ECONNRESET"
    end.

Lemma connect_rejected_witness :
  let c := new_Connection_device in
  Conn.isDestroyed c = false
  /\ Conn.isConnected c = false
  /\ (forall k, falters k <> Conn.SocketConnected)
  /\ exists c' effects main,
      Conn.connect falters c
      = (Throw (ConnectionError ("Failed to connect: " ++ message main)), c')
      /\ Conn.mainError (connect_errors falters c) = Some main
      /\ In main (connect_errors falters c)
      /\ (forall m, (frequency m (connect_errors falters c)
                     <= frequency (message main) (connect_errors falters c))%nat)
      /\ Conn.trace c' = Conn.trace c ++ effects
      /\ occurrences is_event effects = 0%nat
      /\ occurrences is_reconnect_arm effects = 0%nat
      /\ Conn.state c' = Conn.state c
      /\ Conn.options c' = Conn.options c
      /\ Conn.socket c' = None
      /\ Conn.pingTimer c' = None
      /\ Conn.pingTimeoutTimer c' = None
      /\ Conn.reconnectTimer c' = None.
Proof.
  intros c.
  assert (H1 : Conn.isDestroyed c = false) by reflexivity.
  assert (H2 : Conn.isConnected c = false) by reflexivity.
  assert (H3 : forall k, falters k <> Conn.SocketConnected)
    by (intros [|[|[|[|k]]]]; discriminate).
  split; [exact H1|]. split; [exact H2|]. split; [exact H3|].
  exact (connect_rejected c falters H1 H2 H3).
Defined.

(** The error of the last attempt is not the one [connect()] reports
    when an earlier one came more often. *)
Example connect_rejected_main_error :
  fst (Conn.connect falters new_Connection_device)
  = Throw (ConnectionError
             "Failed to connect: Socket error: connect ECONNREFUSED").
Proof. vm_compute. reflexivity. Qed.

(** X17 -- reconnection goes on.  When the reconnect timer fires on a
    connection that is not destroyed and every attempt of its [connect()]
    fails (four attempts with the reconnect policy on, one without), the
    callback does not throw: it arms the reconnect timer again, with
    [reconnectInterval], and reconnection stays under way.  When the
    first attempt is accepted, the connection is connected, no timer is
    armed for reconnection and reconnection is over. *)
Theorem reconnect_timer_fires
        (c : Conn.Connection) (network : nat -> Conn.SocketOutcome) :
  Conn.isDestroyed c = false ->
  Conn.isConnected c = false ->
  ((forall k, network k <> Conn.SocketConnected) ->
   exists c' effects,
     Conn.onReconnectTimer network c = (Return tt, c')
     /\ Conn.trace c'
        = Conn.trace c ++ effects
            ++ [Conn.SetTimeout Conn.reconnectTimer_
                  (Conn.reconnectInterval (Conn.options c))]
     /\ occurrences is_attempt effects = last_attempt c
     /\ occurrences is_event effects = 0%nat
     /\ occurrences is_reconnect_arm effects = 0%nat
     /\ Conn.isReconnecting c' = true
     /\ Conn.reconnectTimer c' = Some Conn.reconnectTimer_
     /\ Conn.isConnected c' = false)
  /\ (network 1%nat = Conn.SocketConnected ->
      exists c',
        Conn.onReconnectTimer network c = (Return tt, c')
        /\ Conn.isConnected c' = true
        /\ Conn.isReconnecting c' = false
        /\ Conn.reconnectTimer c' = None).
Proof.
  intros Hd Hc. unfold Conn.isConnected in *. split.
  - intros Hn.
    destruct (connect_fails network c Hd Hc Hn)
      as (c1 & eff & main & E & _ & D & T & A & B & C).
    destruct D as (D1 & D2 & D3 & _ & _ & _ & _ & _ & _ & _ & _).
    rewrite Hd in D3.
    unfold Conn.onReconnectTimer, Conn.bind at 1, Conn.read at 1.
    rewrite Hd. unfold Conn.try_catch, Conn.bind at 1. rewrite E.
    unfold Conn.scheduleReconnect.
    destruct c1 as [so pr st op rt pt ptt ir idd ed hd tr].
    cbn [Conn.state Conn.options Conn.isDestroyed Conn.trace] in *.
    subst idd st op tr. conn_cbv.
    eexists _, eff. split; [reflexivity|].
    cbn [Conn.trace Conn.isReconnecting Conn.reconnectTimer Conn.state].
    rewrite <- app_assoc. repeat split; assumption.
  - intros Hn.
    unfold Conn.onReconnectTimer, Conn.bind at 1, Conn.read at 1.
    rewrite Hd. unfold Conn.try_catch, Conn.bind at 1.
    rewrite (connect_succeeds network c Hd Hc Hn).
    destruct (established_fields c)
      as (F1 & _ & _ & _ & _ & _ & F7 & _ & _ & _).
    eexists. split; [reflexivity|].
    destruct (established c) as [so pr st op rt pt ptt ir idd ed hd tr].
    cbn in *. repeat split; assumption.
Qed.

Lemma reconnect_timer_fires_witness :
  let c := snd (Conn.handleDisconnect connected_device) in
  Conn.isDestroyed c = false
  /\ Conn.isConnected c = false
  /\ (forall k, refuses k <> Conn.SocketConnected)
  /\ accepts 1%nat = Conn.SocketConnected
  /\ (exists c' effects,
        Conn.onReconnectTimer refuses c = (Return tt, c')
        /\ Conn.trace c'
           = Conn.trace c ++ effects
               ++ [Conn.SetTimeout Conn.reconnectTimer_
                     (Conn.reconnectInterval (Conn.options c))]
        /\ occurrences is_attempt effects = last_attempt c
        /\ occurrences is_event effects = 0%nat
        /\ occurrences is_reconnect_arm effects = 0%nat
        /\ Conn.isReconnecting c' = true
        /\ Conn.reconnectTimer c' = Some Conn.reconnectTimer_
        /\ Conn.isConnected c' = false)
  /\ (exists c',
        Conn.onReconnectTimer accepts c = (Return tt, c')
        /\ Conn.isConnected c' = true
        /\ Conn.isReconnecting c' = false
        /\ Conn.reconnectTimer c' = None).
Proof.
  intros c.
  assert (H1 : Conn.isDestroyed c = false) by reflexivity.
  assert (H2 : Conn.isConnected c = false) by reflexivity.
  assert (H3 : forall k, refuses k <> Conn.SocketConnected)
    by (intros k; discriminate).
  assert (H4 : accepts 1%nat = Conn.SocketConnected) by reflexivity.
  split; [exact H1|]. split; [exact H2|]. split; [exact H3|].
  split; [exact H4|].
  split; [exact (proj1 (reconnect_timer_fires c refuses H1 H2) H3)
         | exact (proj2 (reconnect_timer_fires c accepts H1 H2) H4)].
Defined.

(** ** Dispatch of what the socket delivers *)

Section Dispatch.

Import Conn.

(** A message the connection handles itself. *)
Definition internal (m : DecodedMessage) : bool :=
  (m.(type) =? PingRequest) || (m.(type) =? PingResponse)
  || (m.(type) =? DisconnectRequest).

Definition message_events (messages : list DecodedMessage) : list Effect :=
  map (fun m => Emit (message_event m)) messages.

Lemma forEach_emits (messages : list DecodedMessage) :
  forallb (fun m => negb (internal m)) messages = true ->
  forall c,
    forEach_handleMessage messages c
    = (Return tt, set_trace (trace c ++ message_events messages) c).
Proof.
  induction messages as [|m more IH]; intros H c.
  - cbn. rewrite app_nil_r. destruct c; reflexivity.
  - cbn [forallb] in H. apply andb_prop in H. destruct H as [Hm Hmore].
    unfold internal in Hm. apply negb_true_iff in Hm.
    apply orb_false_elim in Hm. destruct Hm as [Hm H3].
    apply orb_false_elim in Hm. destruct Hm as [H1 H2].
    cbn [forEach_handleMessage]. unfold bind, handleMessage.
    rewrite H1, H2, H3. unfold emit, effect, assign.
    rewrite (IH Hmore). destruct c. cbn. rewrite <- app_assoc. reflexivity.
Qed.

End Dispatch.

(** X18 -- messages reach the listeners in the order of the wire.  When
    what is buffered and received is whole frames followed by the
    beginning of a next one (or nothing), and none of the frames is a
    ping, a pong or a disconnect request, the data handler emits one
    [message] event for each frame, in order, with the type and payload
    of the frame, keeps the beginning of the next frame in the buffer and
    does nothing else; the type is not checked against the message types
    the library knows. *)
Theorem data_is_dispatched_in_order
        (c : Conn.Connection) (received : Buffer)
        (messages rest : list DecodedMessage) (stream part : Buffer) :
  buffer (Conn.protocol c) ++ received = stream ++ part ->
  stream_of messages stream ->
  pending rest part ->
  forallb (fun m => negb (internal m)) messages = true ->
  Conn.onData received c
  = (Return tt,
     Conn.set_trace
       (Conn.trace c
          ++ map (fun m => Conn.Emit (Conn.message_event m)) messages)
       (Conn.set_protocol {| buffer := part |} c)).
Proof.
  intros E Hs Hp Hm. unfold Conn.onData, Conn.try_catch, Conn.bind.
  destruct (Conn.protocol c) as [b] eqn:Ep. cbn [buffer] in E.
  rewrite (addData_stream messages rest stream part Hs Hp b received E).
  rewrite (forEach_emits messages Hm). destruct c. reflexivity.
Qed.

Lemma data_is_dispatched_in_order_witness :
  let c := connected_device in
  let received := [x00; x01; x1a; x2a; x00; x00; x75; x00; x05] in
  let messages := [ {| type := 26; data := [x2a] |};
                    {| type := 117; data := [] |} ] in
  let stream := [x00; x01; x1a; x2a; x00; x00; x75] in
  let part := [x00; x05] in
  let rest := [ {| type := 33; data := [x01; x02; x03; x04; x05] |} ] in
  buffer (Conn.protocol c) ++ received = stream ++ part
  /\ stream_of messages stream
  /\ pending rest part
  /\ forallb (fun m => negb (internal m)) messages = true
  /\ Conn.onData received c
     = (Return tt,
        Conn.set_trace
          (Conn.trace c
             ++ map (fun m => Conn.Emit (Conn.message_event m)) messages)
          (Conn.set_protocol {| buffer := part |} c)).
Proof.
  intros c received messages stream part rest.
  assert (H1 : buffer (Conn.protocol c) ++ received = stream ++ part)
    by reflexivity.
  assert (H2 : stream_of messages stream).
  { apply (stream_cons {| type := 26; data := [x2a] |} [x00; x01; x1a; x2a]
                       _ [x00; x00; x75]).
    - split; cbn; unfold MAX_SAFE_INTEGER, MAX_MESSAGE_SIZE; lia.
    - reflexivity.
    - apply (stream_cons {| type := 117; data := [] |} [x00; x00; x75] [] []).
      + split; cbn; unfold MAX_SAFE_INTEGER, MAX_MESSAGE_SIZE; lia.
      + reflexivity.
      + constructor. }
  assert (H3 : pending rest part).
  { right. exists {| type := 33; data := [x01; x02; x03; x04; x05] |}, [],
      [x00; x05; x21; x01; x02; x03; x04; x05],
      [x21; x01; x02; x03; x04; x05].
    split; [reflexivity|]. split.
    - split; cbn; unfold MAX_SAFE_INTEGER, MAX_MESSAGE_SIZE; lia.
    - split; [reflexivity|]. split; [reflexivity | discriminate]. }
  assert (H4 : forallb (fun m => negb (internal m)) messages = true)
    by reflexivity.
  split; [exact H1|]. split; [exact H2|]. split; [exact H3|].
  split; [exact H4|].
  exact (data_is_dispatched_in_order c received messages rest stream part
           H1 H2 H3 H4).
Defined.

(** ** Pings that arrive *)

Section Arrivals.

Import Conn.

(** [m] adds to the trace, and only effects that satisfy [P]. *)
Definition adds (P : Effect -> bool) {A} (m : M A) : Prop :=
  forall c, exists effects,
    trace (snd (m c)) = trace c ++ effects /\ forallb P effects = true.

Section Adds.

Variable P : Effect -> bool.

Lemma adds_nothing {A} (m : M A) :
  (forall c, trace (snd (m c)) = trace c) -> adds P m.
Proof.
  intros H c. exists []. rewrite H, app_nil_r. split; reflexivity.
Qed.

Lemma adds_these {A} (m : M A) (these : Connection -> list Effect) :
  (forall c, trace (snd (m c)) = trace c ++ these c) ->
  (forall c, forallb P (these c) = true) ->
  adds P m.
Proof. intros H1 H2 c. exists (these c). split; [apply H1 | apply H2]. Qed.

Lemma adds_effect (e : Effect) : P e = true -> adds P (effect e).
Proof.
  intros He c. exists [e]. split; [destruct c; reflexivity|].
  cbn [forallb]. rewrite He. reflexivity.
Qed.

Lemma adds_bind {A B} (m : M A) (k : A -> M B) :
  adds P m -> (forall a, adds P (k a)) -> adds P (bind m k).
Proof.
  intros Hm Hk c. unfold bind. destruct (Hm c) as (e1 & T1 & F1).
  destruct (m c) as [[a|e] c1]; cbn [snd] in *.
  - destruct (Hk a c1) as (e2 & T2 & F2). exists (e1 ++ e2).
    rewrite T2, T1, app_assoc, forallb_app, F1, F2. split; reflexivity.
  - exists e1. split; assumption.
Qed.

Lemma adds_try_catch {A} (m : M A) (handler : Error -> M A) :
  adds P m -> (forall e, adds P (handler e)) -> adds P (try_catch m handler).
Proof.
  intros Hm Hh c. unfold try_catch. destruct (Hm c) as (e1 & T1 & F1).
  destruct (m c) as [[a|e] c1]; cbn [snd] in *.
  - exists e1. split; assumption.
  - destruct (Hh e c1) as (e2 & T2 & F2). exists (e1 ++ e2).
    rewrite T2, T1, app_assoc, forallb_app, F1, F2. split; reflexivity.
Qed.

Lemma adds_when (b : bool) (m : M unit) : adds P m -> adds P (when b m).
Proof.
  intros H. destruct b; [exact H | apply adds_nothing; reflexivity].
Qed.

Lemma adds_if {A} (b : bool) (m1 m2 : M A) :
  adds P m1 -> adds P m2 -> adds P (if b then m1 else m2).
Proof. intros H1 H2. destruct b; assumption. Qed.

End Adds.

(** Not a [message] event that carries a ping request. *)
Definition no_ping (e : Effect) : bool :=
  match e with
  | Emit (message_event m) => negb (m.(type) =? PingRequest)
  | _ => true
  end.

Ltac adds_done :=
  eexists; split;
  [first [reflexivity | symmetry; apply app_nil_r] | reflexivity].

Lemma adds_stopPingTimeoutTimer : adds no_ping stopPingTimeoutTimer.
Proof.
  intros [so pr st op rt pt ptt ir idd ed hd tr].
  destruct ptt; conn_cbv; cbn [snd trace]; adds_done.
Qed.

Lemma adds_stopPingTimer : adds no_ping stopPingTimer.
Proof.
  intros [so pr st op rt pt ptt ir idd ed hd tr].
  destruct pt, ptt; conn_cbv; cbn [snd trace];
    try adds_done;
    (eexists; split; [rewrite <- app_assoc; reflexivity | reflexivity]).
Qed.

Lemma adds_cleanup : adds no_ping cleanup.
Proof.
  apply (adds_these no_ping cleanup cleanup_effects).
  - intros c. rewrite cleanup_spec. destruct c. reflexivity.
  - intros c. unfold cleanup_effects.
    destruct (isSome (pingTimer c)), (isSome (pingTimeoutTimer c)),
      (isSome (reconnectTimer c)), (isSome (socket c)); reflexivity.
Qed.

Lemma adds_updateState (newState : State.ConnectionState) :
  adds no_ping (updateState newState).
Proof.
  apply (adds_these no_ping _
           (fun c => state_events (state c)
                       (State.spread (state c) newState))).
  - intros c. rewrite updateState_spec. destruct c. reflexivity.
  - intros c. unfold state_events. destruct (String.eqb _ _); reflexivity.
Qed.

Lemma adds_sendMessage (type : MessageType) (data : Buffer) :
  adds no_ping (sendMessage type data).
Proof.
  intros c. rewrite sendMessage_spec.
  destruct (isSome (socket c) && isConnected c);
    [|exists []; split; [symmetry; apply app_nil_r | reflexivity]].
  destruct (encodeMessage type data) as [frame|e];
    [|exists []; split; [symmetry; apply app_nil_r | reflexivity]].
  exists [SocketWrite frame]. split; [destruct c; reflexivity | reflexivity].
Qed.

Lemma adds_assign (f : Connection -> Connection) :
  (forall c, trace (f c) = trace c) -> adds no_ping (assign f).
Proof. intros H. apply adds_nothing. exact H. Qed.

Lemma adds_disconnect : adds no_ping disconnect.
Proof.
  unfold disconnect.
  apply adds_bind; [apply adds_cleanup|]. intros _.
  apply adds_bind; [apply adds_updateState|]. intros _.
  apply adds_bind; [apply adds_effect; reflexivity|]. intros _.
  apply adds_assign. intros []. reflexivity.
Qed.

Lemma adds_handleDisconnectRequest : adds no_ping handleDisconnectRequest.
Proof.
  unfold handleDisconnectRequest.
  apply adds_bind;
    [apply adds_try_catch;
       [apply adds_sendMessage
       | intros _; apply adds_nothing; reflexivity]|].
  intros _. apply adds_bind; [apply adds_assign; intros []; reflexivity|].
  intros _. apply adds_bind; [apply adds_stopPingTimer|].
  intros _. apply adds_bind; [apply adds_stopPingTimeoutTimer|].
  intros _. apply adds_bind; [apply adds_nothing; reflexivity|].
  intros deep. apply adds_bind;
    [apply adds_when, adds_assign; intros []; reflexivity
    | intros _; apply adds_disconnect].
Qed.

(** [handleMessage] never emits a ping request, whatever the state of
    the connection. *)
Lemma adds_handleMessage (m : DecodedMessage) : adds no_ping (handleMessage m).
Proof.
  unfold handleMessage.
  destruct (m.(type) =? PingRequest) eqn:E1; [apply adds_sendMessage|].
  apply adds_if; [apply adds_stopPingTimeoutTimer|].
  apply adds_if; [apply adds_handleDisconnectRequest|].
  apply adds_effect. cbn [no_ping]. rewrite E1. reflexivity.
Qed.

Lemma adds_forEach (messages : list DecodedMessage) :
  adds no_ping (forEach_handleMessage messages).
Proof.
  induction messages as [|m more IH]; cbn [forEach_handleMessage].
  - apply adds_nothing. reflexivity.
  - apply adds_bind; [apply adds_handleMessage | intros _; exact IH].
Qed.

(** What the data handler does when [addData] has returned [messages]. *)
Definition dispatch (messages : list DecodedMessage) : M unit :=
  try_catch (forEach_handleMessage messages)
    (fun err => emit (error_event (ProtocolError (message err))) ;;
                disconnect).

Lemma adds_dispatch (messages : list DecodedMessage) :
  adds no_ping (dispatch messages).
Proof.
  unfold dispatch. apply adds_try_catch; [apply adds_forEach|].
  intros e. apply adds_bind;
    [apply adds_effect; reflexivity | intros _; apply adds_disconnect].
Qed.

Lemma onData_dispatch (c : Connection) (data : Buffer)
      (messages : list DecodedMessage) (h : ProtocolHandler) :
  addData (protocol c) data = (Return messages, h) ->
  onData data c = dispatch messages (set_protocol h c).
Proof.
  intros H. unfold onData, dispatch, try_catch, bind. rewrite H. reflexivity.
Qed.

Lemma dispatch_returns (messages : list DecodedMessage) (c : Connection) :
  fst (dispatch messages c) = Return tt.
Proof.
  unfold dispatch, try_catch.
  destruct (forEach_handleMessage messages c) as [[[]|e] c1]; [reflexivity|].
  unfold bind, emit, effect, assign. rewrite disconnect_spec. reflexivity.
Qed.

(** A connection that can answer. *)
Definition answering (c : Connection) : Prop :=
  isConnected c = true /\ socket c <> None.

(** A message other than a disconnect request leaves the connection
    connected, with its socket. *)
Lemma handleMessage_answering (m : DecodedMessage) (c : Connection) :
  m.(type) <> DisconnectRequest ->
  answering c ->
  exists c',
    handleMessage m c = (Return tt, c')
    /\ answering c' /\ socket c' = socket c.
Proof.
  intros Hm [Hc Hs]. unfold handleMessage.
  destruct (m.(type) =? PingRequest).
  - rewrite sendMessage_spec, Hc.
    destruct (socket c) as [s|] eqn:Es; [|congruence].
    cbn [isSome andb]. eexists. split; [reflexivity|].
    destruct c. cbn in *. subst. repeat split; try assumption; discriminate.
  - destruct (m.(type) =? PingResponse).
    + unfold handlePongResponse.
      destruct c as [so pr st op rt pt ptt ir idd ed hd tr].
      destruct ptt; conn_cbv; (eexists; split; [reflexivity|]);
        repeat split; assumption.
    + destruct (Z.eqb_spec m.(type) DisconnectRequest) as [E|_];
        [congruence|].
      destruct c as [so pr st op rt pt ptt ir idd ed hd tr].
      conn_cbv. eexists. split; [reflexivity|]. repeat split; assumption.
Qed.

Lemma forEach_answering (messages : list DecodedMessage) :
  Forall (fun m => m.(type) <> DisconnectRequest) messages ->
  forall c,
    answering c ->
    exists c',
      forEach_handleMessage messages c = (Return tt, c')
      /\ answering c' /\ socket c' = socket c.
Proof.
  induction 1 as [|m more Hm _ IH]; intros c Hc; cbn [forEach_handleMessage].
  - exists c. repeat split; apply Hc.
  - destruct (handleMessage_answering m c Hm Hc) as (c1 & E1 & A1 & S1).
    destruct (IH c1 A1) as (c2 & E2 & A2 & S2).
    exists c2. unfold bind. rewrite E1, E2.
    split; [reflexivity|]. split; [exact A2 | congruence].
Qed.

Lemma forEach_app (before later : list DecodedMessage) (c : Connection) :
  forEach_handleMessage (before ++ later) c
  = (forEach_handleMessage before ;; forEach_handleMessage later) c.
Proof.
  revert c. induction before as [|m before IH]; intros c; cbn [app].
  - reflexivity.
  - cbn [forEach_handleMessage]. unfold bind.
    destruct (handleMessage m c) as [[[]|e] c1]; [|reflexivity].
    rewrite IH. reflexivity.
Qed.

End Arrivals.

(** C7 -- a ping request that arrives is answered.  When [addData]
    returns the messages of what the socket delivered (whatever was
    buffered, and however the bytes were cut into chunks), with a
    [PingRequest] among them and no [DisconnectRequest] before it, and
    the connection is connected and holds its socket, the data handler
    gets to the ping connected, answers it at once with the
    [PingResponse] frame [00 00 08], the next thing it does after what
    the messages before the ping made it do, and goes on with the
    messages after it.  No [message] event carries a ping request: not
    this one, and none of the others the call handles. *)
Theorem ping_request_answered
        (c : Conn.Connection) (received : Buffer) (h : ProtocolHandler)
        (before later : list DecodedMessage) (ping : DecodedMessage) :
  addData (Conn.protocol c) received = (Return (before ++ ping :: later), h) ->
  ping.(type) = Conn.PingRequest ->
  Conn.isConnected c = true ->
  Conn.socket c <> None ->
  Forall (fun m => m.(type) <> Conn.DisconnectRequest) before ->
  exists reached effects more c',
    Conn.forEach_handleMessage before (Conn.set_protocol h c)
    = (Return tt, reached)
    /\ Conn.trace reached = Conn.trace c ++ effects
    /\ Conn.isConnected reached = true
    /\ Conn.socket reached = Conn.socket c
    /\ Conn.handleMessage ping reached
       = (Return tt,
          Conn.set_trace
            (Conn.trace reached ++ [Conn.SocketWrite [x00; x00; x08]])
            reached)
    /\ Conn.onData received c = (Return tt, c')
    /\ Conn.trace c'
       = Conn.trace c ++ effects ++ Conn.SocketWrite [x00; x00; x08] :: more
    /\ forallb no_ping (effects ++ Conn.SocketWrite [x00; x00; x08] :: more)
       = true.
Proof.
  intros Ha Ht Hc Hs Hb.
  set (c0 := Conn.set_protocol h c).
  assert (A0 : answering c0)
    by (unfold c0; destruct c; split; assumption).
  destruct (forEach_answering before Hb c0 A0) as (c1 & E1 & [C1 S1] & S1').
  destruct (adds_forEach before c0) as (eff & T1 & F1).
  rewrite E1 in T1. cbn [snd] in T1.
  assert (Hm : Conn.handleMessage ping c1
               = (Return tt,
                  Conn.set_trace
                    (Conn.trace c1 ++ [Conn.SocketWrite [x00; x00; x08]]) c1)).
  { unfold Conn.handleMessage. rewrite Ht.
    cbn [Z.eqb Conn.PingRequest Pos.eqb].
    rewrite sendMessage_spec, C1.
    destruct (Conn.socket c1); [reflexivity | congruence]. }
  set (c2 := Conn.set_trace
               (Conn.trace c1 ++ [Conn.SocketWrite [x00; x00; x08]]) c1) in *.
  assert (Hd : Conn.onData received c
               = dispatch later c2).
  { rewrite (onData_dispatch c received _ h Ha). fold c0.
    unfold dispatch, Conn.try_catch. rewrite forEach_app.
    unfold Conn.bind at 1. rewrite E1.
    cbn [Conn.forEach_handleMessage]. unfold Conn.bind at 1. rewrite Hm.
    reflexivity. }
  destruct (adds_dispatch later c2) as (more & T2 & F2).
  pose proof (dispatch_returns later c2) as R2.
  destruct (dispatch later c2) as [r c'] eqn:E2. cbn [fst snd] in *. subst r.
  exists c1, eff, more, c'.
  split; [exact E1|].
  split; [rewrite T1; unfold c0; destruct c; reflexivity|].
  split; [exact C1|].
  split; [rewrite S1'; unfold c0; destruct c; reflexivity|].
  split; [exact Hm|]. split; [exact Hd|]. split.
  - rewrite T2. unfold c2.
    replace (Conn.trace (Conn.set_trace
                           (Conn.trace c1 ++ [Conn.SocketWrite [x00; x00; x08]])
                           c1))
      with (Conn.trace c1 ++ [Conn.SocketWrite [x00; x00; x08]])
      by (destruct c1; reflexivity).
    rewrite T1. replace (Conn.trace c0) with (Conn.trace c)
      by (unfold c0; destruct c; reflexivity).
    rewrite <- !app_assoc. reflexivity.
  - rewrite forallb_app, F1. cbn [forallb no_ping andb]. exact F2.
Qed.

Lemma ping_request_answered_witness :
  let c := Conn.set_protocol {| buffer := [x00; x01] |} connected_device in
  let received := [x1a; x2a; x00; x00; x08; x00; x00; x07; x00; x00; x05;
                   x00; x05] in
  let before := [ {| type := 26; data := [x2a] |};
                  {| type := Conn.PingResponse; data := [] |} ] in
  let ping := {| type := Conn.PingRequest; data := [] |} in
  let later := [ {| type := Conn.DisconnectRequest; data := [] |} ] in
  let h := {| buffer := [x00; x05] |} in
  addData (Conn.protocol c) received = (Return (before ++ ping :: later), h)
  /\ ping.(type) = Conn.PingRequest
  /\ Conn.isConnected c = true
  /\ Conn.socket c <> None
  /\ Forall (fun m => m.(type) <> Conn.DisconnectRequest) before
  /\ exists reached effects more c',
      Conn.forEach_handleMessage before (Conn.set_protocol h c)
      = (Return tt, reached)
      /\ Conn.trace reached = Conn.trace c ++ effects
      /\ Conn.isConnected reached = true
      /\ Conn.socket reached = Conn.socket c
      /\ Conn.handleMessage ping reached
         = (Return tt,
            Conn.set_trace
              (Conn.trace reached ++ [Conn.SocketWrite [x00; x00; x08]])
              reached)
      /\ Conn.onData received c = (Return tt, c')
      /\ Conn.trace c'
         = Conn.trace c ++ effects ++ Conn.SocketWrite [x00; x00; x08] :: more
      /\ forallb no_ping (effects ++ Conn.SocketWrite [x00; x00; x08] :: more)
         = true.
Proof.
  intros c received before ping later h.
  assert (H1 : addData (Conn.protocol c) received
               = (Return (before ++ ping :: later), h))
    by (vm_compute; reflexivity).
  assert (H2 : ping.(type) = Conn.PingRequest) by reflexivity.
  assert (H3 : Conn.isConnected c = true) by reflexivity.
  assert (H4 : Conn.socket c <> None) by (vm_compute; discriminate).
  assert (H5 : Forall (fun m => m.(type) <> Conn.DisconnectRequest) before)
    by (repeat constructor; vm_compute; discriminate).
  split; [exact H1|]. split; [exact H2|]. split; [exact H3|].
  split; [exact H4|]. split; [exact H5|].
  exact (ping_request_answered c received h before later ping
           H1 H2 H3 H4 H5).
Defined.

(** C7, the claim as stated fails for a ping request that the data
    handler does not get to while the connection is connected.  A ping
    request followed in the same chunk by a header that declares more
    than 1 MiB is lost with the fault: [addData] throws, the messages it
    had decoded are dropped, and nothing is written.  A ping request that
    follows a disconnect request in the same chunk is handled when the
    connection is no longer connected: [sendMessage] throws "Not
    connected", which the data handler emits as an [error] before it
    disconnects again. *)
Lemma ping_request_answered_counterexample :
  let c := connected_device in
  let lost := [x00; x00; x07; x00; x81; x80; x40; x21] in
  let late := [x00; x00; x05; x00; x00; x07] in
  Conn.isConnected c = true
  /\ Conn.socket c <> None
  /\ fst (tryDecodeMessage lost)
     = Return (Some {| type := Conn.PingRequest; data := [] |})
  /\ fst (addData (Conn.protocol c) lost)
     = Throw (ProtocolError "Message too large: 1048577 bytes")
  /\ occurrences is_write (Conn.trace (snd (Conn.onData lost c))) = 0%nat
  /\ fst (addData (Conn.protocol c) late)
     = Return [ {| type := Conn.DisconnectRequest; data := [] |};
                {| type := Conn.PingRequest; data := [] |} ]
  /\ filter is_write (Conn.trace (snd (Conn.onData late c)))
     = [Conn.SocketWrite [x00; x00; x06]]
  /\ filter (fun e => match e with
                      | Conn.Emit (Conn.error_event _) => true
                      | _ => false
                      end)
            (Conn.trace (snd (Conn.onData late c)))
     = [Conn.Emit (Conn.error_event (ProtocolError "Not connected"))].
Proof. vm_compute. repeat split. discriminate. Qed.

(** ** The client: updates, subscriptions and entities *)

Section FacadeFacts.

Import Facade.

Variable Payload : Type.
Variable ProtoMessage : Type.
Variable require_api :
  completion (string -> option (Client.MessageClass Payload ProtoMessage)).
Variable require_decoders :
  completion (string -> option (option (Buffer -> completion Obj))).
Variable helloPayload : string -> Z -> Z -> Payload.
Variable connectPayload : option string -> Payload.
Variable logsPayload : Z -> bool -> Payload.
Variable callback : nat -> Obj -> completion unit.

(** The object [decodeMessage] returns: the decoded message, or the empty
    object when there is no decoder or decoding throws. *)
Definition decoded (class : string) (data : Buffer) : Obj :=
  match decodeMessage require_decoders class data with
  | Return o => o
  | Throw _ => []
  end.

Lemma decodeMessage_returns (class : string) (data : Buffer) :
  decodeMessage require_decoders class data = Return (decoded class data).
Proof.
  unfold decoded, decodeMessage, tryCatch, andThen.
  destruct require_decoders as [api|e]; [|reflexivity].
  destruct (api class) as [[decode|]|]; try reflexivity.
  destruct (decode data); reflexivity.
Qed.

(** The ways decoding can fail: the module does not load, the table has
    no class of that name, the class has no [decode], or [decode]
    throws. *)
Inductive decoding_fails (class : string) (data : Buffer) : Prop :=
| decoders_throw e :
    require_decoders = Throw e -> decoding_fails class data
| unknown_class api :
    require_decoders = Return api -> api class = None ->
    decoding_fails class data
| no_decode api :
    require_decoders = Return api -> api class = Some None ->
    decoding_fails class data
| decode_throws api decode e :
    require_decoders = Return api -> api class = Some (Some decode) ->
    decode data = Throw e -> decoding_fails class data.

Lemma decoded_empty (class : string) (data : Buffer) :
  decoding_fails class data -> decoded class data = [].
Proof.
  unfold decoded, decodeMessage, tryCatch, andThen.
  intros [e Hr | api Hr Ha | api Hr Ha | api decode e Hr Ha Hd];
    rewrite Hr; try reflexivity; rewrite Ha; try reflexivity.
  rewrite Hd. reflexivity.
Qed.

Definition calls (subscriptions : list nat) (arg : Obj) : list Effect :=
  map (fun cb => Call cb arg) subscriptions.

(** Every subscriber is called, in order, whatever the calls end in. *)
Lemma notify_spec (subscriptions : list nat) (arg : Obj) :
  forall this,
    notify callback subscriptions arg this
    = (Return tt, set_trace (trace this ++ calls subscriptions arg) this).
Proof.
  induction subscriptions as [|cb more IH]; intros this.
  - cbn. rewrite app_nil_r. destruct this; reflexivity.
  - cbn [notify]. unfold bind, try_catch, assign, pure.
    destruct (callback cb arg) as [[]|e]; unfold ret; rewrite IH;
      destruct this; cbn;
      rewrite <- app_assoc; reflexivity.
Qed.


Lemma stateClass_cases (t : MessageType) (class event : string) :
  stateClass t = Some (class, event) ->
  (t = 21 \/ t = 22 \/ t = 23 \/ t = 24 \/ t = 25 \/ t = 26 \/ t = 27).
Proof.
  unfold stateClass, BinarySensorStateResponse, SensorStateResponse,
    SwitchStateResponse, TextSensorStateResponse, FanStateResponse,
    CoverStateResponse, LightStateResponse.
  repeat match goal with
         | |- context [?a =? ?b] =>
             destruct (Z.eqb_spec a b);
             [subst; intros _;
              solve [repeat (first [reflexivity | left; reflexivity | right])]|]
         end.
  discriminate.
Qed.

Lemma entityClass_cases (t : MessageType) (class : string) :
  entityClass t = Some class ->
  (t = 12 \/ t = 13 \/ t = 14 \/ t = 15 \/ t = 16 \/ t = 17 \/ t = 18).
Proof.
  unfold entityClass, ListEntitiesBinarySensorResponse,
    ListEntitiesSensorResponse, ListEntitiesSwitchResponse,
    ListEntitiesLightResponse, ListEntitiesTextSensorResponse,
    ListEntitiesFanResponse, ListEntitiesCoverResponse.
  repeat match goal with
         | |- context [?a =? ?b] =>
             destruct (Z.eqb_spec a b);
             [subst; intros _;
              solve [repeat (first [reflexivity | left; reflexivity | right])]|]
         end.
  discriminate.
Qed.

Lemma handleMessage_state (message : DecodedMessage) (class event : string) :
  stateClass message.(type) = Some (class, event) ->
  Facade.handleMessage require_decoders callback message
  = handleStateResponse require_decoders callback message.
Proof.
  intros H. destruct message as [t d]. cbn [type] in H.
  destruct (stateClass_cases t class event H)
    as [-> | [-> | [-> | [-> | [-> | [-> | ->]]]]]]; reflexivity.
Qed.

Lemma handleMessage_entity (message : DecodedMessage) (class : string) :
  entityClass message.(type) = Some class ->
  Facade.handleMessage require_decoders callback message
  = handleEntityResponse require_decoders message.
Proof.
  intros H. destruct message as [t d]. cbn [type] in H.
  destruct (entityClass_cases t class H)
    as [-> | [-> | [-> | [-> | [-> | [-> | ->]]]]]]; reflexivity.
Qed.

Lemma handleStateResponse_spec (message : DecodedMessage)
      (class event : string) (this : Client) :
  stateClass message.(type) = Some (class, event) ->
  handleStateResponse require_decoders callback message this
  = (Return tt,
     set_trace
       (trace this
          ++ Emit event (ObjArg (decoded class message.(data)))
          :: Emit "state" (ObjArg (decoded class message.(data)))
          :: calls (stateSubscriptions this) (decoded class message.(data)))
       this).
Proof.
  intros H. unfold handleStateResponse. rewrite H.
  unfold bind at 1, pure. rewrite decodeMessage_returns.
  unfold bind, emit, assign, read. cbn [stateSubscriptions set_trace].
  rewrite notify_spec. destruct this. cbn. rewrite <- !app_assoc. reflexivity.
Qed.

(** X19 -- a state update reaches everyone.  For a message of one of the
    seven kinds of state the client knows, it emits the event of the kind
    and then [state], both with the decoded object, and then calls every
    callback subscribed with [subscribeStates] once, in the order of
    subscription.  A callback that throws stops nothing: the ones after it
    are called and no error is emitted.  When the message cannot be
    decoded the events and the calls carry an empty object. *)
Theorem state_update_is_announced
        (this : Client) (message : DecodedMessage) (class event : string) :
  stateClass message.(type) = Some (class, event) ->
  let state := decoded class message.(data) in
  Facade.onMessage require_decoders callback message this
  = (Return tt,
     set_trace
       (trace this
          ++ Emit event (ObjArg state) :: Emit "state" (ObjArg state)
          :: map (fun cb => Call cb state) (stateSubscriptions this))
       this)
  /\ (decoding_fails class message.(data) -> state = []).
Proof.
  intros H state. split.
  - unfold Facade.onMessage, try_catch.
    rewrite (handleMessage_state message class event H).
    rewrite (handleStateResponse_spec message class event this H).
    reflexivity.
  - apply decoded_empty.
Qed.

(** X20 -- a log line.  For a [SubscribeLogsResponse] the client emits
    [logs] with an entry of three fields and calls every callback
    subscribed with [subscribeLogs], in order, with the same entry; a
    field that is missing, 0, empty or false in the decoded message is 0,
    the empty string or false in the entry, so that a message that cannot
    be decoded gives the entry of level 0 with an empty text. *)
Theorem log_line_is_announced (this : Client) (message : DecodedMessage) :
  message.(type) = SubscribeLogsResponse ->
  let log := decoded "SubscribeLogsResponse" message.(data) in
  let entry :=
    [("level", or_else (prop log "level") (VNumber 0));
     ("message", or_else (prop log "message") (VString ""));
     ("sendFailed", or_else (prop log "sendFailed") (VBool false))] in
  Facade.onMessage require_decoders callback message this
  = (Return tt,
     set_trace
       (trace this
          ++ Emit "logs" (ObjArg entry)
          :: map (fun cb => Call cb entry) (logSubscriptions this))
       this)
  /\ (decoding_fails "SubscribeLogsResponse" message.(data) ->
      entry = [("level", VNumber 0); ("message", VString "");
               ("sendFailed", VBool false)]).
Proof.
  intros H log entry. split.
  - unfold Facade.onMessage, try_catch. destruct message as [t d].
    cbn [type data] in *. subst t.
    change (Facade.handleMessage require_decoders callback
              {| type := SubscribeLogsResponse; data := d |})
      with (handleLogResponse require_decoders callback
              {| type := SubscribeLogsResponse; data := d |}).
    unfold handleLogResponse, bind at 1, pure. cbn [data].
    rewrite decodeMessage_returns.
    unfold bind, emit, assign, read. cbn [logSubscriptions set_trace].
    rewrite notify_spec. destruct this. cbn. rewrite <- !app_assoc.
    reflexivity.
  - intros E. unfold entry, log. rewrite (decoded_empty _ _ E). reflexivity.
Qed.

Lemma handleMessage_other (this : Client) (message : DecodedMessage) :
  entityClass message.(type) = None ->
  stateClass message.(type) = None ->
  message.(type) <> SubscribeLogsResponse ->
  Facade.handleMessage require_decoders callback message this = (Return tt, this).
Proof.
  intros He Hs Hl. unfold Facade.handleMessage.
  destruct message as [t d]. cbn [type] in *.
  destruct (Z.eqb_spec t DeviceInfoResponse) as [->|Hd].
  - unfold handleDeviceInfoResponse, bind, pure. cbn [data].
    rewrite decodeMessage_returns. reflexivity.
  - unfold entityClass in He. unfold stateClass in Hs.
    repeat match type of He with
           | context [?a =? ?b] => destruct (a =? b); [discriminate He|]
           end.
    repeat match type of Hs with
           | context [?a =? ?b] => destruct (a =? b); [discriminate Hs|]
           end.
    cbn [orb].
    destruct (Z.eqb_spec t SubscribeLogsResponse); [contradiction|].
    reflexivity.
Qed.

(** X21 -- what the client does not handle.  A message of any other type
    than the seven kinds of entity, the seven kinds of state and the log
    line changes nothing in the client: nothing is registered, emitted,
    called or written to the socket.  So the entities and states of the
    other kinds (climate, number, select, lock, ...) are dropped, and a
    [GetTimeRequest] of the device gets no answer. *)
Theorem other_messages_are_dropped (this : Client) (message : DecodedMessage) :
  entityClass message.(type) = None ->
  stateClass message.(type) = None ->
  message.(type) <> SubscribeLogsResponse ->
  Facade.onMessage require_decoders callback message this = (Return tt, this).
Proof.
  intros He Hs Hl. unfold Facade.onMessage, try_catch.
  rewrite (handleMessage_other this message He Hs Hl). reflexivity.
Qed.

Lemma onConnection_sendMessage (T : MessageType) (payload : Buffer)
      (this : Client) :
  onConnection (Conn.sendMessage T payload) this
  = (fst (Conn.sendMessage T payload (connection this)),
     set_connection (snd (Conn.sendMessage T payload (connection this))) this).
Proof.
  unfold onConnection.
  destruct (Conn.sendMessage T payload (connection this)); reflexivity.
Qed.

Lemma sendMessage_effect (T : MessageType) (payload frame : Buffer)
      (c : Conn.Connection) :
  Protocol.encodeMessage T payload = Return frame ->
  let up := Conn.isSome (Conn.socket c) && Conn.isConnected c in
  let c' := snd (Conn.sendMessage T payload c) in
  fst (Conn.sendMessage T payload c)
  = (if up then Return tt else Throw (ConnectionError "Not connected"))
  /\ Conn.trace c'
     = Conn.trace c ++ (if up then [Conn.SocketWrite frame] else [])
  /\ Conn.socket c' = Conn.socket c
  /\ Conn.state c' = Conn.state c.
Proof.
  intros He up c'. unfold c', up. rewrite sendMessage_spec, He.
  destruct (Conn.isSome (Conn.socket c) && Conn.isConnected c);
    destruct c; cbn; rewrite ?app_nil_r; repeat split.
Qed.

Lemma Set_add_In (x : nat) (set : list nat) : In x (Set_add x set).
Proof.
  unfold Set_add. destruct (existsb (Nat.eqb x) set) eqn:E.
  - apply existsb_exists in E. destruct E as (y & Hy & Exy).
    apply Nat.eqb_eq in Exy. subst y. exact Hy.
  - apply in_or_app. right. left. reflexivity.
Qed.

Lemma Set_add_again (x : nat) (set : list nat) :
  Set_add x (Set_add x set) = Set_add x set.
Proof.
  unfold Set_add at 1.
  replace (existsb (Nat.eqb x) (Set_add x set)) with true; [reflexivity|].
  symmetry. apply existsb_exists. exists x.
  split; [apply Set_add_In | apply Nat.eqb_refl].
Qed.

Lemma Set_add_NoDup (x : nat) (set : list nat) :
  NoDup set -> NoDup (Set_add x set).
Proof.
  intros H. unfold Set_add. destruct (existsb (Nat.eqb x) set) eqn:E;
    [exact H|].
  apply NoDup_app; [exact H | repeat constructor; intros [] |].
  intros y Hy [<-|[]].
  assert (existsb (Nat.eqb x) set = true); [|congruence].
  apply existsb_exists. exists x. split; [exact Hy | apply Nat.eqb_refl].
Qed.

Lemma Set_delete_In (x y : nat) (set : list nat) :
  In y (Set_delete x set) <-> In y set /\ y <> x.
Proof.
  unfold Set_delete. rewrite filter_In, negb_true_iff, Nat.eqb_neq.
  split; intros [H1 H2];
    (split; [exact H1 | intros E; apply H2; symmetry; exact E]).
Qed.

(** X22 -- the subscriptions are a set.  [subscribeStates(callback)] puts
    the callback among the subscribers before it sends the request: the
    callback is subscribed even when the call throws "Not connected".
    Subscribing it again does not subscribe it twice, but sends the
    request [00 00 14] again.  After [unsubscribeStates(callback)] the
    callback is no longer called, and the other subscribers are the same,
    in the same order.  Without a callback [unsubscribeStates] does
    nothing. *)
Theorem state_subscriptions_are_a_set (this : Client) (cb : nat) :
  let once := snd (subscribeStates (Some cb) this) in
  let twice := snd (subscribeStates (Some cb) once) in
  let gone := snd (unsubscribeStates (Some cb) twice) in
  In cb (stateSubscriptions once)
  /\ stateSubscriptions twice = stateSubscriptions once
  /\ (NoDup (stateSubscriptions this) -> NoDup (stateSubscriptions once))
  /\ fst (subscribeStates (Some cb) this)
     = (if Conn.isSome (Conn.socket (connection this))
           && Conn.isConnected (connection this)
        then Return tt else Throw (ConnectionError "Not connected"))
  /\ Conn.trace (connection twice)
     = Conn.trace (connection this)
         ++ (if Conn.isSome (Conn.socket (connection this))
                && Conn.isConnected (connection this)
             then [Conn.SocketWrite [x00; x00; x14];
                   Conn.SocketWrite [x00; x00; x14]]
             else [])
  /\ stateSubscriptions gone
     = filter (fun y => negb (Nat.eqb cb y)) (stateSubscriptions once)
  /\ (forall y, In y (stateSubscriptions gone)
                <-> In y (stateSubscriptions this) /\ y <> cb)
  /\ unsubscribeStates None this = (Return tt, this).
Proof.
  intros once twice gone.
  assert (H1 : once
               = set_connection
                   (snd (Conn.sendMessage SubscribeStatesRequest []
                           (connection this)))
                   (set_stateSubscriptions
                      (Set_add cb (stateSubscriptions this)) this)).
  { unfold once, subscribeStates, bind at 1, assign.
    rewrite onConnection_sendMessage. destruct this; reflexivity. }
  assert (H2 : twice
               = set_connection
                   (snd (Conn.sendMessage SubscribeStatesRequest []
                           (connection once)))
                   (set_stateSubscriptions
                      (Set_add cb (stateSubscriptions once)) once)).
  { unfold twice, subscribeStates, bind at 1, assign.
    rewrite onConnection_sendMessage. destruct once; reflexivity. }
  assert (S1 : stateSubscriptions once = Set_add cb (stateSubscriptions this))
    by (rewrite H1; destruct this; reflexivity).
  assert (S2 : stateSubscriptions twice = stateSubscriptions once)
    by (rewrite H2, S1; cbn; apply Set_add_again).
  assert (S3 : stateSubscriptions gone
               = Set_delete cb (stateSubscriptions twice))
    by (unfold gone; destruct twice; reflexivity).
  split; [rewrite S1; apply Set_add_In|].
  split; [exact S2|].
  split; [rewrite S1; apply Set_add_NoDup|].
  split; [|split; [|split; [|split]]].
  - unfold subscribeStates, bind at 1, assign.
    rewrite onConnection_sendMessage. cbn [fst connection].
    rewrite sendMessage_spec.
    replace (connection (set_stateSubscriptions _ this)) with (connection this)
      by (destruct this; reflexivity).
    destruct (Conn.isSome (Conn.socket (connection this))
              && Conn.isConnected (connection this)); reflexivity.
  - rewrite H2. cbn [connection set_connection].
    assert (C1 : connection once
                 = snd (Conn.sendMessage SubscribeStatesRequest []
                          (connection this)))
      by (rewrite H1; destruct this; reflexivity).
    destruct (sendMessage_effect SubscribeStatesRequest [] [x00; x00; x14]
                (connection this) eq_refl) as (_ & T1 & E1 & E2).
    destruct (sendMessage_effect SubscribeStatesRequest [] [x00; x00; x14]
                (connection once) eq_refl) as (_ & T2 & _).
    rewrite T2. unfold Conn.isConnected. rewrite C1, T1, E1, E2.
    fold (Conn.isConnected (connection this)).
    destruct (Conn.isSome (Conn.socket (connection this))
              && Conn.isConnected (connection this));
      rewrite <- ?app_assoc, ?app_nil_r; reflexivity.
  - rewrite S3, S2. reflexivity.
  - intros y. rewrite S3, S2, S1, Set_delete_In. unfold Set_add.
    destruct (existsb (Nat.eqb cb) (stateSubscriptions this));
      [reflexivity|].
    rewrite in_app_iff. cbn [In]. split.
    + intros [[H|[H|[]]] N];
        [split; assumption | exfalso; apply N; symmetry; exact H].
    + intros [H N]. split; [left; exact H | exact N].
  - reflexivity.
Qed.

Lemma Value_eqb_eq (a b : Value) : Value_eqb a b = true <-> a = b.
Proof.
  destruct a, b; cbn; try (split; [discriminate | congruence]).
  - tauto.
  - rewrite Bool.eqb_true_iff. split; congruence.
  - rewrite Z.eqb_eq. split; congruence.
  - rewrite String.eqb_eq. split; congruence.
  - rewrite Nat.eqb_eq. split; congruence.
Qed.

Lemma Map_set_keys (key : Value) (value : Obj) (map : list (Value * Obj)) :
  List.map fst (Map_set key value map)
  = if existsb (fun k => Value_eqb k key) (List.map fst map)
    then List.map fst map else List.map fst map ++ [key].
Proof.
  induction map as [|[k v] map IH]; [reflexivity|]. cbn [Map_set List.map fst existsb].
  destruct (Value_eqb k key) eqn:E; cbn [orb List.map fst]; [reflexivity|].
  rewrite IH. destruct (existsb _ _); reflexivity.
Qed.

Lemma Map_set_NoDup (key : Value) (value : Obj) (map : list (Value * Obj)) :
  NoDup (List.map fst map) -> NoDup (List.map fst (Map_set key value map)).
Proof.
  intros H. rewrite Map_set_keys.
  destruct (existsb _ _) eqn:E; [exact H|].
  apply NoDup_app; [exact H | repeat constructor; intros [] |].
  intros k Hk [<-|[]].
  assert (existsb (fun k => Value_eqb k key) (List.map fst map) = true);
    [|congruence].
  apply existsb_exists. exists key. split; [exact Hk | apply Value_eqb_eq; reflexivity].
Qed.

Lemma Map_set_key_In (key : Value) (value : Obj) (map : list (Value * Obj)) :
  In key (List.map fst (Map_set key value map)).
Proof.
  rewrite Map_set_keys. destruct (existsb _ _) eqn:E.
  - apply existsb_exists in E. destruct E as (k & Hk & Ek).
    apply Value_eqb_eq in Ek. subst k. exact Hk.
  - apply in_or_app. right. left. reflexivity.
Qed.

Lemma Map_set_keys_kept (key k : Value) (value : Obj)
      (map : list (Value * Obj)) :
  In k (List.map fst map) -> In k (List.map fst (Map_set key value map)).
Proof.
  intros H. rewrite Map_set_keys. destruct (existsb _ _); [exact H|].
  apply in_or_app. left. exact H.
Qed.

Lemma Map_set_In (key : Value) (value : Obj) (map : list (Value * Obj)) :
  forall k v, In (k, v) (Map_set key value map) ->
              In (k, v) map \/ (k = key /\ v = value).
Proof.
  induction map as [|[k0 v0] map IH]; intros k v H; cbn [Map_set] in H.
  - destruct H as [H|[]]. injection H as <- <-. right. split; reflexivity.
  - destruct (Value_eqb k0 key) eqn:E.
    + destruct H as [H|H].
      * injection H as <- <-. apply Value_eqb_eq in E. right. split; auto.
      * left. right. exact H.
    + destruct H as [H|H]; [left; left; exact H|].
      destruct (IH k v H) as [H'|H']; [left; right; exact H' | right; exact H'].
Qed.

(** What one arriving message does to the map of entities. *)
Definition register (map : list (Value * Obj)) (message : DecodedMessage)
  : list (Value * Obj) :=
  match entityClass message.(type) with
  | Some class =>
      let entity := decoded class message.(data) in
      match prop entity "key" with
      | VUndefined => map
      | key => Map_set key entity map
      end
  | None => map
  end.

Lemma handleLogResponse_spec (message : DecodedMessage) (this : Client) :
  exists effects,
    handleLogResponse require_decoders callback message this
    = (Return tt, set_trace (trace this ++ effects) this).
Proof.
  unfold handleLogResponse, bind at 1, pure. rewrite decodeMessage_returns.
  unfold bind, emit, assign, read. cbn [logSubscriptions set_trace].
  rewrite notify_spec. destruct this. eexists. cbn.
  rewrite <- !app_assoc. reflexivity.
Qed.

Lemma onMessage_register (message : DecodedMessage) (this : Client) :
  exists this',
    Facade.onMessage require_decoders callback message this = (Return tt, this')
    /\ entities this' = register (entities this) message
    /\ connection this' = connection this.
Proof.
  unfold Facade.onMessage, try_catch, register.
  destruct (entityClass (type message)) as [class|] eqn:He.
  - rewrite (handleMessage_entity message class He).
    unfold handleEntityResponse. rewrite He.
    unfold bind at 1, pure. rewrite decodeMessage_returns.
    destruct (prop (decoded class (data message)) "key");
      eexists; (split; [reflexivity|]); destruct this; split; reflexivity.
  - destruct (stateClass (type message)) as [[class event]|] eqn:Hs.
    + rewrite (handleMessage_state message class event Hs).
      rewrite (handleStateResponse_spec message class event this Hs).
      eexists. split; [reflexivity|]. destruct this; split; reflexivity.
    + destruct (Z.eqb_spec (type message) SubscribeLogsResponse) as [Hl|Hl].
      * destruct message as [t d]. cbn [type] in Hl. subst t.
        change (Facade.handleMessage require_decoders callback
                  {| type := SubscribeLogsResponse; data := d |})
          with (handleLogResponse require_decoders callback
                  {| type := SubscribeLogsResponse; data := d |}).
        destruct (handleLogResponse_spec
                    {| type := SubscribeLogsResponse; data := d |} this)
          as (eff & E).
        rewrite E. eexists. split; [reflexivity|].
        destruct this; split; reflexivity.
      * rewrite (handleMessage_other this message He Hs Hl).
        exists this. repeat split.
Qed.

Lemma forEach_onMessage_register (messages : list DecodedMessage) :
  forall this,
  exists this',
    forEach_onMessage require_decoders callback messages this = (Return tt, this')
    /\ entities this' = fold_left register messages (entities this)
    /\ connection this' = connection this.
Proof.
  induction messages as [|m more IH]; intros this.
  - exists this. repeat split.
  - cbn [forEach_onMessage fold_left]. unfold bind.
    destruct (onMessage_register m this) as (this1 & E1 & R1 & C1).
    rewrite E1. destruct (IH this1) as (this2 & E2 & R2 & C2).
    exists this2. split; [exact E2|]. split; congruence.
Qed.

(** The map holds one entry for each key, under the key the entity
    carries, and only entities that the messages announce. *)
Definition well_keyed (messages : list DecodedMessage)
           (map : list (Value * Obj)) : Prop :=
  NoDup (List.map fst map)
  /\ forall k e, In (k, e) map ->
       prop e "key" = k /\ k <> VUndefined
       /\ exists m class,
           In m messages /\ entityClass m.(type) = Some class
           /\ e = decoded class m.(data).

Lemma register_well_keyed (messages : list DecodedMessage)
      (map : list (Value * Obj)) (m : DecodedMessage) :
  In m messages -> well_keyed messages map ->
  well_keyed messages (register map m).
Proof.
  intros Hm [Hn Hk]. unfold register.
  destruct (entityClass (type m)) as [class|] eqn:He; [|split; assumption].
  set (e := decoded class (data m)).
  destruct (prop e "key") eqn:Ekey; try (split; assumption);
    (split; [apply Map_set_NoDup, Hn|]);
    intros k e' Hin; apply Map_set_In in Hin;
    (destruct Hin as [Hin | [-> ->]]; [apply Hk, Hin|]);
    (split; [exact Ekey|]); (split; [discriminate|]);
    exists m, class; repeat split; assumption.
Qed.

Lemma fold_register_well_keyed (messages : list DecodedMessage) :
  forall (some : list DecodedMessage) map,
    (forall m, In m some -> In m messages) ->
    well_keyed messages map ->
    well_keyed messages (fold_left register some map).
Proof.
  intros some. induction some as [|m more IH]; intros map Hsub Hw;
    [exact Hw|].
  cbn [fold_left]. apply IH.
  - intros m' H. apply Hsub. right. exact H.
  - apply register_well_keyed; [apply Hsub; left; reflexivity | exact Hw].
Qed.

Lemma register_keys_kept (map : list (Value * Obj)) (m : DecodedMessage)
      (k : Value) :
  In k (List.map fst map) -> In k (List.map fst (register map m)).
Proof.
  intros H. unfold register.
  destruct (entityClass (type m)); [|exact H].
  destruct (prop _ "key"); try exact H; apply Map_set_keys_kept, H.
Qed.

Lemma fold_register_keys_kept (some : list DecodedMessage) :
  forall map k,
    In k (List.map fst map) ->
    In k (List.map fst (fold_left register some map)).
Proof.
  induction some as [|m more IH]; intros map k H; [exact H|].
  cbn [fold_left]. apply IH, register_keys_kept, H.
Qed.

Lemma fold_register_complete (some : list DecodedMessage) :
  forall map m class,
    In m some -> entityClass m.(type) = Some class ->
    prop (decoded class m.(data)) "key" <> VUndefined ->
    In (prop (decoded class m.(data)) "key")
       (List.map fst (fold_left register some map)).
Proof.
  induction some as [|m0 more IH]; intros map m class Hin He Hk; [destruct Hin|].
  cbn [fold_left]. destruct Hin as [<-|Hin]; [|apply (IH _ m class); assumption].
  apply fold_register_keys_kept. unfold register. rewrite He.
  destruct (prop (decoded class (data m0)) "key") eqn:E;
    [congruence | apply Map_set_key_In ..].
Qed.

Lemma waitForMessage_first (type : MessageType) (timeout : Z)
      (arrivals : list DecodedMessage) :
  (exists m, In m arrivals /\ m.(Protocol.type) = type) ->
  exists first,
    waitForMessage type timeout arrivals = Return first
    /\ In first arrivals /\ first.(Protocol.type) = type.
Proof.
  induction arrivals as [|m more IH]; intros (m0 & Hin & Ht);
    [destruct Hin|].
  cbn [waitForMessage].
  destruct (Z.eqb_spec (Protocol.type m) type) as [E|E].
  - exists m. split; [reflexivity|]. split; [left; reflexivity | exact E].
  - destruct Hin as [->|Hin]; [contradiction|].
    destruct IH as (first & E1 & E2 & E3); [exists m0; split; assumption|].
    exists first. split; [exact E1|]. split; [right; exact E2 | exact E3].
Qed.

Lemma waitForMessage_none (type : MessageType) (timeout : Z)
      (arrivals : list DecodedMessage) :
  Forall (fun m => m.(Protocol.type) <> type) arrivals ->
  waitForMessage type timeout arrivals
  = Throw (ESPHomeError
             ("Timeout waiting for message type " ++ numberToString type)).
Proof.
  intros H. induction H as [|m more Hm _ IH]; [reflexivity|].
  cbn [waitForMessage].
  destruct (Z.eqb_spec (Protocol.type m) type); [contradiction | exact IH].
Qed.

(** X23 -- the list of entities.  [listEntities()] on a connection that is
    up forgets the entities it knows, sends the request [00 00 0b] and
    waits for [ListEntitiesDoneResponse].  When one arrives it returns the
    entities announced since the call, one for each key, in the order the
    keys first came: an entity announced again under the same key takes
    the place of the earlier one.  Every entity it returns carries a key
    and was announced after the request, and every key announced is among
    them.  When none arrives the call is rejected with the timeout of
    message type 19. *)
Theorem listEntities_returns_the_announced
        (this : Client) (arrivals : list DecodedMessage) :
  Conn.isSome (Conn.socket (connection this))
  && Conn.isConnected (connection this) = true ->
  ((exists done, In done arrivals /\ done.(type) = ListEntitiesDoneResponse) ->
   exists list this',
     Facade.listEntities require_decoders callback arrivals this
     = (Return list, this')
     /\ Conn.trace (connection this')
        = Conn.trace (connection this) ++ [Conn.SocketWrite [x00; x00; x0b]]
     /\ list = List.map snd (fold_left register arrivals [])
     /\ NoDup (List.map (fun e => prop e "key") list)
     /\ (forall e, In e list ->
           prop e "key" <> VUndefined
           /\ exists m class,
               In m arrivals /\ entityClass m.(type) = Some class
               /\ e = decoded class m.(data))
     /\ (forall m class,
           In m arrivals -> entityClass m.(type) = Some class ->
           prop (decoded class m.(data)) "key" <> VUndefined ->
           exists e, In e list
                     /\ prop e "key" = prop (decoded class m.(data)) "key"))
  /\ (Forall (fun m => m.(type) <> ListEntitiesDoneResponse) arrivals ->
      fst (Facade.listEntities require_decoders callback arrivals this)
      = Throw (ESPHomeError "Timeout waiting for message type 19")).
Proof.
  intros Hup.
  assert (Hrun :
    exists this2,
      Facade.listEntities require_decoders callback arrivals this
      = match waitForMessage ListEntitiesDoneResponse 10000 arrivals with
        | Return _ => (Return (List.map snd (entities this2)), this2)
        | Throw e => (Throw e, this2)
        end
      /\ entities this2 = fold_left register arrivals []
      /\ Conn.trace (connection this2)
         = Conn.trace (connection this)
             ++ [Conn.SocketWrite [x00; x00; x0b]]).
  { unfold Facade.listEntities, bind at 1, assign.
    unfold bind at 1. rewrite onConnection_sendMessage.
    destruct (sendMessage_effect ListEntitiesRequest [] [x00; x00; x0b]
                (connection (set_entities [] this)) eq_refl) as (R1 & T1 & _).
    replace (connection (set_entities [] this)) with (connection this) in *
      by (destruct this; reflexivity).
    rewrite Hup in R1, T1. rewrite R1.
    set (this1 := set_connection _ _).
    unfold awaitMessage, bind at 1. unfold bind at 1.
    destruct (forEach_onMessage_register arrivals this1)
      as (this2 & E2 & R2 & C2).
    rewrite E2. exists this2. unfold pure.
    split; [destruct (waitForMessage _ _ _); reflexivity|].
    split.
    - rewrite R2. unfold this1. destruct this; reflexivity.
    - rewrite C2. unfold this1. destruct this; exact T1. }
  destruct Hrun as (this2 & Erun & Hreg & Htr). split.
  - intros Hdone.
    destruct (waitForMessage_first ListEntitiesDoneResponse 10000 arrivals Hdone)
      as (first & Ew & _).
    rewrite Ew in Erun.
    assert (Hw : well_keyed arrivals (fold_left register arrivals [])).
    { apply fold_register_well_keyed; [auto|].
      split; [constructor | intros k e []]. }
    destruct Hw as [Hn Hk].
    exists (List.map snd (entities this2)), this2.
    split; [exact Erun|]. split; [exact Htr|]. split; [|split; [|split]].
    + rewrite Hreg. reflexivity.
    + rewrite Hreg, map_map.
      replace (List.map (fun x => prop (snd x) "key")
                        (fold_left register arrivals []))
        with (List.map fst (fold_left register arrivals [])); [exact Hn|].
      apply map_ext_in. intros [k e] Hin. cbn. symmetry. apply (Hk k e Hin).
    + intros e Hin. rewrite Hreg in Hin. apply in_map_iff in Hin.
      destruct Hin as ([k e'] & <- & Hin). cbn.
      destruct (Hk k e' Hin) as (K1 & K2 & K3). split; [congruence | exact K3].
    + intros m class Hin He Hkey.
      pose proof (fold_register_complete arrivals [] m class Hin He Hkey) as Hc.
      apply in_map_iff in Hc. destruct Hc as ([k e] & Ek & Hc). cbn in Ek.
      exists e. split.
      * rewrite Hreg. apply in_map_iff. exists (k, e).
        split; [reflexivity | exact Hc].
      * destruct (Hk k e Hc) as (K1 & _). congruence.
  - intros Hnone. rewrite Erun.
    rewrite (waitForMessage_none ListEntitiesDoneResponse 10000 arrivals Hnone).
    reflexivity.
Qed.

(** *** The handshake *)

(** [m], run on [this], ends in [Q] when it returns and in [E] when it
    throws. *)
Definition ends {A} (m : M A) (this : Client)
           (Q : A -> Client -> Prop) (E : Client -> Prop) : Prop :=
  match m this with
  | (Return a, this') => Q a this'
  | (Throw _, this') => E this'
  end.

Lemma ends_bind {A B} (m : M A) (k : A -> M B) (this : Client)
      (Q1 : A -> Client -> Prop) (Q : B -> Client -> Prop)
      (E : Client -> Prop) :
  ends m this Q1 E ->
  (forall a this1, Q1 a this1 -> ends (k a) this1 Q E) ->
  ends (bind m k) this Q E.
Proof.
  unfold ends, bind. intros Hm Hk.
  destruct (m this) as [[a|e] this1]; [apply Hk, Hm | exact Hm].
Qed.

Lemma ends_pure {A} (c : completion A) (this : Client)
      (Q : A -> Client -> Prop) (E : Client -> Prop) :
  match c with Return a => Q a this | Throw _ => E this end ->
  ends (pure c) this Q E.
Proof. unfold ends, pure. destruct c; auto. Qed.

Lemma ends_onConnection {A} (m : Conn.M A) (this : Client)
      (Q : A -> Client -> Prop) (E : Client -> Prop) :
  match m (connection this) with
  | (Return a, c) => Q a (set_connection c this)
  | (Throw _, c) => E (set_connection c this)
  end ->
  ends (onConnection m) this Q E.
Proof.
  unfold ends, onConnection.
  destruct (m (connection this)) as [[a|e] c]; auto.
Qed.

Lemma ends_try_finally {A} (m : M A) (f : Client -> Client) (this : Client)
      (Q1 Q : A -> Client -> Prop) (E1 E : Client -> Prop) :
  ends m this Q1 E1 ->
  (forall a x, Q1 a x -> Q a (f x)) ->
  (forall x, E1 x -> E (f x)) ->
  ends (try_finally m (assign f)) this Q E.
Proof.
  unfold ends, try_finally, assign. intros Hm HQ HE.
  destruct (m this) as [[a|e] x]; auto.
Qed.

(** What the messages that arrive make the client announce: none of the
    events of the handshake. *)
Definition announces (e : Effect) : bool :=
  match e with
  | Emit event _ =>
      negb (existsb (String.eqb event)
                    ["connected"; "disconnected"; "deviceInfo"; "error"])
  | Call _ _ => true
  end.

Lemma calls_announce (subscriptions : list nat) (arg : Obj) :
  forallb announces (calls subscriptions arg) = true.
Proof. induction subscriptions; [reflexivity | exact IHsubscriptions]. Qed.

Lemma stateClass_event (t : MessageType) (class event : string) (arg : Arg) :
  stateClass t = Some (class, event) -> announces (Emit event arg) = true.
Proof.
  unfold stateClass.
  repeat match goal with
         | |- context [?a =? ?b] => destruct (a =? b)
         end;
    intros H; inversion H; reflexivity.
Qed.

Lemma onMessage_announces (message : DecodedMessage) (this : Client) :
  exists effects,
    Facade.onMessage require_decoders callback message this
    = (Return tt,
       set_trace (trace this ++ effects)
                 (set_entities (register (entities this) message) this))
    /\ forallb announces effects = true.
Proof.
  unfold Facade.onMessage, try_catch, register.
  destruct (entityClass (type message)) as [class|] eqn:He.
  - rewrite (handleMessage_entity message class He).
    unfold handleEntityResponse. rewrite He.
    unfold bind at 1, pure. rewrite decodeMessage_returns.
    destruct (prop (decoded class (data message)) "key");
      [exists []; split; [|reflexivity];
       destruct this; cbn; rewrite app_nil_r; reflexivity
      |eexists [_]; split; [destruct this; reflexivity | reflexivity] ..].
  - destruct (stateClass (type message)) as [[class event]|] eqn:Hs.
    + rewrite (handleMessage_state message class event Hs).
      rewrite (handleStateResponse_spec message class event this Hs).
      eexists. split; [destruct this; reflexivity|].
      cbn [forallb]. rewrite (stateClass_event _ _ _ _ Hs), calls_announce.
      reflexivity.
    + destruct (Z.eqb_spec (type message) SubscribeLogsResponse) as [Hl|Hl].
      * destruct message as [t d]. cbn [type] in Hl. subst t.
        change (Facade.handleMessage require_decoders callback
                  {| type := SubscribeLogsResponse; data := d |})
          with (handleLogResponse require_decoders callback
                  {| type := SubscribeLogsResponse; data := d |}).
        unfold handleLogResponse, bind at 1, pure.
        rewrite decodeMessage_returns.
        unfold bind, emit, assign, read. cbn [logSubscriptions set_trace].
        rewrite notify_spec. destruct this. eexists (_ :: calls _ _).
        split; [cbn; rewrite <- !app_assoc; reflexivity|].
        cbn [forallb]. rewrite calls_announce. reflexivity.
      * rewrite (handleMessage_other this message He Hs Hl).
        exists []. split; [|reflexivity].
        destruct this; cbn; rewrite app_nil_r; reflexivity.
Qed.

(** The client has stored no device info since [this], and emitted only
    what the arriving messages announce. *)
Definition underway (this x : Client) : Prop :=
  options x = options this /\ deviceInfo x = deviceInfo this
  /\ exists heard,
      forallb announces heard = true /\ trace x = trace this ++ heard.

Lemma underway_refl (this : Client) : underway this this.
Proof.
  split; [reflexivity|]. split; [reflexivity|].
  exists []. split; [reflexivity | symmetry; apply app_nil_r].
Qed.

Lemma underway_connection (this x : Client) (c : Conn.Connection) :
  underway this x -> underway this (set_connection c x).
Proof. destruct x. exact (fun H => H). Qed.

Lemma underway_isAuthenticating (this x : Client) (b : bool) :
  underway this x -> underway this (set_isAuthenticating b x).
Proof. destruct x. exact (fun H => H). Qed.

Lemma underway_heard (this x : Client) (effects : list Effect)
      (map : list (Value * Obj)) :
  forallb announces effects = true ->
  underway this x ->
  underway this (set_trace (trace x ++ effects) (set_entities map x)).
Proof.
  intros He (H1 & H2 & heard & H3 & H4).
  split; [destruct x; exact H1|]. split; [destruct x; exact H2|].
  exists (heard ++ effects). split.
  - rewrite forallb_app, H3, He. reflexivity.
  - destruct x; cbn in *. rewrite H4, app_assoc. reflexivity.
Qed.

Lemma forEach_onMessage_quiet (messages : list DecodedMessage) :
  forall this,
  exists this',
    forEach_onMessage require_decoders callback messages this
    = (Return tt, this')
    /\ connection this' = connection this
    /\ isAuthenticating this' = isAuthenticating this
    /\ forall this0, underway this0 this -> underway this0 this'.
Proof.
  induction messages as [|m more IH]; intros this.
  - exists this. do 3 (split; [reflexivity|]). exact (fun _ H => H).
  - cbn [forEach_onMessage]. unfold bind.
    destruct (onMessage_announces m this) as (effects & E1 & A1).
    rewrite E1.
    destruct (IH (set_trace (trace this ++ effects)
                    (set_entities (register (entities this) m) this)))
      as (this2 & E2 & C2 & I2 & Q2).
    exists this2. split; [exact E2|].
    split; [rewrite C2; destruct this; reflexivity|].
    split; [rewrite I2; destruct this; reflexivity|].
    intros this0 H. apply Q2, underway_heard; assumption.
Qed.

Lemma awaitMessage_spec (type : MessageType) (timeout : Z)
      (arrivals : list DecodedMessage) (this : Client) :
  exists this',
    awaitMessage require_decoders callback type timeout arrivals this
    = (waitForMessage type timeout arrivals, this')
    /\ connection this' = connection this
    /\ isAuthenticating this' = isAuthenticating this
    /\ forall this0, underway this0 this -> underway this0 this'.
Proof.
  unfold awaitMessage, bind, pure.
  destruct (forEach_onMessage_quiet arrivals this) as (this' & -> & H).
  exists this'. split; [reflexivity | exact H].
Qed.

Definition has_password (o : Conn.ConnectionOptions) : bool :=
  match Conn.opt_password o with Some (String _ _) => true | _ => false end.

Definition encoded (class : string) (payload : Payload) : Buffer :=
  match Facade.encodeMessage Payload ProtoMessage require_api class payload with
  | Return d => d
  | Throw _ => []
  end.

Lemma encodeMessage_encoded (class : string) (payload : Payload) :
  Facade.encodeMessage Payload ProtoMessage require_api class payload
  = Return (encoded class payload).
Proof.
  unfold encoded, Facade.encodeMessage.
  destruct (client_encodeMessage_returns Payload ProtoMessage require_api
              class payload) as (d & ->).
  reflexivity.
Qed.

Lemma sendMessage_state (T : MessageType) (payload : Buffer)
      (c : Conn.Connection) :
  Conn.state (snd (Conn.sendMessage T payload c)) = Conn.state c
  /\ Conn.hasDeepSleep (snd (Conn.sendMessage T payload c))
     = Conn.hasDeepSleep c.
Proof.
  rewrite sendMessage_spec.
  destruct (Conn.isSome (Conn.socket c) && Conn.isConnected c);
    [|split; reflexivity].
  destruct (Protocol.encodeMessage T payload); destruct c; split; reflexivity.
Qed.

Lemma updated_state (p : State.Property) (c : Conn.Connection) :
  Conn.updateState [p] c
  = (Return tt, updated [p] c)
  /\ Conn.state (updated [p] c) = State.set p (Conn.state c)
  /\ Conn.hasDeepSleep (updated [p] c) = Conn.hasDeepSleep c.
Proof.
  split; [apply updateState_spec|]. destruct c. split; reflexivity.
Qed.

(** The version of the API the hello response gives the connection. *)
Definition hello_version (helloResponse : DecodedMessage) : State.Property :=
  let response := decoded "HelloResponse" helloResponse.(data) in
  State.apiVersion (Int (number_or (prop response "apiVersionMajor") 1))
                   (Int (number_or (prop response "apiVersionMinor") 9)).

Definition password_accepted (auth : list DecodedMessage) : Prop :=
  exists response,
    waitForMessage Conn.ConnectResponse 5000 auth = Return response
    /\ truthy (prop (decoded "ConnectResponse" response.(data))
                    "invalidPassword") = false.

(** The handshake has got through. *)
Definition completed (hello auth : list DecodedMessage) (this x : Client)
  : Prop :=
  (exists info heard,
      deviceInfo x = Some info
      /\ forallb announces heard = true
      /\ trace x
         = trace this ++ heard ++ [Emit "deviceInfo" (ObjArg info);
                                   Emit "connected" NoArg]
      /\ (truthy (prop info "hasDeepSleep") = true ->
          Conn.hasDeepSleep (connection x) = true))
  /\ Conn.isAuthenticated (connection x) = true
  /\ (exists helloResponse,
        waitForMessage Conn.HelloResponse 5000 hello = Return helloResponse
        /\ State.get State.KapiVersion (Conn.state (connection x))
           = Some (hello_version helloResponse))
  /\ (has_password (options this) = true ->
      password_accepted auth /\ isAuthenticating x = false).

(** The handshake has failed and the client has disconnected. *)
Definition given_up (this x : Client) : Prop :=
  deviceInfo x = deviceInfo this
  /\ (exists heard,
        forallb announces heard = true
        /\ trace x = trace this ++ heard ++ [Emit "disconnected" NoArg])
  /\ Conn.isConnected (connection x) = false
  /\ Conn.isAuthenticated (connection x) = false
  /\ Conn.socket (connection x) = None
  /\ exists before,
      Conn.trace (connection x) = before ++ [Conn.Emit Conn.disconnect_event].

Lemma handleHelloResponse_ends (helloResponse : DecodedMessage)
      (this0 this : Client) :
  underway this0 this ->
  ends (handleHelloResponse require_decoders helloResponse) this
       (fun _ x =>
          underway this0 x
          /\ State.get State.KapiVersion (Conn.state (connection x))
             = Some (hello_version helloResponse))
       (fun _ => False).
Proof.
  intros Hs. unfold handleHelloResponse.
  eapply ends_bind
    with (Q1 := fun r x =>
                  underway this0 x
                  /\ r = decoded "HelloResponse" (data helloResponse));
    [apply ends_pure; rewrite decodeMessage_returns; exact (conj Hs eq_refl)|].
  intros response this1 [Hs1 ->].
  eapply ends_bind
    with (Q1 := fun _ x =>
                  underway this0 x
                  /\ Conn.state (connection x)
                     = State.set
                         (hello_version helloResponse)
                         (Conn.state (connection this1))).
  - apply ends_onConnection. unfold Conn.setApiVersion.
    destruct (updated_state
                (State.apiVersion
                   (Int (number_or (prop (decoded "HelloResponse" (data helloResponse))
                                         "apiVersionMajor") 1))
                   (Int (number_or (prop (decoded "HelloResponse" (data helloResponse))
                                         "apiVersionMinor") 9)))
                (connection this1)) as (-> & E2 & _).
    exact (conj (underway_connection _ _ _ Hs1) E2).
  - intros _ this2 [Hs2 E2].
    assert (Hv : State.get State.KapiVersion (Conn.state (connection this2))
                 = Some (hello_version helloResponse)).
    { rewrite E2. unfold hello_version.
      change State.KapiVersion
        with (State.key
                (State.apiVersion
                   (Int (number_or (prop (decoded "HelloResponse" (data helloResponse))
                                         "apiVersionMajor") 1))
                   (Int (number_or (prop (decoded "HelloResponse" (data helloResponse))
                                         "apiVersionMinor") 9)))).
      apply get_set_same. }
    destruct (prop (decoded "HelloResponse" (data helloResponse)) "serverInfo")
      as [|b|n|info|id]; try exact (conj Hs2 Hv).
    destruct (negb (String.eqb info "")); [|exact (conj Hs2 Hv)].
    cbn [when]. apply ends_onConnection. unfold Conn.setServerInfo.
    destruct (updated_state (State.serverInfo info) (connection this2))
      as (-> & E3 & _).
    split; [apply underway_connection, Hs2|].
    cbn [connection set_connection]. destruct this2; cbn in *.
    rewrite get_set_other by discriminate. exact Hv.
Qed.

Lemma authenticate_ends (auth : list DecodedMessage) (this0 this : Client) :
  underway this0 this ->
  ends (authenticate Payload ProtoMessage require_api require_decoders
                     connectPayload callback auth) this
       (fun _ x =>
          underway this0 x
          /\ Conn.state (connection x) = Conn.state (connection this)
          /\ password_accepted auth /\ isAuthenticating x = false)
       (fun x => underway this0 x).
Proof.
  intros Hs. unfold authenticate.
  eapply ends_bind with (Q1 := fun b x => x = this /\ b = isAuthenticating this);
    [split; reflexivity|].
  intros b x [-> ->].
  destruct (isAuthenticating this); [exact Hs|].
  eapply ends_bind
    with (Q1 := fun _ x =>
                  underway this0 x /\ connection x = connection this);
    [split; [apply underway_isAuthenticating, Hs | destruct this; reflexivity]|].
  intros _ this1 [Hs1 C1].
  apply ends_try_finally
    with (Q1 := fun _ x =>
                  underway this0 x
                  /\ Conn.state (connection x) = Conn.state (connection this)
                  /\ password_accepted auth)
         (E1 := fun x => underway this0 x).
  - eapply ends_bind with (Q1 := fun o x => x = this1 /\ o = options this1);
      [split; reflexivity|].
    intros o x [-> ->].
    eapply ends_bind with (Q1 := fun d x => x = this1);
      [apply ends_pure; rewrite encodeMessage_encoded; reflexivity|].
    intros d x ->.
    eapply ends_bind
      with (Q1 := fun _ x =>
                    underway this0 x
                    /\ Conn.state (connection x) = Conn.state (connection this)).
    { apply ends_onConnection.
      destruct (sendMessage_state Conn.ConnectRequest d (connection this1))
        as [St _].
      destruct (Conn.sendMessage Conn.ConnectRequest d (connection this1))
        as [[[]|e] c2]; cbn [fst snd] in *;
        [|apply underway_connection, Hs1].
      split; [apply underway_connection, Hs1|].
      destruct this1; cbn in *; congruence. }
    intros _ this2 [Hs2 St2].
    eapply ends_bind
      with (Q1 := fun r x =>
                    underway this0 x
                    /\ Conn.state (connection x) = Conn.state (connection this)
                    /\ waitForMessage Conn.ConnectResponse 5000 auth = Return r).
    { unfold ends.
      destruct (awaitMessage_spec Conn.ConnectResponse 5000 auth this2)
        as (this3 & -> & C3 & _ & Q3).
      destruct (waitForMessage Conn.ConnectResponse 5000 auth);
        [|apply Q3, Hs2].
      split; [apply Q3, Hs2|]. split; [congruence | reflexivity]. }
    intros response this3 (Hs3 & St3 & W).
    eapply ends_bind
      with (Q1 := fun r x =>
                    x = this3
                    /\ r = decoded "ConnectResponse" response.(data));
      [apply ends_pure; rewrite decodeMessage_returns; split; reflexivity|].
    intros r x [-> ->].
    destruct (truthy (prop (decoded "ConnectResponse" (data response))
                           "invalidPassword")) eqn:T; [exact Hs3|].
    split; [exact Hs3|]. split; [exact St3|].
    exists response. split; [exact W | exact T].
  - intros _ x (H1 & H2 & H3).
    split; [apply underway_isAuthenticating, H1|].
    split; [destruct x; exact H2|]. split; [exact H3|].
    destruct x; reflexivity.
  - intros x H. apply underway_isAuthenticating, H.
Qed.

Lemma requestDeviceInfo_ends (info : list DecodedMessage)
      (this0 this : Client) :
  underway this0 this ->
  ends (requestDeviceInfo require_decoders callback info) this
       (fun _ x =>
          Conn.state (connection x) = Conn.state (connection this)
          /\ isAuthenticating x = isAuthenticating this
          /\ exists i heard,
              deviceInfo x = Some i
              /\ forallb announces heard = true
              /\ trace x = trace this0 ++ heard ++ [Emit "deviceInfo" (ObjArg i)]
              /\ (truthy (prop i "hasDeepSleep") = true ->
                  Conn.hasDeepSleep (connection x) = true))
       (fun x => underway this0 x).
Proof.
  intros Hs. unfold requestDeviceInfo.
  eapply ends_bind
    with (Q1 := fun _ x =>
                  underway this0 x
                  /\ Conn.state (connection x) = Conn.state (connection this)
                  /\ isAuthenticating x = isAuthenticating this).
  { apply ends_onConnection.
    destruct (sendMessage_state DeviceInfoRequest [] (connection this))
      as [St _].
    destruct (Conn.sendMessage DeviceInfoRequest [] (connection this))
      as [[[]|e] c1]; cbn [fst snd] in *;
      [|apply underway_connection, Hs].
    split; [apply underway_connection, Hs|]. destruct this; split; [exact St|].
    reflexivity. }
  intros _ this1 (Hs1 & St1 & Ia1).
  eapply ends_bind
    with (Q1 := fun _ x =>
                  underway this0 x
                  /\ Conn.state (connection x) = Conn.state (connection this)
                  /\ isAuthenticating x = isAuthenticating this).
  { unfold ends.
    destruct (awaitMessage_spec DeviceInfoResponse 5000 info this1)
      as (this2 & -> & C2 & I2 & Q2).
    destruct (waitForMessage DeviceInfoResponse 5000 info);
      [|apply Q2, Hs1].
    split; [apply Q2, Hs1|]. split; congruence. }
  intros response this2 (Hs2 & St2 & Ia2).
  eapply ends_bind
    with (Q1 := fun r x =>
                  x = this2
                  /\ r = decoded "DeviceInfoResponse" response.(data));
    [apply ends_pure; rewrite decodeMessage_returns; split; reflexivity|].
  intros r x [-> ->].
  set (i := [("usesPassword", _); _; _; _; _; _; _; _; _; _; _; _; _; _; _]).
  destruct Hs2 as (_ & _ & heard & Hh & Ht).
  unfold ends, bind at 1, assign at 1. unfold bind at 1.
  destruct (truthy (prop i "hasDeepSleep")) eqn:Hdeep; cbn [when].
  - unfold onConnection. rewrite setDeepSleepMode_spec. cbn [andb].
    unfold emit, assign.
    split; [|split]; [| |exists i, heard].
    + destruct this2 as [c2 o2 d2 e2 s2 l2 a2 t2]. cbn in *. rewrite <- St2.
      destruct (State.is_connected (Conn.state c2)); [|destruct c2; reflexivity].
      destruct c2 as [so pr st op rt pt ptt ir idd ed hd tr].
      destruct pt, ptt; reflexivity.
    + destruct this2; exact Ia2.
    + split; [destruct this2; reflexivity|]. split; [exact Hh|].
      split; [destruct this2; cbn in *; rewrite Ht, <- app_assoc; reflexivity|].
      intros _. destruct this2 as [c2 o2 d2 e2 s2 l2 a2 t2]. cbn.
      destruct (State.is_connected (Conn.state c2));
        destruct c2 as [so pr st op rt pt ptt ir idd ed hd tr];
        [destruct pt, ptt|]; reflexivity.
  - unfold ret, emit, assign.
    split; [destruct this2; exact St2|].
    split; [destruct this2; exact Ia2|].
    exists i, heard. split; [destruct this2; reflexivity|].
    split; [exact Hh|].
    split; [destruct this2; cbn in *; rewrite Ht, <- app_assoc; reflexivity|].
    intros H. congruence.
Qed.

Lemma performHandshake_ends (hello auth info : list DecodedMessage)
      (this : Client) :
  ends (performHandshake Payload ProtoMessage require_api require_decoders
                         helloPayload connectPayload callback hello auth info)
       this
       (fun _ x => completed hello auth this x)
       (fun x => underway this x).
Proof.
  unfold performHandshake.
  eapply ends_bind with (Q1 := fun _ x => underway this x).
  { unfold sendHelloRequest, ends, bind at 1, read at 1.
    unfold bind, pure. rewrite encodeMessage_encoded.
    rewrite onConnection_sendMessage.
    destruct (Conn.sendMessage Conn.HelloRequest _ (connection this))
      as [[[]|e] c1]; apply underway_connection, underway_refl. }
  intros _ this1 Hs1.
  eapply ends_bind
    with (Q1 := fun r x =>
                  underway this x
                  /\ waitForMessage Conn.HelloResponse 5000 hello = Return r).
  { unfold ends.
    destruct (awaitMessage_spec Conn.HelloResponse 5000 hello this1)
      as (this2 & -> & _ & _ & Q2).
    destruct (waitForMessage Conn.HelloResponse 5000 hello);
      [split; [apply Q2, Hs1 | reflexivity] | apply Q2, Hs1]. }
  intros helloResponse this2 [Hs2 Hw].
  eapply ends_bind
    with (Q1 := fun _ x =>
                  underway this x
                  /\ State.get State.KapiVersion (Conn.state (connection x))
                     = Some (hello_version helloResponse)).
  { pose proof (handleHelloResponse_ends helloResponse this this2 Hs2) as H.
    unfold ends in *.
    destruct (handleHelloResponse require_decoders helloResponse this2)
      as [[a|e] x]; [exact H | destruct H]. }
  intros _ this3 [Hs3 Hv].
  eapply ends_bind with (Q1 := fun o x => x = this3 /\ o = options this3).
  { unfold ends, read. split; reflexivity. }
  intros o this3' [-> ->].
  eapply ends_bind
    with (Q1 := fun _ x =>
                  underway this x
                  /\ Conn.state (connection x) = Conn.state (connection this3)
                  /\ (has_password (options this) = true ->
                      password_accepted auth /\ isAuthenticating x = false)).
  { assert (Ho : options this3 = options this) by apply Hs3.
    unfold has_password. rewrite <- Ho.
    destruct (Conn.opt_password (options this3)) as [[|a s]|].
    - unfold ends, ret. split; [exact Hs3|]. split; [reflexivity|].
      discriminate.
    - pose proof (authenticate_ends auth this this3 Hs3) as H.
      unfold ends in *.
      destruct (authenticate _ _ _ _ _ _ auth this3) as [[[]|e] x]; [|exact H].
      destruct H as (H1 & H2 & H3 & H4). split; [exact H1|].
      split; [exact H2 | intros _; split; assumption].
    - unfold ends, ret. split; [exact Hs3|]. split; [reflexivity|].
      discriminate. }
  intros _ this4 (Hs4 & St4 & Hp).
  eapply ends_bind
    with (Q1 := fun _ x =>
                  underway this x
                  /\ isAuthenticating x = isAuthenticating this4
                  /\ State.is_authenticated (Conn.state (connection x)) = true
                  /\ State.get State.KapiVersion (Conn.state (connection x))
                     = Some (hello_version helloResponse)).
  { apply ends_onConnection. unfold Conn.setAuthenticated.
    destruct (updated_state (State.authenticated true) (connection this4))
      as (-> & E & _).
    split; [apply underway_connection, Hs4|].
    split; [destruct this4; reflexivity|].
    replace (connection (set_connection _ this4))
      with (updated [State.authenticated true] (connection this4))
      by (destruct this4; reflexivity).
    rewrite E. split.
    - unfold State.is_authenticated.
      change State.Kauthenticated with (State.key (State.authenticated true)).
      rewrite get_set_same. reflexivity.
    - rewrite get_set_other by discriminate. rewrite St4. exact Hv. }
  intros _ this5 (Hs5 & Ia5 & Au5 & Hv5).
  eapply ends_bind
    with (Q1 := fun _ x =>
                  Conn.state (connection x) = Conn.state (connection this5)
                  /\ isAuthenticating x = isAuthenticating this5
                  /\ exists i heard,
                      deviceInfo x = Some i
                      /\ forallb announces heard = true
                      /\ trace x = trace this ++ heard
                                     ++ [Emit "deviceInfo" (ObjArg i)]
                      /\ (truthy (prop i "hasDeepSleep") = true ->
                          Conn.hasDeepSleep (connection x) = true)).
  { pose proof (requestDeviceInfo_ends info this this5 Hs5) as H.
    unfold ends in *.
    destruct (requestDeviceInfo require_decoders callback info this5)
      as [[[]|e] x]; exact H. }
  intros _ this6 (St6 & Ia6 & i & heard & Hi & Hh & Ht & Hd).
  unfold ends, emit, assign. unfold completed.
  split; [exists i, heard; destruct this6; cbn in *;
          split; [exact Hi|]; split; [exact Hh|]; split; [|exact Hd];
          rewrite Ht, <- !app_assoc; reflexivity|].
  split; [unfold Conn.isAuthenticated; destruct this6; cbn in *; congruence|].
  split; [exists helloResponse; split; [exact Hw|];
          destruct this6; cbn in *; congruence|].
  intros H. destruct (Hp H) as [H1 H2]. split; [exact H1|].
  destruct this6; cbn in *; congruence.
Qed.

(** X24 -- the handshake ends one way or the other.  When the connection
    has come up the client says hello, waits for the answer, logs in if
    it has a password, marks the connection authenticated and asks for the
    device info; what the connection does by itself while the client waits
    is left out.  The listener that runs the handshake never throws.
    Either all of it went through: the client has stored the device info
    and emitted, after what the arriving messages made it announce,
    [deviceInfo] and then [connected]; the connection is authenticated and
    has the API version of the hello response (1 and 9 where the response
    has none or 0); and if there is a password, the device's
    [ConnectResponse] did not report it invalid.  Or it did not, at
    whichever step: then the client has stored no device info and never
    emitted [connected]; it has disconnected the connection, which is
    neither connected nor authenticated, has no socket and emitted
    [disconnect] last, and it has emitted [disconnected]. *)
Theorem handshake_completes_or_disconnects
        (this : Client) (hello auth info : list DecodedMessage) :
  let result :=
    onConnect Payload ProtoMessage require_api require_decoders
              helloPayload connectPayload callback hello auth info this in
  fst result = Return tt
  /\ (completed hello auth this (snd result) \/ given_up this (snd result)).
Proof.
  intros result. unfold result, onConnect, try_catch.
  pose proof (performHandshake_ends hello auth info this) as H.
  unfold ends in H.
  destruct (performHandshake _ _ _ _ _ _ _ hello auth info this)
    as [[[]|e] x]; cbn [fst snd].
  - split; [reflexivity | left; exact H].
  - unfold Facade.disconnect, bind, onConnection, onDisconnect, emit, assign.
    rewrite disconnect_spec. cbn [fst snd].
    split; [reflexivity|]. right.
    destruct H as (_ & H2 & heard & Hh & Ht).
    destruct (disconnected_offline (connection x)) as (D1 & D3 & _).
    destruct (disconnected_fields (connection x))
      as (_ & _ & _ & _ & _ & _ & _ & D2).
    split; [destruct x; exact H2|].
    split; [exists heard; split; [exact Hh|];
            destruct x; cbn in *; rewrite Ht, <- app_assoc; reflexivity|].
    split; [destruct x; exact D1|]. split; [destruct x; exact D2|].
    split; [destruct x; exact D3|].
    exists (Conn.trace (connection x) ++ disconnect_effects (connection x)).
    destruct x. cbn [connection set_connection set_trace].
    rewrite disconnected_trace, app_assoc. reflexivity.
Qed.

End FacadeFacts.

(** *** A client with two subscribers and a small table of decoders *)

Definition sample_decoders
  : string -> option (option (Buffer -> completion Facade.Obj)) :=
  fun class =>
    if String.eqb class "SensorStateResponse"
    then Some (Some (fun data =>
                       match data with
                       | [] => Throw (PlainError "index out of range")
                       | b :: _ =>
                           Return [("key", Facade.VNumber (Z.of_N (Byte.to_N b)));
                                   ("state", Facade.VNumber 21)]
                       end))
    else if String.eqb class "ListEntitiesSwitchResponse"
    then Some (Some (fun data =>
                       match data with
                       | [] => Return []
                       | b :: name =>
                           Return [("key", Facade.VNumber (Z.of_N (Byte.to_N b)));
                                   ("name",
                                    Facade.VString (string_of_list_byte name))]
                       end))
    else if String.eqb class "SubscribeLogsResponse"
    then Some None
    else None.

Definition sample_callback : nat -> Facade.Obj -> completion unit :=
  fun cb _ =>
    if (cb =? 1)%nat then Throw (PlainError "subscriber failed") else Return tt.

Definition sample_client : Facade.Client :=
  Facade.set_logSubscriptions [2%nat]
    (Facade.set_stateSubscriptions [1%nat; 2%nat]
       (Facade.set_connection connected_device
          (Facade.new_ESPHomeClient device))).

Lemma state_update_is_announced_witness :
  let message := {| type := 25; data := [] |} in
  let this := sample_client in
  Facade.stateClass message.(type)
  = Some ("SensorStateResponse", "sensorState")
  /\ decoding_fails (Return sample_decoders) "SensorStateResponse"
                    message.(data)
  /\ Facade.onMessage (Return sample_decoders) sample_callback message this
     = (Return tt,
        Facade.set_trace
          [Facade.Emit "sensorState" (Facade.ObjArg []);
           Facade.Emit "state" (Facade.ObjArg []);
           Facade.Call 1 []; Facade.Call 2 []]
          this).
Proof.
  intros message this.
  assert (H1 : Facade.stateClass message.(type)
               = Some ("SensorStateResponse", "sensorState")) by reflexivity.
  assert (H2 : decoding_fails (Return sample_decoders) "SensorStateResponse"
                              message.(data)).
  { apply (decode_throws (Return sample_decoders) _ _ sample_decoders
             (fun data =>
                match data with
                | [] => Throw (PlainError "index out of range")
                | b :: _ =>
                    Return [("key", Facade.VNumber (Z.of_N (Byte.to_N b)));
                            ("state", Facade.VNumber 21)]
                end)
             (PlainError "index out of range")); reflexivity. }
  destruct (state_update_is_announced (Return sample_decoders) sample_callback
              this message _ _ H1) as [E F].
  split; [exact H1|]. split; [exact H2|].
  rewrite E, (F H2). reflexivity.
Defined.

Lemma log_line_is_announced_witness :
  let message := {| type := 29; data := [x08; x03] |} in
  let this := sample_client in
  message.(type) = Facade.SubscribeLogsResponse
  /\ decoding_fails (Return sample_decoders) "SubscribeLogsResponse"
                    message.(data)
  /\ Facade.onMessage (Return sample_decoders) sample_callback message this
     = (Return tt,
        Facade.set_trace
          [Facade.Emit "logs"
             (Facade.ObjArg [("level", Facade.VNumber 0);
                             ("message", Facade.VString EmptyString);
                             ("sendFailed", Facade.VBool false)]);
           Facade.Call 2 [("level", Facade.VNumber 0);
                          ("message", Facade.VString EmptyString);
                          ("sendFailed", Facade.VBool false)]]
          this).
Proof.
  intros message this.
  assert (H1 : message.(type) = Facade.SubscribeLogsResponse) by reflexivity.
  assert (H2 : decoding_fails (Return sample_decoders) "SubscribeLogsResponse"
                              message.(data))
    by (apply (no_decode (Return sample_decoders) _ _ sample_decoders);
        reflexivity).
  destruct (log_line_is_announced (Return sample_decoders) sample_callback
              this message H1) as [E F].
  split; [exact H1|]. split; [exact H2|].
  rewrite E, (F H2). reflexivity.
Defined.

Lemma other_messages_are_dropped_witness :
  let message := {| type := Conn.HelloResponse; data := [x08; x01] |} in
  Facade.entityClass message.(type) = None
  /\ Facade.stateClass message.(type) = None
  /\ message.(type) <> Facade.SubscribeLogsResponse
  /\ Facade.onMessage (Return sample_decoders) sample_callback message
                      sample_client
     = (Return tt, sample_client).
Proof.
  intros message.
  assert (H1 : Facade.entityClass message.(type) = None) by reflexivity.
  assert (H2 : Facade.stateClass message.(type) = None) by reflexivity.
  assert (H3 : message.(type) <> Facade.SubscribeLogsResponse)
    by discriminate.
  split; [exact H1|]. split; [exact H2|]. split; [exact H3|].
  exact (other_messages_are_dropped (Return sample_decoders) sample_callback
           sample_client message H1 H2 H3).
Defined.

Lemma listEntities_returns_the_announced_witness :
  let relay := {| type := 17; data := [x05; x72; x65; x6c; x61; x79] |} in
  let pump := {| type := 17; data := [x07; x70; x75; x6d; x70] |} in
  let relay' := {| type := 17; data := [x05; x66; x61; x6e] |} in
  let nameless := {| type := 17; data := [] |} in
  let reading := {| type := 25; data := [x09] |} in
  let done := {| type := 19; data := [] |} in
  let arrivals := [relay; reading; pump; nameless; relay'; done] in
  Conn.isSome (Conn.socket (Facade.connection sample_client))
  && Conn.isConnected (Facade.connection sample_client) = true
  /\ In done arrivals
  /\ exists list this',
      Facade.listEntities (Return sample_decoders) sample_callback arrivals
                          sample_client
      = (Return list, this')
      /\ list = [[("key", Facade.VNumber 5); ("name", Facade.VString "fan")];
                 [("key", Facade.VNumber 7); ("name", Facade.VString "pump")]].
Proof.
  intros relay pump relay' nameless reading done arrivals.
  assert (H1 : Conn.isSome (Conn.socket (Facade.connection sample_client))
               && Conn.isConnected (Facade.connection sample_client) = true)
    by reflexivity.
  assert (H2 : In done arrivals) by (do 5 right; left; reflexivity).
  destruct (listEntities_returns_the_announced (Return sample_decoders)
              sample_callback sample_client arrivals H1) as [F _].
  destruct (F (ex_intro _ done (conj H2 eq_refl)))
    as (list & this' & E & _ & L & _).
  split; [exact H1|]. split; [exact H2|].
  exists list, this'. split; [exact E|]. rewrite L. reflexivity.
Defined.

(** Both ends of the handshake are met: a device that answers the hello
    and the request for the device info, and one that stays silent. *)
Example handshake_sample :
  let hello := [{| type := Conn.HelloResponse; data := [x08; x01] |}] in
  let info := [{| type := Facade.DeviceInfoResponse; data := [] |}] in
  let run arrivals :=
    snd (Facade.onConnect unit unit (Return faulty_api)
           (Return sample_decoders) (fun _ _ _ => tt) (fun _ => tt)
           sample_callback hello [] arrivals sample_client) in
  map (fun e => match e with
                | Facade.Emit event _ => event
                | Facade.Call _ _ => "call"
                end) (Facade.trace (run info))
  = ["deviceInfo"; "connected"]
  /\ Conn.isAuthenticated (Facade.connection (run info)) = true
  /\ Facade.trace (run []) = [Facade.Emit "disconnected" Facade.NoArg]
  /\ Conn.isConnected (Facade.connection (run [])) = false.
Proof. vm_compute. repeat split. Qed.

(** ** The encrypted connection *)

Section EncryptedFacts.

Import Encrypted.

Variable from_base64 : string -> Buffer.

(** The calls of the public methods of an encrypted connection. *)
Inductive Request : Type :=
| ask_connect
| ask_disconnect
| ask_sendMessage (type : MessageType) (data : Buffer)
| ask_setAuthenticated (authenticated : bool)
| ask_setApiVersion (major minor : Number)
| ask_setServerInfo (info : string)
| ask_destroy.

Definition serve (r : Request) : M unit :=
  match r with
  | ask_connect => connect
  | ask_disconnect => disconnect
  | ask_sendMessage type data => sendMessage type data
  | ask_setAuthenticated a => setAuthenticated a
  | ask_setApiVersion major minor => setApiVersion major minor
  | ask_setServerInfo info => setServerInfo info
  | ask_destroy => destroy
  end.

(** The connection after a sequence of calls; a call that throws leaves
    it as it was when it threw. *)
Definition served (requests : list Request) (c : EncryptedConnection)
  : EncryptedConnection :=
  fold_left (fun c r => snd (serve r c)) requests c.

(** All an encrypted connection does to the outside: it announces a change
    of its state and that it has disconnected. *)
Definition told (e : Conn.Effect) : bool :=
  match e with
  | Conn.Emit (Conn.stateChange_event _) => true
  | Conn.Emit Conn.disconnect_event => true
  | _ => false
  end.

(** No socket, and nothing done but telling. *)
Definition offline_only (c : EncryptedConnection) : Prop :=
  socket c = None /\ forallb told (trace c) = true.

Lemma updateState_offline_only (newState : State.ConnectionState)
      (c : EncryptedConnection) :
  offline_only c ->
  fst (updateState newState c) = Return tt
  /\ offline_only (snd (updateState newState c))
  /\ state (snd (updateState newState c)) = State.spread (state c) newState
  /\ isDestroyed (snd (updateState newState c)) = isDestroyed c.
Proof.
  intros [Hs Ht]. destruct c as [so no st op idd tr]. cbn in Hs, Ht.
  unfold updateState, bind, read, assign, when, emit, effect, ret.
  cbn [state set_state].
  destruct (negb (String.eqb (State.stringify st)
                             (State.stringify (State.spread st newState))));
    cbn; (split; [reflexivity|]); (split; [|split; reflexivity]);
    (split; [exact Hs|]); cbn; rewrite ?forallb_app, ?Ht; reflexivity.
Qed.

Lemma cleanup_offline_only (c : EncryptedConnection) :
  offline_only c -> cleanup c = (Return tt, c).
Proof.
  intros [Hs Ht]. destruct c as [so no st op idd tr]. cbn in Hs. subst so.
  reflexivity.
Qed.

Lemma serve_offline_only (r : Request) (c : EncryptedConnection) :
  offline_only c -> offline_only (snd (serve r c)).
Proof.
  intros H. destruct r; cbn [serve].
  - unfold connect, bind, read, throw, ret.
    destruct (isDestroyed c); [exact H|].
    destruct (State.is_connected (state c)); [exact H|].
    apply updateState_offline_only, H.
  - unfold disconnect, bind at 1. rewrite (cleanup_offline_only c H).
    unfold bind.
    destruct (updateState_offline_only
                [State.connected false; State.authenticated false] c H)
      as (E1 & [Hs Ht] & _).
    destruct (updateState _ c) as [[[]|e] c1]; cbn in *; [|discriminate E1].
    destruct c1 as [so no st op idd tr]. cbn in *. split; [exact Hs|].
    cbn. rewrite forallb_app, Ht. reflexivity.
  - unfold sendMessage, bind, read, throw, ret.
    destruct (negb (Conn.isSome (socket c))
              || negb (State.is_connected (state c))); exact H.
  - apply updateState_offline_only, H.
  - apply updateState_offline_only, H.
  - apply updateState_offline_only, H.
  - unfold destroy, bind, assign.
    assert (H' : offline_only (set_isDestroyed true c))
      by (destruct c; exact H).
    rewrite (cleanup_offline_only _ H'). exact H'.
Qed.

Lemma served_offline_only (requests : list Request) :
  forall c, offline_only c -> offline_only (served requests c).
Proof.
  induction requests as [|r more IH]; intros c H; [exact H|].
  cbn [served fold_left]. apply IH, serve_offline_only, H.
Qed.

Lemma new_EncryptedConnection_offline_only (o : Conn.ConnectionOptions) :
  match new_EncryptedConnection from_base64 o with
  | Return c => offline_only c
  | Throw e => e = PlainError "Encryption key must be 32 bytes"
  end.
Proof.
  unfold new_EncryptedConnection, new_NoiseEncryption, andThen.
  cbn [Conn.encryptionKey].
  destruct (negb (String.eqb _ _)); [|split; reflexivity].
  destruct (negb (length (from_base64 _) =? 32)%nat);
    [reflexivity | split; reflexivity].
Qed.

(** X25 -- an encrypted connection cannot send.  A client made with an
    [encryptionKey] uses [EncryptedConnection].  Making one throws
    "Encryption key must be 32 bytes" unless the key decodes to 32 bytes.
    Whatever is then called on it, it never holds a socket: all it ever
    does is emit [stateChange] and [disconnect], it never emits [connect]
    or [message], and [sendMessage] always throws the plain error
    "Not connected" -- also after [connect()], which returns and makes
    [isConnected()] true unless the connection has been destroyed. *)
Theorem encrypted_connection_cannot_send
        (o : Conn.ConnectionOptions) (requests : list Request)
        (type : MessageType) (data : Buffer) :
  match new_EncryptedConnection from_base64 o with
  | Return made =>
      let c := served requests made in
      socket c = None
      /\ forallb told (trace c) = true
      /\ sendMessage type data c = (Throw (PlainError "Not connected"), c)
      /\ (isDestroyed c = false ->
          fst (connect c) = Return tt
          /\ isConnected (snd (connect c)) = true
          /\ sendMessage type data (snd (connect c))
             = (Throw (PlainError "Not connected"), snd (connect c)))
  | Throw e =>
      e = PlainError "Encryption key must be 32 bytes"
      /\ (length (from_base64 (Conn.orString (Conn.opt_encryptionKey o) ""))
          <> 32)%nat
  end.
Proof.
  pose proof (new_EncryptedConnection_offline_only o) as H.
  destruct (new_EncryptedConnection from_base64 o) as [made|e] eqn:E.
  - intros c.
    assert (Hc : offline_only c) by (apply served_offline_only, H).
    assert (Hsend : forall x, offline_only x ->
              sendMessage type data x = (Throw (PlainError "Not connected"), x)).
    { intros x [Hs _]. unfold sendMessage, bind, read. rewrite Hs. reflexivity. }
    split; [apply Hc|]. split; [apply Hc|]. split; [apply Hsend, Hc|].
    intros Hd.
    assert (Hc' : offline_only (snd (connect c)))
      by (apply (serve_offline_only ask_connect), Hc).
    split; [|split; [|apply Hsend, Hc']].
    + unfold connect, bind, read, ret. rewrite Hd.
      destruct (State.is_connected (state c)); [reflexivity|].
      apply updateState_offline_only, Hc.
    + unfold connect, bind, read, ret, isConnected. rewrite Hd.
      destruct (State.is_connected (state c)) eqn:Ec; [exact Ec|].
      destruct (updateState_offline_only [State.connected true] c Hc)
        as (_ & _ & -> & _).
      unfold State.is_connected, State.spread. cbn [fold_left].
      change State.Kconnected with (State.key (State.connected true)).
      rewrite get_set_same. reflexivity.
  - split; [exact H|]. revert E.
    unfold new_EncryptedConnection, new_NoiseEncryption, andThen.
    cbn [Conn.encryptionKey].
    destruct (negb (String.eqb _ _)); [|discriminate].
    destruct (Nat.eqb_spec
                (length (from_base64
                           (Conn.orString (Conn.opt_encryptionKey o) "")))
                32) as [_|N]; [discriminate | intros _; exact N].
Qed.

End EncryptedFacts.

(** A key of 32 bytes, and what the connection made with it does. *)
Example encrypted_connection_sample :
  let from_base64 (s : string) := repeat x2a (String.length s - 12) in
  let key := "MDEyMzQ1Njc4OWFiY2RlZjAxMjM0NTY3ODlhYmNkZWY=" in
  let o := {| Conn.opt_host := "esphome.local"; Conn.opt_port := None;
              Conn.opt_password := None; Conn.opt_clientInfo := None;
              Conn.opt_reconnect := None; Conn.opt_reconnectInterval := None;
              Conn.opt_pingInterval := None; Conn.opt_pingTimeout := None;
              Conn.opt_connectTimeout := None;
              Conn.opt_encryptionKey := Some key;
              Conn.opt_expectedServerName := None |} in
  match Encrypted.new_EncryptedConnection from_base64 o with
  | Return made =>
      let c := served [ask_connect] made in
      Encrypted.isConnected c = true
      /\ Encrypted.isEncrypted c = true
      /\ fst (Encrypted.sendMessage 1 [] c)
         = Throw (PlainError "Not connected")
      /\ length (Encrypted.trace c) = 1%nat
  | Throw _ => False
  end.
Proof. vm_compute. repeat split. Qed.
